(** * Order-matching engine: a shallow embedding of [order.h], [orderbook.h],
      [orderbook.cpp] and [main.cpp]

    The C++ program keeps two [std::priority_queue]s of [Order]s (buy side
    and sell side) and a [std::queue] of [ProcessedOrder] fill records, and
    offers two matching passes, [matchOrdersFIFO] and [matchOrdersProRata].
    Its [main] reads the orders from a file of comma-separated lines, runs
    one of the passes and prints the ledger and the remaining orders.

    Conventions of the embedding:
    - [int] amounts, times and identifiers are integers of [Z]; every
      arithmetic operation of the source on them is followed by [wrap32],
      the two's-complement reduction; positions in a vector and sizes are
      natural numbers;
    - [float] values are [spec_float]s read at the binary32 format
      ([prec = 24], [emax = 128]) of the IEEE-754 specification that ships
      with the standard library;
    - a [std::priority_queue] is the list of its elements in the order in
      which successive [top()]/[pop()] calls return them; which of several
      orders of the same price and time comes first is a choice of the heap
      implementation, and no statement below depends on it;
    - the [std::queue] of fill records is a list, oldest record first;
    - a loop is a function of its body and a bound on the number of turns;
      that the bound is never exhausted is a lemma;
    - what the program writes to [std::cout] and hands to [LOG_DEBUG]
      ([logger.h], a diagnostic sink without effect on the book) is left
      out, except for the rows of [printOrderbookContents] and
      [printOrderHistory];
    - an input stream is the text that is still to be read together with
      its state bits; the conversions of the library between texts and
      numbers ([std::stoll], [std::stof], [std::stoi], [atoi]) are
      parameters, and an exception that nobody catches is an outcome of
      its own. *)

From Stdlib Require Import ZArith List Bool Lia String Ascii Permutation Sorted.
From Stdlib Require Import SpecFloat DecimalString DecimalZ.
Import ListNotations.
Local Open Scope Z_scope.

(* ------------------------------------------------------------------ *)
(** ** Machine integers *)

Module Int.

Definition min_signed : Z := - 2 ^ 31.
Definition max_signed : Z := 2 ^ 31 - 1.

(** Reduction of an integer to the 32-bit two's-complement range. *)
Definition wrap32 (z : Z) : Z := (z + 2 ^ 31) mod 2 ^ 32 - 2 ^ 31.

(** Reduction to the range of [unsigned long long]. *)
Definition wrapU64 (z : Z) : Z := z mod 2 ^ 64.

Definition in_range (z : Z) : Prop := min_signed <= z <= max_signed.

Definition sub (a b : Z) : Z := wrap32 (a - b).
Definition add (a b : Z) : Z := wrap32 (a + b).

End Int.

(* ------------------------------------------------------------------ *)
(** ** Single-precision floats *)

Module F32.

Definition prec : Z := 24.
Definition emax : Z := 128.

Definition float := spec_float.

(** [a < b], [a > b], [a >= b] of C++ on [float]: all are false as soon
    as one side is a NaN. *)
Definition lt (a b : float) : bool := SFltb a b.
Definition gt (a b : float) : bool := SFltb b a.
Definition ge (a b : float) : bool := SFleb b a.

(** [(float) z] for an [int] [z]: round to nearest, ties to even. *)
Definition of_int (z : Z) : float := binary_normalize prec emax z 0 false.

Definition div (a b : float) : float := SFdiv prec emax a b.
Definition mul (a b : float) : float := SFmul prec emax a b.

(** [(int) std::ceil(x)].  The ceiling of a float is an integer-valued
    float, so the conversion to [int] is exact whenever the value fits.
    For a NaN, an infinity or a value outside the range of [int] the
    conversion is undefined in C++; the embedding returns what the x86
    conversion instruction returns, the smallest [int]. *)
Definition ceil_value (x : float) : option Z :=
  match x with
  | S754_zero _ => Some 0
  | S754_finite s m e =>
      let n := if s then Z.neg m else Z.pos m in
      Some (match e with
            | Z.neg p => - ((- n) / 2 ^ Z.pos p)
            | _ => n * 2 ^ e
            end)
  | _ => None
  end.

Definition ceil_to_int (x : float) : Z :=
  match ceil_value x with
  | Some z => if (Int.min_signed <=? z) && (z <=? Int.max_signed) then z
              else Int.min_signed
  | None => Int.min_signed
  end.

Definition is_nan (x : float) : bool :=
  match x with S754_nan => true | _ => false end.

End F32.

(* ------------------------------------------------------------------ *)
(** ** [Order] (order.h) *)

Record Order : Type := mkOrder {
  m_ticker   : string;
  m_orderID  : Z;            (* unsigned long long *)
  m_isMarket : bool;
  m_isBuy    : bool;
  m_price    : F32.float;
  m_time     : Z;            (* int, military time *)
  m_amount   : Z             (* int *)
}.

(** The constructor takes the identifier as a [long long] and stores it in
    an [unsigned long long] member. *)
Definition newOrder (ticker : string) (orderID : Z) (isMarket isBuy : bool)
    (price : F32.float) (time amount : Z) : Order :=
  mkOrder ticker (Int.wrapU64 orderID) isMarket isBuy price time amount.

Definition checkIsBuy (o : Order) : bool := m_isBuy o.

(** [int getID() const { return m_orderID; }]: the 64-bit member is
    converted to [int]. *)
Definition getID (o : Order) : Z := Int.wrap32 (m_orderID o).

Definition getPrice (o : Order) : F32.float := m_price o.
Definition getTime (o : Order) : Z := m_time o.
Definition getAmount (o : Order) : Z := m_amount o.

Definition setAmount (o : Order) (newAmount : Z) : Order :=
  mkOrder (m_ticker o) (m_orderID o) (m_isMarket o) (m_isBuy o)
          (m_price o) (m_time o) newAmount.

(** The price of the order is a number. *)
Definition priced (o : Order) : Prop := F32.is_nan (getPrice o) = false.

(* ------------------------------------------------------------------ *)
(** ** [ProcessedOrder] and the comparators (orderbook.h) *)

Record ProcessedOrder : Type := mkProcessedOrder {
  buyID      : Z;
  sellID     : Z;
  fillAmount : Z
}.

(** [prioritizeMax(order1, order2)] is true when [order1] has to come out
    of the buy queue after [order2]. *)
Definition prioritizeMax (order1 order2 : Order) : bool :=
  if F32.lt (getPrice order1) (getPrice order2) then true
  else if F32.gt (getPrice order1) (getPrice order2) then false
  else getTime order1 >? getTime order2.

(** [prioritizeMin(order1, order2)] is true when [order1] has to come out
    of the sell queue after [order2]. *)
Definition prioritizeMin (order1 order2 : Order) : bool :=
  if F32.gt (getPrice order1) (getPrice order2) then true
  else if F32.lt (getPrice order1) (getPrice order2) then false
  else getTime order1 >? getTime order2.

(* ------------------------------------------------------------------ *)
(** ** Priority queues *)

Module PQ.
Section Queue.

Variable comp : Order -> Order -> bool.

Definition t := list Order.

Definition empty (q : t) : bool :=
  match q with [] => true | _ => false end.

(** [push]: the new order goes in front of the first resident order that
    [comp] ranks below it. *)
Fixpoint push (x : Order) (q : t) : t :=
  match q with
  | [] => [x]
  | h :: rest => if comp h x then x :: h :: rest else h :: push x rest
  end.

Definition top (q : t) : option Order := hd_error q.

Definition pop (q : t) : t := tl q.

(** The order that the [k]-th call of [top()] returns when every call is
    followed by [pop()] (the first call is number [0]). *)
Definition returned (k : nat) (q : t) : option Order :=
  top (Nat.iter k pop q).

(** The queues that arise from the empty queue through [push] and [pop],
    where every order pushed has a price that is a number. *)
Inductive reachable : t -> Prop :=
| reachable_empty : reachable []
| reachable_push (x : Order) (q : t) :
    F32.is_nan (getPrice x) = false -> reachable q -> reachable (push x q)
| reachable_pop (q : t) : reachable q -> reachable (pop q).

(** No order of the queue is ranked below an order behind it, and every
    price is a number. *)
Definition ordered (q : t) : Prop :=
  StronglySorted (fun x y => comp x y = false) q /\ Forall priced q.

End Queue.
End PQ.

(* ------------------------------------------------------------------ *)
(** ** [Orderbook] (orderbook.h, orderbook.cpp) *)

Record Orderbook : Type := mkOrderbook {
  m_buyOrders    : PQ.t;                 (* ordered by prioritizeMax *)
  m_sellOrders   : PQ.t;                 (* ordered by prioritizeMin *)
  m_orderHistory : list ProcessedOrder   (* front of the queue first *)
}.

Definition emptyOrderbook : Orderbook := mkOrderbook [] [] [].

Definition pushBuy := PQ.push prioritizeMax.
Definition pushSell := PQ.push prioritizeMin.

(** [Orderbook::addOrder] *)
Definition addOrder (newOrder : Order) (ob : Orderbook) : Orderbook :=
  if checkIsBuy newOrder
  then mkOrderbook (pushBuy newOrder (m_buyOrders ob))
                   (m_sellOrders ob) (m_orderHistory ob)
  else mkOrderbook (m_buyOrders ob)
                   (pushSell newOrder (m_sellOrders ob)) (m_orderHistory ob).

(** One turn of the [while] loop of [Orderbook::matchOrdersFIFO]:
    [None] when the loop condition fails, otherwise the book after the body
    together with a flag telling whether the body ended in [break]. *)
Definition fifoBody (ob : Orderbook) : option (Orderbook * bool) :=
  match m_buyOrders ob, m_sellOrders ob with
  | bestBuy :: buys, bestSell :: sells =>
      if F32.ge (getPrice bestBuy) (getPrice bestSell) then
        let buyAmount := getAmount bestBuy in
        let sellAmount := getAmount bestSell in
        if buyAmount >? sellAmount then
          let bestBuy' := setAmount bestBuy (Int.sub buyAmount sellAmount) in
          Some (mkOrderbook (pushBuy bestBuy' buys) sells
                  (m_orderHistory ob ++
                     [mkProcessedOrder (getID bestBuy') (getID bestSell) sellAmount]),
                false)
        else if buyAmount <? sellAmount then
          let bestSell' := setAmount bestSell (Int.sub sellAmount buyAmount) in
          Some (mkOrderbook buys (pushSell bestSell' sells)
                  (m_orderHistory ob ++
                     [mkProcessedOrder (getID bestBuy) (getID bestSell') buyAmount]),
                false)
        else
          Some (mkOrderbook buys sells
                  (m_orderHistory ob ++
                     [mkProcessedOrder (getID bestBuy) (getID bestSell) buyAmount]),
                false)
      else
        Some (mkOrderbook (pushBuy bestBuy buys) (pushSell bestSell sells)
                (m_orderHistory ob),
              true)
  | _, _ => None
  end.

(** The loop, with an explicit bound on the number of turns. *)
Fixpoint fifoLoop (fuel : nat) (ob : Orderbook) : option Orderbook :=
  match fifoBody ob with
  | None => Some ob
  | Some (ob', true) => Some ob'
  | Some (ob', false) =>
      match fuel with
      | O => None
      | S fuel' => fifoLoop fuel' ob'
      end
  end.

(** [Orderbook::matchOrdersFIFO]: every turn that does not leave the loop
    drops at least one order, so the number of resident orders bounds the
    number of turns. *)
Definition matchOrdersFIFO (ob : Orderbook) : option Orderbook :=
  fifoLoop (List.length (m_buyOrders ob) + List.length (m_sellOrders ob)) ob.

(* ------------------------------------------------------------------ *)
(** ** [Orderbook::matchOrdersProRata] *)

(** [(int) std::ceil(buyAmountBeforeFillingCurPriceLevel * proportion)] with
    [proportion = (float) sellAmount / (float) curTotalSellAmount]. *)
Definition proportionalShare
    (buyAmountBeforeFillingCurPriceLevel sellAmount curTotalSellAmount : Z) : Z :=
  let proportion :=
    F32.div (F32.of_int sellAmount) (F32.of_int curTotalSellAmount) in
  F32.ceil_to_int
    (F32.mul (F32.of_int buyAmountBeforeFillingCurPriceLevel) proportion).

(** The [std::vector<Order> matchingOrders].  [operator[]] does not check
    its index; [oob] stands for whatever the memory behind the last element
    holds. *)
Definition vec_get (oob : Order) (v : list Order) (i : nat) : Order :=
  nth i v oob.

Fixpoint vec_set (v : list Order) (i : nat) (x : Order) : list Order :=
  match v, i with
  | [], _ => []
  | _ :: rest, O => x :: rest
  | h :: rest, S i' => h :: vec_set rest i' x
  end.

(** Where an access [matchingOrders[i]] takes place: in the search for the
    next price level, in the summation of the level, or in the loop that
    fills the level.  (The accesses inside [LOG_DEBUG] repeat indices that
    are recorded here.)  [IndexError i] records that the fill loop found
    [i >= numMatchingSells] and wrote its message to [std::cerr]. *)
Inductive access : Type :=
  | AtScan (i : nat)
  | AtSum (i : nat)
  | AtFill (i : nat)
  | IndexError (i : nat).

Definition access_index (a : access) : nat :=
  match a with AtScan i | AtSum i | AtFill i | IndexError i => i end.

(** The first inner [while]: sell orders leave the queue for
    [matchingOrders] as long as the best buy price reaches their price; the
    loop is left by [break] when the queue runs empty.  The sell queue is
    not empty on entry. *)
Fixpoint drainMatching (bestBuy : Order) (sells : PQ.t)
    (matchingOrders : list Order) : list Order * PQ.t :=
  match sells with
  | [] => (matchingOrders, [])
  | bestSell :: rest =>
      if F32.ge (getPrice bestBuy) (getPrice bestSell)
      then drainMatching bestBuy rest (matchingOrders ++ [bestSell])
      else (matchingOrders, sells)
  end.

(** The local variables of the second inner [while], the ledger, and the
    record of the accesses to [matchingOrders]. *)
Record LevelState : Type := mkLevelState {
  matchingOrders           : list Order;
  buyAmount                : Z;
  curIndex                 : nat;
  indexNextPriceLevel      : nat;
  buyOrdersStillRemaining  : bool;
  orderHistory             : list ProcessedOrder;
  accesses                 : list access
}.

Section ProRataLevels.

Variable oob : Order.
Variable bestBuy : Order.
Variable numMatchingSells : nat.

(** [for(int i = curIndex; i < numMatchingSells; i++)
       { indexNextPriceLevel++; if(... > ...) break; }]
    [turns] is the number of values of [i] still to visit. *)
Fixpoint findNextPriceLevel (v : list Order) (cur : nat) (turns : nat)
    (next : nat) (tr : list access) : nat * list access :=
  match turns with
  | O => (next, tr)
  | S turns' =>
      let next' := S next in
      let tr' := tr ++ [AtScan next'; AtScan cur] in
      if F32.gt (getPrice (vec_get oob v next')) (getPrice (vec_get oob v cur))
      then (next', tr')
      else findNextPriceLevel v cur turns' next' tr'
  end.

(** [for(int i = curIndex; i < indexNextPriceLevel; i++)
       curTotalSellAmount += matchingOrders[i].getAmount();] *)
Fixpoint sumLevel (v : list Order) (i : nat) (turns : nat)
    (curTotalSellAmount : Z) (tr : list access) : Z * list access :=
  match turns with
  | O => (curTotalSellAmount, tr)
  | S turns' =>
      sumLevel v (S i) turns'
        (Int.add curTotalSellAmount (getAmount (vec_get oob v i)))
        (tr ++ [AtSum i])
  end.

(** The loop that fills the orders [i], [i+1], ... of the current level. *)
Fixpoint fillLevel (curTotalSellAmount buyAmountBeforeFillingCurPriceLevel : Z)
    (i : nat) (turns : nat) (st : LevelState) : LevelState :=
  match turns with
  | O => st
  | S turns' =>
      if (numMatchingSells <=? i)%nat then
        (* the message on [std::cerr], then [break] *)
        mkLevelState (matchingOrders st) (buyAmount st) (curIndex st)
          (indexNextPriceLevel st) false (orderHistory st)
          (accesses st ++ [IndexError i])
      else
        let v := matchingOrders st in
        let sellAmount := getAmount (vec_get oob v i) in
        let amountFilled :=
          Z.min (Z.min (buyAmount st) sellAmount)
                (proportionalShare buyAmountBeforeFillingCurPriceLevel
                   sellAmount curTotalSellAmount) in
        let buyAmount' := Int.sub (buyAmount st) amountFilled in
        let sellAmount' := Int.sub sellAmount amountFilled in
        let v' := vec_set v i (setAmount (vec_get oob v i) sellAmount') in
        let history' :=
          orderHistory st ++
            [mkProcessedOrder (getID bestBuy) (getID (vec_get oob v' i))
               amountFilled] in
        let tr' := accesses st ++ [AtFill i; AtFill i; AtFill i] in
        if buyAmount' =? 0 then
          mkLevelState v' buyAmount' (curIndex st) (indexNextPriceLevel st)
            false history' tr'
        else
          fillLevel curTotalSellAmount buyAmountBeforeFillingCurPriceLevel
            (S i) turns'
            (mkLevelState v' buyAmount' (curIndex st) (indexNextPriceLevel st)
               (buyOrdersStillRemaining st) history' tr')
  end.

(** One turn of [while(curIndex < numMatchingSells && buyOrdersStillRemaining)]. *)
Definition levelBody (st : LevelState) : LevelState :=
  let '(next, tr1) :=
    findNextPriceLevel (matchingOrders st) (curIndex st)
      (numMatchingSells - curIndex st) (indexNextPriceLevel st) (accesses st) in
  let '(curTotalSellAmount, tr2) :=
    sumLevel (matchingOrders st) (curIndex st) (next - curIndex st) 0 tr1 in
  let st1 :=
    fillLevel curTotalSellAmount (buyAmount st) (curIndex st)
      (next - curIndex st)
      (mkLevelState (matchingOrders st) (buyAmount st) (curIndex st) next
         (buyOrdersStillRemaining st) (orderHistory st) tr2) in
  mkLevelState (matchingOrders st1) (buyAmount st1) next next
    (buyOrdersStillRemaining st1) (orderHistory st1) (accesses st1).

Fixpoint processLevels (fuel : nat) (st : LevelState) : LevelState :=
  match fuel with
  | O => st
  | S fuel' =>
      if (curIndex st <? numMatchingSells)%nat && buyOrdersStillRemaining st
      then processLevels fuel' (levelBody st)
      else st
  end.

End ProRataLevels.

(** The [for] loop that puts the sell orders with a positive amount back. *)
Definition reAddSells (v : list Order) (sells : PQ.t) : PQ.t :=
  fold_left (fun q matchingSell =>
               if getAmount matchingSell >? 0 then pushSell matchingSell q else q)
            v sells.

Definition reAddBuy (bestBuy : Order) (buyAmount : Z) (buys : PQ.t) : PQ.t :=
  if buyAmount >? 0 then pushBuy (setAmount bestBuy buyAmount) buys else buys.

(** The state of the level loop once the matching sell orders are drained. *)
Definition matchBestBuy (oob : Order) (bestBuy : Order) (v : list Order)
    (history : list ProcessedOrder) : LevelState :=
  processLevels oob bestBuy (List.length v) (List.length v)
    (mkLevelState v (getAmount bestBuy) 0 0 true history []).

(** One turn of the outer [while] of [matchOrdersProRata]: [None] when the
    loop condition fails, otherwise the book after the body and whether the
    body ended in [break]. *)
Definition proRataBody (oob : Order) (ob : Orderbook) : option (Orderbook * bool) :=
  match m_buyOrders ob, m_sellOrders ob with
  | bestBuy :: buys, topSell :: _ =>
      if F32.lt (getPrice bestBuy) (getPrice topSell) then Some (ob, true)
      else
        let '(v, sells) := drainMatching bestBuy (m_sellOrders ob) [] in
        let st := matchBestBuy oob bestBuy v (m_orderHistory ob) in
        Some (mkOrderbook (reAddBuy bestBuy (buyAmount st) buys)
                (reAddSells (matchingOrders st) sells)
                (orderHistory st),
              false)
  | _, _ => None
  end.

Fixpoint proRataLoop (oob : Order) (fuel : nat) (ob : Orderbook) : option Orderbook :=
  match proRataBody oob ob with
  | None => Some ob
  | Some (ob', true) => Some ob'
  | Some (ob', false) =>
      match fuel with
      | O => None
      | S fuel' => proRataLoop oob fuel' ob'
      end
  end.


(** The sum of [f] over a list. *)
Definition sumOf {A : Type} (f : A -> Z) (l : list A) : Z :=
  fold_right (fun x acc => f x + acc) 0 l.

(** The quantity on offer in a queue. *)
Definition totalAmount (q : list Order) : Z := sumOf getAmount q.

(** [Orderbook::matchOrdersProRata].  While the resident amounts are
    positive every turn of the outer loop that does not leave it fills at
    least one unit of the sell side, so the quantity on offer bounds the
    number of turns ([matchOrdersProRata_returns] below). *)
Definition matchOrdersProRata (oob : Order) (ob : Orderbook) : option Orderbook :=
  proRataLoop oob (Z.to_nat (totalAmount (m_sellOrders ob))) ob.

(** [std::stack]-based draining of the sell queue in
    [printOrderbookContents]: every [top()] goes on the stack. *)
Fixpoint drainToStack (q : PQ.t) (sellOrdersAscending : list Order) : list Order :=
  match q with
  | [] => sellOrdersAscending
  | curSell :: rest => drainToStack rest (curSell :: sellOrdersAscending)
  end.

(** [Orderbook::printOrderbookContents]: the orders whose rows are written,
    in the order of the rows, and the book the call leaves behind.  The
    stack is printed from its top; the buy queue is printed while it is
    popped. *)
Definition printOrderbookContents (ob : Orderbook) : list Order * Orderbook :=
  let sellOrdersAscending := drainToStack (m_sellOrders ob) [] in
  (sellOrdersAscending ++ m_buyOrders ob,
   mkOrderbook [] [] (m_orderHistory ob)).

(** [Orderbook::printOrderHistory]: the records written, and the book with
    the emptied ledger. *)
Definition printOrderHistory (ob : Orderbook) : list ProcessedOrder * Orderbook :=
  (m_orderHistory ob, mkOrderbook (m_buyOrders ob) (m_sellOrders ob) []).

(* ------------------------------------------------------------------ *)
(** ** The time of a row of [printOrderbookContents] *)

(** [std::to_string] of an [int]. *)
Definition to_string (z : Z) : string := NilZero.string_of_int (Z.to_int z).

(** The text of the time of a row (orderbook.cpp, lines 326 and 341).  The
    operators [/] and [%] of C++ round towards zero. *)
Definition stringTime (intTime : Z) : string :=
  (to_string (Z.rem (Z.quot intTime 1000) 10) ++
   to_string (Z.rem (Z.quot intTime 100) 10) ++ ":" ++
   to_string (Z.rem (Z.quot intTime 10) 10) ++
   to_string (Z.rem intTime 10))%string.

(* ------------------------------------------------------------------ *)
(** ** Input streams *)

(** An input stream: the characters that have not been extracted yet and
    the two state bits that the program can meet (no read of the program
    fails at the level of the device, so [badbit] stays clear). *)
Record istream : Type := mkIstream {
  pending : string;
  eofbit  : bool;
  failbit : bool
}.

Definition good (input : istream) : bool :=
  negb (eofbit input) && negb (failbit input).

(** [std::istringstream curString(line)] *)
Definition istringstream (line : string) : istream := mkIstream line false false.

(** The characters in front of the first [delim] of [s], and the
    characters behind that [delim] when there is one. *)
Fixpoint upTo (delim : ascii) (s : string) : string * option string :=
  match s with
  | EmptyString => (EmptyString, None)
  | String c rest =>
      if Ascii.eqb c delim then (EmptyString, Some rest)
      else let '(chars, behind) := upTo delim rest in (String c chars, behind)
  end.

(** [std::getline(input, str, delim)].  On a stream that is not [good] the
    call sets [failbit] and leaves [str] as it is.  Otherwise [str] is
    erased and receives the characters up to the next [delim], which is
    extracted and dropped; when the end of the input comes first, [eofbit]
    is set, and [failbit] as well when nothing at all was extracted. *)
Definition getline (input : istream) (str : string) (delim : ascii)
    : istream * string :=
  if good input then
    match upTo delim (pending input) with
    | (chars, Some behind) => (mkIstream behind false false, chars)
    | (chars, None) =>
        (mkIstream EmptyString true
           (match chars with EmptyString => true | _ => false end),
         chars)
    end
  else (mkIstream (pending input) (eofbit input) true, str).

(* ------------------------------------------------------------------ *)
(** ** [main.cpp] *)

(** The string variables of [readOrderData] that hold the fields of a
    line; they are declared outside the loop over the lines. *)
Record Fields : Type := mkFields {
  ticker   : string;
  orderID  : string;
  isMarket : string;
  isBuy    : string;
  price    : string;
  time     : string;
  amount   : string
}.

(** A call that returns, or that is left by an exception nobody catches. *)
Inductive run (A : Type) : Type :=
  | Returned (a : A)
  | Thrown.

Arguments Returned {A} a.
Arguments Thrown {A}.

Definition FIFOCHOICE : Z := 1.
Definition PRORATACHOICE : Z := 2.

(** The seven calls of [std::getline(curString, ..., ',')] on the stream of
    one line. *)
Definition readFields (line : string) (fields : Fields) : Fields :=
  let curString := istringstream line in
  let '(curString, ticker') := getline curString (ticker fields) ","%char in
  let '(curString, orderID') := getline curString (orderID fields) ","%char in
  let '(curString, isMarket') := getline curString (isMarket fields) ","%char in
  let '(curString, isBuy') := getline curString (isBuy fields) ","%char in
  let '(curString, price') := getline curString (price fields) ","%char in
  let '(curString, time') := getline curString (time fields) ","%char in
  let '(_, amount') := getline curString (amount fields) ","%char in
  mkFields ticker' orderID' isMarket' isBuy' price' time' amount'.

Section MainProgram.

(** The conversions of the C++ library are parameters of the embedding.
    [std::stoll], [std::stof] and [std::stoi] return a value or throw
    [std::invalid_argument] or [std::out_of_range]; [None] stands for
    either exception. *)
Variable stoll : string -> option Z.
Variable stof : string -> option F32.float.
Variable stoi : string -> option Z.
Variable atoi : string -> Z.

(** The order that [readOrderData] builds from the fields of a line. *)
Definition orderOfFields (fields : Fields) : option Order :=
  let boolIsMarket := String.eqb (isMarket fields) "true" in
  let boolIsBuy := String.eqb (isBuy fields) "true" in
  match stoll (orderID fields), stof (price fields),
        stoi (time fields), stoi (amount fields) with
  | Some id, Some p, Some t, Some a =>
      Some (newOrder (ticker fields) id boolIsMarket boolIsBuy p t a)
  | _, _, _, _ => None
  end.

(** [while(std::getline(infile, line)) { ... }], with a bound on the number
    of turns; [None] when the bound is exhausted. *)
Fixpoint readLines (fuel : nat) (infile : istream) (line : string)
    (fields : Fields) (ob : Orderbook) : option (run Orderbook) :=
  match fuel with
  | O => None
  | S fuel' =>
      let '(infile', line') := getline infile line "010"%char in
      if failbit infile' then Some (Returned ob)
      else
        let fields' := readFields line' fields in
        match orderOfFields fields' with
        | Some o => readLines fuel' infile' line' fields' (addOrder o ob)
        | None => Some Thrown
        end
  end.

(** [readOrderData]; the stream is [None] when the file could not be
    opened.  Every turn of the loop extracts at least one character, so
    the number of characters bounds the number of turns. *)
Definition readOrderData (infile : option istream) (blankOrderbook : Orderbook)
    : option (run Orderbook) :=
  match infile with
  | Some infile =>
      let fields :=
        mkFields EmptyString EmptyString EmptyString EmptyString EmptyString
                 EmptyString EmptyString in
      let '(infile, line) := getline infile EmptyString "010"%char in
      readLines (S (String.length (pending infile))) infile line fields
        blankOrderbook
  | None => Some (Returned blankOrderbook)
  end.

(** [printUsage]: true when the program has to end. *)
Definition printUsage (argc : Z) (argv : list string) : bool :=
  if negb (argc =? 4) then true
  else
    let choice := atoi (nth 3 argv EmptyString) in
    if negb (choice =? FIFOCHOICE) && negb (choice =? PRORATACHOICE)
    then true else false.

(** [main]: the value returned, the fill records written by
    [printOrderHistory] and the orders listed by [printOrderbookContents].
    [fopen] gives the text of the file of a name when the file can be
    opened.  The constructor of [Orderbook] stores the ticker [argv[2]] in
    a member that nothing reads.  The result is [None] when a loop does not
    come to an end within its bound. *)
Definition main (oob : Order) (fopen : string -> option string)
    (argc : Z) (argv : list string)
    : option (run (Z * list ProcessedOrder * list Order)) :=
  if printUsage argc argv then Some (Returned (-1, [], []))
  else
    let myOrderbook := emptyOrderbook in
    let csvData := option_map istringstream (fopen (nth 1 argv EmptyString)) in
    match readOrderData csvData myOrderbook with
    | None => None
    | Some Thrown => Some Thrown
    | Some (Returned myOrderbook) =>
        let choice := atoi (nth 3 argv EmptyString) in
        let matched :=
          if FIFOCHOICE =? choice then matchOrdersFIFO myOrderbook
          else matchOrdersProRata oob myOrderbook in
        match matched with
        | None => None
        | Some myOrderbook =>
            let '(fills, myOrderbook) := printOrderHistory myOrderbook in
            let '(rows, _) := printOrderbookContents myOrderbook in
            Some (Returned (0, fills, rows))
        end
    end.

End MainProgram.

(* ------------------------------------------------------------------ *)
(** ** Notions used in the statements *)

(** The number of resident orders. *)
Definition residents (ob : Orderbook) : nat :=
  List.length (m_buyOrders ob) + List.length (m_sellOrders ob).

(** The quantity that rests in a queue under the identifier [id], and the
    quantity that the ledger records as bought, or sold, under [id]. *)
Definition residentQty (id : Z) (q : list Order) : Z :=
  sumOf (fun o => if getID o =? id then getAmount o else 0) q.

Definition boughtQty (id : Z) (h : list ProcessedOrder) : Z :=
  sumOf (fun r => if buyID r =? id then fillAmount r else 0) h.

Definition soldQty (id : Z) (h : list ProcessedOrder) : Z :=
  sumOf (fun r => if sellID r =? id then fillAmount r else 0) h.

(** Every resident amount is a positive [int]. *)
Definition positiveAmount (o : Order) : Prop :=
  0 < getAmount o <= Int.max_signed.

Definition positiveBook (ob : Orderbook) : Prop :=
  Forall positiveAmount (m_buyOrders ob) /\
  Forall positiveAmount (m_sellOrders ob).

(** The books on which the pro-rata pass is shown to stay clear of [int]
    overflow and of undefined conversions: prices are numbers, amounts are
    positive, a buy order asks for less than [2^26], and the amounts on
    offer add up to an [int]. *)
Definition boundedBook (ob : Orderbook) : Prop :=
  Forall (fun o => priced o /\ 0 < getAmount o < 2 ^ 26) (m_buyOrders ob) /\
  Forall (fun o => priced o /\ 0 < getAmount o) (m_sellOrders ob) /\
  totalAmount (m_sellOrders ob) <= Int.max_signed.

(** [ob'] accounts for every unit of [ob]: under every identifier, what
    rests in a queue plus what the ledger records is the same in both
    books, and the ledger of [ob'] continues the ledger of [ob]. *)
Definition conserved (ob ob' : Orderbook) : Prop :=
  (exists fills, m_orderHistory ob' = m_orderHistory ob ++ fills) /\
  forall id,
    residentQty id (m_buyOrders ob') + boughtQty id (m_orderHistory ob') =
      residentQty id (m_buyOrders ob) + boughtQty id (m_orderHistory ob) /\
    residentQty id (m_sellOrders ob') + soldQty id (m_orderHistory ob') =
      residentQty id (m_sellOrders ob) + soldQty id (m_orderHistory ob).

(** The fills of a pass: [ob']'s ledger is [ob]'s ledger followed by
    [fills], and under every identifier the quantity that rests in a queue
    of [ob'] plus the quantity of the fills is the quantity that rested in
    the queue of [ob]. *)
Definition accounted (ob ob' : Orderbook) (fills : list ProcessedOrder) : Prop :=
  m_orderHistory ob' = m_orderHistory ob ++ fills /\
  forall id,
    residentQty id (m_buyOrders ob') + boughtQty id fills =
      residentQty id (m_buyOrders ob) /\
    residentQty id (m_sellOrders ob') + soldQty id fills =
      residentQty id (m_sellOrders ob).

(** [ceil (B0 * sellQty / L)] in exact arithmetic, as the specification
    words the entitlement. *)
Definition exactShare (B0 sellQty L : Z) : Z := - ((- (B0 * sellQty)) / L).

(** The allocation of one price level as the specification words it: the
    sell orders of the level are visited in the order of the list; each is
    filled with the least of the buy quantity still available, its own
    quantity and its entitlement [share]; both sides are reduced and a
    record is written; the visit ends when the buy quantity reaches 0. *)
Fixpoint allocateLevel (share : Z -> Z) (buyer : Z) (B : Z) (level : list Order)
    : Z * list Order * list ProcessedOrder :=
  match level with
  | [] => (B, [], [])
  | o :: rest =>
      let fill := Z.min (Z.min B (getAmount o)) (share (getAmount o)) in
      let o' := setAmount o (getAmount o - fill) in
      let record := mkProcessedOrder buyer (getID o) fill in
      if B - fill =? 0 then (0, o' :: rest, [record])
      else
        let '(B', rest', records) := allocateLevel share buyer (B - fill) rest in
        (B', o' :: rest', record :: records)
  end.

(** Positive normal binary32 numbers with an exponent between [lo] and
    [hi]. *)
Definition normalPos (x : spec_float) (lo hi : Z) : Prop :=
  exists m e, x = S754_finite false m e /\
              2 ^ 23 <= Z.pos m < 2 ^ 24 /\ lo <= e <= hi.

(** The conversion [(int) std::ceil(B0 * ((float) sellQty / (float) L))]
    is defined: the binary32 product is a finite number, and its ceiling is
    not above the largest [int]. *)
Definition shareDefined (B0 sellQty L : Z) : Prop :=
  exists c,
    F32.ceil_value
      (F32.mul (F32.of_int B0) (F32.div (F32.of_int sellQty) (F32.of_int L))) =
      Some c /\
    c <= Int.max_signed.

(** Every share that a buy order of quantity [B] can be allotted is
    defined: whatever is left of [B] at the start of a level, whatever the
    quantity of a sell order and the total of its level. *)
Definition convertible (B : Z) : Prop :=
  forall B0 sellQty L,
    0 < B0 <= B -> 0 < sellQty <= L -> L <= Int.max_signed ->
    shareDefined B0 sellQty L.

(** Every run of consecutive orders of [v] in which no price exceeds the
    price of the first order adds up to an [int].  The search for the next
    price level delimits such runs. *)
Definition runsFit (v : list Order) : Prop :=
  forall before first rest after,
    v = before ++ (first :: rest) ++ after ->
    Forall (fun o => F32.gt (getPrice o) (getPrice first) = false) rest ->
    totalAmount (first :: rest) <= Int.max_signed.

(** The invariant of the loop over the price levels: the positions before
    [curIndex] have been visited, the others hold the orders as they were
    drained; the levels add up to [int]s, and the shares of the buy order
    are defined. *)
Definition levelInv (n : nat) (st : LevelState) : Prop :=
  List.length (matchingOrders st) = n /\
  curIndex st = indexNextPriceLevel st /\
  (curIndex st <= n)%nat /\
  Forall (fun o => 0 <= getAmount o) (matchingOrders st) /\
  Forall (fun o => 0 < getAmount o) (skipn (curIndex st) (matchingOrders st)) /\
  runsFit (matchingOrders st) /\
  (0 <= buyAmount st <= Int.max_signed /\ convertible (buyAmount st)) /\
  (buyOrdersStillRemaining st = true -> 0 < buyAmount st).

(** An order after fills: the same order but for a smaller, non-negative
    amount. *)
Definition filledFrom (o o' : Order) : Prop :=
  o' = setAmount o (getAmount o') /\ 0 <= getAmount o' <= getAmount o.

(** What one turn of the loop over the levels keeps and what it changes. *)
Definition levelStep (bestBuy : Order) (st st' : LevelState) : Prop :=
  Forall2 filledFrom (matchingOrders st) (matchingOrders st') /\
  buyAmount st' <= buyAmount st /\
  totalAmount (matchingOrders st') <= totalAmount (matchingOrders st) /\
  exists recs,
    orderHistory st' = orderHistory st ++ recs /\
    (forall id, residentQty id (matchingOrders st') + soldQty id recs =
                residentQty id (matchingOrders st)) /\
    (forall id, boughtQty id recs =
                if getID bestBuy =? id then buyAmount st - buyAmount st' else 0).

(** The accesses that stay inside a vector of [n] elements, with no report
    of an index error; nothing is asked of the accesses of the search. *)
Definition guarded (n : nat) (a : access) : Prop :=
  match a with
  | AtScan _ => True
  | AtSum i | AtFill i => (i < n)%nat
  | IndexError _ => False
  end.

(** The accesses of the search reach at most one position behind the last
    element. *)
Definition scanReach (n : nat) (a : access) : Prop :=
  match a with
  | AtScan i => (i <= n)%nat
  | _ => True
  end.

(** The amounts are [int]s. *)
Definition intAmounts (v : list Order) : Prop :=
  Forall (fun o => Int.in_range (getAmount o)) v.

(** Both queues of the book arise from the empty queue through [push] and
    [pop] of orders whose price is a number. *)
Definition reachableBook (ob : Orderbook) : Prop :=
  PQ.reachable prioritizeMax (m_buyOrders ob) /\
  PQ.reachable prioritizeMin (m_sellOrders ob).

(** The quantity that a queue offers at the price [p]. *)
Definition levelTotal (p : F32.float) (q : list Order) : Z :=
  sumOf (fun o => if SFeqb (getPrice o) p then getAmount o else 0) q.

(** The books on which no operation of the pro-rata pass leaves the range
    of [int]: the queues are queues of the engine, the amounts are
    positive, a buy order asks for less than [2^31 - 64] (from there on
    [(float) amount] is [2^31], and the conversion of a share to [int] is
    not defined), and the sell orders of one price add up to an [int]. *)
Definition definedBook (ob : Orderbook) : Prop :=
  reachableBook ob /\
  Forall (fun o => 0 < getAmount o < 2 ^ 31 - 64) (m_buyOrders ob) /\
  Forall (fun o => 0 < getAmount o) (m_sellOrders ob) /\
  forall p, levelTotal p (m_sellOrders ob) <= Int.max_signed.

(* ------------------------------------------------------------------ *)
(** ** Example books *)

(** Scenario D of the specification: a buy of 10 against sells of 30 and 10
    at one price. *)
Definition f10 : F32.float := F32.of_int 10.
Definition buyD : Order := newOrder "X" 1 false true f10 900 10.
Definition sellA : Order := newOrder "X" 2 false false f10 800 30.
Definition sellB : Order := newOrder "X" 3 false false f10 801 10.
Definition scenarioD : Orderbook :=
  addOrder sellB (addOrder sellA (addOrder buyD emptyOrderbook)).

(** Scenarios A and B of the specification. *)
Definition scenarioA : Orderbook :=
  addOrder (newOrder "X" 2 false false f10 800 5)
    (addOrder (newOrder "X" 1 false true f10 900 5) emptyOrderbook).

Definition scenarioB : Orderbook :=
  addOrder (newOrder "X" 2 false false f10 800 3)
    (addOrder (newOrder "X" 1 false true f10 900 8) emptyOrderbook).

(** A buy of 13 against sells of 14 and 12 at one price. *)
Definition buyR : Order := newOrder "X" 1 false true f10 900 13.
Definition sellR1 : Order := newOrder "X" 2 false false f10 800 14.
Definition sellR2 : Order := newOrder "X" 3 false false f10 801 12.
Definition roundingBook : Orderbook :=
  addOrder sellR2 (addOrder sellR1 (addOrder buyR emptyOrderbook)).

(** The state of the level loop for [roundingBook] once the two sell orders
    are drained. *)
Definition levelsR : LevelState :=
  mkLevelState [sellR1; sellR2] 13 0 0 true [] [].

(** A buy of the largest [int], or of [2^31 - 64], against a sell of one
    unit, and two sells of [2^30] at one price. *)
Definition buyMax : Order := newOrder "X" 1 false true f10 900 2147483647.
Definition buyEdge : Order := newOrder "X" 1 false true f10 900 2147483584.
Definition sellOne : Order := newOrder "X" 2 false false f10 800 1.
Definition overflowBook : Orderbook :=
  addOrder sellOne (addOrder buyMax emptyOrderbook).

(** A buy of [2^31 - 65], the largest amount that the conversion to [float]
    does not round to [2^31], against a sell of one unit. *)
Definition edgeBook : Orderbook :=
  addOrder sellOne
    (addOrder (newOrder "X" 1 false true f10 900 2147483583) emptyOrderbook).
Definition sellHalf1 : Order := newOrder "X" 2 false false f10 800 1073741824.
Definition sellHalf2 : Order := newOrder "X" 3 false false f10 801 1073741824.

(** A buy of one unit against five sells of 500000000 at one price: the
    sells add up to more than the largest [int]. *)
Definition buyUnit : Order := newOrder "X" 1 false true f10 900 1.
Definition sellsWide : list Order :=
  [newOrder "X" 2 false false f10 800 500000000;
   newOrder "X" 3 false false f10 801 500000000;
   newOrder "X" 4 false false f10 802 500000000;
   newOrder "X" 5 false false f10 803 500000000;
   newOrder "X" 6 false false f10 804 500000000].
Definition wideBook : Orderbook :=
  fold_left (fun ob o => addOrder o ob) sellsWide (addOrder buyUnit emptyOrderbook).

(** An order that fails both admission conditions of the specification:
    its price is [-1.0] and its amount is [0]. *)
Definition rejectedOrder : Order :=
  newOrder "X" 7 false true (F32.of_int (-1)) 930 0.

(** A book with one resting buy order and one resting sell order that do
    not cross. *)
Definition restingBook : Orderbook :=
  addOrder (newOrder "X" 2 false false (F32.of_int 10) 800 5)
    (addOrder (newOrder "X" 1 false true (F32.of_int 9) 900 5) emptyOrderbook).

(** Three buy orders and three sell orders, pushed in an order that is not
    the order of their priority. *)
Definition sampleBuys : PQ.t :=
  pushBuy (newOrder "X" 13 false true (F32.of_int 10) 900 1)
    (pushBuy (newOrder "X" 12 false true (F32.of_int 11) 930 2)
       (pushBuy (newOrder "X" 11 false true (F32.of_int 10) 845 3) [])).

Definition sampleSells : PQ.t :=
  pushSell (newOrder "X" 23 false false (F32.of_int 12) 900 1)
    (pushSell (newOrder "X" 22 false false (F32.of_int 11) 930 2)
       (pushSell (newOrder "X" 21 false false (F32.of_int 12) 845 3) [])).

(* ------------------------------------------------------------------ *)
(** ** Notions used in the statements on the passes *)

(** No resident buy order reaches the price of a resident sell order. *)
Definition noCross (ob : Orderbook) : Prop :=
  forall b s, In b (m_buyOrders ob) -> In s (m_sellOrders ob) ->
              F32.lt (getPrice b) (getPrice s) = true.

(** Every order of [q'] is what is left of an order of [q]. *)
Definition restOf (q q' : list Order) : Prop :=
  forall o', In o' q' -> exists o, In o q /\ filledFrom o o'.

(** [r] records a trade between a buy order of [buys] and a sell order of
    [sells] whose prices are compatible, for a positive quantity that
    neither order falls short of. *)
Definition tradeOf (buys sells : list Order) (r : ProcessedOrder) : Prop :=
  exists b s,
    In b buys /\ In s sells /\
    buyID r = getID b /\ sellID r = getID s /\
    F32.ge (getPrice b) (getPrice s) = true /\
    0 < fillAmount r /\ fillAmount r <= getAmount b /\ fillAmount r <= getAmount s.

(** [r] records a fill of the buy order [buyer] against an order of [v],
    for a positive quantity of at most [B]. *)
Definition fillOf (buyer : Z) (B : Z) (v : list Order) (r : ProcessedOrder) : Prop :=
  buyID r = buyer /\ 0 < fillAmount r <= B /\
  exists o, In o v /\ sellID r = getID o /\ fillAmount r <= getAmount o.

(** What a pass that takes [ob] to [ob'] and records [fills] has done: the
    fills are trades of orders of [ob], the orders of [ob'] are what is left
    of orders of [ob], and no side has gained an order. *)
Definition passResult (ob ob' : Orderbook) (fills : list ProcessedOrder) : Prop :=
  m_orderHistory ob' = m_orderHistory ob ++ fills /\
  Forall (tradeOf (m_buyOrders ob) (m_sellOrders ob)) fills /\
  restOf (m_buyOrders ob) (m_buyOrders ob') /\
  restOf (m_sellOrders ob) (m_sellOrders ob') /\
  (List.length (m_buyOrders ob') <= List.length (m_buyOrders ob))%nat /\
  (List.length (m_sellOrders ob') <= List.length (m_sellOrders ob))%nat.

(** The price of the order is a NaN. *)
Definition nanPrice (o : Order) : Prop := F32.is_nan (getPrice o) = true.

(** Books on which no turn of the pro-rata loop finds a sell order to match
    and none ends the loop: the buy side is occupied by orders of positive
    amounts, and either the sell order on top has a NaN for its price, or
    the sell side is occupied and every buy order has a NaN for its
    price. *)
Definition stuckBook (ob : Orderbook) : Prop :=
  m_buyOrders ob <> [] /\
  Forall (fun o => 0 < getAmount o) (m_buyOrders ob) /\
  ((exists s rest, m_sellOrders ob = s :: rest /\ nanPrice s) \/
   (m_sellOrders ob <> [] /\ Forall nanPrice (m_buyOrders ob))).

(** [comp] is a strict weak ordering on the orders that satisfy [P], which
    is what [std::priority_queue] asks of its comparator. *)
Definition strictWeakOrdering (P : Order -> Prop)
    (comp : Order -> Order -> bool) : Prop :=
  (forall a, P a -> comp a a = false) /\
  (forall a b c, P a -> P b -> P c ->
     comp a b = true -> comp b c = true -> comp a c = true) /\
  (forall a b c, P a -> P b -> P c ->
     comp a b = false -> comp b a = false ->
     comp b c = false -> comp c b = false ->
     comp a c = false /\ comp c a = false).

(** The order without the two members that the book never reads: the
    ticker and the market-order flag. *)
Definition eraseLabels (o : Order) : Order :=
  mkOrder EmptyString (m_orderID o) false (m_isBuy o) (m_price o) (m_time o)
          (m_amount o).

Definition eraseBook (ob : Orderbook) : Orderbook :=
  mkOrderbook (map eraseLabels (m_buyOrders ob))
              (map eraseLabels (m_sellOrders ob)) (m_orderHistory ob).

Definition eraseLevels (st : LevelState) : LevelState :=
  mkLevelState (map eraseLabels (matchingOrders st)) (buyAmount st)
    (curIndex st) (indexNextPriceLevel st) (buyOrdersStillRemaining st)
    (orderHistory st) (accesses st).

Definition eraseTurn (r : option (Orderbook * bool)) : option (Orderbook * bool) :=
  match r with
  | Some (ob, brk) => Some (eraseBook ob, brk)
  | None => None
  end.

(* ------------------------------------------------------------------ *)
(** ** Notions used in the statements on the listing *)

(** The character of a decimal digit, and the text of four digits with a
    colon in the middle. *)
Definition digitChar (d : Z) : ascii := ascii_of_nat (48 + Z.to_nat d).

Definition clockText (d1 d2 d3 d4 : Z) : string :=
  String (digitChar d1) (String (digitChar d2) (String ":"%char
    (String (digitChar d3) (String (digitChar d4) EmptyString)))).

(** The order of two rows of the sell part of the listing, and of the buy
    part: prices do not rise from a row to a later row; at one price the
    sell rows run from the latest order to the earliest, the buy rows from
    the earliest to the latest. *)
Definition sellRowsOrder (x y : Order) : Prop :=
  F32.ge (getPrice x) (getPrice y) = true /\
  (SFeqb (getPrice x) (getPrice y) = true -> getTime y <= getTime x).

Definition buyRowsOrder (x y : Order) : Prop :=
  F32.ge (getPrice x) (getPrice y) = true /\
  (SFeqb (getPrice x) (getPrice y) = true -> getTime x <= getTime y).

Definition pricesDescend (x y : Order) : Prop :=
  F32.ge (getPrice x) (getPrice y) = true.

(* ------------------------------------------------------------------ *)
(** ** Notions used in the statements on [main.cpp] *)

(** The pieces of [s] between the occurrences of [delim]. *)
Fixpoint splitOn (delim : ascii) (s : string) : list string :=
  match s with
  | EmptyString => [EmptyString]
  | String c rest =>
      if Ascii.eqb c delim then EmptyString :: splitOn delim rest
      else match splitOn delim rest with
           | piece :: pieces => String c piece :: pieces
           | [] => [String c EmptyString]
           end
  end.

(** The lines of a text: the pieces between the line feeds, without the
    empty piece behind a final line feed. *)
Definition linesOf (text : string) : list string :=
  let pieces := splitOn "010"%char text in
  match last pieces EmptyString with
  | EmptyString => removelast pieces
  | _ => pieces
  end.

Definition noFields : Fields :=
  mkFields EmptyString EmptyString EmptyString EmptyString EmptyString
           EmptyString EmptyString.

(** The lines that [readOrderData] turns into orders, one after the other,
    with the fields carried from line to line, up to the first line with a
    field that does not convert. *)
Fixpoint addLines (stoll : string -> option Z) (stof : string -> option F32.float)
    (stoi : string -> option Z) (lines : list string)
    (fields : Fields) (ob : Orderbook) : run Orderbook :=
  match lines with
  | [] => Returned ob
  | line :: rest =>
      let fields' := readFields line fields in
      match orderOfFields stoll stof stoi fields' with
      | Some o => addLines stoll stof stoi rest fields' (addOrder o ob)
      | None => Thrown
      end
  end.

(** The pieces, and the lines, that the calls of [getline] on a stream are
    still to deliver. *)
Definition piecesAhead (delim : ascii) (input : istream) : list string :=
  if good input then splitOn delim (pending input) else [].

Definition linesAhead (input : istream) : list string :=
  if good input then linesOf (pending input) else [].

(** A line with at least seven fields, and the fields of such a line. *)
Definition completeLine (line : string) : Prop :=
  (7 <= List.length (splitOn ","%char line))%nat.

Definition fieldsOfLine (line : string) : Fields :=
  let pieces := splitOn ","%char line in
  mkFields (nth 0 pieces EmptyString) (nth 1 pieces EmptyString)
           (nth 2 pieces EmptyString) (nth 3 pieces EmptyString)
           (nth 4 pieces EmptyString) (nth 5 pieces EmptyString)
           (nth 6 pieces EmptyString).

(** The orders of a list of complete lines, when every conversion
    succeeds. *)
Fixpoint ordersOfLines (stoll : string -> option Z)
    (stof : string -> option F32.float) (stoi : string -> option Z)
    (lines : list string) : option (list Order) :=
  match lines with
  | [] => Some []
  | line :: rest =>
      match orderOfFields stoll stof stoi (fieldsOfLine line),
            ordersOfLines stoll stof stoi rest with
      | Some o, Some orders => Some (o :: orders)
      | _, _ => None
      end
  end.

Definition addOrders (orders : list Order) (ob : Orderbook) : Orderbook :=
  fold_left (fun ob o => addOrder o ob) orders ob.

(** What a run of [main] that reaches its end has to show for the book
    [ob] it has read: the book [ob'] after the pass, whose ledger is
    printed first and whose orders are listed next. *)
Definition soundRun (ob ob' : Orderbook)
    (fills : list ProcessedOrder) (rows : list Order) : Prop :=
  fills = m_orderHistory ob' /\
  rows = rev (m_sellOrders ob') ++ m_buyOrders ob' /\
  accounted ob ob' fills /\
  Forall (tradeOf (m_buyOrders ob) (m_sellOrders ob)) fills /\
  noCross ob' /\
  Forall positiveAmount rows /\
  StronglySorted pricesDescend rows.

(* ------------------------------------------------------------------ *)
(** ** Further examples *)

(** A book whose only buy order has a NaN for its price. *)
Definition nanBook : Orderbook :=
  addOrder (newOrder "X" 2 false false f10 800 5)
    (addOrder (newOrder "X" 1 false true S754_nan 900 5) emptyOrderbook).

(** Conversions for the examples.  On a decimal numeral they return the
    number, as the conversions of the library do for the numerals of the
    examples; on every other text, [decimal] and [decimalPrice] throw and
    [decimalOrZero] returns [0]. *)
Definition decimal (s : string) : option Z :=
  option_map Z.of_int (NilZero.int_of_string s).

Definition decimalPrice (s : string) : option F32.float :=
  option_map F32.of_int (decimal s).

Definition decimalOrZero (s : string) : Z :=
  match decimal s with Some z => z | None => 0 end.

(** The file of scenario D, a file whose last line has an amount that is
    not a number, and a command line that asks for the pro-rata pass. *)
Definition fileD : string :=
  "ticker,id,market,buy,price,time,amount
X,1,false,true,10,900,10
X,2,false,false,10,800,30
X,3,false,false,10,801,10
".

Definition fileBad : string :=
  "ticker,id,market,buy,price,time,amount
X,1,false,true,10,900,10
X,2,false,false,10,800,ten
".

Definition argvD : list string := ["engine"; "orders.csv"; "X"; "2"]%string.

Definition fopenD (text : string) (name : string) : option string :=
  if String.eqb name "orders.csv" then Some text else None.

(* ================================================================== *)
(** * Properties *)

(** ** Machine integers *)

Lemma wrap32_in_range (z : Z) : Int.in_range (Int.wrap32 z).
Proof.
  unfold Int.in_range, Int.wrap32, Int.min_signed, Int.max_signed.
  pose proof (Z.mod_pos_bound (z + 2 ^ 31) (2 ^ 32) ltac:(lia)). lia.
Qed.

Lemma wrap32_id (z : Z) : Int.in_range z -> Int.wrap32 z = z.
Proof.
  unfold Int.in_range, Int.wrap32, Int.min_signed, Int.max_signed. intros H.
  rewrite Z.mod_small; lia.
Qed.

Lemma wrap32_fixed_iff (z : Z) : Int.wrap32 z = z <-> Int.in_range z.
Proof.
  split; [ | apply wrap32_id ].
  intros H. rewrite <- H. apply wrap32_in_range.
Qed.

Lemma wrap32_congr (a b : Z) :
  a mod 2 ^ 32 = b mod 2 ^ 32 -> Int.wrap32 a = Int.wrap32 b.
Proof.
  intros H. unfold Int.wrap32. f_equal.
  rewrite (Z.add_mod a), (Z.add_mod b), H by lia. reflexivity.
Qed.

Lemma wrap32_congr_inv (a b : Z) :
  Int.wrap32 a = Int.wrap32 b -> a mod 2 ^ 32 = b mod 2 ^ 32.
Proof.
  unfold Int.wrap32. intros H.
  assert (E : (a + 2 ^ 31) mod 2 ^ 32 = (b + 2 ^ 31) mod 2 ^ 32) by lia.
  replace a with ((a + 2 ^ 31) - 2 ^ 31) by lia.
  replace b with ((b + 2 ^ 31) - 2 ^ 31) by lia.
  rewrite (Zminus_mod (a + 2 ^ 31)), (Zminus_mod (b + 2 ^ 31)), E. reflexivity.
Qed.

Lemma wrap32_wrapU64 (z : Z) : Int.wrap32 (Int.wrapU64 z) = Int.wrap32 z.
Proof.
  apply wrap32_congr. unfold Int.wrapU64.
  apply Z.mod_mod_divide.
  exists (2 ^ 32). reflexivity.
Qed.

Lemma Zgtb_true (a b : Z) : b < a -> (a >? b) = true.
Proof. intros H. rewrite Z.gtb_ltb. now apply Z.ltb_lt. Qed.

Lemma Zgtb_false (a b : Z) : a <= b -> (a >? b) = false.
Proof. intros H. rewrite Z.gtb_ltb. now apply Z.ltb_ge. Qed.

Lemma int_sub_exact (a b : Z) : Int.in_range (a - b) -> Int.sub a b = a - b.
Proof. apply wrap32_id. Qed.

Lemma int_add_exact (a b : Z) : Int.in_range (a + b) -> Int.add a b = a + b.
Proof. apply wrap32_id. Qed.

(** ** Comparison of floats *)

Lemma pos_compare_cont_eq (p q : positive) :
  PosDef.Pos.compare_cont Eq p q = Pos.compare p q.
Proof. reflexivity. Qed.

Lemma SFcompare_antisym (a b : spec_float) :
  SFcompare b a = option_map CompOpp (SFcompare a b).
Proof.
  destruct a as [sa|sa| |sa ma ea], b as [sb|sb| |sb mb eb];
    try destruct sa; try destruct sb; simpl; try reflexivity;
    rewrite (Z.compare_antisym ea eb), !pos_compare_cont_eq,
      (Pos.compare_antisym ma mb);
    destruct (ea ?= eb); simpl; try reflexivity;
    destruct (ma ?= mb)%positive; reflexivity.
Qed.

(** Case analysis on every comparison of mantissas and exponents that
    occurs in the goal. *)
Ltac float_order_cases :=
  repeat match goal with
         | |- context [ PosDef.Pos.compare_cont Eq ?x ?y ] =>
             change (PosDef.Pos.compare_cont Eq x y) with (Pos.compare x y)
         end;
  repeat match goal with
         | |- context [ (?x ?= ?y)%positive ] =>
             destruct (Pos.compare_spec x y); cbv beta iota delta [CompOpp]
         | |- context [ (?x ?= ?y)%Z ] =>
             destruct (Z.compare_spec x y); cbv beta iota delta [CompOpp]
         end;
  intros; try reflexivity; try discriminate; try lia.

(** On floats that are not NaNs, [SFleb] is a total preorder. *)
Lemma SFleb_trans (a b c : spec_float) :
  SFleb a b = true -> SFleb b c = true -> SFleb a c = true.
Proof.
  unfold SFleb.
  destruct a as [sa|sa| |sa ma ea], b as [sb|sb| |sb mb eb],
    c as [sc|sc| |sc mc ec];
    try destruct sa; try destruct sb; try destruct sc; simpl;
    try reflexivity; try discriminate;
    float_order_cases.
Qed.

Lemma SFleb_total (a b : spec_float) :
  F32.is_nan a = false -> F32.is_nan b = false ->
  SFleb a b = true \/ SFleb b a = true.
Proof.
  unfold SFleb. rewrite (SFcompare_antisym a b).
  destruct a as [sa|sa| |sa ma ea], b as [sb|sb| |sb mb eb];
    try discriminate; intros _ _;
    match goal with
    | |- context [ SFcompare ?x ?y ] => destruct (SFcompare x y) as [[ | | ]|] eqn:E
    end; simpl; auto;
    try destruct sa; try destruct sb; simpl in E; discriminate.
Qed.

Lemma SFltb_not_leb (a b : spec_float) :
  SFltb a b = true -> SFleb b a = false.
Proof.
  unfold SFltb, SFleb. rewrite (SFcompare_antisym a b).
  destruct (SFcompare a b) as [[ | | ]|]; simpl; congruence.
Qed.

Lemma SFltb_false_leb (a b : spec_float) :
  F32.is_nan a = false -> F32.is_nan b = false ->
  SFltb a b = false -> SFleb b a = true.
Proof.
  intros Ha Hb. destruct (SFleb_total a b Ha Hb) as [H|H]; [ | auto ].
  revert H. unfold SFltb, SFleb. rewrite (SFcompare_antisym a b).
  destruct (SFcompare a b) as [[ | | ]|]; simpl; congruence.
Qed.

Lemma SFltb_leb_iff (a b : spec_float) :
  F32.is_nan a = false -> F32.is_nan b = false ->
  SFltb a b = negb (SFleb b a).
Proof.
  intros Ha Hb. destruct (SFltb a b) eqn:E.
  - now rewrite (SFltb_not_leb _ _ E).
  - now rewrite (SFltb_false_leb _ _ Ha Hb E).
Qed.

(** ** Orders and queues *)

Lemma getID_setAmount (o : Order) (a : Z) : getID (setAmount o a) = getID o.
Proof. reflexivity. Qed.

Lemma getPrice_setAmount (o : Order) (a : Z) : getPrice (setAmount o a) = getPrice o.
Proof. reflexivity. Qed.

Lemma getTime_setAmount (o : Order) (a : Z) : getTime (setAmount o a) = getTime o.
Proof. reflexivity. Qed.

Lemma getAmount_setAmount (o : Order) (a : Z) : getAmount (setAmount o a) = a.
Proof. reflexivity. Qed.

Lemma setAmount_getAmount (o : Order) : setAmount o (getAmount o) = o.
Proof. destruct o; reflexivity. Qed.

Section QueueFacts.

Variable comp : Order -> Order -> bool.

Lemma push_perm (x : Order) (q : PQ.t) :
  Permutation (PQ.push comp x q) (x :: q).
Proof.
  induction q as [ | h rest IH ]; simpl.
  - apply Permutation_refl.
  - destruct (comp h x).
    + apply Permutation_refl.
    + eapply Permutation_trans; [ apply perm_skip, IH | apply perm_swap ].
Qed.

Lemma push_In (x y : Order) (q : PQ.t) :
  In y (PQ.push comp x q) <-> y = x \/ In y q.
Proof.
  split; intros H.
  - apply (Permutation_in _ (push_perm x q)) in H. simpl in H.
    destruct H; auto.
  - apply (Permutation_in _ (Permutation_sym (push_perm x q))).
    simpl. destruct H; auto.
Qed.

Lemma push_length (x : Order) (q : PQ.t) :
  List.length (PQ.push comp x q) = S (List.length q).
Proof. apply (Permutation_length (push_perm x q)). Qed.

Lemma push_Forall (P : Order -> Prop) (x : Order) (q : PQ.t) :
  P x -> Forall P q -> Forall P (PQ.push comp x q).
Proof.
  intros Hx Hq.
  apply (Permutation_Forall (Permutation_sym (push_perm x q))).
  now constructor.
Qed.

End QueueFacts.

Lemma drainToStack_rev (q stack : list Order) :
  drainToStack q stack = rev q ++ stack.
Proof.
  revert stack. induction q as [ | h rest IH ]; intros stack; simpl.
  - reflexivity.
  - rewrite IH, <- app_assoc. reflexivity.
Qed.

(** ** [matchOrdersFIFO]: the loop always comes to an end *)

Lemma fifoBody_drops_an_order (ob ob' : Orderbook) :
  fifoBody ob = Some (ob', false) -> (residents ob' < residents ob)%nat.
Proof.
  unfold fifoBody, residents.
  destruct (m_buyOrders ob) as [ | bestBuy buys ]; [ discriminate | ].
  destruct (m_sellOrders ob) as [ | bestSell sells ]; [ discriminate | ].
  destruct (F32.ge _ _); [ | discriminate ].
  destruct (getAmount bestBuy >? getAmount bestSell);
    [ | destruct (getAmount bestBuy <? getAmount bestSell) ];
    intros H; injection H as <-; simpl;
    unfold pushBuy, pushSell; rewrite ?push_length; simpl; lia.
Qed.

Lemma fifoLoop_enough_fuel (fuel : nat) (ob : Orderbook) :
  (residents ob <= fuel)%nat -> exists ob', fifoLoop fuel ob = Some ob'.
Proof.
  revert ob. induction fuel as [ | fuel IH ]; intros ob Hfuel; simpl.
  - destruct (fifoBody ob) as [ [ob' [ | ]] | ] eqn:E; eauto.
    apply fifoBody_drops_an_order in E. lia.
  - destruct (fifoBody ob) as [ [ob' [ | ]] | ] eqn:E; eauto.
    apply IH. apply fifoBody_drops_an_order in E. lia.
Qed.

Lemma matchOrdersFIFO_total (ob : Orderbook) :
  exists ob', matchOrdersFIFO ob = Some ob'.
Proof. apply fifoLoop_enough_fuel. unfold residents. lia. Qed.

(* ------------------------------------------------------------------ *)
(** ** The scenarios of the specification, evaluated *)

Example scenarioA_fifo :
  matchOrdersFIFO scenarioA = Some (mkOrderbook [] [] [mkProcessedOrder 1 2 5]).
Proof. reflexivity. Qed.

Example scenarioB_fifo :
  matchOrdersFIFO scenarioB =
    Some (mkOrderbook [newOrder "X" 1 false true f10 900 5] []
            [mkProcessedOrder 1 2 3]).
Proof. reflexivity. Qed.

Example scenarioC_fifo : matchOrdersFIFO restingBook = Some restingBook.
Proof. reflexivity. Qed.

Example scenarioD_proportions :
  proportionalShare 10 30 40 = 8 /\ proportionalShare 10 10 40 = 3.
Proof. split; vm_compute; reflexivity. Qed.

Example scenarioD_proRata :
  matchOrdersProRata buyD scenarioD =
    Some (mkOrderbook [] [setAmount sellA 22; setAmount sellB 8]
            [mkProcessedOrder 1 2 8; mkProcessedOrder 1 3 2]).
Proof. vm_compute. reflexivity. Qed.

(* ------------------------------------------------------------------ *)
(** ** Admission of orders *)

(** C3, as the specification states it, fails: [addOrder] has no admission
    test.  The order [rejectedOrder] has a negative price and a zero amount,
    and after [addOrder] it is resident in the buy queue. *)
Lemma addOrder_accepts_invalid_order :
  getAmount rejectedOrder <= 0 /\
  F32.ge (F32.of_int 0) (getPrice rejectedOrder) = true /\
  In rejectedOrder (m_buyOrders (addOrder rejectedOrder emptyOrderbook)).
Proof.
  split; [ | split ].
  - simpl. lia.
  - reflexivity.
  - simpl. left. reflexivity.
Qed.

(** C3 (amended): [addOrder] inserts every order, whatever its price and
    amount: a buy order joins the buy queue and a sell order the sell queue;
    the other queue and the ledger are left as they were, so no matching
    takes place. *)
Theorem addOrder_inserts_every_order (o : Order) (ob : Orderbook) :
  m_orderHistory (addOrder o ob) = m_orderHistory ob /\
  (checkIsBuy o = true ->
     Permutation (m_buyOrders (addOrder o ob)) (o :: m_buyOrders ob) /\
     m_sellOrders (addOrder o ob) = m_sellOrders ob) /\
  (checkIsBuy o = false ->
     Permutation (m_sellOrders (addOrder o ob)) (o :: m_sellOrders ob) /\
     m_buyOrders (addOrder o ob) = m_buyOrders ob).
Proof.
  unfold addOrder. destruct (checkIsBuy o); simpl.
  - split; [ reflexivity | split; [ intros _ | discriminate ] ].
    split; [ apply push_perm | reflexivity ].
  - split; [ reflexivity | split; [ discriminate | intros _ ] ].
    split; [ apply push_perm | reflexivity ].
Qed.

Lemma addOrder_inserts_every_order_witness :
  Permutation (m_buyOrders (addOrder rejectedOrder emptyOrderbook))
              (rejectedOrder :: m_buyOrders emptyOrderbook).
Proof.
  apply (addOrder_inserts_every_order rejectedOrder emptyOrderbook).
  reflexivity.
Defined.

(* ------------------------------------------------------------------ *)
(** ** One trade of the FIFO pass *)

(** C5: when the best buy price reaches the best sell price, one turn of
    the FIFO loop trades [min] of the two amounts: one record with that
    amount and the two identifiers is appended, each of the two orders is
    pushed back with its amount reduced by the trade exactly when something
    of it is left, and the loop goes on. *)
Theorem fifo_trade_step
    (ob : Orderbook) (bestBuy bestSell : Order) (buys sells : PQ.t) :
  m_buyOrders ob = bestBuy :: buys ->
  m_sellOrders ob = bestSell :: sells ->
  F32.ge (getPrice bestBuy) (getPrice bestSell) = true ->
  0 < getAmount bestBuy <= Int.max_signed ->
  0 < getAmount bestSell <= Int.max_signed ->
  let traded := Z.min (getAmount bestBuy) (getAmount bestSell) in
  fifoBody ob =
    Some (mkOrderbook
            (if getAmount bestBuy - traded >? 0
             then pushBuy (setAmount bestBuy (getAmount bestBuy - traded)) buys
             else buys)
            (if getAmount bestSell - traded >? 0
             then pushSell (setAmount bestSell (getAmount bestSell - traded)) sells
             else sells)
            (m_orderHistory ob ++
               [mkProcessedOrder (getID bestBuy) (getID bestSell) traded]),
          false).
Proof.
  intros Hb Hs Hge Hba Hsa traded. unfold fifoBody. rewrite Hb, Hs, Hge.
  subst traded. unfold Int.max_signed in *.
  destruct (Z.gtb_spec (getAmount bestBuy) (getAmount bestSell)) as [Hgt|Hle].
  - rewrite Z.min_r by lia.
    rewrite int_sub_exact
      by (unfold Int.in_range, Int.min_signed, Int.max_signed; lia).
    replace (getAmount bestSell - getAmount bestSell >? 0) with false
      by (symmetry; apply Zgtb_false; lia).
    replace (getAmount bestBuy - getAmount bestSell >? 0) with true
      by (symmetry; apply Zgtb_true; lia).
    rewrite getID_setAmount. reflexivity.
  - destruct (Z.ltb_spec (getAmount bestBuy) (getAmount bestSell)) as [Hlt|Hge'].
    + rewrite Z.min_l by lia.
      rewrite int_sub_exact
        by (unfold Int.in_range, Int.min_signed, Int.max_signed; lia).
      replace (getAmount bestBuy - getAmount bestBuy >? 0) with false
        by (symmetry; apply Zgtb_false; lia).
      replace (getAmount bestSell - getAmount bestBuy >? 0) with true
        by (symmetry; apply Zgtb_true; lia).
      rewrite getID_setAmount. reflexivity.
    + rewrite Z.min_l by lia.
      replace (getAmount bestBuy - getAmount bestBuy >? 0) with false
        by (symmetry; apply Zgtb_false; lia).
      replace (getAmount bestSell - getAmount bestBuy >? 0) with false
        by (symmetry; apply Zgtb_false; lia).
      reflexivity.
Qed.

(** Scenario B of the specification: a buy of 8 against a sell of 3. *)
Lemma fifo_trade_step_witness :
  fifoBody
    (mkOrderbook [newOrder "X" 1 false true f10 900 8]
                 [newOrder "X" 2 false false f10 800 3] []) =
  Some (mkOrderbook [newOrder "X" 1 false true f10 900 5] []
          [mkProcessedOrder 1 2 3],
        false).
Proof.
  apply (fifo_trade_step
           (mkOrderbook [newOrder "X" 1 false true f10 900 8]
                        [newOrder "X" 2 false false f10 800 3] [])
           (newOrder "X" 1 false true f10 900 8)
           (newOrder "X" 2 false false f10 800 3) [] []);
    try reflexivity; simpl; unfold Int.max_signed; lia.
Defined.

(* ------------------------------------------------------------------ *)
(** ** Books that do not cross *)

Lemma fifoLoop_break (fuel : nat) (ob ob' : Orderbook) :
  fifoBody ob = Some (ob', true) -> fifoLoop fuel ob = Some ob'.
Proof. intros E. destruct fuel; simpl; rewrite E; reflexivity. Qed.

Lemma proRataLoop_break (oob : Order) (fuel : nat) (ob ob' : Orderbook) :
  proRataBody oob ob = Some (ob', true) -> proRataLoop oob fuel ob = Some ob'.
Proof. intros E. destruct fuel; simpl; rewrite E; reflexivity. Qed.

(** C6: when both queues are occupied and the best buy price is below the
    best sell price, both passes return at once.  The FIFO pass has popped
    the two best orders and pushes them back: each queue holds the orders it
    held, the two orders among them with the amounts they had, and the
    ledger is the one before the call.  The pro-rata pass has only looked at
    the two orders and returns the very same book. *)
Theorem no_cross_leaves_book
    (oob : Order) (ob : Orderbook) (bestBuy bestSell : Order) (buys sells : PQ.t) :
  m_buyOrders ob = bestBuy :: buys ->
  m_sellOrders ob = bestSell :: sells ->
  F32.lt (getPrice bestBuy) (getPrice bestSell) = true ->
  (exists ob',
      matchOrdersFIFO ob = Some ob' /\
      Permutation (m_buyOrders ob') (m_buyOrders ob) /\
      Permutation (m_sellOrders ob') (m_sellOrders ob) /\
      In bestBuy (m_buyOrders ob') /\
      In bestSell (m_sellOrders ob') /\
      m_orderHistory ob' = m_orderHistory ob) /\
  matchOrdersProRata oob ob = Some ob.
Proof.
  intros Hb Hs Hlt. split.
  - exists (mkOrderbook (pushBuy bestBuy buys) (pushSell bestSell sells)
              (m_orderHistory ob)).
    split; [ | simpl; rewrite Hb, Hs; repeat split ].
    + apply fifoLoop_break. unfold fifoBody. rewrite Hb, Hs.
      unfold F32.ge. unfold F32.lt in Hlt.
      rewrite (SFltb_not_leb _ _ Hlt). reflexivity.
    + apply push_perm.
    + apply push_perm.
    + apply push_In. now left.
    + apply push_In. now left.
  - apply proRataLoop_break. unfold proRataBody. rewrite Hb, Hs, Hlt.
    reflexivity.
Qed.

(** Scenario C of the specification: a buy at 9 and a sell at 10. *)
Lemma no_cross_leaves_book_witness :
  (exists ob',
      matchOrdersFIFO restingBook = Some ob' /\
      Permutation (m_buyOrders ob') (m_buyOrders restingBook) /\
      Permutation (m_sellOrders ob') (m_sellOrders restingBook) /\
      In (newOrder "X" 1 false true (F32.of_int 9) 900 5) (m_buyOrders ob') /\
      In (newOrder "X" 2 false false (F32.of_int 10) 800 5) (m_sellOrders ob') /\
      m_orderHistory ob' = m_orderHistory restingBook) /\
  matchOrdersProRata rejectedOrder restingBook = Some restingBook.
Proof.
  apply (no_cross_leaves_book rejectedOrder restingBook
           (newOrder "X" 1 false true (F32.of_int 9) 900 5)
           (newOrder "X" 2 false false (F32.of_int 10) 800 5) [] []);
    reflexivity.
Defined.

(* ------------------------------------------------------------------ *)
(** ** Printing the book *)

(** C9, as the specification states it, fails: after
    [printOrderbookContents] the buy queue of [restingBook] no longer holds
    the order it held. *)
Lemma printOrderbookContents_loses_orders :
  ~ Permutation (m_buyOrders (snd (printOrderbookContents restingBook)))
                (m_buyOrders restingBook).
Proof.
  simpl. intros H. apply Permutation_length in H. discriminate.
Qed.

(** C9 (amended): [printOrderbookContents] writes the sell orders from the
    last one the sell queue would return to the first, then the buy orders
    in the order in which the buy queue returns them; it pops every order it
    writes and pushes none back, so that both queues are empty when it
    returns.  The ledger is not touched. *)
Theorem printOrderbookContents_drains (ob : Orderbook) :
  fst (printOrderbookContents ob) = rev (m_sellOrders ob) ++ m_buyOrders ob /\
  m_buyOrders (snd (printOrderbookContents ob)) = [] /\
  m_sellOrders (snd (printOrderbookContents ob)) = [] /\
  m_orderHistory (snd (printOrderbookContents ob)) = m_orderHistory ob.
Proof.
  unfold printOrderbookContents. simpl.
  rewrite drainToStack_rev, app_nil_r. repeat split.
Qed.

(* ------------------------------------------------------------------ *)
(** ** Identifiers *)

(** C10: the identifier an order reports, and hence the identifier written
    into every fill record, is the identifier given to the constructor
    reduced to 32 bits and read as a signed number.  It is the given
    identifier exactly when that one fits a 32-bit [int]; and two orders
    whose given identifiers agree modulo [2^32] report the same identifier,
    so that the records of their fills are the same records. *)
Theorem order_id_reported_modulo_2_32
    (ticker : string) (orderID : Z) (isMarket isBuy : bool)
    (price : F32.float) (time amount : Z) :
  let o := newOrder ticker orderID isMarket isBuy price time amount in
  getID o = Int.wrap32 orderID /\
  (getID o = orderID <-> Int.in_range orderID) /\
  (forall amount', getID (setAmount o amount') = Int.wrap32 orderID) /\
  (forall orderID' : Z,
      let o' := newOrder ticker orderID' isMarket isBuy price time amount in
      orderID' mod 2 ^ 32 = orderID mod 2 ^ 32 <->
      (forall (other : Order) (filled : Z),
          mkProcessedOrder (getID o') (getID other) filled =
            mkProcessedOrder (getID o) (getID other) filled /\
          mkProcessedOrder (getID other) (getID o') filled =
            mkProcessedOrder (getID other) (getID o) filled)).
Proof.
  intros o.
  assert (E : getID o = Int.wrap32 orderID) by apply wrap32_wrapU64.
  split; [ exact E | split; [ | split ] ].
  - rewrite E. apply wrap32_fixed_iff.
  - intros amount'. exact E.
  - intros orderID' o'.
    assert (E' : getID o' = Int.wrap32 orderID') by apply wrap32_wrapU64.
    rewrite E, E'. split.
    + intros H other filled. rewrite (wrap32_congr _ _ H). split; reflexivity.
    + intros H. apply wrap32_congr_inv.
      destruct (H o 0) as [H1 _]. now injection H1.
Qed.

(* ------------------------------------------------------------------ *)
(** ** Price-time priority *)

Lemma SFltb_as_leb (a b : spec_float) :
  SFltb a b = SFleb a b && negb (SFleb b a).
Proof.
  unfold SFltb, SFleb. rewrite (SFcompare_antisym a b).
  destruct (SFcompare a b) as [[ | | ]|]; reflexivity.
Qed.

Lemma SFeqb_as_leb (a b : spec_float) :
  SFeqb a b = SFleb a b && SFleb b a.
Proof.
  unfold SFeqb, SFleb. rewrite (SFcompare_antisym a b).
  destruct (SFcompare a b) as [[ | | ]|]; reflexivity.
Qed.

(** Brings every comparison of two prices down to [SFleb], adds the
    instances of totality and transitivity for the orders at hand, and
    decides the rest by cases. *)
Ltac price_cases a b c :=
  unfold prioritizeMax, prioritizeMin, F32.lt, F32.gt, priced in *;
  rewrite ?SFltb_as_leb, ?SFeqb_as_leb in *;
  repeat match goal with
         | Ha : F32.is_nan (getPrice ?x) = false,
           Hb : F32.is_nan (getPrice ?y) = false |- _ =>
             lazymatch goal with
             | _ : SFleb (getPrice x) (getPrice y) = true \/ _ |- _ => fail
             | _ => pose proof (SFleb_total _ _ Ha Hb)
             end
         end;
  pose proof (SFleb_trans (getPrice a) (getPrice b) (getPrice c));
  pose proof (SFleb_trans (getPrice c) (getPrice b) (getPrice a));
  pose proof (SFleb_trans (getPrice a) (getPrice c) (getPrice b));
  pose proof (SFleb_trans (getPrice b) (getPrice c) (getPrice a));
  pose proof (SFleb_trans (getPrice b) (getPrice a) (getPrice c));
  pose proof (SFleb_trans (getPrice c) (getPrice a) (getPrice b));
  repeat match goal with
         | H : context [ SFleb ?x ?y ] |- _ => destruct (SFleb x y)
         | |- context [ SFleb ?x ?y ] => destruct (SFleb x y)
         end;
  simpl in *;
  repeat match goal with
         | H : true = true -> _ |- _ => specialize (H eq_refl)
         | H : _ \/ _ |- _ => destruct H
         end;
  try discriminate; try reflexivity;
  rewrite ?Z.gtb_ltb, ?Z.ltb_lt, ?Z.ltb_ge in *; try lia.

Lemma prioritizeMax_asym (a b : Order) :
  priced a -> priced b ->
  prioritizeMax a b = true -> prioritizeMax b a = false.
Proof. intros Ha Hb. price_cases a b b. Qed.

Lemma prioritizeMax_negtrans (a b c : Order) :
  priced a -> priced b -> priced c ->
  prioritizeMax a b = false -> prioritizeMax b c = false ->
  prioritizeMax a c = false.
Proof. intros Ha Hb Hc. price_cases a b c. Qed.

Lemma prioritizeMin_asym (a b : Order) :
  priced a -> priced b ->
  prioritizeMin a b = true -> prioritizeMin b a = false.
Proof. intros Ha Hb. price_cases a b b. Qed.

Lemma prioritizeMin_negtrans (a b c : Order) :
  priced a -> priced b -> priced c ->
  prioritizeMin a b = false -> prioritizeMin b c = false ->
  prioritizeMin a c = false.
Proof. intros Ha Hb Hc. price_cases a b c. Qed.

(** What "[a] is not ranked below [b]" says about prices and times. *)
Lemma prioritizeMax_false (a b : Order) :
  priced a -> priced b ->
  prioritizeMax a b = false ->
  F32.gt (getPrice b) (getPrice a) = false /\
  (SFeqb (getPrice a) (getPrice b) = true -> getTime a <= getTime b).
Proof. intros Ha Hb H. split; [ | intros E ]; price_cases a b b. Qed.

Lemma prioritizeMin_false (a b : Order) :
  priced a -> priced b ->
  prioritizeMin a b = false ->
  F32.lt (getPrice b) (getPrice a) = false /\
  (SFeqb (getPrice a) (getPrice b) = true -> getTime a <= getTime b).
Proof. intros Ha Hb H. split; [ | intros E ]; price_cases a b b. Qed.

Section OrderedQueues.

Variable comp : Order -> Order -> bool.
Hypothesis comp_asym :
  forall a b, priced a -> priced b -> comp a b = true -> comp b a = false.
Hypothesis comp_negtrans :
  forall a b c, priced a -> priced b -> priced c ->
                comp a b = false -> comp b c = false -> comp a c = false.

Lemma ordered_push (x : Order) (q : PQ.t) :
  priced x -> PQ.ordered comp q -> PQ.ordered comp (PQ.push comp x q).
Proof.
  intros Hx [Hs Hp]. split; [ | now apply push_Forall ].
  induction Hs as [ | h rest Hrest IH Hh ]; simpl.
  - repeat constructor.
  - inversion Hp as [ | ? ? Hph Hprest ]; subst.
    destruct (comp h x) eqn:E.
    + constructor; [ now constructor | ].
      constructor; [ now apply comp_asym | ].
      rewrite Forall_forall in *. intros y Hy.
      apply (comp_negtrans x h y); auto.
    + constructor; [ now apply IH | ].
      rewrite Forall_forall in *. intros y Hy.
      apply push_In in Hy. destruct Hy as [-> | Hy]; auto.
Qed.

Lemma ordered_pop (q : PQ.t) : PQ.ordered comp q -> PQ.ordered comp (PQ.pop q).
Proof.
  intros [Hs Hp]. destruct q as [ | h rest ]; simpl.
  - now split.
  - inversion Hs; inversion Hp; now split.
Qed.

Lemma reachable_ordered (q : PQ.t) :
  PQ.reachable comp q -> PQ.ordered comp q.
Proof.
  induction 1 as [ | x q Hx _ IH | q _ IH ].
  - split; constructor.
  - now apply ordered_push.
  - now apply ordered_pop.
Qed.

Lemma pop_iter_nil (k : nat) : Nat.iter k PQ.pop [] = [].
Proof. induction k as [ | k IH ]; simpl; [ | rewrite IH ]; reflexivity. Qed.

Lemma returned_nth (k : nat) (q : PQ.t) : PQ.returned k q = nth_error q k.
Proof.
  unfold PQ.returned, PQ.top. revert q.
  induction k as [ | k IH ]; intros q.
  - destruct q; reflexivity.
  - rewrite Nat.iter_succ_r. destruct q as [ | h rest ]; simpl.
    + now rewrite pop_iter_nil.
    + apply IH.
Qed.

Lemma sorted_nth (R : Order -> Order -> Prop) (q : PQ.t) :
  StronglySorted R q ->
  forall i j x y, (i < j)%nat ->
                  nth_error q i = Some x -> nth_error q j = Some y -> R x y.
Proof.
  induction 1 as [ | h rest Hrest IH Hh ]; intros i j x y Hij Hi Hj.
  - destruct i; discriminate.
  - destruct j as [ | j ]; [ lia | ]. simpl in Hj.
    destruct i as [ | i ]; simpl in Hi.
    + injection Hi as <-. rewrite Forall_forall in Hh.
      apply Hh. eapply nth_error_In; eauto.
    + apply (IH i j); auto. lia.
Qed.

Lemma reachable_returned (q : PQ.t) :
  PQ.reachable comp q ->
  forall i j x y, (i < j)%nat ->
                  PQ.returned i q = Some x -> PQ.returned j q = Some y ->
                  priced x /\ priced y /\ comp x y = false.
Proof.
  intros Hq i j x y Hij Hi Hj. rewrite returned_nth in Hi, Hj.
  destruct (reachable_ordered q Hq) as [Hs Hp].
  rewrite Forall_forall in Hp. repeat split.
  - apply Hp. eapply nth_error_In; eauto.
  - apply Hp. eapply nth_error_In; eauto.
  - apply (sorted_nth _ q Hs i j); auto.
Qed.

End OrderedQueues.

(** C7: in a buy queue, an order is never returned before an order of a
    higher price, and never before an order of the same price and an
    earlier time; in a sell queue, an order is never returned before an
    order of a lower price, and never before an order of the same price and
    an earlier time.  The queues are those built from the empty queue by
    [push] and [pop] of orders whose price is a number. *)
Theorem price_time_priority (i j : nat) (x y : Order) (q : PQ.t) :
  (i < j)%nat ->
  PQ.returned i q = Some x ->
  PQ.returned j q = Some y ->
  (PQ.reachable prioritizeMax q ->
     F32.gt (getPrice y) (getPrice x) = false /\
     (SFeqb (getPrice x) (getPrice y) = true -> getTime x <= getTime y)) /\
  (PQ.reachable prioritizeMin q ->
     F32.lt (getPrice y) (getPrice x) = false /\
     (SFeqb (getPrice x) (getPrice y) = true -> getTime x <= getTime y)).
Proof.
  intros Hij Hi Hj. split; intros Hq.
  - destruct (reachable_returned prioritizeMax
                prioritizeMax_asym prioritizeMax_negtrans q Hq i j x y Hij Hi Hj)
      as (Hx & Hy & Hc).
    apply (prioritizeMax_false x y Hx Hy Hc).
  - destruct (reachable_returned prioritizeMin
                prioritizeMin_asym prioritizeMin_negtrans q Hq i j x y Hij Hi Hj)
      as (Hx & Hy & Hc).
    apply (prioritizeMin_false x y Hx Hy Hc).
Qed.

Lemma sampleBuys_reachable : PQ.reachable prioritizeMax sampleBuys.
Proof.
  unfold sampleBuys, pushBuy.
  repeat (apply PQ.reachable_push; [ reflexivity | ]).
  apply PQ.reachable_empty.
Qed.

Lemma sampleSells_reachable : PQ.reachable prioritizeMin sampleSells.
Proof.
  unfold sampleSells, pushSell.
  repeat (apply PQ.reachable_push; [ reflexivity | ]).
  apply PQ.reachable_empty.
Qed.

(** In [sampleBuys] the order of 8:45 at price 10 is returned before the
    order of 9:00 at price 10; in [sampleSells] the order at price 11 is
    returned before the order of 8:45 at price 12. *)
Lemma price_time_priority_witness :
  (F32.gt (F32.of_int 10) (F32.of_int 10) = false /\
   (SFeqb (F32.of_int 10) (F32.of_int 10) = true -> 845 <= 900)) /\
  (F32.lt (F32.of_int 12) (F32.of_int 11) = false /\
   (SFeqb (F32.of_int 11) (F32.of_int 12) = true -> 930 <= 845)).
Proof.
  split.
  - refine (proj1 (price_time_priority 1 2
                     (newOrder "X" 11 false true (F32.of_int 10) 845 3)
                     (newOrder "X" 13 false true (F32.of_int 10) 900 1)
                     sampleBuys _ _ _) sampleBuys_reachable);
      [ lia | reflexivity | reflexivity ].
  - refine (proj2 (price_time_priority 0 1
                     (newOrder "X" 22 false false (F32.of_int 11) 930 2)
                     (newOrder "X" 21 false false (F32.of_int 12) 845 3)
                     sampleSells _ _ _) sampleSells_reachable);
      [ lia | reflexivity | reflexivity ].
Defined.

(* ------------------------------------------------------------------ *)
(** ** The binary32 computation of the share

    The lemmas follow the mantissa and the exponent through the conversion
    of the three amounts, the division and the multiplication; they bound
    the exponent of each result, which is enough to see that the share is
    positive and fits an [int]. *)

Ltac pow_atoms :=
  repeat match goal with
         | |- context [ Z.pow ?b ?e ] =>
             let x := fresh "pw" in
             remember (Z.pow b e) as x eqn:?Epw in *; clear Epw
         | H : context [ Z.pow ?b ?e ] |- _ =>
             let x := fresh "pw" in
             remember (Z.pow b e) as x eqn:?Epw in *; clear Epw
         end.

Lemma digits2_pos_bounds (p : positive) :
  2 ^ (Z.pos (digits2_pos p) - 1) <= Z.pos p < 2 ^ Z.pos (digits2_pos p).
Proof.
  induction p as [ p IH | p IH | ]; simpl digits2_pos.
  - rewrite Pos2Z.inj_succ. change (Z.pos p~1) with (2 * Z.pos p + 1).
    replace (Z.succ (Z.pos (digits2_pos p)) - 1) with (Z.succ (Z.pos (digits2_pos p) - 1)) by lia.
    rewrite !Z.pow_succ_r by lia. pow_atoms. lia.
  - rewrite Pos2Z.inj_succ. change (Z.pos p~0) with (2 * Z.pos p).
    replace (Z.succ (Z.pos (digits2_pos p)) - 1) with (Z.succ (Z.pos (digits2_pos p) - 1)) by lia.
    rewrite !Z.pow_succ_r by lia. pow_atoms. lia.
  - simpl. lia.
Qed.

Lemma digits2_pos_unique (p : positive) (d : Z) :
  2 ^ (d - 1) <= Z.pos p < 2 ^ d -> Z.pos (digits2_pos p) = d.
Proof.
  intros [Hlo Hhi]. pose proof (digits2_pos_bounds p) as [Hlo' Hhi'].
  assert (Hd : 0 < d).
  { destruct (Z.ltb_spec 0 d); auto.
    assert (2 ^ d <= 1).
    { destruct (Z.eqb_spec d 0); [ subst; simpl; lia | ].
      rewrite Z.pow_neg_r by lia. lia. }
    lia. }
  destruct (Z.lt_trichotomy (Z.pos (digits2_pos p)) d) as [H | [H | H]]; auto.
  - assert (2 ^ Z.pos (digits2_pos p) <= 2 ^ (d - 1))
      by (apply Z.pow_le_mono_r; lia). lia.
  - assert (2 ^ d <= 2 ^ (Z.pos (digits2_pos p) - 1))
      by (apply Z.pow_le_mono_r; lia). lia.
Qed.

Lemma shr_1_m (mrs : shr_record) :
  0 <= shr_m mrs -> shr_m (shr_1 mrs) = shr_m mrs / 2.
Proof.
  destruct mrs as [m r s]. simpl. intros Hm.
  destruct m as [ | [ p | p | ] | p ]; simpl shr_m; try lia.
  - reflexivity.
  - change (Z.pos p~1) with (2 * Z.pos p + 1). apply Z.div_unique with (r := 1); lia.
  - change (Z.pos p~0) with (2 * Z.pos p). apply Z.div_unique with (r := 0); lia.
  - reflexivity.
Qed.

Lemma shr_1_nonneg (mrs : shr_record) :
  0 <= shr_m mrs -> 0 <= shr_m (shr_1 mrs).
Proof.
  intros H. rewrite shr_1_m by auto. apply Z.div_pos; lia.
Qed.

Lemma iter_pos_shr_m (p : positive) (mrs : shr_record) :
  0 <= shr_m mrs ->
  shr_m (iter_pos shr_1 p mrs) = shr_m mrs / 2 ^ Z.pos p.
Proof.
  revert mrs. induction p as [ p IH | p IH | ]; intros mrs Hm; simpl iter_pos.
  - assert (H1 : 0 <= shr_m (shr_1 mrs)) by now apply shr_1_nonneg.
    assert (H2 : 0 <= shr_m (iter_pos shr_1 p (shr_1 mrs))).
    { rewrite IH by auto. apply Z.div_pos; [ auto | ]. apply Z.pow_pos_nonneg; lia. }
    rewrite IH, IH, shr_1_m by auto.
    rewrite !Z.div_div by (try apply Z.pow_pos_nonneg; lia).
    f_equal. change (Z.pos p~1) with (2 * Z.pos p + 1).
    replace (2 * Z.pos p + 1) with (Z.succ (Z.pos p + Z.pos p)) by lia.
    rewrite Z.pow_succ_r, Z.pow_add_r by lia. lia.
  - assert (H2 : 0 <= shr_m (iter_pos shr_1 p mrs)).
    { rewrite IH by auto. apply Z.div_pos; [ auto | ]. apply Z.pow_pos_nonneg; lia. }
    rewrite IH, IH by auto.
    rewrite !Z.div_div by (try apply Z.pow_pos_nonneg; lia).
    f_equal. change (Z.pos p~0) with (2 * Z.pos p).
    replace (2 * Z.pos p) with (Z.pos p + Z.pos p) by lia.
    rewrite Z.pow_add_r by lia. lia.
  - rewrite shr_1_m by auto. reflexivity.
Qed.

Lemma Zdigits2_pos (p : positive) : Zdigits2 (Z.pos p) = Z.pos (digits2_pos p).
Proof. reflexivity. Qed.

Lemma shr_record_of_loc_m (m : Z) (l : location) :
  shr_m (shr_record_of_loc m l) = m.
Proof. destruct l as [ | [ | | ] ]; reflexivity. Qed.

Lemma shr_spec (mrs : shr_record) (e n : Z) :
  0 <= n -> 0 <= shr_m mrs ->
  shr_m (fst (shr mrs e n)) = shr_m mrs / 2 ^ n /\ snd (shr mrs e n) = e + n.
Proof.
  intros Hn Hm. destruct n as [ | p | p ]; simpl; try lia.
  - rewrite Z.div_1_r. split; [ reflexivity | lia ].
  - split; [ | reflexivity ]. now apply iter_pos_shr_m.
Qed.

Lemma shr_fexp_normal (m e d : Z) (l : location) :
  0 < m -> Zdigits2 m = d -> 24 <= d -> -149 <= e + d - 24 ->
  shr_m (fst (shr_fexp 24 128 m e l)) = m / 2 ^ (d - 24) /\
  snd (shr_fexp 24 128 m e l) = e + d - 24.
Proof.
  intros Hm Hd Hd24 He. unfold shr_fexp. rewrite Hd.
  replace (fexp 24 128 (d + e) - e) with (d - 24)
    by (unfold fexp, emin; lia).
  destruct (shr_spec (shr_record_of_loc m l) e (d - 24)) as [H1 H2];
    rewrite ?shr_record_of_loc_m; try lia.
  rewrite H1, H2, shr_record_of_loc_m. split; [ reflexivity | lia ].
Qed.

Lemma round_nearest_even_bounds (mx : Z) (lx : location) :
  mx <= round_nearest_even mx lx <= mx + 1.
Proof.
  destruct lx as [ | [ | | ] ]; simpl; try lia.
  destruct (Z.even mx); lia.
Qed.

Lemma pow2_split (a b : Z) : 0 <= a -> 0 <= b -> 2 ^ (a + b) = 2 ^ a * 2 ^ b.
Proof. intros. now apply Z.pow_add_r. Qed.

(** Rounding a positive mantissa of at least 24 digits, within the range of
    the normal numbers: the result is a positive normal number whose
    exponent is the exponent of the leading digit or the next one. *)
Lemma binary_round_aux_normal (m : positive) (e : Z) (l : location) :
  24 <= Z.pos (digits2_pos m) ->
  -149 <= e + Z.pos (digits2_pos m) - 24 ->
  e + Z.pos (digits2_pos m) - 23 <= 104 ->
  exists m' e',
    binary_round_aux 24 128 false (Z.pos m) e l = S754_finite false m' e' /\
    2 ^ 23 <= Z.pos m' < 2 ^ 24 /\
    e + Z.pos (digits2_pos m) - 24 <= e' <= e + Z.pos (digits2_pos m) - 23.
Proof.
  pose proof (digits2_pos_bounds m) as Hm.
  remember (Z.pos (digits2_pos m)) as d eqn:Ed. intros Hd Hlo Hhi.
  unfold binary_round_aux.
  destruct (shr_fexp_normal (Z.pos m) e d l) as [H1 H2]; auto; try lia.
  destruct (shr_fexp 24 128 (Z.pos m) e l) as [mrs1 e1]. cbn [fst snd] in H1, H2.
  remember (shr_m mrs1) as m1 eqn:Em1.
  assert (Hm1 : 2 ^ 23 <= m1 < 2 ^ 24).
  { rewrite H1. split.
    - apply Z.div_le_lower_bound; [ apply Z.pow_pos_nonneg; lia | ].
      rewrite <- pow2_split by lia. replace (d - 24 + 23) with (d - 1) by lia. lia.
    - apply Z.div_lt_upper_bound; [ apply Z.pow_pos_nonneg; lia | ].
      rewrite <- pow2_split by lia. replace (d - 24 + 24) with d by lia. lia. }
  pose proof (round_nearest_even_bounds m1 (loc_of_shr_record mrs1)) as Hr.
  destruct (round_nearest_even m1 (loc_of_shr_record mrs1)) as [ | p2 | p2 ];
    try lia.
  destruct (Z.eq_dec (Z.pos p2) (2 ^ 24)) as [Htop | Hnot].
  - (* the rounding carried into a 25th digit *)
    assert (Hd2 : Zdigits2 (Z.pos p2) = 25).
    { rewrite Zdigits2_pos. apply digits2_pos_unique. rewrite Htop. simpl. lia. }
    destruct (shr_fexp_normal (Z.pos p2) e1 25 loc_Exact) as [H3 H4]; auto; try lia.
    destruct (shr_fexp 24 128 (Z.pos p2) e1 loc_Exact) as [mrs2 e2].
    cbn [fst snd] in H3, H4. rewrite H3, Htop.
    change (2 ^ 24 / 2 ^ (25 - 24)) with (Z.pos (2 ^ 23)).
    replace (e2 <=? 128 - 24) with true by (symmetry; apply Z.leb_le; lia).
    exists (2 ^ 23)%positive, e2. split; [ reflexivity | ]. split; [ simpl; lia | lia ].
  - assert (Hd2 : Zdigits2 (Z.pos p2) = 24).
    { rewrite Zdigits2_pos. apply digits2_pos_unique. simpl. simpl in Hm1. lia. }
    destruct (shr_fexp_normal (Z.pos p2) e1 24 loc_Exact) as [H3 H4]; auto; try lia.
    destruct (shr_fexp 24 128 (Z.pos p2) e1 loc_Exact) as [mrs2 e2].
    cbn [fst snd] in H3, H4. rewrite H3.
    change (2 ^ (24 - 24)) with 1. rewrite Z.div_1_r.
    replace (e2 <=? 128 - 24) with true by (symmetry; apply Z.leb_le; lia).
    exists p2, e2. split; [ reflexivity | ]. split; [ simpl in *; lia | lia ].
Qed.

Lemma pos_iter_xO (p k : positive) :
  Z.pos (Pos.iter xO p k) = Z.pos p * 2 ^ Z.pos k.
Proof.
  induction k as [ | k IH ] using Pos.peano_ind.
  - rewrite Z.pow_1_r. change (Pos.iter xO p 1) with (p~0)%positive. lia.
  - rewrite Pos.iter_succ, Pos2Z.inj_succ, Z.pow_succ_r by lia.
    change (Z.pos (Pos.iter xO p k)~0) with (2 * Z.pos (Pos.iter xO p k)).
    rewrite IH. ring.
Qed.

Lemma of_int_normal (z d : Z) :
  2 ^ (d - 1) <= z < 2 ^ d -> 1 <= d <= 31 ->
  normalPos (F32.of_int z) (d - 24) (d - 23).
Proof.
  intros Hz Hd.
  assert (Hpos : 0 < z).
  { assert (0 < 2 ^ (d - 1)) by (apply Z.pow_pos_nonneg; lia). lia. }
  destruct z as [ | p | p ]; try lia.
  assert (Hdp : Z.pos (digits2_pos p) = d) by now apply digits2_pos_unique.
  unfold F32.of_int, binary_normalize, binary_round, F32.prec, F32.emax.
  rewrite Hdp.
  replace (fexp 24 128 (d + 0)) with (d - 24) by (unfold fexp, emin; lia).
  unfold shl_align.
  destruct (d - 24 - 0) as [ | k | k ] eqn:Ek.
  - destruct (binary_round_aux_normal p 0 loc_Exact) as (m' & e' & E & Hm & He);
      try lia.
    exists m', e'. rewrite E. repeat split; lia.
  - destruct (binary_round_aux_normal p 0 loc_Exact) as (m' & e' & E & Hm & He);
      try lia.
    exists m', e'. rewrite E. repeat split; lia.
  - assert (Hk : Z.pos k = 24 - d) by lia.
    assert (Hdk : Z.pos (digits2_pos (Pos.iter xO p k)) = 24).
    { apply digits2_pos_unique. rewrite pos_iter_xO, Hk.
      assert (E1 : 2 ^ (24 - 1) = 2 ^ (d - 1) * 2 ^ (24 - d)).
      { rewrite <- pow2_split by lia. f_equal. lia. }
      assert (E2 : 2 ^ 24 = 2 ^ d * 2 ^ (24 - d)).
      { rewrite <- pow2_split by lia. f_equal. lia. }
      assert (0 < 2 ^ (24 - d)) by (apply Z.pow_pos_nonneg; lia).
      rewrite E1, E2. split.
      - apply Z.mul_le_mono_nonneg_r; lia.
      - apply Z.mul_lt_mono_pos_r; lia. }
    destruct (binary_round_aux_normal (Pos.iter xO p k) (d - 24) loc_Exact)
      as (m' & e' & E & Hm & He); try lia.
    exists m', e'. rewrite E. repeat split; lia.
Qed.

Lemma Zdiv_eucl_div_mod (a b : Z) : Z.div_eucl a b = (a / b, a mod b).
Proof. unfold Z.div, Z.modulo. now destruct (Z.div_eucl a b). Qed.

Lemma div_normal (m1 m2 : positive) (e1 e2 : Z) :
  2 ^ 23 <= Z.pos m1 < 2 ^ 24 -> 2 ^ 23 <= Z.pos m2 < 2 ^ 24 ->
  -149 <= e1 - e2 - 24 -> e1 - e2 - 22 <= 104 ->
  normalPos (F32.div (S754_finite false m1 e1) (S754_finite false m2 e2))
            (e1 - e2 - 24) (e1 - e2 - 22).
Proof.
  intros H1 H2 Hlo Hhi.
  assert (D1 : Zdigits2 (Z.pos m1) = 24) by now apply digits2_pos_unique.
  assert (D2 : Zdigits2 (Z.pos m2) = 24) by now apply digits2_pos_unique.
  unfold F32.div, SFdiv, SFdiv_core_binary, F32.prec, F32.emax.
  rewrite D1, D2.
  replace (Z.min (fexp 24 128 (24 + e1 - (24 + e2))) (e1 - e2))
    with (e1 - e2 - 24) by (unfold fexp, emin; lia).
  replace (e1 - e2 - (e1 - e2 - 24)) with 24 by lia.
  cbv beta iota zeta.
  rewrite Z.shiftl_mul_pow2, Zdiv_eucl_div_mod by lia.
  cbn [xorb].
  set (q := Z.pos m1 * 2 ^ 24 / Z.pos m2).
  assert (Hq : 2 ^ 23 <= q < 2 ^ 25).
  { unfold q. split.
    - apply Z.div_le_lower_bound; [ lia | ].
      change (2 ^ 23) with 8388608 in *. change (2 ^ 24) with 16777216 in *. lia.
    - apply Z.div_lt_upper_bound; [ lia | ].
      change (2 ^ 23) with 8388608 in *. change (2 ^ 24) with 16777216 in *.
      change (2 ^ 25) with 33554432. lia. }
  clearbody q. destruct q as [ | pq | pq ]; try (simpl in Hq; lia).
  destruct (Z.ltb_spec (Z.pos pq) (2 ^ 24)) as [Hlt | Hge].
  - assert (Dq : Z.pos (digits2_pos pq) = 24)
      by (apply digits2_pos_unique; simpl in *; lia).
    destruct (binary_round_aux_normal pq (e1 - e2 - 24)
                (new_location (Z.pos m2) (Z.pos m1 * 2 ^ 24 mod Z.pos m2)))
      as (m' & e' & E & Hm & He); try lia.
    exists m', e'. rewrite E. repeat split; lia.
  - assert (Dq : Z.pos (digits2_pos pq) = 25)
      by (apply digits2_pos_unique; simpl in *; lia).
    destruct (binary_round_aux_normal pq (e1 - e2 - 24)
                (new_location (Z.pos m2) (Z.pos m1 * 2 ^ 24 mod Z.pos m2)))
      as (m' & e' & E & Hm & He); try lia.
    exists m', e'. rewrite E. repeat split; lia.
Qed.

Lemma mul_normal (m1 m2 : positive) (e1 e2 : Z) :
  2 ^ 23 <= Z.pos m1 < 2 ^ 24 -> 2 ^ 23 <= Z.pos m2 < 2 ^ 24 ->
  -149 <= e1 + e2 + 23 -> e1 + e2 + 25 <= 104 ->
  normalPos (F32.mul (S754_finite false m1 e1) (S754_finite false m2 e2))
            (e1 + e2 + 23) (e1 + e2 + 25).
Proof.
  intros H1 H2 Hlo Hhi.
  unfold F32.mul, SFmul, F32.prec, F32.emax. cbn [xorb].
  assert (Hp : 2 ^ 46 <= Z.pos (m1 * m2) < 2 ^ 48).
  { rewrite Pos2Z.inj_mul.
    change (2 ^ 46) with (2 ^ 23 * 2 ^ 23). change (2 ^ 48) with (2 ^ 24 * 2 ^ 24).
    split.
    - apply Z.mul_le_mono_nonneg; lia.
    - apply Z.mul_lt_mono_nonneg; lia. }
  destruct (Z.ltb_spec (Z.pos (m1 * m2)) (2 ^ 47)) as [Hlt | Hge].
  - assert (Dq : Z.pos (digits2_pos (m1 * m2)) = 47)
      by (apply digits2_pos_unique; simpl in *; lia).
    destruct (binary_round_aux_normal (m1 * m2) (e1 + e2) loc_Exact)
      as (m' & e' & E & Hm & He); try lia.
    exists m', e'. rewrite E. repeat split; lia.
  - assert (Dq : Z.pos (digits2_pos (m1 * m2)) = 48)
      by (apply digits2_pos_unique; simpl in *; lia).
    destruct (binary_round_aux_normal (m1 * m2) (e1 + e2) loc_Exact)
      as (m' & e' & E & Hm & He); try lia.
    exists m', e'. rewrite E. repeat split; lia.
Qed.

Lemma digits_le (a b x : Z) :
  2 ^ (a - 1) <= x -> x < 2 ^ b -> 0 <= b -> a <= b.
Proof.
  intros Ha Hb Hb0. destruct (Z.le_gt_cases a b) as [ | Hgt ]; auto.
  assert (2 ^ b <= 2 ^ (a - 1)) by (apply Z.pow_le_mono_r; lia). lia.
Qed.

(** The ceiling of a positive normal number is at least one, and it fits an
    [int] when the exponent is at most 7. *)
Lemma ceil_value_normal (x : spec_float) (lo hi : Z) :
  normalPos x lo hi ->
  exists z, F32.ceil_value x = Some z /\ 1 <= z /\
            (hi <= 7 -> z <= Int.max_signed).
Proof.
  intros (m & e & -> & Hm & He).
  unfold F32.ceil_value, Int.max_signed. eexists. split; [ reflexivity | ].
  destruct e as [ | pe | pe ].
  - simpl in *. lia.
  - assert (Hp : 1 <= 2 ^ Z.pos pe).
    { assert (0 < 2 ^ Z.pos pe) by (apply Z.pow_pos_nonneg; lia). lia. }
    change (2 ^ 23) with 8388608 in Hm. change (2 ^ 24) with 16777216 in Hm.
    split; [ nia | ]. intros Hhi.
    assert (Hq : 2 ^ Z.pos pe <= 2 ^ 7) by (apply Z.pow_le_mono_r; lia).
    change (2 ^ 7) with 128 in Hq. change (2 ^ 31) with 2147483648. nia.
  - assert (Hp : 0 < 2 ^ Z.pos pe) by (apply Z.pow_pos_nonneg; lia).
    assert (Hq1 : - Z.pos m / 2 ^ Z.pos pe < 0)
      by (apply Z.div_lt_upper_bound; lia).
    assert (Hq2 : - Z.pos m <= - Z.pos m / 2 ^ Z.pos pe)
      by (apply Z.div_le_lower_bound; nia).
    change (2 ^ 24) with 16777216 in Hm. change (2 ^ 31) with 2147483648.
    change (Z.neg m) with (- Z.pos m). lia.
Qed.

Lemma ceil_to_int_normal (x : spec_float) (lo : Z) :
  normalPos x lo 7 -> 1 <= F32.ceil_to_int x <= Int.max_signed.
Proof.
  intros Hx. destruct (ceil_value_normal x lo 7 Hx) as (z & Ez & Hz1 & Hz2).
  specialize (Hz2 ltac:(lia)). unfold F32.ceil_to_int. rewrite Ez.
  replace (Int.min_signed <=? z) with true
    by (symmetry; apply Z.leb_le; unfold Int.min_signed, Int.max_signed in *; lia).
  replace (z <=? Int.max_signed) with true by (symmetry; apply Z.leb_le; lia).
  split; assumption.
Qed.

(** The binary32 product [B0 * (s / L)] of positive [int]s with [s <= L] is
    a positive normal number; its exponent is at most the number of binary
    digits of [B0] less 19. *)
Lemma product_normal (B0 s L dB : Z) :
  2 ^ (dB - 1) <= B0 < 2 ^ dB -> 1 <= dB <= 31 ->
  0 < s <= L -> L <= Int.max_signed ->
  normalPos (F32.mul (F32.of_int B0) (F32.div (F32.of_int s) (F32.of_int L)))
            (dB - 57) (dB - 19).
Proof.
  intros HB HdB Hs HL. unfold Int.max_signed in HL.
  destruct s as [ | ps | ps ]; try lia.
  destruct L as [ | pL | pL ]; try lia.
  pose proof (digits2_pos_bounds ps) as Ds.
  pose proof (digits2_pos_bounds pL) as DL.
  remember (Z.pos (digits2_pos ps)) as ds eqn:Eds.
  remember (Z.pos (digits2_pos pL)) as dL eqn:EdL.
  assert (HdL : 1 <= dL <= 31).
  { split; [ lia | ]. apply (digits_le dL 31 (Z.pos pL)); lia. }
  assert (Hds : 1 <= ds <= dL).
  { split; [ lia | ]. apply (digits_le ds dL (Z.pos ps)); lia. }
  destruct (of_int_normal B0 dB) as (mB & eB & EB & HmB & HeB); try lia.
  destruct (of_int_normal (Z.pos ps) ds) as (ms & es & Es & Hms & Hes); try lia.
  destruct (of_int_normal (Z.pos pL) dL) as (mL & eL & EL & HmL & HeL); try lia.
  rewrite EB, Es, EL.
  destruct (div_normal ms mL es eL) as (mp & ep & Ep & Hmp & Hep); try lia.
  rewrite Ep.
  destruct (mul_normal mB mp eB ep) as (mx & ex & Ex & Hmx & Hex); try lia.
  exists mx, ex. rewrite Ex. repeat split; lia.
Qed.

Lemma int_digits (z : Z) :
  0 < z <= Int.max_signed ->
  exists d, 2 ^ (d - 1) <= z < 2 ^ d /\ 1 <= d <= 31 /\ (z < 2 ^ 26 -> d <= 26).
Proof.
  intros Hz. unfold Int.max_signed in Hz. destruct z as [ | p | p ]; try lia.
  pose proof (digits2_pos_bounds p) as D.
  exists (Z.pos (digits2_pos p)). split; [ exact D | ]. split.
  - split; [ lia | ]. apply (digits_le _ 31 (Z.pos p)); lia.
  - intros H. apply (digits_le _ 26 (Z.pos p)); lia.
Qed.

(** The value that the conversion to [int] meets is at least one; it is an
    [int] when [B0] is below [2^26]. *)
Lemma share_value (B0 s L : Z) :
  0 < B0 <= Int.max_signed -> 0 < s <= L -> L <= Int.max_signed ->
  exists z,
    F32.ceil_value
      (F32.mul (F32.of_int B0) (F32.div (F32.of_int s) (F32.of_int L))) = Some z /\
    1 <= z /\ (B0 < 2 ^ 26 -> z <= Int.max_signed).
Proof.
  intros HB Hs HL. destruct (int_digits B0 HB) as (dB & D1 & D2 & D3).
  destruct (ceil_value_normal _ _ _ (product_normal B0 s L dB D1 D2 Hs HL))
    as (z & Ez & Hz1 & Hz2).
  exists z. split; [ exact Ez | ]. split; [ exact Hz1 | ].
  intros Hsmall. apply Hz2. specialize (D3 Hsmall). lia.
Qed.

(** A share that is defined is the value of [proportionalShare], a positive
    [int]. *)
Lemma shareDefined_share (B0 s L : Z) :
  0 < B0 <= Int.max_signed -> 0 < s <= L -> L <= Int.max_signed ->
  shareDefined B0 s L ->
  1 <= proportionalShare B0 s L <= Int.max_signed.
Proof.
  intros HB Hs HL (c & Ec & Hc).
  destruct (share_value B0 s L HB Hs HL) as (z & Ez & Hz & _).
  rewrite Ez in Ec. injection Ec as <-.
  unfold proportionalShare, F32.ceil_to_int. cbv zeta. rewrite Ez.
  replace (Int.min_signed <=? z) with true
    by (symmetry; apply Z.leb_le; unfold Int.min_signed; lia).
  replace (z <=? Int.max_signed) with true by (symmetry; apply Z.leb_le; lia).
  split; assumption.
Qed.

Lemma convertible_below (B : Z) : B < 2 ^ 26 -> convertible B.
Proof.
  intros HB B0 s L HB0 Hs HL.
  assert (HB0' : 0 < B0 <= Int.max_signed).
  { unfold Int.max_signed. change (2 ^ 26) with 67108864 in HB.
    change (2 ^ 31) with 2147483648. lia. }
  destruct (share_value B0 s L HB0' Hs HL) as (z & Ez & _ & Hz).
  exists z. split; [ exact Ez | ]. apply Hz. lia.
Qed.

Lemma convertible_le (B B' : Z) : B' <= B -> convertible B -> convertible B'.
Proof. intros H Hc B0 s L HB0. apply Hc. lia. Qed.

(** The share that the binary32 computation allots is at least one unit and
    is representable as an [int], for positive amounts within the stated
    bounds. *)
Lemma proportionalShare_bounds (B0 s L : Z) :
  0 < B0 < 2 ^ 26 -> 0 < s <= L -> L <= Int.max_signed ->
  1 <= proportionalShare B0 s L <= Int.max_signed.
Proof.
  intros HB Hs HL.
  assert (HB' : 0 < B0 <= Int.max_signed).
  { unfold Int.max_signed. change (2 ^ 26) with 67108864 in HB.
    change (2 ^ 31) with 2147483648. lia. }
  apply shareDefined_share; auto.
  apply (convertible_below B0); lia.
Qed.

(** The least integer that is not below [m * 2^e], written without
    fractions, is the value that the conversion meets. *)
Lemma ceil_value_ceiling (m : positive) (e c : Z) :
  (c - 1) * 2 ^ Z.max 0 (- e) < Z.pos m * 2 ^ Z.max 0 e <= c * 2 ^ Z.max 0 (- e) ->
  F32.ceil_value (S754_finite false m e) = Some c.
Proof.
  intros H. unfold F32.ceil_value. f_equal.
  destruct e as [ | pe | pe ].
  - simpl in H. lia.
  - replace (Z.max 0 (- Z.pos pe)) with 0 in H by lia.
    replace (Z.max 0 (Z.pos pe)) with (Z.pos pe) in H by lia.
    rewrite Z.pow_0_r in H. lia.
  - replace (Z.max 0 (- Z.neg pe)) with (Z.pos pe) in H by lia.
    replace (Z.max 0 (Z.neg pe)) with 0 in H by lia.
    rewrite Z.pow_0_r in H.
    assert (Hp : 0 < 2 ^ Z.pos pe) by (apply Z.pow_pos_nonneg; lia).
    change (Z.neg m) with (- Z.pos m).
    assert (E : - Z.pos m / 2 ^ Z.pos pe = - c).
    { symmetry. apply (Z.div_unique_pos _ _ _ (c * 2 ^ Z.pos pe - Z.pos m)); lia. }
    rewrite E. lia.
Qed.

(** *** The conversion is defined for every buy order below [2^31 - 64]

    The lemmas that follow sharpen the bounds above: they describe the
    round and sticky bits of the shift by the remainder of the division,
    so that the rounding is known exactly; the conversion of [int]s then
    is monotone, the quotient of [sellQty] by a total that is not smaller
    is at most one, and the product does not exceed [(float) B0]. *)

Lemma mod_pow2_succ (x j : Z) :
  0 <= j -> x mod 2 ^ (j + 1) = x mod 2 ^ j + 2 ^ j * ((x / 2 ^ j) mod 2).
Proof.
  intros Hj. rewrite Z.pow_add_r, Z.pow_1_r by lia.
  apply Z.rem_mul_r; [ | lia ].
  assert (0 < 2 ^ j) by (apply Z.pow_pos_nonneg; lia). lia.
Qed.

(** One shift to the right: the mantissa is halved, and the location
    becomes the location of the remainder modulo [2^(j+1)]. *)
Lemma shr_1_step (x j : Z) (mrs : shr_record) :
  0 <= x -> 0 <= j ->
  shr_m mrs = x / 2 ^ j ->
  loc_of_shr_record mrs =
    (if x mod 2 ^ j =? 0 then loc_Exact
     else loc_Inexact (2 * (x mod 2 ^ j) ?= 2 ^ j)) ->
  shr_m (shr_1 mrs) = x / 2 ^ (j + 1) /\
  loc_of_shr_record (shr_1 mrs) =
    (if x mod 2 ^ (j + 1) =? 0 then loc_Exact
     else loc_Inexact (2 * (x mod 2 ^ (j + 1)) ?= 2 ^ (j + 1))).
Proof.
  intros Hx Hj Hm Hl.
  assert (Hp : 0 < 2 ^ j) by (apply Z.pow_pos_nonneg; lia).
  assert (Hq : 0 <= x / 2 ^ j) by (apply Z.div_pos; lia).
  pose proof (Z.mod_pos_bound x (2 ^ j) Hp) as Hr.
  split.
  - rewrite shr_1_m by lia. rewrite Hm, Z.div_div by lia.
    now rewrite Z.pow_add_r, Z.pow_1_r by lia.
  - rewrite (mod_pow2_succ x j Hj).
    rewrite Z.pow_add_r, Z.pow_1_r by lia.
    pose proof (Z.mod_pos_bound (x / 2 ^ j) 2 ltac:(lia)) as Hb.
    pose proof (Z.div_mod (x / 2 ^ j) 2 ltac:(lia)) as Hd.
    destruct mrs as [m r s]. cbn [shr_m] in Hm. subst m.
    remember (x / 2 ^ j) as m eqn:Em. remember (x mod 2 ^ j) as rem eqn:Erem.
    remember (2 ^ j) as N eqn:EN.
    assert (Hloc : (rem = 0 /\ r = false /\ s = false) \/
                   (0 < rem /\ 2 * rem < N /\ r = false /\ s = true) \/
                   (2 * rem = N /\ r = true /\ s = false) \/
                   (N < 2 * rem /\ r = true /\ s = true)).
    { revert Hl. destruct (Z.eqb_spec rem 0) as [E0 | N0].
      - destruct r, s; simpl; try discriminate. intros _. left. auto.
      - destruct (Z.compare_spec (2 * rem) N); destruct r, s; simpl;
          try discriminate; intros _; [ right; right; left | right; left
                                        | right; right; right ];
          repeat split; auto; lia. }
    destruct m as [ | [ p | p | ] | p ]; try lia;
      cbn [shr_1 loc_of_shr_record].
    + (* m = 0 *)
      change (0 mod 2) with 0. rewrite Z.mul_0_r, Z.add_0_r.
      destruct Hloc as [(-> & -> & ->) | [(H1 & H2 & -> & ->) | [(H1 & -> & ->) | (H1 & -> & ->)]]];
        cbn [orb].
      * reflexivity.
      * replace (rem =? 0) with false by (symmetry; apply Z.eqb_neq; lia).
        f_equal. symmetry. apply Z.compare_lt_iff. lia.
      * replace (rem =? 0) with false by (symmetry; apply Z.eqb_neq; lia).
        f_equal. symmetry. apply Z.compare_lt_iff. lia.
      * replace (rem =? 0) with false by (symmetry; apply Z.eqb_neq; lia).
        f_equal. symmetry. apply Z.compare_lt_iff. lia.
    + (* odd, p~1 *)
      replace (Z.pos p~1 mod 2) with 1 in * by (change (Z.pos p~1) with (2 * Z.pos p + 1) in *; lia).
      replace (rem + N * 1 =? 0) with false by (symmetry; apply Z.eqb_neq; lia).
      destruct Hloc as [(-> & -> & ->) | [(H1 & H2 & -> & ->) | [(H1 & -> & ->) | (H1 & -> & ->)]]];
        cbn [orb]; f_equal; symmetry;
        first [ apply Z.compare_eq_iff; lia | apply Z.compare_gt_iff; lia ].
    + (* even, p~0 *)
      replace (Z.pos p~0 mod 2) with 0 in * by (change (Z.pos p~0) with (2 * Z.pos p) in *; lia).
      rewrite Z.mul_0_r, Z.add_0_r.
      destruct Hloc as [(-> & -> & ->) | [(H1 & H2 & -> & ->) | [(H1 & -> & ->) | (H1 & -> & ->)]]];
        cbn [orb]; try reflexivity;
        replace (rem =? 0) with false by (symmetry; apply Z.eqb_neq; lia);
        f_equal; symmetry; apply Z.compare_lt_iff; lia.
    + (* m = 1 *)
      change (1 mod 2) with 1.
      replace (rem + N * 1 =? 0) with false by (symmetry; apply Z.eqb_neq; lia).
      destruct Hloc as [(-> & -> & ->) | [(H1 & H2 & -> & ->) | [(H1 & -> & ->) | (H1 & -> & ->)]]];
        cbn [orb]; f_equal; symmetry;
        first [ apply Z.compare_eq_iff; lia | apply Z.compare_gt_iff; lia ].
Qed.

Lemma iter_pos_shift (x : Z) (p : positive) :
  0 <= x ->
  forall (j : Z) (mrs : shr_record),
  0 <= j ->
  shr_m mrs = x / 2 ^ j ->
  loc_of_shr_record mrs =
    (if x mod 2 ^ j =? 0 then loc_Exact
     else loc_Inexact (2 * (x mod 2 ^ j) ?= 2 ^ j)) ->
  shr_m (iter_pos shr_1 p mrs) = x / 2 ^ (j + Z.pos p) /\
  loc_of_shr_record (iter_pos shr_1 p mrs) =
    (if x mod 2 ^ (j + Z.pos p) =? 0 then loc_Exact
     else loc_Inexact (2 * (x mod 2 ^ (j + Z.pos p)) ?= 2 ^ (j + Z.pos p))).
Proof.
  intros Hx. induction p as [ p IH | p IH | ]; intros j mrs Hj Hm Hl;
    cbn [iter_pos].
  - destruct (shr_1_step x j mrs Hx Hj Hm Hl) as [H1 H2].
    destruct (IH (j + 1) _ ltac:(lia) H1 H2) as [H3 H4].
    destruct (IH (j + 1 + Z.pos p) _ ltac:(lia) H3 H4) as [H5 H6].
    replace (j + Z.pos p~1) with (j + 1 + Z.pos p + Z.pos p) by lia.
    split; assumption.
  - destruct (IH j _ Hj Hm Hl) as [H3 H4].
    destruct (IH (j + Z.pos p) _ ltac:(lia) H3 H4) as [H5 H6].
    replace (j + Z.pos p~0) with (j + Z.pos p + Z.pos p) by lia.
    split; assumption.
  - apply shr_1_step; assumption.
Qed.

(** The first shift of [binary_round_aux] on an exact mantissa of [d >= 24]
    digits: the quotient by [2^(d-24)], and the location of the
    remainder. *)
Lemma shr_fexp_exact (m e d : Z) :
  0 < m -> Zdigits2 m = d -> 24 <= d -> -149 <= e + d - 24 ->
  shr_m (fst (shr_fexp 24 128 m e loc_Exact)) = m / 2 ^ (d - 24) /\
  loc_of_shr_record (fst (shr_fexp 24 128 m e loc_Exact)) =
    (if m mod 2 ^ (d - 24) =? 0 then loc_Exact
     else loc_Inexact (2 * (m mod 2 ^ (d - 24)) ?= 2 ^ (d - 24))) /\
  snd (shr_fexp 24 128 m e loc_Exact) = e + d - 24.
Proof.
  intros Hm Hd Hd24 He. unfold shr_fexp. rewrite Hd.
  replace (fexp 24 128 (d + e) - e) with (d - 24)
    by (unfold fexp, emin; lia).
  destruct (d - 24) as [ | p | p ] eqn:Ek; try lia.
  - cbn [shr fst snd shr_record_of_loc shr_m loc_of_shr_record].
    rewrite Z.pow_0_r, Z.div_1_r, Z.mod_1_r. simpl. repeat split; lia.
  - cbn [shr fst snd].
    destruct (iter_pos_shift m p ltac:(lia) 0 (shr_record_of_loc m loc_Exact))
      as [H1 H2]; try lia.
    + cbn [shr_record_of_loc shr_m]. now rewrite Z.pow_0_r, Z.div_1_r.
    + cbn [shr_record_of_loc loc_of_shr_record].
      now rewrite Z.pow_0_r, Z.mod_1_r.
    + rewrite Z.add_0_l in H1, H2. repeat split; auto; lia.
Qed.

(** Rounding an exact positive mantissa of at least 24 digits, within the
    range of the normal numbers. *)
Lemma binary_round_aux_exact (m : positive) (e d : Z) :
  Z.pos (digits2_pos m) = d -> 24 <= d ->
  -149 <= e + d - 24 -> e + d - 23 <= 104 ->
  exists p2 : Z,
    p2 = round_nearest_even (Z.pos m / 2 ^ (d - 24))
           (if Z.pos m mod 2 ^ (d - 24) =? 0 then loc_Exact
            else loc_Inexact (2 * (Z.pos m mod 2 ^ (d - 24)) ?= 2 ^ (d - 24))) /\
    2 ^ 23 <= p2 <= 2 ^ 24 /\
    binary_round_aux 24 128 false (Z.pos m) e loc_Exact =
      (if p2 <? 2 ^ 24 then S754_finite false (Z.to_pos p2) (e + d - 24)
       else S754_finite false (2 ^ 23)%positive (e + d - 23)).
Proof.
  intros Ed Hd Hlo Hhi. pose proof (digits2_pos_bounds m) as Hm. rewrite Ed in Hm.
  eexists. split; [ reflexivity | ].
  unfold binary_round_aux.
  destruct (shr_fexp_exact (Z.pos m) e d) as (H1 & Hl & H2); auto; try lia.
  destruct (shr_fexp 24 128 (Z.pos m) e loc_Exact) as [mrs1 e1].
  cbn [fst snd] in H1, Hl, H2. rewrite Hl, H1.
  remember (Z.pos m / 2 ^ (d - 24)) as m1 eqn:Em1.
  assert (Hm1 : 2 ^ 23 <= m1 < 2 ^ 24).
  { rewrite Em1. split.
    - apply Z.div_le_lower_bound; [ apply Z.pow_pos_nonneg; lia | ].
      rewrite <- pow2_split by lia. replace (d - 24 + 23) with (d - 1) by lia. lia.
    - apply Z.div_lt_upper_bound; [ apply Z.pow_pos_nonneg; lia | ].
      rewrite <- pow2_split by lia. replace (d - 24 + 24) with d by lia. lia. }
  match goal with
  | |- context [ round_nearest_even m1 ?l ] =>
      pose proof (round_nearest_even_bounds m1 l) as Hr;
      remember (round_nearest_even m1 l) as p2 eqn:Ep2
  end.
  split; [ change (2 ^ 23) with 8388608 in *; change (2 ^ 24) with 16777216 in *; lia | ].
  destruct p2 as [ | p2 | p2 ]; try (change (2 ^ 23) with 8388608 in *; lia).
  destruct (Z.ltb_spec (Z.pos p2) (2 ^ 24)) as [Hlt | Hge].
  - assert (Hd2 : Zdigits2 (Z.pos p2) = 24).
    { rewrite Zdigits2_pos. apply digits2_pos_unique. simpl. simpl in Hm1. lia. }
    destruct (shr_fexp_normal (Z.pos p2) e1 24 loc_Exact) as [H3 H4]; auto; try lia.
    destruct (shr_fexp 24 128 (Z.pos p2) e1 loc_Exact) as [mrs2 e2].
    cbn [fst snd] in H3, H4. rewrite H3.
    change (2 ^ (24 - 24)) with 1. rewrite Z.div_1_r.
    replace (e2 <=? 128 - 24) with true by (symmetry; apply Z.leb_le; lia).
    cbn [Z.to_pos]. f_equal. lia.
  - assert (Htop : Z.pos p2 = 2 ^ 24)
      by (change (2 ^ 24) with 16777216 in *; lia).
    assert (Hd2 : Zdigits2 (Z.pos p2) = 25).
    { rewrite Zdigits2_pos. apply digits2_pos_unique. rewrite Htop. simpl. lia. }
    destruct (shr_fexp_normal (Z.pos p2) e1 25 loc_Exact) as [H3 H4]; auto; try lia.
    destruct (shr_fexp 24 128 (Z.pos p2) e1 loc_Exact) as [mrs2 e2].
    cbn [fst snd] in H3, H4. rewrite H3, Htop.
    change (2 ^ 24 / 2 ^ (25 - 24)) with (Z.pos (2 ^ 23)).
    replace (e2 <=? 128 - 24) with true by (symmetry; apply Z.leb_le; lia).
    f_equal. lia.
Qed.

(** [(float) z] for a positive [int] of [d] binary digits: exact up to 24
    digits; beyond, the leading 24 digits rounded to nearest, ties to even,
    with the exponent raised when the rounding carries. *)
Lemma of_int_shape (z d : Z) :
  2 ^ (d - 1) <= z < 2 ^ d -> 1 <= d <= 31 ->
  exists m e,
    F32.of_int z = S754_finite false m e /\
    2 ^ 23 <= Z.pos m < 2 ^ 24 /\
    ((d <= 24 /\ Z.pos m = z * 2 ^ (24 - d) /\ e = d - 24) \/
     (25 <= d /\
      exists p2,
        p2 = round_nearest_even (z / 2 ^ (d - 24))
               (if z mod 2 ^ (d - 24) =? 0 then loc_Exact
                else loc_Inexact (2 * (z mod 2 ^ (d - 24)) ?= 2 ^ (d - 24))) /\
        ((p2 < 2 ^ 24 /\ Z.pos m = p2 /\ e = d - 24) \/
         (p2 = 2 ^ 24 /\ Z.pos m = 2 ^ 23 /\ e = d - 23)))).
Proof.
  intros Hz Hd.
  assert (Hpos : 0 < z).
  { assert (0 < 2 ^ (d - 1)) by (apply Z.pow_pos_nonneg; lia). lia. }
  destruct z as [ | p | p ]; try lia.
  assert (Hdp : Z.pos (digits2_pos p) = d) by now apply digits2_pos_unique.
  unfold F32.of_int, binary_normalize, binary_round, F32.prec, F32.emax.
  rewrite Hdp.
  replace (fexp 24 128 (d + 0)) with (d - 24) by (unfold fexp, emin; lia).
  unfold shl_align.
  destruct (d - 24 - 0) as [ | k | k ] eqn:Ek.
  - (* d = 24 *)
    assert (Ed : d = 24) by lia. rewrite Ed in *. clear Ek.
    destruct (binary_round_aux_exact p 0 24 Hdp) as (p2 & E2 & R2 & E); try lia.
    change (2 ^ (24 - 24)) with 1 in E2.
    rewrite Z.div_1_r, Z.mod_1_r in E2. simpl in E2. subst p2.
    replace (Z.pos p <? 2 ^ 24) with true in E by (symmetry; apply Z.ltb_lt; lia).
    exists p, 0. rewrite E. split; [ reflexivity | ]. split; [ simpl in *; lia | ].
    left. simpl. lia.
  - (* d > 24 *)
    assert (Hd25 : 25 <= d) by lia.
    destruct (binary_round_aux_exact p 0 d Hdp) as (p2 & E2 & R2 & E); try lia.
    destruct (Z.ltb_spec p2 (2 ^ 24)) as [Hlt | Hge].
    + destruct p2 as [ | q | q ]; try (change (2 ^ 23) with 8388608 in *; lia).
      exists q, (d - 24). rewrite E. cbn [Z.to_pos].
      split; [ f_equal; lia | ]. split; [ lia | ].
      right. split; [ exact Hd25 | ]. eexists. split; [ exact E2 | ].
      left. repeat split; lia.
    + exists (2 ^ 23)%positive, (d - 23). rewrite E.
      split; [ f_equal; lia | ]. split; [ simpl; lia | ].
      right. split; [ exact Hd25 | ]. eexists. split; [ exact E2 | ].
      right. repeat split; try lia.
  - (* d < 24 *)
    assert (Hk : Z.pos k = 24 - d) by lia.
    assert (Em : Z.pos (Pos.iter xO p k) = Z.pos p * 2 ^ (24 - d))
      by (rewrite pos_iter_xO, Hk; reflexivity).
    assert (Hrange : 2 ^ 23 <= Z.pos (Pos.iter xO p k) < 2 ^ 24).
    { rewrite Em.
      assert (E1 : 2 ^ (24 - 1) = 2 ^ (d - 1) * 2 ^ (24 - d)).
      { rewrite <- pow2_split by lia. f_equal. lia. }
      assert (E2 : 2 ^ 24 = 2 ^ d * 2 ^ (24 - d)).
      { rewrite <- pow2_split by lia. f_equal. lia. }
      assert (0 < 2 ^ (24 - d)) by (apply Z.pow_pos_nonneg; lia).
      change (2 ^ 23) with (2 ^ (24 - 1)). rewrite E1, E2. split.
      - apply Z.mul_le_mono_nonneg_r; lia.
      - apply Z.mul_lt_mono_pos_r; lia. }
    assert (Hdk : Z.pos (digits2_pos (Pos.iter xO p k)) = 24)
      by (apply digits2_pos_unique; exact Hrange).
    destruct (binary_round_aux_exact (Pos.iter xO p k) (d - 24) 24 Hdk)
      as (p2 & E2 & R2 & E); try lia.
    change (2 ^ (24 - 24)) with 1 in E2.
    rewrite Z.div_1_r, Z.mod_1_r in E2. simpl in E2. subst p2.
    replace (Z.pos (Pos.iter xO p k) <? 2 ^ 24) with true in E
      by (symmetry; apply Z.ltb_lt; lia).
    exists (Pos.iter xO p k), (d - 24). rewrite E. cbn [Z.to_pos].
    split; [ f_equal; lia | ]. split; [ exact Hrange | ].
    left. repeat split; try lia.
Qed.

Lemma round_nearest_even_mono (m1 r1 r2 N : Z) :
  0 <= r1 <= r2 ->
  round_nearest_even m1
    (if r1 =? 0 then loc_Exact else loc_Inexact (2 * r1 ?= N)) <=
  round_nearest_even m1
    (if r2 =? 0 then loc_Exact else loc_Inexact (2 * r2 ?= N)).
Proof.
  intros H.
  destruct (Z.eqb_spec r1 0), (Z.eqb_spec r2 0); try lia;
    repeat match goal with
           | |- context [ ?a ?= ?b ] => destruct (Z.compare_spec a b)
           end;
    cbn [round_nearest_even]; try destruct (Z.even m1); lia.
Qed.

(** The conversion of [int]s to binary32 is monotone. *)
Lemma round_shift_mono (s L k : Z) :
  0 <= k -> 0 <= s <= L ->
  round_nearest_even (s / 2 ^ k)
    (if s mod 2 ^ k =? 0 then loc_Exact
     else loc_Inexact (2 * (s mod 2 ^ k) ?= 2 ^ k)) <=
  round_nearest_even (L / 2 ^ k)
    (if L mod 2 ^ k =? 0 then loc_Exact
     else loc_Inexact (2 * (L mod 2 ^ k) ?= 2 ^ k)).
Proof.
  intros Hk H.
  assert (Hp : 0 < 2 ^ k) by (apply Z.pow_pos_nonneg; lia).
  pose proof (Z.div_le_mono s L (2 ^ k) Hp ltac:(lia)) as Hq.
  pose proof (Z.div_mod s (2 ^ k) ltac:(lia)) as Ds.
  pose proof (Z.div_mod L (2 ^ k) ltac:(lia)) as DL.
  pose proof (Z.mod_pos_bound s (2 ^ k) Hp) as Rs.
  pose proof (Z.mod_pos_bound L (2 ^ k) Hp) as RL.
  destruct (Z.eq_dec (s / 2 ^ k) (L / 2 ^ k)) as [E | N].
  - rewrite E. apply round_nearest_even_mono. rewrite E in Ds. nia.
  - match goal with
    | |- round_nearest_even _ ?l1 <= round_nearest_even _ ?l2 =>
        pose proof (round_nearest_even_bounds (s / 2 ^ k) l1);
        pose proof (round_nearest_even_bounds (L / 2 ^ k) l2)
    end.
    lia.
Qed.

Lemma of_int_mono (s L : Z) :
  0 < s <= L -> L <= Int.max_signed ->
  exists ms es mL eL,
    F32.of_int s = S754_finite false ms es /\
    F32.of_int L = S754_finite false mL eL /\
    2 ^ 23 <= Z.pos ms < 2 ^ 24 /\ 2 ^ 23 <= Z.pos mL < 2 ^ 24 /\
    -23 <= es <= 8 /\ -23 <= eL <= 8 /\
    (es < eL \/ (es = eL /\ Z.pos ms <= Z.pos mL)).
Proof.
  intros Hs HL.
  destruct (int_digits s ltac:(lia)) as (ds & Ds & Rs & _).
  destruct (int_digits L ltac:(lia)) as (dL & DL & RL & _).
  assert (Hd : ds <= dL) by (apply (digits_le ds dL s); lia).
  destruct (of_int_shape s ds Ds Rs) as (ms & es & Es & Ms & Ss).
  destruct (of_int_shape L dL DL RL) as (mL & eL & EL & ML & SL).
  exists ms, es, mL, eL.
  split; [ exact Es | ]. split; [ exact EL | ].
  split; [ exact Ms | ]. split; [ exact ML | ].
  assert (Hes : ds - 24 <= es <= ds - 23 /\ (es = ds - 23 -> Z.pos ms = 2 ^ 23)).
  { destruct Ss as [(_ & _ & ->) | (_ & p2 & _ & [(_ & _ & ->) | (_ & Hm & ->)])];
      split; try lia; intros; auto; lia. }
  assert (HeL : dL - 24 <= eL <= dL - 23).
  { destruct SL as [(_ & _ & ->) | (_ & p2 & _ & [(_ & _ & ->) | (_ & Hm & ->)])];
      lia. }
  split; [ lia | ]. split; [ lia | ].
  destruct (Z.eq_dec ds dL) as [Ed | Nd].
  - subst dL.
    destruct Ss as [(Hs1 & Hs2 & Hs3) | (Hs1 & p2s & Ep2s & Hs2)];
      destruct SL as [(HL1 & HL2 & HL3) | (HL1 & p2L & Ep2L & HL2)]; try lia.
    + right. split; [ lia | ].
      assert (0 < 2 ^ (24 - ds)) by (apply Z.pow_pos_nonneg; lia). nia.
    + assert (Hmono : p2s <= p2L).
      { rewrite Ep2s, Ep2L. apply round_shift_mono; lia. }
      destruct Hs2 as [(A1 & A2 & A3) | (A1 & A2 & A3)];
        destruct HL2 as [(B1 & B2 & B3) | (B1 & B2 & B3)]; try lia.
  - destruct Hes as [Hes1 Hes2].
    destruct (Z.eq_dec es eL) as [Ee | Ne]; [ | left; lia ].
    right. split; [ exact Ee | ]. rewrite Hes2 by lia. lia.
Qed.

(** Rounding a positive mantissa of at least 24 digits: when the exponent
    of the result is raised, the mantissa of the result is [2^23]. *)
Lemma binary_round_aux_carry (m : positive) (e : Z) (l : location) :
  24 <= Z.pos (digits2_pos m) ->
  -149 <= e + Z.pos (digits2_pos m) - 24 ->
  e + Z.pos (digits2_pos m) - 23 <= 104 ->
  exists m' e',
    binary_round_aux 24 128 false (Z.pos m) e l = S754_finite false m' e' /\
    2 ^ 23 <= Z.pos m' < 2 ^ 24 /\
    (e' = e + Z.pos (digits2_pos m) - 24 \/
     (e' = e + Z.pos (digits2_pos m) - 23 /\ Z.pos m' = 2 ^ 23)).
Proof.
  pose proof (digits2_pos_bounds m) as Hm.
  remember (Z.pos (digits2_pos m)) as d eqn:Ed. intros Hd Hlo Hhi.
  unfold binary_round_aux.
  destruct (shr_fexp_normal (Z.pos m) e d l) as [H1 H2]; auto; try lia.
  destruct (shr_fexp 24 128 (Z.pos m) e l) as [mrs1 e1]. cbn [fst snd] in H1, H2.
  remember (shr_m mrs1) as m1 eqn:Em1.
  assert (Hm1 : 2 ^ 23 <= m1 < 2 ^ 24).
  { rewrite H1. split.
    - apply Z.div_le_lower_bound; [ apply Z.pow_pos_nonneg; lia | ].
      rewrite <- pow2_split by lia. replace (d - 24 + 23) with (d - 1) by lia. lia.
    - apply Z.div_lt_upper_bound; [ apply Z.pow_pos_nonneg; lia | ].
      rewrite <- pow2_split by lia. replace (d - 24 + 24) with d by lia. lia. }
  pose proof (round_nearest_even_bounds m1 (loc_of_shr_record mrs1)) as Hr.
  destruct (round_nearest_even m1 (loc_of_shr_record mrs1)) as [ | p2 | p2 ];
    try lia.
  destruct (Z.eq_dec (Z.pos p2) (2 ^ 24)) as [Htop | Hnot].
  - assert (Hd2 : Zdigits2 (Z.pos p2) = 25).
    { rewrite Zdigits2_pos. apply digits2_pos_unique. rewrite Htop. simpl. lia. }
    destruct (shr_fexp_normal (Z.pos p2) e1 25 loc_Exact) as [H3 H4]; auto; try lia.
    destruct (shr_fexp 24 128 (Z.pos p2) e1 loc_Exact) as [mrs2 e2].
    cbn [fst snd] in H3, H4. rewrite H3, Htop.
    change (2 ^ 24 / 2 ^ (25 - 24)) with (Z.pos (2 ^ 23)).
    replace (e2 <=? 128 - 24) with true by (symmetry; apply Z.leb_le; lia).
    exists (2 ^ 23)%positive, e2. split; [ reflexivity | ].
    split; [ simpl; lia | ]. right. split; [ lia | reflexivity ].
  - assert (Hd2 : Zdigits2 (Z.pos p2) = 24).
    { rewrite Zdigits2_pos. apply digits2_pos_unique. simpl. simpl in Hm1. lia. }
    destruct (shr_fexp_normal (Z.pos p2) e1 24 loc_Exact) as [H3 H4]; auto; try lia.
    destruct (shr_fexp 24 128 (Z.pos p2) e1 loc_Exact) as [mrs2 e2].
    cbn [fst snd] in H3, H4. rewrite H3.
    change (2 ^ (24 - 24)) with 1. rewrite Z.div_1_r.
    replace (e2 <=? 128 - 24) with true by (symmetry; apply Z.leb_le; lia).
    exists p2, e2. split; [ reflexivity | ]. split; [ simpl in *; lia | ].
    left. lia.
Qed.

(** The binary32 quotient of two positive normal numbers of which the
    first is not the greater is at most one. *)
Lemma div_at_most_one (m1 m2 : positive) (e1 e2 : Z) :
  2 ^ 23 <= Z.pos m1 < 2 ^ 24 -> 2 ^ 23 <= Z.pos m2 < 2 ^ 24 ->
  -23 <= e1 <= 8 -> -23 <= e2 <= 8 ->
  e1 < e2 \/ (e1 = e2 /\ Z.pos m1 <= Z.pos m2) ->
  exists mp ep,
    F32.div (S754_finite false m1 e1) (S754_finite false m2 e2) =
      S754_finite false mp ep /\
    2 ^ 23 <= Z.pos mp < 2 ^ 24 /\ -56 <= ep /\
    (ep <= -24 \/ (Z.pos mp = 2 ^ 23 /\ ep = -23)).
Proof.
  intros H1 H2 He1 He2 Hle.
  assert (D1 : Zdigits2 (Z.pos m1) = 24) by now apply digits2_pos_unique.
  assert (D2 : Zdigits2 (Z.pos m2) = 24) by now apply digits2_pos_unique.
  unfold F32.div, SFdiv, SFdiv_core_binary, F32.prec, F32.emax.
  rewrite D1, D2.
  replace (Z.min (fexp 24 128 (24 + e1 - (24 + e2))) (e1 - e2))
    with (e1 - e2 - 24) by (unfold fexp, emin; lia).
  replace (e1 - e2 - (e1 - e2 - 24)) with 24 by lia.
  cbv beta iota zeta.
  rewrite Z.shiftl_mul_pow2, Zdiv_eucl_div_mod by lia.
  cbn [xorb].
  destruct (Z.eq_dec (Z.pos m1) (Z.pos m2)) as [Em | Nm];
    [ destruct (Z.eq_dec e1 e2) as [Ee | Ne] | ].
  - (* the quotient is one *)
    injection Em as ->. subst e2.
    rewrite (Z.mul_comm (Z.pos m2)), Z.div_mul, Z_mod_mult by lia.
    replace (e1 - e1 - 24) with (-24) by lia.
    replace (new_location (Z.pos m2) 0) with loc_Exact
      by (unfold new_location, new_location_even, new_location_odd;
          destruct (Z.even (Z.pos m2)); reflexivity).
    exists (2 ^ 23)%positive, (-23). split; [ vm_compute; reflexivity | ].
    split; [ simpl; lia | ]. split; [ lia | ]. right. split; reflexivity.
  - set (q := Z.pos m1 * 2 ^ 24 / Z.pos m2).
    assert (Hq : 2 ^ 23 <= q < 2 ^ 25).
    { unfold q. split.
      - apply Z.div_le_lower_bound; [ lia | ].
        change (2 ^ 23) with 8388608 in *. change (2 ^ 24) with 16777216 in *. lia.
      - apply Z.div_lt_upper_bound; [ lia | ].
        change (2 ^ 23) with 8388608 in *. change (2 ^ 24) with 16777216 in *.
        change (2 ^ 25) with 33554432. lia. }
    clearbody q. destruct q as [ | pq | pq ]; try (simpl in Hq; lia).
    pose proof (digits2_pos_bounds pq) as Dq.
    assert (Hdq : 24 <= Z.pos (digits2_pos pq) <= 25).
    { split.
      - destruct (Z.le_gt_cases 24 (Z.pos (digits2_pos pq))) as [ | Hgt ]; auto.
        assert (2 ^ Z.pos (digits2_pos pq) <= 2 ^ 23)
          by (apply Z.pow_le_mono_r; lia). lia.
      - apply (digits_le _ 25 (Z.pos pq)); lia. }
    destruct (binary_round_aux_carry pq (e1 - e2 - 24)
                (new_location (Z.pos m2) (Z.pos m1 * 2 ^ 24 mod Z.pos m2)))
      as (m' & e' & E & Hm & He); try lia.
    exists m', e'. rewrite E. split; [ reflexivity | ]. split; [ exact Hm | ].
    split; [ lia | ]. destruct He as [He | [He Hc]]; [ left; lia | ].
    destruct (Z.eq_dec e' (-23)) as [E23 | N23]; [ right; auto | left; lia ].
  - (* equal exponents, smaller mantissa, or a smaller exponent *)
    set (q := Z.pos m1 * 2 ^ 24 / Z.pos m2).
    assert (Hq : 2 ^ 23 <= q < 2 ^ 25).
    { unfold q. split.
      - apply Z.div_le_lower_bound; [ lia | ].
        change (2 ^ 23) with 8388608 in *. change (2 ^ 24) with 16777216 in *. lia.
      - apply Z.div_lt_upper_bound; [ lia | ].
        change (2 ^ 23) with 8388608 in *. change (2 ^ 24) with 16777216 in *.
        change (2 ^ 25) with 33554432. lia. }
    assert (Hq24 : e1 = e2 -> q < 2 ^ 24).
    { intros Ee. unfold q. apply Z.div_lt_upper_bound; [ lia | ].
      change (2 ^ 24) with 16777216 in *. nia. }
    clearbody q. destruct q as [ | pq | pq ]; try (simpl in Hq; lia).
    pose proof (digits2_pos_bounds pq) as Dq.
    assert (Hdq : 24 <= Z.pos (digits2_pos pq) <= 25).
    { split.
      - destruct (Z.le_gt_cases 24 (Z.pos (digits2_pos pq))) as [ | Hgt ]; auto.
        assert (2 ^ Z.pos (digits2_pos pq) <= 2 ^ 23)
          by (apply Z.pow_le_mono_r; lia). lia.
      - apply (digits_le _ 25 (Z.pos pq)); lia. }
    assert (Hdq24 : e1 = e2 -> Z.pos (digits2_pos pq) = 24).
    { intros Ee. specialize (Hq24 Ee).
      apply digits2_pos_unique. simpl in *. lia. }
    destruct (binary_round_aux_carry pq (e1 - e2 - 24)
                (new_location (Z.pos m2) (Z.pos m1 * 2 ^ 24 mod Z.pos m2)))
      as (m' & e' & E & Hm & He); try lia.
    exists m', e'. rewrite E. split; [ reflexivity | ]. split; [ exact Hm | ].
    split; [ lia | ].
    destruct Hle as [Hlt | [Ee _]].
    + destruct He as [He | [He Hc]]; [ left; lia | ].
      destruct (Z.eq_dec e' (-23)) as [E23 | N23]; [ right; auto | left; lia ].
    + specialize (Hdq24 Ee).
      destruct He as [He | [He Hc]]; [ left; lia | right; split; [ exact Hc | lia ] ].
Qed.

(** The binary32 product of a positive normal number and a positive normal
    number that is at most one does not exceed the first factor. *)
Lemma mul_at_most (mB mp : positive) (eB ep : Z) :
  2 ^ 23 <= Z.pos mB < 2 ^ 24 -> 2 ^ 23 <= Z.pos mp < 2 ^ 24 ->
  -23 <= eB <= 8 -> -56 <= ep ->
  ep <= -24 \/ (Z.pos mp = 2 ^ 23 /\ ep = -23) ->
  exists mx ex,
    F32.mul (S754_finite false mB eB) (S754_finite false mp ep) =
      S754_finite false mx ex /\
    2 ^ 23 <= Z.pos mx < 2 ^ 24 /\ -56 <= ex <= eB.
Proof.
  intros HB Hp HeB Hep Hone.
  unfold F32.mul, SFmul, F32.prec, F32.emax. cbn [xorb].
  assert (Hm : 2 ^ 46 <= Z.pos (mB * mp) < 2 ^ 48).
  { rewrite Pos2Z.inj_mul.
    change (2 ^ 46) with (2 ^ 23 * 2 ^ 23). change (2 ^ 48) with (2 ^ 24 * 2 ^ 24).
    split.
    - apply Z.mul_le_mono_nonneg; lia.
    - apply Z.mul_lt_mono_nonneg; lia. }
  destruct (Z.ltb_spec (Z.pos (mB * mp)) (2 ^ 47)) as [Hlt | Hge].
  - assert (Dq : Z.pos (digits2_pos (mB * mp)) = 47)
      by (apply digits2_pos_unique; simpl in *; lia).
    destruct (binary_round_aux_exact (mB * mp) (eB + ep) 47 Dq)
      as (p2 & E2 & R2 & E); try lia.
    rewrite E. change (47 - 24) with 23 in E2.
    destruct (Z.ltb_spec p2 (2 ^ 24)) as [Hp2 | Hp2].
    + destruct p2 as [ | q | q ]; try (change (2 ^ 23) with 8388608 in *; lia).
      exists q, (eB + ep + 47 - 24). cbn [Z.to_pos].
      split; [ reflexivity | ]. split; [ lia | ]. lia.
    + exists (2 ^ 23)%positive, (eB + ep + 47 - 23).
      split; [ reflexivity | ]. split; [ simpl; lia | ].
      destruct Hone as [Hone | [Em Ee]]; [ lia | ].
      (* the second factor is one: the product is the first factor *)
      exfalso. rewrite Pos2Z.inj_mul, Em in E2.
      rewrite Z.div_mul, Z_mod_mult in E2 by lia. simpl in E2. lia.
  - assert (Dq : Z.pos (digits2_pos (mB * mp)) = 48)
      by (apply digits2_pos_unique; simpl in *; lia).
    destruct (binary_round_aux_exact (mB * mp) (eB + ep) 48 Dq)
      as (p2 & E2 & R2 & E); try lia.
    rewrite E. change (48 - 24) with 24 in E2.
    assert (Hnot : ep <= -24).
    { destruct Hone as [Hone | [Em Ee]]; [ exact Hone | ].
      exfalso. rewrite Pos2Z.inj_mul, Em in Hge.
      change (2 ^ 47) with (2 ^ 24 * 2 ^ 23) in Hge. nia. }
    assert (Hm1 : Z.pos (mB * mp) / 2 ^ 24 < Z.pos mB).
    { apply Z.div_lt_upper_bound; [ lia | ]. rewrite Pos2Z.inj_mul. nia. }
    match type of E2 with
    | _ = round_nearest_even ?a ?l =>
        pose proof (round_nearest_even_bounds a l) as Hr
    end.
    rewrite <- E2 in Hr.
    replace (p2 <? 2 ^ 24) with true by (symmetry; apply Z.ltb_lt; lia).
    destruct p2 as [ | q | q ]; try (change (2 ^ 23) with 8388608 in *; lia).
    exists q, (eB + ep + 48 - 24). cbn [Z.to_pos].
    split; [ reflexivity | ]. split; [ lia | ]. lia.
Qed.

(** [(float) B0] stays below [2^31] for [B0 < 2^31 - 64]. *)
Lemma of_int_below (B0 : Z) :
  0 < B0 < 2 ^ 31 - 64 ->
  exists mB eB,
    F32.of_int B0 = S754_finite false mB eB /\
    2 ^ 23 <= Z.pos mB < 2 ^ 24 /\ -23 <= eB <= 7.
Proof.
  intros HB.
  destruct (int_digits B0) as (d & D1 & D2 & _);
    [ unfold Int.max_signed; lia | ].
  destruct (of_int_shape B0 d D1 D2) as (m & e & E & Hm & Hs).
  exists m, e. split; [ exact E | ]. split; [ exact Hm | ].
  destruct Hs as [(H1 & _ & ->) | (H1 & p2 & Ep2 & [(_ & _ & ->) | (Htop & _ & ->)])];
    try lia.
  destruct (Z.eq_dec d 31) as [-> | Nd]; [ exfalso | lia ].
  change (2 ^ (31 - 24)) with 128 in Ep2. change (2 ^ 31) with 2147483648 in HB.
  change (2 ^ 24) with 16777216 in Htop.
  pose proof (Z.div_mod B0 128 ltac:(lia)) as Dm.
  pose proof (Z.mod_pos_bound B0 128 ltac:(lia)) as Rm.
  assert (Hq : B0 / 128 <= 16777215)
    by (apply Z.lt_succ_r, Z.div_lt_upper_bound; lia).
  revert Ep2.
  destruct (Z.eqb_spec (B0 mod 128) 0); cbn [round_nearest_even]; [ lia | ].
  destruct (Z.compare_spec (2 * (B0 mod 128)) 128); cbn [round_nearest_even];
    try destruct (Z.even (B0 / 128)); lia.
Qed.

(** The share of a buy order below [2^31 - 64] is defined. *)
Lemma convertible_int (B : Z) : B < 2 ^ 31 - 64 -> convertible B.
Proof.
  intros HB B0 s L HB0 Hs HL.
  destruct (of_int_below B0 ltac:(lia)) as (mB & eB & EB & HmB & HeB).
  destruct (of_int_mono s L Hs HL)
    as (ms & es & mL & eL & Es & EL & Hms & HmL & Hes & HeL & Hle).
  destruct (div_at_most_one ms mL es eL Hms HmL Hes HeL Hle)
    as (mp & ep & Ep & Hmp & Hep & Hone).
  destruct (mul_at_most mB mp eB ep HmB Hmp ltac:(lia) Hep Hone)
    as (mx & ex & Ex & Hmx & Hex).
  unfold shareDefined. rewrite EB, Es, EL, Ep, Ex.
  destruct (ceil_value_normal (S754_finite false mx ex) (-56) 7)
    as (z & Ez & _ & Hz).
  { exists mx, ex. repeat split; lia. }
  exists z. split; [ exact Ez | ]. apply Hz. lia.
Qed.

(* ------------------------------------------------------------------ *)
(** ** Sums over queues and ledgers *)

Lemma sumOf_app {A : Type} (f : A -> Z) (l1 l2 : list A) :
  sumOf f (l1 ++ l2) = sumOf f l1 + sumOf f l2.
Proof.
  induction l1 as [ | x l1 IH ]; simpl; [ reflexivity | ].
  rewrite IH. lia.
Qed.

Lemma sumOf_perm {A : Type} (f : A -> Z) (l l' : list A) :
  Permutation l l' -> sumOf f l = sumOf f l'.
Proof. induction 1; simpl; lia. Qed.

Lemma sumOf_push (f : Order -> Z) (comp : Order -> Order -> bool)
    (x : Order) (q : PQ.t) :
  sumOf f (PQ.push comp x q) = f x + sumOf f q.
Proof. apply (sumOf_perm f _ _ (push_perm comp x q)). Qed.

Lemma sumOf_nonneg {A : Type} (f : A -> Z) (l : list A) :
  Forall (fun x => 0 <= f x) l -> 0 <= sumOf f l.
Proof. induction 1; simpl; lia. Qed.

Lemma sumOf_In_le {A : Type} (f : A -> Z) (l : list A) (x : A) :
  Forall (fun y => 0 <= f y) l -> In x l -> f x <= sumOf f l.
Proof.
  induction 1 as [ | y l Hy Hl IH ]; intros Hin; simpl in *; [ tauto | ].
  pose proof (sumOf_nonneg f l Hl).
  destruct Hin as [-> | Hin]; [ lia | ]. specialize (IH Hin). lia.
Qed.

Lemma conserved_refl (ob : Orderbook) : conserved ob ob.
Proof.
  split; [ exists []; now rewrite app_nil_r | ]. intros id. split; reflexivity.
Qed.

Lemma conserved_trans (ob1 ob2 ob3 : Orderbook) :
  conserved ob1 ob2 -> conserved ob2 ob3 -> conserved ob1 ob3.
Proof.
  intros [[f1 E1] H1] [[f2 E2] H2]. split.
  - exists (f1 ++ f2). now rewrite E2, E1, app_assoc.
  - intros id. destruct (H1 id), (H2 id). split; lia.
Qed.

(* ------------------------------------------------------------------ *)
(** ** The FIFO pass: positive amounts and conservation *)

Ltac by_identifier :=
  unfold residentQty, boughtQty, soldQty, pushBuy, pushSell;
  rewrite ?sumOf_push, ?sumOf_app; simpl;
  rewrite ?getID_setAmount; simpl;
  repeat match goal with
         | |- context [ ?a =? ?b ] => destruct (a =? b)
         end;
  lia.

Lemma fifoBody_sound (ob ob' : Orderbook) (brk : bool) :
  positiveBook ob -> fifoBody ob = Some (ob', brk) ->
  positiveBook ob' /\ conserved ob ob'.
Proof.
  intros [Hbuys Hsells]. unfold fifoBody, conserved.
  destruct (m_buyOrders ob) as [ | bestBuy buys ]; [ discriminate | ].
  destruct (m_sellOrders ob) as [ | bestSell sells ]; [ discriminate | ].
  inversion Hbuys as [ | ? ? Hb Hbuys' ]; subst.
  inversion Hsells as [ | ? ? Hs Hsells' ]; subst.
  unfold positiveAmount, Int.max_signed in Hb, Hs.
  destruct (F32.ge _ _).
  - destruct (Z.gtb_spec (getAmount bestBuy) (getAmount bestSell));
      [ | destruct (Z.ltb_spec (getAmount bestBuy) (getAmount bestSell)) ];
      intros Hres; injection Hres as <- <-; unfold positiveBook; simpl;
      rewrite ?int_sub_exact
        by (unfold Int.in_range, Int.min_signed, Int.max_signed; lia).
    + split; [ split; [ apply push_Forall | ]; auto | ].
      * unfold positiveAmount, Int.max_signed. simpl. lia.
      * split; [ eexists; reflexivity | ]. intros id. split; by_identifier.
    + split; [ split; [ | apply push_Forall ]; auto | ].
      * unfold positiveAmount, Int.max_signed. simpl. lia.
      * split; [ eexists; reflexivity | ]. intros id. split; by_identifier.
    + split; [ split; auto | ].
      split; [ eexists; reflexivity | ]. intros id. split; by_identifier.
  - intros Hres; injection Hres as <- <-; unfold positiveBook; simpl.
    split; [ split; apply push_Forall; auto | ].
    split; [ exists []; now rewrite app_nil_r | ].
    intros id. split; by_identifier.
Qed.

Lemma fifoLoop_sound (fuel : nat) (ob ob' : Orderbook) :
  positiveBook ob -> fifoLoop fuel ob = Some ob' ->
  positiveBook ob' /\ conserved ob ob'.
Proof.
  revert ob. induction fuel as [ | fuel IH ]; intros ob Hob; simpl;
    destruct (fifoBody ob) as [ [ob1 [ | ]] | ] eqn:E; intros H;
    try discriminate; try (injection H as <-).
  - now apply (fifoBody_sound ob ob1 true).
  - split; [ auto | apply conserved_refl ].
  - now apply (fifoBody_sound ob ob1 true).
  - destruct (fifoBody_sound ob ob1 false Hob E) as [H1 C1].
    destruct (IH ob1 H1 H) as [H2 C2].
    split; [ auto | now apply (conserved_trans ob ob1 ob') ].
  - split; [ auto | apply conserved_refl ].
Qed.

(* ------------------------------------------------------------------ *)
(** ** The vector of matching orders *)

Lemma vec_set_length (v : list Order) (i : nat) (x : Order) :
  List.length (vec_set v i x) = List.length v.
Proof.
  revert i. induction v as [ | h rest IH ]; intros [ | i ]; simpl; auto.
Qed.

Lemma vec_get_middle (oob : Order) (before after : list Order) (x : Order) :
  vec_get oob (before ++ x :: after) (List.length before) = x.
Proof. unfold vec_get. apply nth_middle. Qed.

Lemma vec_set_middle (before after : list Order) (x y : Order) :
  vec_set (before ++ x :: after) (List.length before) y = before ++ y :: after.
Proof.
  induction before as [ | h rest IH ]; simpl; [ reflexivity | ].
  now rewrite IH.
Qed.

Lemma vec_get_inside (oob oob' : Order) (v : list Order) (i : nat) :
  (i < List.length v)%nat -> vec_get oob v i = vec_get oob' v i.
Proof. intros H. unfold vec_get. now apply nth_indep. Qed.

(* ------------------------------------------------------------------ *)
(** ** The three inner loops of the pro-rata pass *)

Section LevelLoops.

Variable oob : Order.
Variable bestBuy : Order.

(** The search for the next level moves [indexNextPriceLevel] forward by at
    least one position and by at most [turns] positions. *)
Lemma findNextPriceLevel_bounds (v : list Order) (cur turns next : nat)
    (tr : list access) :
  (next <= fst (findNextPriceLevel oob v cur turns next tr) <= next + turns)%nat /\
  (0 < turns -> next < fst (findNextPriceLevel oob v cur turns next tr))%nat.
Proof.
  revert next tr. induction turns as [ | turns IH ]; intros next tr; simpl.
  - lia.
  - destruct (F32.gt _ _); simpl; [ lia | ].
    destruct (IH (S next) (tr ++ [AtScan (S next); AtScan cur])) as [H1 H2].
    lia.
Qed.

(** The accesses of the search: the trace grows, and every new access
    reads either position [cur] or a position up to the result. *)
Lemma findNextPriceLevel_trace (v : list Order) (cur turns next : nat)
    (tr : list access) :
  exists scans,
    snd (findNextPriceLevel oob v cur turns next tr) = tr ++ scans /\
    Forall (fun a => a = AtScan cur \/
                     exists k, a = AtScan k /\
                       (next < k <= fst (findNextPriceLevel oob v cur turns next tr))%nat)
           scans.
Proof.
  revert next tr. induction turns as [ | turns IH ]; intros next tr; simpl.
  - exists []. split; [ now rewrite app_nil_r | constructor ].
  - destruct (F32.gt _ _); simpl.
    + exists [AtScan (S next); AtScan cur]. split; [ reflexivity | ].
      constructor; [ | constructor; [ now left | constructor ] ].
      right. exists (S next). split; [ reflexivity | lia ].
    + destruct (IH (S next) (tr ++ [AtScan (S next); AtScan cur]))
        as (scans & E & Hs).
      pose proof (findNextPriceLevel_bounds v cur turns (S next)
                    (tr ++ [AtScan (S next); AtScan cur])) as [Hb _].
      exists ([AtScan (S next); AtScan cur] ++ scans).
      split; [ now rewrite E, app_assoc | ].
      apply Forall_app. split.
      * constructor; [ | constructor; [ now left | constructor ] ].
        right. exists (S next). split; [ reflexivity | lia ].
      * revert Hs. apply Forall_impl. intros a [ -> | (k & -> & Hk) ]; auto.
        right. exists k. split; [ reflexivity | lia ].
Qed.

(** The summation of a level, when the sum fits an [int]. *)
Lemma sumLevel_exact (before level after : list Order) (acc : Z) (tr : list access) :
  Forall (fun o => 0 <= getAmount o) level ->
  0 <= acc -> acc + totalAmount level <= Int.max_signed ->
  sumLevel oob (before ++ level ++ after) (List.length before) (List.length level)
           acc tr =
  (acc + totalAmount level,
   tr ++ map AtSum (seq (List.length before) (List.length level))).
Proof.
  revert before acc tr. induction level as [ | o rest IH ];
    intros before acc tr Hpos Hacc Hsum; simpl.
  - now rewrite Z.add_0_r, app_nil_r.
  - inversion Hpos as [ | ? ? Ho Hrest ]; subst.
    unfold totalAmount in *. simpl in Hsum.
    pose proof (sumOf_nonneg getAmount rest Hrest) as Hnn.
    rewrite vec_get_middle, int_add_exact
      by (unfold Int.in_range, Int.min_signed, Int.max_signed in *; lia).
    replace (before ++ o :: rest ++ after)
      with ((before ++ [o]) ++ rest ++ after) by now rewrite <- app_assoc.
    replace (S (List.length before)) with (List.length (before ++ [o]))
      by (rewrite length_app; simpl; lia).
    rewrite IH by (auto; lia).
    rewrite length_app, <- app_assoc. simpl.
    replace (List.length before + 1)%nat with (S (List.length before)) by lia.
    f_equal. lia.
Qed.

End LevelLoops.

(** What the search for the next level establishes about the prices: no
    price strictly between the two indices exceeds the price at [cur], and
    when the search stops before the end of the vector, the price it stops
    at does. *)
Lemma findNextPriceLevel_prices (oob : Order) (v : list Order)
    (cur turns next : nat) (tr : list access) :
  let next' := fst (findNextPriceLevel oob v cur turns next tr) in
  (forall k, (next < k < next')%nat ->
     F32.gt (getPrice (vec_get oob v k)) (getPrice (vec_get oob v cur)) = false) /\
  ((next' < next + turns)%nat ->
     F32.gt (getPrice (vec_get oob v next')) (getPrice (vec_get oob v cur)) = true).
Proof.
  revert next tr. induction turns as [ | turns IH ]; intros next tr; simpl.
  - split; intros; lia.
  - destruct (F32.gt (getPrice (vec_get oob v (S next)))
                     (getPrice (vec_get oob v cur))) eqn:E; simpl.
    + split; [ intros; lia | auto ].
    + destruct (IH (S next) (tr ++ [AtScan (S next); AtScan cur])) as [H1 H2].
      split.
      * intros k Hk. destruct (Nat.eq_dec k (S next)) as [-> | Hne]; auto.
        apply H1. lia.
      * intros Hlt. apply H2. lia.
Qed.

(* ------------------------------------------------------------------ *)
(** ** The loop over the price levels *)

Section LevelTurns.

Variable oob : Order.
Variable bestBuy : Order.

Lemma fillLevel_allocate (n : nat) (L B0 : Z) (level before after : list Order)
    (st : LevelState) (B' : Z) (level' : list Order) (recs : list ProcessedOrder) :
  matchingOrders st = before ++ level ++ after ->
  n = List.length (before ++ level ++ after) ->
  0 < buyAmount st <= Int.max_signed ->
  Forall (fun o => 0 < getAmount o <= Int.max_signed /\
                   0 <= proportionalShare B0 (getAmount o) L) level ->
  allocateLevel (fun s => proportionalShare B0 s L) (getID bestBuy)
                (buyAmount st) level = (B', level', recs) ->
  fillLevel oob bestBuy n L B0 (List.length before) (List.length level) st =
    mkLevelState (before ++ level' ++ after) B' (curIndex st)
      (indexNextPriceLevel st)
      (buyOrdersStillRemaining st && negb (B' =? 0))
      (orderHistory st ++ recs)
      (accesses st ++
         flat_map (fun k => [AtFill k; AtFill k; AtFill k])
                  (seq (List.length before) (List.length recs))).
Proof.
  revert before st B' level' recs.
  induction level as [ | o rest IH ];
    intros before st B' level' recs Hv Hn HB Hlevel Halloc.
  - simpl in Halloc. injection Halloc as <- <- <-.
    destruct st as [v B c i r h tr]. simpl in *. subst v.
    replace (B =? 0) with false by (symmetry; apply Z.eqb_neq; lia).
    now rewrite andb_true_r, !app_nil_r.
  - apply Forall_cons_iff in Hlevel as [[Ho Hshare] Hrest].
    assert (Hguard : (n <=? List.length before)%nat = false).
    { apply Nat.leb_gt. rewrite Hn, !length_app. simpl. lia. }
    cbn [List.length fillLevel]. rewrite Hguard, Hv.
    cbn [app]. rewrite vec_get_middle, vec_set_middle, vec_get_middle.
    rewrite getID_setAmount.
    cbn [allocateLevel] in Halloc.
    set (fill := Z.min (Z.min (buyAmount st) (getAmount o))
                       (proportionalShare B0 (getAmount o) L)) in *.
    assert (Hfill : 0 <= fill <= buyAmount st /\ fill <= getAmount o) by lia.
    unfold Int.max_signed in *.
    rewrite !int_sub_exact
      by (unfold Int.in_range, Int.min_signed, Int.max_signed; lia).
    destruct (Z.eqb_spec (buyAmount st - fill) 0) as [Hz | Hnz].
    + injection Halloc as <- <- <-. rewrite Hz. simpl.
      rewrite andb_false_r. reflexivity.
    + destruct (allocateLevel _ _ (buyAmount st - fill) rest)
        as [[B1 rest1] recs1] eqn:E1.
      injection Halloc as <- <- <-.
      specialize (IH (before ++ [setAmount o (getAmount o - fill)])
                     (mkLevelState
                        (before ++ setAmount o (getAmount o - fill) :: rest ++ after)
                        (buyAmount st - fill) (curIndex st) (indexNextPriceLevel st)
                        (buyOrdersStillRemaining st)
                        (orderHistory st ++
                           [mkProcessedOrder (getID bestBuy) (getID o) fill])
                        (accesses st ++ [AtFill (List.length before);
                                         AtFill (List.length before);
                                         AtFill (List.length before)]))
                     B1 rest1 recs1).
      cbn [matchingOrders buyAmount curIndex indexNextPriceLevel
             buyOrdersStillRemaining orderHistory accesses] in IH.
      assert (El : List.length (before ++ [setAmount o (getAmount o - fill)]) =
                   S (List.length before))
        by (rewrite length_app; simpl; lia).
      rewrite El in IH.
      rewrite IH; auto; try lia.
      * rewrite <- !app_assoc. reflexivity.
      * now rewrite <- app_assoc.
      * rewrite Hn. repeat (rewrite length_app; simpl). lia.
Qed.


(** What the allocation of a level does to the amounts, for a positive buy
    quantity and positive sell quantities with shares of at least one
    unit. *)
Lemma allocateLevel_props (share : Z -> Z) (buyer : Z) (level : list Order) :
  forall (B B' : Z) (level' : list Order) (recs : list ProcessedOrder),
  0 < B ->
  Forall (fun o => 0 < getAmount o /\ 1 <= share (getAmount o)) level ->
  allocateLevel share buyer B level = (B', level', recs) ->
  0 <= B' <= B /\
  (level <> [] -> B' < B) /\
  Forall2 (fun o o' => o' = setAmount o (getAmount o') /\
                       0 <= getAmount o' <= getAmount o) level level' /\
  (forall id, residentQty id level' + soldQty id recs = residentQty id level) /\
  (forall id, boughtQty id recs = if buyer =? id then B - B' else 0) /\
  totalAmount level' + (B - B') = totalAmount level /\
  Forall (fun r => 0 < fillAmount r) recs /\
  (List.length recs <= List.length level)%nat.
Proof.
  induction level as [ | o rest IH ]; intros B B' level' recs HB Hlevel Halloc.
  - simpl in Halloc. injection Halloc as <- <- <-.
    repeat split; try constructor; try lia; try congruence.
    intros id. unfold boughtQty. simpl. destruct (buyer =? id); lia.
  - apply Forall_cons_iff in Hlevel as [[Ho Hshare] Hrest].
    cbn [allocateLevel] in Halloc.
    set (fill := Z.min (Z.min B (getAmount o)) (share (getAmount o))) in *.
    assert (Hfill : 1 <= fill <= B /\ fill <= getAmount o) by lia.
    destruct (Z.eqb_spec (B - fill) 0) as [Hz | Hnz].
    + injection Halloc as <- <- <-.
      split; [ lia | ]. split; [ lia | ]. split.
      { constructor; [ simpl; split; [ reflexivity | lia ] | ].
        clear - Hrest. induction Hrest as [ | x rest [Hx _] _ IHr ];
          constructor; auto.
        split; [ now rewrite setAmount_getAmount | lia ]. }
      split. { intros id. by_identifier. }
      split. { intros id. unfold boughtQty. simpl. destruct (buyer =? id); lia. }
      split. { unfold totalAmount. simpl. lia. }
      split. { repeat constructor. simpl. lia. }
      simpl. lia.
    + destruct (allocateLevel share buyer (B - fill) rest)
        as [[B1 rest1] recs1] eqn:E1.
      injection Halloc as <- <- <-.
      destruct (IH (B - fill) B1 rest1 recs1) as (H1 & H2 & H3 & H4 & H5 & H6 & H7 & H8);
        auto; try lia.
      split; [ lia | ]. split; [ lia | ]. split.
      { constructor; [ simpl; split; [ reflexivity | lia ] | exact H3 ]. }
      split.
      { intros id. specialize (H4 id). revert H4. unfold residentQty, soldQty.
        simpl. rewrite getID_setAmount. simpl. destruct (getID o =? id); lia. }
      split.
      { intros id. specialize (H5 id). revert H5. unfold boughtQty. simpl.
        destruct (buyer =? id); lia. }
      split. { revert H6. unfold totalAmount. simpl. lia. }
      split. { constructor; [ simpl; lia | exact H7 ]. }
      simpl. lia.
Qed.


Lemma sumLevel_slice (v before level after : list Order) (i turns : nat)
    (tr : list access) :
  v = before ++ level ++ after ->
  i = List.length before -> turns = List.length level ->
  Forall (fun o => 0 <= getAmount o) level ->
  totalAmount level <= Int.max_signed ->
  sumLevel oob v i turns 0 tr =
    (totalAmount level, tr ++ map AtSum (seq i turns)).
Proof.
  intros -> -> -> Hpos Hsum. rewrite sumLevel_exact; auto; lia.
Qed.

Lemma fillLevel_slice (n : nat) (L B0 : Z) (level before after : list Order)
    (i turns : nat) (st : LevelState)
    (B' : Z) (level' : list Order) (recs : list ProcessedOrder) :
  matchingOrders st = before ++ level ++ after ->
  i = List.length before -> turns = List.length level ->
  n = List.length (matchingOrders st) ->
  0 < buyAmount st <= Int.max_signed ->
  Forall (fun o => 0 < getAmount o <= Int.max_signed /\
                   0 <= proportionalShare B0 (getAmount o) L) level ->
  allocateLevel (fun s => proportionalShare B0 s L) (getID bestBuy)
                (buyAmount st) level = (B', level', recs) ->
  fillLevel oob bestBuy n L B0 i turns st =
    mkLevelState (before ++ level' ++ after) B' (curIndex st)
      (indexNextPriceLevel st)
      (buyOrdersStillRemaining st && negb (B' =? 0))
      (orderHistory st ++ recs)
      (accesses st ++
         flat_map (fun k => [AtFill k; AtFill k; AtFill k])
                  (seq i (List.length recs))).
Proof.
  intros Hv -> -> Hn. rewrite Hv in Hn. now apply fillLevel_allocate.
Qed.

(** One turn of the loop over the levels is the allocation of the level
    that the search delimits, as long as the amounts of the level are
    positive and add up to an [int] and the shares are not negative. *)
Lemma levelBody_level (n : nat) (st : LevelState)
    (before level after : list Order)
    (B' : Z) (level' : list Order) (recs : list ProcessedOrder) :
  matchingOrders st = before ++ level ++ after ->
  List.length (matchingOrders st) = n ->
  List.length before = curIndex st ->
  indexNextPriceLevel st = curIndex st ->
  fst (findNextPriceLevel oob (matchingOrders st) (curIndex st)
         (n - curIndex st) (curIndex st) (accesses st)) =
    (curIndex st + List.length level)%nat ->
  buyOrdersStillRemaining st = true ->
  0 < buyAmount st <= Int.max_signed ->
  Forall (fun o => 0 < getAmount o) level ->
  totalAmount level <= Int.max_signed ->
  Forall (fun o => 0 <= proportionalShare (buyAmount st) (getAmount o)
                          (totalAmount level)) level ->
  allocateLevel (fun s => proportionalShare (buyAmount st) s (totalAmount level))
                (getID bestBuy) (buyAmount st) level = (B', level', recs) ->
  levelBody oob bestBuy n st =
    mkLevelState (before ++ level' ++ after) B'
      (curIndex st + List.length level) (curIndex st + List.length level)
      (negb (B' =? 0)) (orderHistory st ++ recs)
      (snd (findNextPriceLevel oob (matchingOrders st) (curIndex st)
              (n - curIndex st) (curIndex st) (accesses st)) ++
       map AtSum (seq (curIndex st) (List.length level)) ++
       flat_map (fun k => [AtFill k; AtFill k; AtFill k])
                (seq (curIndex st) (List.length recs))).
Proof.
  destruct st as [v B cur idx rem h tr].
  cbn [matchingOrders curIndex indexNextPriceLevel accesses
         buyAmount buyOrdersStillRemaining orderHistory].
  intros Ev Hlen Lb -> Enext -> HB Hpl Htl Hshare Ea.
  unfold levelBody. cbn [matchingOrders curIndex indexNextPriceLevel accesses
                          buyAmount buyOrdersStillRemaining orderHistory].
  destruct (findNextPriceLevel oob v cur (n - cur) cur tr) as [next tr1].
  cbn [fst snd] in *. subst next.
  replace (cur + List.length level - cur)%nat with (List.length level) by lia.
  assert (Hnl : Forall (fun o => 0 <= getAmount o) level).
  { revert Hpl. apply Forall_impl. intros; lia. }
  rewrite (sumLevel_slice v before level after cur (List.length level) tr1);
    auto.
  rewrite (fillLevel_slice n (totalAmount level) B level before after cur
             (List.length level) _ B' level' recs); auto.
  - cbn [matchingOrders buyAmount curIndex indexNextPriceLevel
           buyOrdersStillRemaining orderHistory accesses].
    now rewrite <- app_assoc.
  - rewrite Forall_forall in *. intros o Ho.
    pose proof (sumOf_In_le getAmount level o
                  (proj2 (Forall_forall _ _) Hnl) Ho) as Hle.
    fold (totalAmount level) in Hle. specialize (Hpl o Ho).
    specialize (Hshare o Ho). lia.
Qed.

(** The run of a level fits an [int], and so does each of its orders. *)
Lemma runsFit_level (before level after : list Order) (oob' : Order) :
  runsFit (before ++ level ++ after) ->
  level <> [] ->
  (forall k, (List.length before < k < List.length before + List.length level)%nat ->
     F32.gt (getPrice (vec_get oob' (before ++ level ++ after) k))
            (getPrice (vec_get oob' (before ++ level ++ after)
                         (List.length before))) = false) ->
  totalAmount level <= Int.max_signed.
Proof.
  intros Hfit Hne Hprices. destruct level as [ | first rest ]; [ congruence | ].
  apply (Hfit before first rest after eq_refl).
  apply Forall_forall. intros o Ho.
  destruct (In_nth rest o oob' Ho) as (j & Hj & Ej).
  specialize (Hprices (List.length before + S j)%nat).
  simpl in Hprices. specialize (Hprices ltac:(lia)).
  unfold vec_get in Hprices.
  rewrite (app_nth2 before) in Hprices by lia.
  replace (List.length before + S j - List.length before)%nat with (S j)
    in Hprices by lia.
  rewrite (app_nth2 before) in Hprices by lia.
  rewrite Nat.sub_diag in Hprices. simpl in Hprices.
  rewrite app_nth1 in Hprices by lia. now rewrite Ej in Hprices.
Qed.

(** One turn of the loop over the levels is the allocation of the level
    that the search delimits. *)
Lemma levelBody_allocate (n : nat) (st : LevelState) :
  levelInv n st -> (curIndex st < n)%nat -> buyOrdersStillRemaining st = true ->
  exists (before level after : list Order) (B' : Z) (level' : list Order)
         (recs : list ProcessedOrder),
    matchingOrders st = before ++ level ++ after /\
    List.length before = curIndex st /\
    level <> [] /\
    Forall (fun o => 0 < getAmount o /\
                     1 <= proportionalShare (buyAmount st) (getAmount o)
                            (totalAmount level)) level /\
    allocateLevel (fun s => proportionalShare (buyAmount st) s (totalAmount level))
                  (getID bestBuy) (buyAmount st) level = (B', level', recs) /\
    levelBody oob bestBuy n st =
      mkLevelState (before ++ level' ++ after) B'
        (curIndex st + List.length level) (curIndex st + List.length level)
        (negb (B' =? 0)) (orderHistory st ++ recs)
        (snd (findNextPriceLevel oob (matchingOrders st) (curIndex st)
                (n - curIndex st) (curIndex st) (accesses st)) ++
         map AtSum (seq (curIndex st) (List.length level)) ++
         flat_map (fun k => [AtFill k; AtFill k; AtFill k])
                  (seq (curIndex st) (List.length recs))).
Proof.
  intros (Hlen & Hidx & Hcur & Hnn & Hpos & Hfit & [HB Hconv] & Hrem) Hlt Hr.
  specialize (Hrem Hr).
  pose proof (findNextPriceLevel_bounds oob (matchingOrders st) (curIndex st)
                (n - curIndex st) (curIndex st) (accesses st)) as [Hb1 Hb2].
  pose proof (findNextPriceLevel_prices oob (matchingOrders st) (curIndex st)
                (n - curIndex st) (curIndex st) (accesses st)) as [Hp1 _].
  cbv zeta in Hp1.
  remember (fst (findNextPriceLevel oob (matchingOrders st) (curIndex st)
                   (n - curIndex st) (curIndex st) (accesses st))) as next
    eqn:Enext.
  specialize (Hb2 ltac:(lia)).
  set (v := matchingOrders st) in *. set (cur := curIndex st) in *.
  set (before := firstn cur v).
  set (level := firstn (next - cur) (skipn cur v)).
  set (after := skipn (next - cur) (skipn cur v)).
  assert (Etail : skipn cur v = level ++ after)
    by (symmetry; apply firstn_skipn).
  assert (Ev : v = before ++ level ++ after)
    by (rewrite <- Etail; symmetry; apply firstn_skipn).
  assert (Lb : List.length before = cur)
    by (apply firstn_length_le; lia).
  assert (Ll : List.length level = (next - cur)%nat).
  { apply firstn_length_le. rewrite length_skipn. lia. }
  assert (Hne : level <> []).
  { intros E. rewrite E in Ll. simpl in Ll. lia. }
  rewrite Etail in Hpos. apply Forall_app in Hpos as [Hpl Hpa].
  assert (Hnl : Forall (fun o => 0 <= getAmount o) level).
  { revert Hpl. apply Forall_impl. intros; lia. }
  assert (Htl : totalAmount level <= Int.max_signed).
  { apply (runsFit_level before level after oob); [ now rewrite <- Ev | exact Hne | ].
    rewrite <- Ev, Lb. intros k Hk. apply Hp1. lia. }
  assert (Hshare : Forall (fun o => 0 < getAmount o /\
                     1 <= proportionalShare (buyAmount st) (getAmount o)
                            (totalAmount level)) level).
  { rewrite Forall_forall in *. intros o Ho.
    pose proof (sumOf_In_le getAmount level o
                  (proj2 (Forall_forall _ _) Hnl) Ho) as Hle.
    fold (totalAmount level) in Hle. specialize (Hpl o Ho).
    split; [ exact Hpl | ].
    apply shareDefined_share; try lia. apply Hconv; lia. }
  destruct (allocateLevel (fun s => proportionalShare (buyAmount st) s
                                      (totalAmount level))
              (getID bestBuy) (buyAmount st) level) as [[B' level'] recs] eqn:Ea.
  exists before, level, after, B', level', recs.
  split; [ exact Ev | ]. split; [ exact Lb | ]. split; [ exact Hne | ].
  split; [ exact Hshare | ]. split; [ exact Ea | ].
  apply levelBody_level; auto; try lia.
  - fold v cur. rewrite <- Enext, Ll. lia.
  - revert Hshare. apply Forall_impl. intros o [_ H]. lia.
Qed.


Lemma filledFrom_refl (v : list Order) :
  Forall (fun o => 0 <= getAmount o) v -> Forall2 filledFrom v v.
Proof.
  induction 1 as [ | o v Ho _ IH ]; constructor; auto.
  split; [ now rewrite setAmount_getAmount | lia ].
Qed.

Lemma filledFrom_trans (v1 v2 v3 : list Order) :
  Forall2 filledFrom v1 v2 -> Forall2 filledFrom v2 v3 -> Forall2 filledFrom v1 v3.
Proof.
  intros H12. revert v3. induction H12 as [ | a b v1 v2 [E1 R1] _ IH ];
    intros v3 H23; inversion H23 as [ | ? c ? v3' [E2 R2] H23' ]; subst;
    constructor; auto.
  split; [ | lia ]. rewrite E2, E1. reflexivity.
Qed.

Lemma filledFrom_total (v v' : list Order) :
  Forall2 filledFrom v v' -> totalAmount v' <= totalAmount v.
Proof.
  unfold totalAmount.
  induction 1 as [ | o o' v v' [_ R] _ IH ]; simpl; lia.
Qed.

Lemma runsFit_filled (v v' : list Order) :
  Forall2 filledFrom v v' -> runsFit v -> runsFit v'.
Proof.
  intros F Hfit before' first' rest' after' Ev' Hprices. subst v'.
  apply Forall2_app_inv_r in F as (before & tail & _ & F & ->).
  apply Forall2_app_inv_r in F as (run & after & F & _ & ->).
  inversion F as [ | first ? rest ? [E1 R1] Frest ]; subst.
  pose proof (filledFrom_total _ _ Frest) as Ht.
  assert (Hrun : totalAmount (first :: rest) <= Int.max_signed).
  { apply (Hfit before first rest after eq_refl).
    clear - Frest Hprices E1.
    induction Frest as [ | o o' l l' [E _] _ IH ]; [ constructor | ].
    apply Forall_cons_iff in Hprices as [Ho Hl]. constructor; [ | auto ].
    rewrite E, E1, !getPrice_setAmount in Ho. exact Ho. }
  unfold totalAmount in *. simpl in *. lia.
Qed.

Lemma runsFit_total (v : list Order) :
  Forall (fun o => 0 <= getAmount o) v ->
  totalAmount v <= Int.max_signed -> runsFit v.
Proof.
  intros Hnn Htot before first rest after -> _.
  apply Forall_app in Hnn as [H1 H2]. apply Forall_app in H2 as [_ H3].
  unfold totalAmount in *. rewrite !sumOf_app in Htot.
  pose proof (sumOf_nonneg getAmount before H1).
  pose proof (sumOf_nonneg getAmount after H3). lia.
Qed.

Lemma levelStep_refl (n : nat) (st : LevelState) : levelInv n st -> levelStep bestBuy st st.
Proof.
  intros (_ & _ & _ & Hnn & _). split; [ now apply filledFrom_refl | ].
  split; [ lia | ]. split; [ lia | ].
  exists []. split; [ now rewrite app_nil_r | ].
  split; intros id.
  - unfold soldQty. simpl. lia.
  - unfold boughtQty. simpl. destruct (getID bestBuy =? id); lia.
Qed.

Lemma levelStep_trans (st1 st2 st3 : LevelState) :
  levelStep bestBuy st1 st2 -> levelStep bestBuy st2 st3 -> levelStep bestBuy st1 st3.
Proof.
  intros (F1 & B1 & T1 & r1 & E1 & S1 & Q1) (F2 & B2 & T2 & r2 & E2 & S2 & Q2).
  split; [ now apply (filledFrom_trans _ _ _ F1 F2) | ].
  split; [ lia | ]. split; [ lia | ].
  exists (r1 ++ r2). split; [ now rewrite E2, E1, app_assoc | ].
  split; intros id.
  - specialize (S1 id). specialize (S2 id). unfold soldQty in *.
    rewrite sumOf_app. lia.
  - specialize (Q1 id). specialize (Q2 id). unfold boughtQty in *.
    rewrite sumOf_app, Q1, Q2. destruct (getID bestBuy =? id); lia.
Qed.

Lemma levelBody_step (n : nat) (st : LevelState) :
  levelInv n st -> (curIndex st < n)%nat -> buyOrdersStillRemaining st = true ->
  levelInv n (levelBody oob bestBuy n st) /\
  levelStep bestBuy st (levelBody oob bestBuy n st) /\
  (curIndex st < curIndex (levelBody oob bestBuy n st))%nat /\
  totalAmount (matchingOrders (levelBody oob bestBuy n st)) <
    totalAmount (matchingOrders st).
Proof.
  intros Hinv Hlt Hr.
  destruct (levelBody_allocate n st Hinv Hlt Hr)
    as (before & level & after & B' & level' & recs & Ev & Lb & Hne & Hshare & Ea & Eb).
  destruct Hinv as (Hlen & Hidx & Hcur & Hnn & Hpos & Hfit & [HB Hconv] & Hrem).
  specialize (Hrem Hr).
  destruct (allocateLevel_props _ _ _ _ _ _ _ Hrem Hshare Ea)
    as (P1 & P2 & P3 & P4 & P5 & P6 & P7 & P8).
  specialize (P2 Hne).
  rewrite Eb. clear Eb.
  assert (Ll : List.length level' = List.length level)
    by (symmetry; apply (Forall2_length P3)).
  rewrite Ev in Hnn, Hlen, Hfit, Hpos.
  apply Forall_app in Hnn as [Hn1 Hn2]. apply Forall_app in Hn2 as [Hn2 Hn3].
  assert (Hn2' : Forall (fun o => 0 <= getAmount o) level').
  { clear - P3. induction P3 as [ | a b l l' [_ R] _ IH ]; constructor; auto. lia. }
  assert (Hpa : Forall (fun o => 0 < getAmount o) after).
  { rewrite <- Lb in Hpos.
    replace (before ++ level ++ after) with ((before ++ []) ++ level ++ after) in Hpos
      by now rewrite app_nil_r.
    rewrite skipn_app, app_nil_r, skipn_all, Nat.sub_diag in Hpos. simpl in Hpos.
    now apply Forall_app in Hpos as [_ Hpos]. }
  assert (HF : Forall2 filledFrom (before ++ level ++ after)
                                  (before ++ level' ++ after)).
  { apply Forall2_app; [ now apply filledFrom_refl | ].
    apply Forall2_app; [ exact P3 | now apply filledFrom_refl ]. }
  unfold totalAmount in *.
  split; [ | split; [ | split ] ]; unfold levelInv, levelStep, totalAmount;
    cbn [matchingOrders curIndex indexNextPriceLevel accesses
           buyAmount buyOrdersStillRemaining orderHistory].
  - (* the invariant *)
    split; [ rewrite <- Hlen, !length_app; lia | ].
    split; [ reflexivity | ].
    split; [ rewrite <- Hlen, !length_app; lia | ].
    split; [ repeat (apply Forall_app; split); auto | ].
    split.
    { replace (before ++ level' ++ after) with ((before ++ level') ++ after)
        by now rewrite <- app_assoc.
      replace (curIndex st + List.length level)%nat
        with (List.length (before ++ level')) by (rewrite length_app; lia).
      rewrite skipn_app, skipn_all, Nat.sub_diag. simpl. exact Hpa. }
    split; [ exact (runsFit_filled _ _ HF Hfit) | ].
    split; [ split; [ lia | apply (convertible_le (buyAmount st)); [ lia | exact Hconv ] ] | ].
    destruct (Z.eqb_spec B' 0); [ discriminate | lia ].
  - (* the step *)
    rewrite Ev. split; [ exact HF | ].
    split; [ lia | ]. split; [ rewrite !sumOf_app; lia | ].
    exists recs. split; [ reflexivity | ]. split; [ | exact P5 ].
    intros id. specialize (P4 id). unfold residentQty in *.
    rewrite !sumOf_app. lia.
  - destruct level; [ congruence | simpl; lia ].
  - rewrite Ev, !sumOf_app. lia.
Qed.

Lemma processLevels_sound (n fuel : nat) (st : LevelState) :
  levelInv n st ->
  levelInv n (processLevels oob bestBuy n fuel st) /\
  levelStep bestBuy st (processLevels oob bestBuy n fuel st) /\
  ((0 < fuel)%nat -> (curIndex st < n)%nat -> buyOrdersStillRemaining st = true ->
   totalAmount (matchingOrders (processLevels oob bestBuy n fuel st)) <
     totalAmount (matchingOrders st)) /\
  ((n <= fuel + curIndex st)%nat ->
   (curIndex (processLevels oob bestBuy n fuel st) <? n)%nat &&
     buyOrdersStillRemaining (processLevels oob bestBuy n fuel st) = false).
Proof.
  revert st. induction fuel as [ | fuel IH ]; intros st Hinv; cbn [processLevels].
  - split; [ exact Hinv | ]. split; [ now apply (levelStep_refl n) | ].
    split; [ lia | ]. intros Hf.
    replace (curIndex st <? n)%nat with false; [ reflexivity | ].
    symmetry. apply Nat.ltb_ge. lia.
  - destruct ((curIndex st <? n)%nat && buyOrdersStillRemaining st) eqn:Econd.
    + apply andb_prop in Econd as [Hlt Hr]. apply Nat.ltb_lt in Hlt.
      destruct (levelBody_step n st Hinv Hlt Hr) as (I1 & S1 & C1 & T1).
      destruct (IH _ I1) as (I2 & S2 & _ & D2).
      split; [ exact I2 | ]. split; [ now apply (levelStep_trans _ _ _ S1 S2) | ].
      split.
      * intros _ _ _. destruct S2 as (_ & _ & T2 & _). lia.
      * intros Hf. apply D2. lia.
    + split; [ exact Hinv | ]. split; [ now apply (levelStep_refl n) | ].
      split; [ | auto ]. intros _ Hlt Hr.
      apply Nat.ltb_lt in Hlt. rewrite Hlt, Hr in Econd. discriminate.
Qed.

End LevelTurns.

(* ------------------------------------------------------------------ *)
(** ** One turn of the pro-rata pass *)

Lemma drainMatching_split (bestBuy : Order) (sells acc : list Order) :
  exists v,
    fst (drainMatching bestBuy sells acc) = acc ++ v /\
    sells = v ++ snd (drainMatching bestBuy sells acc) /\
    (forall s rest, sells = s :: rest ->
                    F32.ge (getPrice bestBuy) (getPrice s) = true -> v <> []).
Proof.
  revert acc. induction sells as [ | s rest IH ]; intros acc; simpl.
  - exists []. rewrite app_nil_r. repeat split. discriminate.
  - destruct (F32.ge (getPrice bestBuy) (getPrice s)) eqn:E.
    + destruct (IH (acc ++ [s])) as (v & E1 & E2 & _).
      exists (s :: v). rewrite E1, <- app_assoc. simpl.
      split; [ reflexivity | ]. split; [ now f_equal | discriminate ].
    + exists []. rewrite app_nil_r. simpl. repeat split.
      intros s' rest' H. injection H as <- <-. congruence.
Qed.

Lemma reAddSells_perm (v : list Order) (sells : PQ.t) :
  Permutation (reAddSells v sells)
              (filter (fun o => getAmount o >? 0) v ++ sells).
Proof.
  unfold reAddSells. revert sells.
  induction v as [ | o v IH ]; intros sells; simpl.
  - apply Permutation_refl.
  - destruct (getAmount o >? 0).
    + eapply Permutation_trans; [ apply IH | ].
      simpl. apply Permutation_sym.
      eapply Permutation_trans; [ apply Permutation_middle | ].
      apply Permutation_app_head, Permutation_sym, push_perm.
    + apply IH.
Qed.

Lemma sumOf_filter_positive (f : Order -> Z) (v : list Order) :
  Forall (fun o => getAmount o <= 0 -> f o = 0) v ->
  sumOf f (filter (fun o => getAmount o >? 0) v) = sumOf f v.
Proof.
  induction 1 as [ | o v Ho _ IH ]; simpl; [ reflexivity | ].
  destruct (Z.gtb_spec (getAmount o) 0); simpl; rewrite IH; [ reflexivity | ].
  rewrite Ho; lia.
Qed.

Lemma sumOf_reAddSells (f : Order -> Z) (v : list Order) (sells : PQ.t) :
  Forall (fun o => getAmount o <= 0 -> f o = 0) v ->
  sumOf f (reAddSells v sells) = sumOf f v + sumOf f sells.
Proof.
  intros H. rewrite (sumOf_perm f _ _ (reAddSells_perm v sells)), sumOf_app.
  now rewrite sumOf_filter_positive.
Qed.

Lemma filledFrom_priced (v v' : list Order) :
  Forall2 filledFrom v v' -> Forall priced v -> Forall priced v'.
Proof.
  induction 1 as [ | o o' v v' [E _] _ IH ]; intros Hp; [ constructor | ].
  apply Forall_cons_iff in Hp as [Ho Hv]. constructor; [ | auto ].
  rewrite E. exact Ho.
Qed.

Lemma filledFrom_nonneg (v v' : list Order) :
  Forall2 filledFrom v v' -> Forall (fun o => 0 <= getAmount o) v'.
Proof.
  induction 1 as [ | o o' v v' [_ R] _ IH ]; constructor; auto. lia.
Qed.

(** The invariant holds when the loop over the levels is entered. *)
Lemma levelInv_start (v : list Order) (B : Z) (h : list ProcessedOrder) :
  Forall (fun o => 0 < getAmount o) v -> runsFit v ->
  0 < B <= Int.max_signed -> convertible B ->
  levelInv (List.length v) (mkLevelState v B 0 0 true h []).
Proof.
  intros Hpos Hfit HB Hconv. unfold levelInv. simpl.
  repeat split; auto; try lia.
  revert Hpos. apply Forall_impl. intros; lia.
Qed.

Lemma levelInv_start_bounded (v : list Order) (B : Z) (h : list ProcessedOrder) :
  Forall (fun o => 0 < getAmount o) v -> totalAmount v <= Int.max_signed ->
  0 < B < 2 ^ 26 ->
  levelInv (List.length v) (mkLevelState v B 0 0 true h []).
Proof.
  intros Hpos Htot HB. apply levelInv_start; auto.
  - apply runsFit_total; [ | exact Htot ].
    revert Hpos. apply Forall_impl. intros; lia.
  - unfold Int.max_signed. change (2 ^ 26) with 67108864 in HB.
    change (2 ^ 31) with 2147483648. lia.
  - apply convertible_below. lia.
Qed.

Lemma proRataBody_sound (oob : Order) (ob ob' : Orderbook) (brk : bool) :
  boundedBook ob -> proRataBody oob ob = Some (ob', brk) ->
  boundedBook ob' /\ conserved ob ob' /\
  (brk = false ->
   totalAmount (m_sellOrders ob') < totalAmount (m_sellOrders ob)).
Proof.
  intros (Hbuys & Hsells & Htot). unfold proRataBody.
  destruct (m_buyOrders ob) as [ | bestBuy buys ] eqn:Eb; [ discriminate | ].
  destruct (m_sellOrders ob) as [ | topSell sells0 ] eqn:Es; [ discriminate | ].
  destruct (F32.lt (getPrice bestBuy) (getPrice topSell)) eqn:Elt.
  { intros H. injection H as <- <-.
    split; [ unfold boundedBook; now rewrite Eb, Es | ].
    split; [ apply conserved_refl | discriminate ]. }
  apply Forall_cons_iff in Hbuys as [[Hpb HBb] Hbuys].
  assert (Hge : F32.ge (getPrice bestBuy) (getPrice topSell) = true).
  { apply Forall_cons_iff in Hsells as [[Hps _] _].
    unfold F32.ge. unfold F32.lt in Elt. now apply SFltb_false_leb. }
  destruct (drainMatching_split bestBuy (topSell :: sells0) [])
    as (v & E1 & E2 & E3).
  specialize (E3 _ _ eq_refl Hge).
  destruct (drainMatching bestBuy (topSell :: sells0) []) as [v0 rest].
  cbn [fst snd app] in E1, E2. subst v0. rewrite E2 in Hsells, Htot.
  apply Forall_app in Hsells as [Hv Hrest].
  unfold totalAmount in Htot. rewrite sumOf_app in Htot.
  assert (Hvpos : Forall (fun o => 0 < getAmount o) v)
    by (revert Hv; apply Forall_impl; tauto).
  assert (Hvnn : Forall (fun o => 0 <= getAmount o) v)
    by (revert Hvpos; apply Forall_impl; intros; lia).
  assert (Hrnn : Forall (fun o => 0 <= getAmount o) rest)
    by (revert Hrest; apply Forall_impl; intros ? [_ ?]; lia).
  pose proof (sumOf_nonneg getAmount v Hvnn) as Hsv.
  pose proof (sumOf_nonneg getAmount rest Hrnn) as Hsr.
  unfold matchBestBuy.
  set (st0 := mkLevelState v (getAmount bestBuy) 0 0 true (m_orderHistory ob) []).
  assert (Hinv : levelInv (List.length v) st0).
  { apply levelInv_start_bounded; auto. unfold totalAmount. lia. }
  destruct (processLevels_sound oob bestBuy (List.length v) (List.length v) st0 Hinv)
    as (I1 & S1 & T1 & _).
  assert (Hlen : (0 < List.length v)%nat)
    by (destruct v; [ congruence | simpl; lia ]).
  specialize (T1 Hlen Hlen eq_refl).
  set (st := processLevels oob bestBuy (List.length v) (List.length v) st0) in *.
  destruct I1 as (_ & _ & _ & Hnn' & _ & _ & [HB' _] & _).
  destruct S1 as (F1 & B1 & _ & recs & Eh & Hsold & Hbought).
  cbn [matchingOrders buyAmount orderHistory st0] in *.
  intros H. injection H as <- <-.
  unfold totalAmount in *.
  assert (Hz : forall f : Order -> Z,
             (forall o, getAmount o = 0 -> f o = 0) ->
             Forall (fun o => getAmount o <= 0 -> f o = 0) (matchingOrders st)).
  { intros f Hf. revert Hnn'. apply Forall_impl. intros o Ho Hle.
    apply Hf. lia. }
  split; [ | split ].
  - (* the bounds *)
    unfold boundedBook. cbn [m_buyOrders m_sellOrders]. split; [ | split ].
    + unfold reAddBuy. destruct (Z.gtb_spec (buyAmount st) 0); [ | exact Hbuys ].
      apply push_Forall; [ | exact Hbuys ]. split; [ exact Hpb | simpl; lia ].
    + apply (Permutation_Forall (Permutation_sym (reAddSells_perm _ _))).
      apply Forall_app. split; [ | exact Hrest ].
      pose proof (filledFrom_priced _ _ F1
                    (Forall_impl _ (fun o H => proj1 H) Hv)) as Hp.
      rewrite Forall_forall in *. intros o Ho.
      apply filter_In in Ho as [Ho Hpos]. split; [ now apply Hp | ].
      destruct (Z.gtb_spec (getAmount o) 0); [ lia | discriminate ].
    + unfold totalAmount. rewrite sumOf_reAddSells by (apply Hz; intros; lia).
      unfold Int.max_signed in *. lia.
  - (* the accounts *)
    unfold conserved. cbn [m_buyOrders m_sellOrders m_orderHistory].
    split; [ exists recs; exact Eh | ]. intros id. rewrite Eb, Es, E2, Eh. split.
    + specialize (Hbought id). unfold residentQty, boughtQty, reAddBuy in *.
      rewrite sumOf_app, Hbought.
      destruct (Z.gtb_spec (buyAmount st) 0);
        unfold pushBuy; rewrite ?sumOf_push; simpl; rewrite ?getID_setAmount;
        simpl; destruct (getID bestBuy =? id); lia.
    + specialize (Hsold id). unfold residentQty, soldQty in *.
      rewrite sumOf_reAddSells, !sumOf_app.
      * lia.
      * apply Hz. intros o Ho. rewrite Ho. now destruct (getID o =? id).
  - intros _. cbn [m_sellOrders]. rewrite E2.
    rewrite sumOf_reAddSells by (apply Hz; intros; lia).
    rewrite sumOf_app. lia.
Qed.

Lemma proRataLoop_sound (oob : Order) (fuel : nat) (ob : Orderbook) :
  boundedBook ob ->
  totalAmount (m_sellOrders ob) <= Z.of_nat fuel ->
  exists ob',
    proRataLoop oob fuel ob = Some ob' /\ boundedBook ob' /\ conserved ob ob'.
Proof.
  revert ob. induction fuel as [ | fuel IH ]; intros ob Hob Hfuel; simpl;
    destruct (proRataBody oob ob) as [ [ob1 [ | ]] | ] eqn:E.
  - exists ob1. split; [ reflexivity | ].
    now destruct (proRataBody_sound oob ob ob1 true Hob E) as (H1 & H2 & _).
  - exfalso.
    destruct (proRataBody_sound oob ob ob1 false Hob E) as ((_ & Hs & _) & _ & H3).
    specialize (H3 eq_refl).
    assert (0 <= totalAmount (m_sellOrders ob1)).
    { apply sumOf_nonneg. revert Hs. apply Forall_impl. intros ? [_ ?]. lia. }
    lia.
  - exists ob. split; [ reflexivity | ]. split; [ exact Hob | apply conserved_refl ].
  - exists ob1. split; [ reflexivity | ].
    now destruct (proRataBody_sound oob ob ob1 true Hob E) as (H1 & H2 & _).
  - destruct (proRataBody_sound oob ob ob1 false Hob E) as (H1 & H2 & H3).
    specialize (H3 eq_refl).
    destruct (IH ob1 H1 ltac:(lia)) as (ob' & E' & H1' & H2').
    exists ob'. split; [ exact E' | ]. split; [ exact H1' | ].
    now apply (conserved_trans ob ob1 ob').
  - exists ob. split; [ reflexivity | ]. split; [ exact Hob | apply conserved_refl ].
Qed.

(* ------------------------------------------------------------------ *)
(** ** Accesses to the vector, and amounts that remain [int]s *)

Ltac splits := repeat match goal with |- _ /\ _ => split end.

Section LevelAccesses.

Variable oob : Order.
Variable bestBuy : Order.
Variable n : nat.

Lemma Forall_vec_set (P : Order -> Prop) (v : list Order) (i : nat) (x : Order) :
  Forall P v -> P x -> Forall P (vec_set v i x).
Proof.
  intros Hv Hx. revert i. induction Hv as [ | h rest Hh Hrest IH ]; intros [ | i ];
    simpl; constructor; auto.
Qed.

Lemma sumLevel_trace (v : list Order) (i turns : nat) (acc : Z) (tr : list access) :
  snd (sumLevel oob v i turns acc tr) = tr ++ map AtSum (seq i turns).
Proof.
  revert i acc tr. induction turns as [ | turns IH ]; intros i acc tr; simpl.
  - now rewrite app_nil_r.
  - rewrite IH, <- app_assoc. reflexivity.
Qed.

(** The fill loop keeps the length of the vector and the two indices; its
    accesses are inside the vector; its amounts are [int]s. *)
Lemma fillLevel_frame (L B0 : Z) (turns i : nat) (st : LevelState) :
  List.length (matchingOrders st) = n ->
  (i + turns <= n)%nat ->
  let st' := fillLevel oob bestBuy n L B0 i turns st in
  List.length (matchingOrders st') = n /\
  curIndex st' = curIndex st /\
  indexNextPriceLevel st' = indexNextPriceLevel st /\
  (exists fills, accesses st' = accesses st ++ fills /\
                 Forall (fun a => exists k, a = AtFill k /\ (k < n)%nat) fills) /\
  (intAmounts (matchingOrders st) -> intAmounts (matchingOrders st')) /\
  (Int.in_range (buyAmount st) -> Int.in_range (buyAmount st')) /\
  (Forall priced (matchingOrders st) -> Forall priced (matchingOrders st')).
Proof.
  revert i st. induction turns as [ | turns IH ]; intros i st Hlen Hi; cbn zeta.
  - simpl. splits; auto. exists []. split; [ now rewrite app_nil_r | constructor ].
  - cbn [fillLevel].
    replace (n <=? i)%nat with false by (symmetry; apply Nat.leb_gt; lia).
    cbv zeta.
    set (v := matchingOrders st).
    set (fill := Z.min (Z.min (buyAmount st) (getAmount (vec_get oob v i)))
                       (proportionalShare B0 (getAmount (vec_get oob v i)) L)).
    set (o' := setAmount (vec_get oob v i)
                         (Int.sub (getAmount (vec_get oob v i)) fill)).
    assert (Hint : intAmounts v -> intAmounts (vec_set v i o')).
    { intros Hv. apply Forall_vec_set; auto. apply wrap32_in_range. }
    assert (Hpr : Forall priced v -> Forall priced (vec_set v i o')).
    { intros Hv. apply Forall_vec_set; auto. unfold priced, o'.
      rewrite getPrice_setAmount. rewrite Forall_forall in Hv. apply Hv.
      apply nth_In. fold v in Hlen. lia. }
    destruct (Int.sub (buyAmount st) fill =? 0).
    + cbn [matchingOrders curIndex indexNextPriceLevel accesses buyAmount].
      rewrite vec_set_length. splits; auto.
      * eexists. split; [ reflexivity | ].
        repeat (constructor; [ exists i; split; [ reflexivity | lia ] | ]).
        constructor.
      * intros _. apply wrap32_in_range.
    + match goal with
      | |- context [ fillLevel _ _ _ _ _ _ _ ?s ] =>
          destruct (IH (S i) s) as (H1 & H2 & H3 & (fills & H4 & H5) & H6 & H7 & H8)
      end.
      { cbn [matchingOrders]. now rewrite vec_set_length. }
      { lia. }
      cbn [matchingOrders curIndex indexNextPriceLevel accesses buyAmount] in *.
      splits; auto.
      * exists ([AtFill i; AtFill i; AtFill i] ++ fills).
        split; [ now rewrite H4, <- app_assoc | ].
        apply Forall_app. split; [ | exact H5 ].
        repeat (constructor; [ exists i; split; [ reflexivity | lia ] | ]).
        constructor.
      * intros _. apply H7, wrap32_in_range.
Qed.

(** One turn of the loop over the levels, without any assumption on the
    amounts. *)
Lemma levelBody_frame (st : LevelState) :
  List.length (matchingOrders st) = n ->
  curIndex st = indexNextPriceLevel st ->
  (curIndex st < n)%nat ->
  let st' := levelBody oob bestBuy n st in
  List.length (matchingOrders st') = n /\
  curIndex st' = indexNextPriceLevel st' /\
  (curIndex st < curIndex st' <= n)%nat /\
  (exists new, accesses st' = accesses st ++ new /\
               Forall (guarded n) new /\ Forall (scanReach n) new) /\
  (intAmounts (matchingOrders st) -> intAmounts (matchingOrders st')) /\
  (Int.in_range (buyAmount st) -> Int.in_range (buyAmount st')) /\
  (Forall priced (matchingOrders st) -> Forall priced (matchingOrders st')).
Proof.
  intros Hlen Hidx Hlt. unfold levelBody. rewrite <- Hidx.
  pose proof (findNextPriceLevel_bounds oob (matchingOrders st) (curIndex st)
                (n - curIndex st) (curIndex st) (accesses st)) as [Hb1 Hb2].
  destruct (findNextPriceLevel_trace oob (matchingOrders st) (curIndex st)
              (n - curIndex st) (curIndex st) (accesses st)) as (scans & Es & Hs).
  destruct (findNextPriceLevel oob (matchingOrders st) (curIndex st)
              (n - curIndex st) (curIndex st) (accesses st)) as [next tr1].
  cbn [fst snd] in *. specialize (Hb2 ltac:(lia)).
  pose proof (sumLevel_trace (matchingOrders st) (curIndex st)
                (next - curIndex st) 0 tr1) as Etr.
  destruct (sumLevel oob (matchingOrders st) (curIndex st)
              (next - curIndex st) 0 tr1) as [total tr2].
  cbn [snd] in Etr.
  match goal with
  | |- context [ fillLevel _ _ _ ?l ?b ?i ?t ?s ] =>
      destruct (fillLevel_frame l b t i s)
        as (H1 & H2 & H3 & (fills & H4 & H5) & H6 & H7 & H8)
  end.
  { exact Hlen. }
  { lia. }
  cbn [matchingOrders curIndex indexNextPriceLevel accesses buyAmount] in *.
  splits; auto; try lia.
  exists (scans ++ map AtSum (seq (curIndex st) (next - curIndex st)) ++ fills).
  split; [ now rewrite H4, Etr, Es, <- !app_assoc | ].
  split.
  - apply Forall_app. split.
    + revert Hs. apply Forall_impl. intros a [ -> | (k & -> & _) ]; exact I.
    + apply Forall_app. split.
      * apply Forall_map, Forall_forall. intros k Hk. apply in_seq in Hk. simpl. lia.
      * revert H5. apply Forall_impl. intros a (k & -> & Hk). exact Hk.
  - apply Forall_app. split.
    + revert Hs. apply Forall_impl. intros a [ -> | (k & -> & Hk) ]; simpl; lia.
    + apply Forall_app. split.
      * apply Forall_map, Forall_forall. intros k _. exact I.
      * revert H5. apply Forall_impl. intros a (k & -> & Hk). exact I.
Qed.

Lemma processLevels_frame (fuel : nat) (st : LevelState) :
  List.length (matchingOrders st) = n ->
  curIndex st = indexNextPriceLevel st ->
  let st' := processLevels oob bestBuy n fuel st in
  (exists new, accesses st' = accesses st ++ new /\
               Forall (guarded n) new /\ Forall (scanReach n) new) /\
  (intAmounts (matchingOrders st) -> intAmounts (matchingOrders st')) /\
  (Int.in_range (buyAmount st) -> Int.in_range (buyAmount st')) /\
  (Forall priced (matchingOrders st) -> Forall priced (matchingOrders st')).
Proof.
  revert st. induction fuel as [ | fuel IH ]; intros st Hlen Hidx; cbn [processLevels].
  - splits; auto. exists []. rewrite app_nil_r. splits; auto; constructor.
  - destruct ((curIndex st <? n)%nat && buyOrdersStillRemaining st) eqn:Econd.
    + apply andb_prop in Econd as [Hlt _]. apply Nat.ltb_lt in Hlt.
      destruct (levelBody_frame st Hlen Hidx Hlt)
        as (H1 & H2 & H3 & (new1 & E1 & G1 & S1) & H5 & H6 & H7).
      destruct (IH _ H1 H2) as ((new2 & E2 & G2 & S2) & H8 & H9 & H10).
      cbv zeta. splits; auto.
      exists (new1 ++ new2). split; [ now rewrite E2, E1, app_assoc | ].
      split; apply Forall_app; auto.
    + cbv zeta. splits; auto.
      exists []. rewrite app_nil_r. splits; auto; constructor.
Qed.

End LevelAccesses.

(** The accesses of a whole turn of the pro-rata pass. *)
Lemma matchBestBuy_frame (oob bestBuy : Order) (v : list Order)
    (h : list ProcessedOrder) :
  let st := matchBestBuy oob bestBuy v h in
  Forall (guarded (List.length v)) (accesses st) /\
  Forall (scanReach (List.length v)) (accesses st) /\
  (intAmounts v -> intAmounts (matchingOrders st)) /\
  (Int.in_range (getAmount bestBuy) -> Int.in_range (buyAmount st)) /\
  (Forall priced v -> Forall priced (matchingOrders st)).
Proof.
  unfold matchBestBuy.
  destruct (processLevels_frame oob bestBuy (List.length v) (List.length v)
              (mkLevelState v (getAmount bestBuy) 0 0 true h []))
    as ((new & E & G & S) & H1 & H2 & H3); try reflexivity.
  cbn [accesses matchingOrders buyAmount] in *. rewrite E. simpl.
  splits; auto.
Qed.

(** The branch of the fill loop that reports an index error: the loop is
    left, the loop over the levels is told to stop, and nothing else
    changes. *)
Lemma fillLevel_index_error (oob bestBuy : Order) (n : nat) (L B0 : Z)
    (i turns : nat) (st : LevelState) :
  (n <= i)%nat ->
  fillLevel oob bestBuy n L B0 i (S turns) st =
    mkLevelState (matchingOrders st) (buyAmount st) (curIndex st)
      (indexNextPriceLevel st) false (orderHistory st)
      (accesses st ++ [IndexError i]).
Proof.
  intros H. cbn [fillLevel].
  replace (n <=? i)%nat with true by (symmetry; apply Nat.leb_le; lia).
  reflexivity.
Qed.

Lemma proRataBody_positive (oob : Order) (ob ob' : Orderbook) (brk : bool) :
  positiveBook ob -> proRataBody oob ob = Some (ob', brk) -> positiveBook ob'.
Proof.
  intros [Hbuys Hsells]. unfold proRataBody.
  destruct (m_buyOrders ob) as [ | bestBuy buys ] eqn:Eb; [ discriminate | ].
  destruct (m_sellOrders ob) as [ | topSell sells0 ] eqn:Es; [ discriminate | ].
  destruct (F32.lt (getPrice bestBuy) (getPrice topSell)).
  { intros H. injection H as <- <-. unfold positiveBook. now rewrite Eb, Es. }
  destruct (drainMatching_split bestBuy (topSell :: sells0) [])
    as (v & E1 & E2 & _).
  destruct (drainMatching bestBuy (topSell :: sells0) []) as [v0 rest].
  cbn [fst snd app] in E1, E2. subst v0. rewrite E2 in Hsells.
  apply Forall_app in Hsells as [Hv Hrest].
  apply Forall_cons_iff in Hbuys as [Hb Hbuys].
  destruct (matchBestBuy_frame oob bestBuy v (m_orderHistory ob))
    as (_ & _ & H1 & H2 & _).
  assert (Hint : intAmounts v).
  { revert Hv. apply Forall_impl. intros o [Ho1 Ho2].
    unfold Int.in_range, Int.min_signed, Int.max_signed in *. lia. }
  specialize (H1 Hint).
  assert (Hbi : Int.in_range (getAmount bestBuy)).
  { destruct Hb. unfold Int.in_range, Int.min_signed, Int.max_signed in *. lia. }
  specialize (H2 Hbi).
  intros H. injection H as <- <-. unfold positiveBook.
  cbn [m_buyOrders m_sellOrders]. split.
  - unfold reAddBuy.
    destruct (Z.gtb_spec (buyAmount (matchBestBuy oob bestBuy v (m_orderHistory ob))) 0);
      [ | exact Hbuys ].
    apply push_Forall; [ | exact Hbuys ].
    unfold positiveAmount. rewrite getAmount_setAmount.
    destruct H2. split; [ lia | assumption ].
  - apply (Permutation_Forall (Permutation_sym (reAddSells_perm _ _))).
    apply Forall_app. split; [ | exact Hrest ].
    unfold intAmounts in H1. rewrite Forall_forall in *. intros o Ho.
    apply filter_In in Ho as [Ho Hpos]. destruct (H1 o Ho).
    split; [ | assumption ].
    destruct (Z.gtb_spec (getAmount o) 0); [ lia | discriminate ].
Qed.

Lemma proRataLoop_positive (oob : Order) (fuel : nat) (ob ob' : Orderbook) :
  positiveBook ob -> proRataLoop oob fuel ob = Some ob' -> positiveBook ob'.
Proof.
  revert ob. induction fuel as [ | fuel IH ]; intros ob Hob; simpl;
    destruct (proRataBody oob ob) as [ [ob1 [ | ]] | ] eqn:E; intros H;
    try discriminate; try (injection H as <-); auto.
  - now apply (proRataBody_positive oob ob ob1 true).
  - now apply (proRataBody_positive oob ob ob1 true).
  - apply (IH ob1); auto. now apply (proRataBody_positive oob ob ob1 false).
Qed.

Lemma boundedBook_positive (ob : Orderbook) : boundedBook ob -> positiveBook ob.
Proof.
  intros (Hb & Hs & Ht). split.
  - revert Hb. apply Forall_impl. intros o [_ Ho].
    unfold positiveAmount, Int.max_signed.
    change (2 ^ 26) with 67108864 in Ho. change (2 ^ 31) with 2147483648. lia.
  - assert (Hnn : Forall (fun o => 0 <= getAmount o) (m_sellOrders ob)).
    { revert Hs. apply Forall_impl. intros o [_ Ho]. lia. }
    rewrite Forall_forall in *. intros o Ho.
    pose proof (sumOf_In_le getAmount _ o (proj2 (Forall_forall _ _) Hnn) Ho).
    destruct (Hs o Ho). unfold positiveAmount, totalAmount in *. lia.
Qed.

(* ------------------------------------------------------------------ *)
(** ** What lies behind the vector does not matter

    The search for the end of a level reads one position behind the last
    order when the level is the last one; both outcomes of the comparison
    then lead to the same index.  No other loop leaves the vector.  A turn
    of the pro-rata pass is therefore the same whatever [oob] is. *)

Section BehindTheVector.

Variables oob1 oob2 : Order.
Variable bestBuy : Order.
Variable n : nat.

Lemma findNextPriceLevel_oob (v : list Order) (cur turns next : nat)
    (tr : list access) :
  List.length v = n -> (cur < n)%nat -> (next + turns <= n)%nat ->
  findNextPriceLevel oob1 v cur turns next tr =
  findNextPriceLevel oob2 v cur turns next tr.
Proof.
  intros Hlen Hcur. revert next tr.
  induction turns as [ | turns IH ]; intros next tr Hn; simpl; [ reflexivity | ].
  rewrite (vec_get_inside oob1 oob2 v cur) by lia.
  destruct (Nat.eq_dec (S next) n) as [E | Hne].
  - assert (turns = 0%nat) by lia. subst turns. simpl.
    destruct (F32.gt _ _), (F32.gt _ _); reflexivity.
  - rewrite (vec_get_inside oob1 oob2 v (S next)) by lia.
    destruct (F32.gt _ _); [ reflexivity | ]. apply IH. lia.
Qed.

Lemma sumLevel_oob (v : list Order) (i turns : nat) (acc : Z) (tr : list access) :
  List.length v = n -> (i + turns <= n)%nat ->
  sumLevel oob1 v i turns acc tr = sumLevel oob2 v i turns acc tr.
Proof.
  intros Hlen. revert i acc tr.
  induction turns as [ | turns IH ]; intros i acc tr Hi; simpl; [ reflexivity | ].
  rewrite (vec_get_inside oob1 oob2 v i) by lia. apply IH. lia.
Qed.

Lemma fillLevel_oob (L B0 : Z) (turns i : nat) (st : LevelState) :
  List.length (matchingOrders st) = n ->
  fillLevel oob1 bestBuy n L B0 i turns st =
  fillLevel oob2 bestBuy n L B0 i turns st.
Proof.
  revert i st. induction turns as [ | turns IH ]; intros i st Hlen;
    cbn [fillLevel]; [ reflexivity | ].
  destruct (Nat.leb_spec n i) as [ | Hi ]; [ reflexivity | ].
  cbv zeta. rewrite (vec_get_inside oob1 oob2 (matchingOrders st) i) by lia.
  rewrite (vec_get_inside oob1 oob2 (vec_set _ _ _) i)
    by (rewrite vec_set_length; lia).
  destruct (_ =? 0); [ reflexivity | ].
  apply IH. cbn [matchingOrders]. now rewrite vec_set_length.
Qed.

Lemma levelBody_oob (st : LevelState) :
  List.length (matchingOrders st) = n ->
  curIndex st = indexNextPriceLevel st ->
  (curIndex st < n)%nat ->
  levelBody oob1 bestBuy n st = levelBody oob2 bestBuy n st.
Proof.
  intros Hlen Hidx Hlt. unfold levelBody. rewrite <- Hidx.
  rewrite (findNextPriceLevel_oob (matchingOrders st)) by (auto; lia).
  pose proof (findNextPriceLevel_bounds oob2 (matchingOrders st) (curIndex st)
                (n - curIndex st) (curIndex st) (accesses st)) as [Hb _].
  destruct (findNextPriceLevel oob2 _ _ _ _ _) as [next tr1]. cbn [fst] in Hb.
  rewrite (sumLevel_oob (matchingOrders st)) by (auto; lia).
  destruct (sumLevel oob2 _ _ _ _ _) as [total tr2].
  rewrite fillLevel_oob by exact Hlen. reflexivity.
Qed.

Lemma processLevels_oob (fuel : nat) (st : LevelState) :
  List.length (matchingOrders st) = n ->
  curIndex st = indexNextPriceLevel st ->
  processLevels oob1 bestBuy n fuel st = processLevels oob2 bestBuy n fuel st.
Proof.
  revert st. induction fuel as [ | fuel IH ]; intros st Hlen Hidx;
    cbn [processLevels]; [ reflexivity | ].
  destruct ((curIndex st <? n)%nat && buyOrdersStillRemaining st) eqn:Econd;
    [ | reflexivity ].
  apply andb_prop in Econd as [Hlt _]. apply Nat.ltb_lt in Hlt.
  rewrite (levelBody_oob st Hlen Hidx Hlt).
  destruct (levelBody_frame oob2 bestBuy n st Hlen Hidx Hlt) as (H1 & H2 & _).
  now apply IH.
Qed.

End BehindTheVector.

Lemma proRataBody_oob (oob1 oob2 : Order) (ob : Orderbook) :
  proRataBody oob1 ob = proRataBody oob2 ob.
Proof.
  unfold proRataBody, matchBestBuy.
  destruct (m_buyOrders ob) as [ | bestBuy buys ]; [ reflexivity | ].
  destruct (m_sellOrders ob) as [ | topSell sells ]; [ reflexivity | ].
  destruct (F32.lt _ _); [ reflexivity | ].
  destruct (drainMatching _ _ _) as [v rest].
  now rewrite (processLevels_oob oob1 oob2).
Qed.

Lemma proRataLoop_oob (oob1 oob2 : Order) (fuel : nat) (ob : Orderbook) :
  proRataLoop oob1 fuel ob = proRataLoop oob2 fuel ob.
Proof.
  revert ob. induction fuel as [ | fuel IH ]; intros ob; simpl;
    rewrite (proRataBody_oob oob1 oob2);
    destruct (proRataBody oob2 ob) as [ [ob' [ | ]] | ]; auto.
Qed.

(* ------------------------------------------------------------------ *)
(** ** The queues of the engine are queues of priced orders

    The engine only ever pushes and pops, so the queues of every book that
    [addOrder] and the two passes produce are covered by the statement on
    price-time priority, as long as the prices given to [addOrder] are
    numbers. *)

Lemma reachable_priced (comp : Order -> Order -> bool) (q : PQ.t) :
  PQ.reachable comp q -> Forall priced q.
Proof.
  induction 1 as [ | x q Hx _ IH | q _ IH ].
  - constructor.
  - now apply push_Forall.
  - destruct q; simpl; [ constructor | now inversion IH ].
Qed.

Lemma reachable_suffix (comp : Order -> Order -> bool) (v rest : list Order) :
  PQ.reachable comp (v ++ rest) -> PQ.reachable comp rest.
Proof.
  induction v as [ | x v IH ]; simpl; intros H; [ exact H | ].
  apply IH. exact (PQ.reachable_pop comp _ H).
Qed.

Lemma reAddSells_reachable (v : list Order) (sells : PQ.t) :
  Forall priced v -> PQ.reachable prioritizeMin sells ->
  PQ.reachable prioritizeMin (reAddSells v sells).
Proof.
  unfold reAddSells. intros Hv. revert sells.
  induction Hv as [ | o v Ho _ IH ]; intros sells Hs; simpl; [ exact Hs | ].
  apply IH. destruct (getAmount o >? 0); [ | exact Hs ].
  now apply PQ.reachable_push.
Qed.

Lemma addOrder_reachable (o : Order) (ob : Orderbook) :
  priced o -> reachableBook ob -> reachableBook (addOrder o ob).
Proof.
  intros Ho [Hb Hs]. unfold addOrder, reachableBook.
  destruct (checkIsBuy o); simpl; split; auto; now apply PQ.reachable_push.
Qed.

Lemma fifoBody_reachable (ob ob' : Orderbook) (brk : bool) :
  reachableBook ob -> fifoBody ob = Some (ob', brk) -> reachableBook ob'.
Proof.
  intros [Hb Hs]. unfold fifoBody.
  destruct (m_buyOrders ob) as [ | bestBuy buys ]; [ discriminate | ].
  destruct (m_sellOrders ob) as [ | bestSell sells ]; [ discriminate | ].
  pose proof (reachable_priced _ _ Hb) as Pb. inversion Pb as [ | ? ? Pbb _ ]; subst.
  pose proof (reachable_priced _ _ Hs) as Ps. inversion Ps as [ | ? ? Pss _ ]; subst.
  apply PQ.reachable_pop in Hb, Hs. simpl in Hb, Hs.
  destruct (F32.ge _ _);
    [ destruct (_ >? _); [ | destruct (_ <? _) ] | ];
    intros H; injection H as <- <-; split; simpl; auto;
    now apply PQ.reachable_push.
Qed.

Lemma fifoLoop_reachable (fuel : nat) (ob ob' : Orderbook) :
  reachableBook ob -> fifoLoop fuel ob = Some ob' -> reachableBook ob'.
Proof.
  revert ob. induction fuel as [ | fuel IH ]; intros ob Hob; simpl;
    destruct (fifoBody ob) as [ [ob1 [ | ]] | ] eqn:E; intros H;
    try discriminate; try (injection H as <-); auto.
  - now apply (fifoBody_reachable ob ob1 true).
  - now apply (fifoBody_reachable ob ob1 true).
  - apply (IH ob1); auto. now apply (fifoBody_reachable ob ob1 false).
Qed.

Lemma proRataBody_reachable (oob : Order) (ob ob' : Orderbook) (brk : bool) :
  reachableBook ob -> proRataBody oob ob = Some (ob', brk) -> reachableBook ob'.
Proof.
  intros [Hb Hs]. unfold proRataBody.
  destruct (m_buyOrders ob) as [ | bestBuy buys ] eqn:Eb; [ discriminate | ].
  destruct (m_sellOrders ob) as [ | topSell sells0 ] eqn:Es; [ discriminate | ].
  destruct (F32.lt _ _).
  { intros H. injection H as <- <-. unfold reachableBook. now rewrite Eb, Es. }
  destruct (drainMatching_split bestBuy (topSell :: sells0) [])
    as (v & E1 & E2 & _).
  destruct (drainMatching bestBuy (topSell :: sells0) []) as [v0 rest].
  cbn [fst snd app] in E1, E2. subst v0.
  pose proof (reachable_priced _ _ Hb) as Pb. inversion Pb as [ | ? ? Pbb _ ]; subst.
  pose proof (reachable_priced _ _ Hs) as Ps. rewrite E2 in Ps, Hs.
  apply Forall_app in Ps as [Pv _].
  apply reachable_suffix in Hs. apply PQ.reachable_pop in Hb. simpl in Hb.
  destruct (matchBestBuy_frame oob bestBuy v (m_orderHistory ob))
    as (_ & _ & _ & _ & Hp).
  intros H. injection H as <- <-. split; simpl.
  - unfold reAddBuy. destruct (_ >? _); [ | exact Hb ].
    now apply PQ.reachable_push.
  - apply reAddSells_reachable; auto.
Qed.

Lemma proRataLoop_reachable (oob : Order) (fuel : nat) (ob ob' : Orderbook) :
  reachableBook ob -> proRataLoop oob fuel ob = Some ob' -> reachableBook ob'.
Proof.
  revert ob. induction fuel as [ | fuel IH ]; intros ob Hob; simpl;
    destruct (proRataBody oob ob) as [ [ob1 [ | ]] | ] eqn:E; intros H;
    try discriminate; try (injection H as <-); auto.
  - now apply (proRataBody_reachable oob ob ob1 true).
  - now apply (proRataBody_reachable oob ob ob1 true).
  - apply (IH ob1); auto. now apply (proRataBody_reachable oob ob ob1 false).
Qed.

Lemma SFleb_refl (a : spec_float) : F32.is_nan a = false -> SFleb a a = true.
Proof. intros Ha. now destruct (SFleb_total a a Ha Ha). Qed.

Lemma reachableBook_ordered (ob : Orderbook) :
  reachableBook ob ->
  PQ.ordered prioritizeMax (m_buyOrders ob) /\
  PQ.ordered prioritizeMin (m_sellOrders ob).
Proof.
  intros [Hb Hs]. split.
  - apply reachable_ordered; auto.
    + exact prioritizeMax_asym.
    + exact prioritizeMax_negtrans.
  - apply reachable_ordered; auto.
    + exact prioritizeMin_asym.
    + exact prioritizeMin_negtrans.
Qed.

Lemma scenarioD_reachable : reachableBook scenarioD.
Proof.
  unfold scenarioD.
  repeat (apply addOrder_reachable; [ reflexivity | ]).
  split; constructor.
Qed.

(* ------------------------------------------------------------------ *)
(** ** The allocation within a price level *)

Lemma processLevels_stopped (oob bestBuy : Order) (n fuel : nat) (st : LevelState) :
  buyOrdersStillRemaining st = false ->
  processLevels oob bestBuy n fuel st = st.
Proof.
  intros H. destruct fuel; simpl; [ reflexivity | ].
  now rewrite H, andb_false_r.
Qed.

Lemma allocateLevel_ext (share1 share2 : Z -> Z) (buyer : Z) (level : list Order) :
  Forall (fun o => share1 (getAmount o) = share2 (getAmount o)) level ->
  forall B, allocateLevel share1 buyer B level = allocateLevel share2 buyer B level.
Proof.
  induction 1 as [ | o rest Ho _ IH ]; intros B; simpl; [ reflexivity | ].
  rewrite Ho. destruct (_ =? 0); [ reflexivity | ]. now rewrite IH.
Qed.

(** The fill loop only adds records to the ledger. *)
Lemma fillLevel_history (oob bestBuy : Order) (n : nat) (L B0 : Z)
    (turns i : nat) (st : LevelState) :
  exists recs,
    orderHistory (fillLevel oob bestBuy n L B0 i turns st) = orderHistory st ++ recs.
Proof.
  revert i st. induction turns as [ | turns IH ]; intros i st; cbn [fillLevel].
  - exists []. now rewrite app_nil_r.
  - destruct (n <=? i)%nat; [ exists []; now rewrite app_nil_r | ].
    cbv zeta. destruct (_ =? 0).
    + eexists. reflexivity.
    + match goal with
      | |- context [ fillLevel _ _ _ _ _ ?j _ ?s ] => destruct (IH j s) as (recs & E)
      end.
      rewrite E. cbn [orderHistory]. rewrite <- app_assoc. eexists. reflexivity.
Qed.

(** The value of [proportionalShare], from the binary32 product computed
    with the operations of the library and the ceiling of that product. *)
Lemma proportionalShare_ceiling (B0 s L : Z) (m : positive) (e c : Z) :
  SFmul 24 128 (binary_normalize 24 128 B0 0 false)
    (SFdiv 24 128 (binary_normalize 24 128 s 0 false)
                  (binary_normalize 24 128 L 0 false)) = S754_finite false m e ->
  (c - 1) * 2 ^ Z.max 0 (- e) < Z.pos m * 2 ^ Z.max 0 e <= c * 2 ^ Z.max 0 (- e) ->
  c <= Int.max_signed ->
  proportionalShare B0 s L = c /\ 1 <= c.
Proof.
  intros Ex Hc Hmax.
  assert (H1 : 1 <= c).
  { assert (0 < 2 ^ Z.max 0 (- e)) by (apply Z.pow_pos_nonneg; lia).
    assert (0 < 2 ^ Z.max 0 e) by (apply Z.pow_pos_nonneg; lia).
    nia. }
  split; [ | exact H1 ].
  unfold proportionalShare, F32.ceil_to_int, F32.mul, F32.div, F32.of_int,
    F32.prec, F32.emax. cbv zeta.
  rewrite Ex, (ceil_value_ceiling m e c Hc).
  replace (Int.min_signed <=? c) with true
    by (symmetry; apply Z.leb_le; unfold Int.min_signed; lia).
  replace (c <=? Int.max_signed) with true by (symmetry; apply Z.leb_le; lia).
  reflexivity.
Qed.

(** C4, as the specification states it, fails: the entitlement is computed
    in binary32, not in exact arithmetic.  For a buy of 13 against sells of
    14 and 12 at one price, [13 * 14 / 26] is exactly 7, but the binary32
    quotient [14 / 26] is rounded up and the binary32 product exceeds 7, so
    that the pass fills 8 and then 5 where exact arithmetic gives 7 and
    6.  Outside the range of [int] the fills are not even a minimum of the
    three quantities: for a buy of [2^31 - 1] against a sell of 1 the
    binary32 product is [2^31], which no [int] holds, and the fill recorded
    is [-2^31]; for a buy of 10 against two sells of [2^30] at one price
    the total of the level is not an [int], and the fills recorded are
    [-5] and [-5]. *)
Lemma binary32_share_differs_from_exact_share :
  matchOrdersProRata rejectedOrder roundingBook =
    Some (mkOrderbook []
            [setAmount sellR1 6; setAmount sellR2 7]
            [mkProcessedOrder 1 2 8; mkProcessedOrder 1 3 5]) /\
  allocateLevel (fun sellQty => exactShare 13 sellQty 26) 1 13 [sellR1; sellR2] =
    (0, [setAmount sellR1 7; setAmount sellR2 6],
     [mkProcessedOrder 1 2 7; mkProcessedOrder 1 3 6]) /\
  Z.min (Z.min 13 14) (exactShare 13 14 26) = 7 /\
  orderHistory (matchBestBuy rejectedOrder buyMax [sellOne] []) =
    [mkProcessedOrder 1 2 (-2147483648)] /\
  Z.min (Z.min 2147483647 1) (exactShare 2147483647 1 1) = 1 /\
  orderHistory (matchBestBuy rejectedOrder buyD [sellHalf1; sellHalf2] []) =
    [mkProcessedOrder 1 2 (-5); mkProcessedOrder 1 3 (-5)] /\
  Z.min (Z.min 10 1073741824) (exactShare 10 1073741824 2147483648) = 5.
Proof. repeat split; vm_compute; reflexivity. Qed.

(** C4 (amended).  The share of a sell order is
    [(int) ceil (B0 * ((float) sellQty / (float) L))] computed in binary32:
    the three conversions, the quotient and the product each round to
    nearest, ties to even, and the ceiling is taken of the rounded product.
    The statement writes the product with the binary32 operations of the
    standard library and the ceiling [c] of a product [m * 2^e] as the
    integer with [c - 1 < m * 2^e <= c].

    First part: in every state of the fill loop, whenever that product is
    a positive finite number whose ceiling [c] is an [int], the record
    written for the order at [i] is the buy order, the sell order and the
    least of the buy quantity still available, the quantity of the sell
    order and [c]; when this fill brings the buy quantity to 0, no further
    record is written and the loop over the levels is told to stop.

    Second part: one turn of the loop over the levels.  When the level that
    the search delimits holds positive amounts whose total [L] is an [int],
    the buy quantity [B0] on entry is a positive [int], and [share] gives,
    for the quantity of every order of the level, the ceiling of the
    product, an [int], then the turn is the allocation of the level as the
    specification words it ([allocateLevel]): the orders are visited in the
    order of the vector, with [B0] and [L] fixed for the level; each is
    filled with the least of the buy quantity still available, its own
    quantity and its share; both sides are reduced by the fill; the visit
    ends when the buy quantity reaches 0, and then no further level is
    visited.  The level consists of the orders from [curIndex] on whose
    price does not exceed the price at [curIndex], up to the first that
    does. *)
Theorem level_allocation_binary32
    (oob bestBuy : Order) (n : nat) (st : LevelState) :
  (forall (L B0 : Z) (i turns : nat) (m : positive) (e c : Z),
     (i < n)%nat ->
     SFmul 24 128 (binary_normalize 24 128 B0 0 false)
       (SFdiv 24 128
          (binary_normalize 24 128
             (getAmount (vec_get oob (matchingOrders st) i)) 0 false)
          (binary_normalize 24 128 L 0 false)) = S754_finite false m e ->
     (c - 1) * 2 ^ Z.max 0 (- e) < Z.pos m * 2 ^ Z.max 0 e
       <= c * 2 ^ Z.max 0 (- e) ->
     c <= Int.max_signed ->
     let fill :=
       Z.min (Z.min (buyAmount st)
                    (getAmount (vec_get oob (matchingOrders st) i))) c in
     exists rest,
       orderHistory (fillLevel oob bestBuy n L B0 i (S turns) st) =
         orderHistory st ++
         mkProcessedOrder (getID bestBuy)
           (getID (vec_get oob (matchingOrders st) i)) fill
         :: rest /\
       (Int.sub (buyAmount st) fill = 0 ->
        rest = [] /\
        buyAmount (fillLevel oob bestBuy n L B0 i (S turns) st) = 0 /\
        buyOrdersStillRemaining (fillLevel oob bestBuy n L B0 i (S turns) st) =
          false)) /\
  (forall (before level after : list Order) (share : Z -> Z),
     matchingOrders st = before ++ level ++ after ->
     List.length (matchingOrders st) = n ->
     List.length before = curIndex st ->
     indexNextPriceLevel st = curIndex st ->
     (curIndex st < n)%nat ->
     buyOrdersStillRemaining st = true ->
     fst (findNextPriceLevel oob (matchingOrders st) (curIndex st)
            (n - curIndex st) (curIndex st) (accesses st)) =
       (curIndex st + List.length level)%nat ->
     0 < buyAmount st <= Int.max_signed ->
     Forall (fun o => 0 < getAmount o) level ->
     totalAmount level <= Int.max_signed ->
     Forall (fun o =>
               exists m e,
                 SFmul 24 128 (binary_normalize 24 128 (buyAmount st) 0 false)
                   (SFdiv 24 128
                      (binary_normalize 24 128 (getAmount o) 0 false)
                      (binary_normalize 24 128 (totalAmount level) 0 false)) =
                   S754_finite false m e /\
                 (share (getAmount o) - 1) * 2 ^ Z.max 0 (- e)
                   < Z.pos m * 2 ^ Z.max 0 e
                   <= share (getAmount o) * 2 ^ Z.max 0 (- e) /\
                 share (getAmount o) <= Int.max_signed) level ->
     exists (B' : Z) (level' : list Order) (fills : list ProcessedOrder),
       allocateLevel share (getID bestBuy) (buyAmount st) level =
         (B', level', fills) /\
       matchingOrders (levelBody oob bestBuy n st) = before ++ level' ++ after /\
       buyAmount (levelBody oob bestBuy n st) = B' /\
       orderHistory (levelBody oob bestBuy n st) = orderHistory st ++ fills /\
       curIndex (levelBody oob bestBuy n st) =
         (curIndex st + List.length level)%nat /\
       buyOrdersStillRemaining (levelBody oob bestBuy n st) = negb (B' =? 0) /\
       (B' = 0 ->
        forall fuel, processLevels oob bestBuy n fuel (levelBody oob bestBuy n st) =
                     levelBody oob bestBuy n st) /\
       level <> [] /\
       (forall k, (curIndex st < k < curIndex st + List.length level)%nat ->
          F32.gt (getPrice (vec_get oob (matchingOrders st) k))
                 (getPrice (vec_get oob (matchingOrders st) (curIndex st))) = false) /\
       ((curIndex st + List.length level < n)%nat ->
          F32.gt (getPrice (vec_get oob (matchingOrders st)
                              (curIndex st + List.length level)))
                 (getPrice (vec_get oob (matchingOrders st) (curIndex st))) = true)).
Proof.
  split.
  - intros L B0 i turns m e c Hi Ex Hc Hmax. cbv zeta.
    destruct (proportionalShare_ceiling _ _ _ m e c Ex Hc Hmax) as [Es _].
    cbn [fillLevel].
    replace (n <=? i)%nat with false by (symmetry; apply Nat.leb_gt; lia).
    cbv zeta. rewrite Es.
    assert (Eid : getID (vec_get oob
                    (vec_set (matchingOrders st) i
                       (setAmount (vec_get oob (matchingOrders st) i)
                          (Int.sub (getAmount (vec_get oob (matchingOrders st) i))
                             (Z.min (Z.min (buyAmount st)
                                (getAmount (vec_get oob (matchingOrders st) i))) c))))
                    i) = getID (vec_get oob (matchingOrders st) i)).
    { generalize (Int.sub (getAmount (vec_get oob (matchingOrders st) i))
                    (Z.min (Z.min (buyAmount st)
                       (getAmount (vec_get oob (matchingOrders st) i))) c)).
      intros a. unfold vec_get. generalize (matchingOrders st). clear.
      intros v. revert i. induction v as [ | h rest IH ]; intros [ | i ]; simpl;
        try reflexivity.
      apply IH. }
    rewrite Eid.
    match goal with
    | |- context [ ?X =? 0 ] => destruct (Z.eqb_spec X 0) as [Hz | Hnz]
    end.
    + exists []. split; [ reflexivity | ]. intros _.
      cbn [buyAmount buyOrdersStillRemaining]. auto.
    + match goal with
      | |- context [ fillLevel _ _ _ _ _ ?j ?t ?s ] =>
          destruct (fillLevel_history oob bestBuy n L B0 t j s) as (recs & E)
      end.
      rewrite E. cbn [orderHistory]. rewrite <- app_assoc. exists recs.
      split; [ reflexivity | ]. intros Hz. contradiction.
  - intros before level after share Ev Hlen Lb Hidx Hlt Hr Enext HB Hpl Htl Hshare.
    assert (Hsh : Forall (fun o => share (getAmount o) =
                    proportionalShare (buyAmount st) (getAmount o)
                      (totalAmount level) /\
                    0 <= proportionalShare (buyAmount st) (getAmount o)
                      (totalAmount level)) level).
    { revert Hshare. apply Forall_impl. intros o (m & e & Ex & Hc & Hmax).
      destruct (proportionalShare_ceiling _ _ _ m e _ Ex Hc Hmax) as [Es H1].
      rewrite Es. split; [ reflexivity | lia ]. }
    destruct (allocateLevel share (getID bestBuy) (buyAmount st) level)
      as [[B' level'] fills] eqn:Ea.
    exists B', level', fills. split; [ reflexivity | ].
    rewrite (allocateLevel_ext share
               (fun s => proportionalShare (buyAmount st) s (totalAmount level)))
      in Ea by (revert Hsh; apply Forall_impl; tauto).
    assert (Eb := levelBody_level oob bestBuy n st before level after
                    B' level' fills Ev Hlen Lb Hidx Enext Hr HB Hpl Htl
                    ltac:(revert Hsh; apply Forall_impl; tauto) Ea).
    pose proof (findNextPriceLevel_prices oob (matchingOrders st) (curIndex st)
                  (n - curIndex st) (curIndex st) (accesses st)) as [P1 P2].
    cbv zeta in P1, P2. rewrite Enext in P1, P2.
    pose proof (findNextPriceLevel_bounds oob (matchingOrders st) (curIndex st)
                  (n - curIndex st) (curIndex st) (accesses st)) as [_ Hb2].
    rewrite Enext in Hb2. specialize (Hb2 ltac:(lia)).
    rewrite Eb. cbn [matchingOrders buyAmount orderHistory curIndex
                       buyOrdersStillRemaining].
    splits; auto.
    + intros HB0 fuel. apply processLevels_stopped. simpl. now rewrite HB0.
    + intros E. rewrite E in Hb2. simpl in Hb2. lia.
    + intros Hk. apply P2. lia.
Qed.

(** The buy of 13 against the sells of 14 and 12: the binary32 products are
    [14680065 * 2^-21], just above 7, and [12582912 * 2^-21], which is 6;
    the turn records the fills 8 and 5 and leaves 0 of the buy order. *)
Lemma level_allocation_binary32_witness :
  (exists rest,
     orderHistory (fillLevel rejectedOrder buyR 2 26 13 0 2 levelsR) =
       mkProcessedOrder 1 2 (Z.min (Z.min 13 14) 8) :: rest) /\
  orderHistory (levelBody rejectedOrder buyR 2 levelsR) =
    [mkProcessedOrder 1 2 8; mkProcessedOrder 1 3 5] /\
  matchingOrders (levelBody rejectedOrder buyR 2 levelsR) =
    [setAmount sellR1 6; setAmount sellR2 7] /\
  buyAmount (levelBody rejectedOrder buyR 2 levelsR) = 0 /\
  buyOrdersStillRemaining (levelBody rejectedOrder buyR 2 levelsR) = false.
Proof.
  destruct (level_allocation_binary32 rejectedOrder buyR 2 levelsR) as [A B].
  split.
  - destruct (A 26 13 0%nat 1%nat 14680065%positive (-21) 8) as (rest & E & _);
      [ lia | vm_compute; reflexivity | vm_compute; split; [ reflexivity | discriminate ]
      | unfold Int.max_signed; lia | ].
    exists rest. exact E.
  - destruct (B [] [sellR1; sellR2] [] (fun s => if s =? 14 then 8 else 6))
      as (B' & level' & fills & Ea & Ev & EB & Eh & _ & Er & _);
      try reflexivity; try (simpl; lia).
    + unfold Int.max_signed. simpl. lia.
    + repeat constructor.
    + unfold totalAmount, Int.max_signed. simpl. lia.
    + constructor; [ | constructor; [ | constructor ] ].
      * exists 14680065%positive, (-21). split; [ vm_compute; reflexivity | ].
        split; [ vm_compute; split; [ reflexivity | discriminate ] | ].
        unfold Int.max_signed. simpl. lia.
      * exists 12582912%positive, (-21). split; [ vm_compute; reflexivity | ].
        split; [ vm_compute; split; [ reflexivity | discriminate ] | ].
        unfold Int.max_signed. simpl. lia.
    + vm_compute in Ea. injection Ea as <- <- <-.
      rewrite Eh, Ev, EB, Er. repeat split.
Defined.

(* ------------------------------------------------------------------ *)
(** ** Accesses to the vector of matching orders *)

(** The accesses of a turn of the pro-rata pass, for every vector of
    drained sell orders: the summation of a level and the fill loop stay
    inside the vector and the test [i >= numMatchingSells] of the fill loop
    never fires; the search for the next level reaches at most the position
    behind the last order. *)
Lemma vector_accesses_bounds
    (oob bestBuy : Order) (v : list Order) (h : list ProcessedOrder) :
  Forall (guarded (List.length v)) (accesses (matchBestBuy oob bestBuy v h)) /\
  Forall (scanReach (List.length v)) (accesses (matchBestBuy oob bestBuy v h)).
Proof.
  split; apply (matchBestBuy_frame oob bestBuy v h).
Qed.

(** C2: the code does not do what the claim asks.  In scenario D of the
    specification the vector of drained sell orders holds two orders, at
    the positions 0 and 1.  The search for the end of the price level
    (orderbook.cpp, lines 205-213) increments [indexNextPriceLevel] before
    it reads [matchingOrders[indexNextPriceLevel]]: it reads the positions
    1 and 2, and position 2 lies behind the last order.  Nothing is
    signalled: the accesses of the turn are the twelve accesses listed, the
    test of the fill loop does not fire, and the pass returns with its two
    fills. *)
Theorem scan_reads_behind_the_last_order :
  List.length [sellA; sellB] = 2%nat /\
  In (AtScan 2) (accesses (matchBestBuy rejectedOrder buyD [sellA; sellB] [])) /\
  matchOrdersProRata rejectedOrder scenarioD =
    Some (mkOrderbook []
            [setAmount sellA 22; setAmount sellB 8]
            [mkProcessedOrder 1 2 8; mkProcessedOrder 1 3 2]) /\
  fst (drainMatching buyD (m_sellOrders scenarioD) []) = [sellA; sellB] /\
  accesses (matchBestBuy rejectedOrder buyD [sellA; sellB] []) =
    [AtScan 1; AtScan 0; AtScan 2; AtScan 0; AtSum 0; AtSum 1;
     AtFill 0; AtFill 0; AtFill 0; AtFill 1; AtFill 1; AtFill 1].
Proof.
  split; [ reflexivity | split; [ | split; [ | split ] ] ].
  - vm_compute. right. right. left. reflexivity.
  - vm_compute. reflexivity.
  - vm_compute. reflexivity.
  - vm_compute. reflexivity.
Qed.

(* ------------------------------------------------------------------ *)
(** ** Conservation of quantity *)

Lemma conserved_accounted (ob ob' : Orderbook) :
  conserved ob ob' -> exists fills, accounted ob ob' fills.
Proof.
  intros [[fills E] H]. exists fills. split; [ exact E | ].
  intros id. destruct (H id) as [H1 H2]. revert H1 H2.
  rewrite E. unfold boughtQty, soldQty. rewrite !sumOf_app. lia.
Qed.

(** On the books of [boundedBook] the pro-rata pass returns. *)
Lemma matchOrdersProRata_returns (oob : Order) (ob : Orderbook) :
  boundedBook ob ->
  exists ob',
    matchOrdersProRata oob ob = Some ob' /\ boundedBook ob' /\ conserved ob ob'.
Proof.
  intros Hob. apply proRataLoop_sound; [ exact Hob | ].
  destruct Hob as (_ & Hs & _).
  assert (0 <= totalAmount (m_sellOrders ob)).
  { apply sumOf_nonneg. revert Hs. apply Forall_impl. intros ? [_ ?]. lia. }
  lia.
Qed.

(** *** Queues in priority order: the levels are the prices *)

Lemma StronglySorted_suffix {A : Type} (R : A -> A -> Prop) (l1 l2 : list A) :
  StronglySorted R (l1 ++ l2) -> StronglySorted R l2.
Proof.
  induction l1 as [ | x l1 IH ]; simpl; intros H; [ exact H | ].
  apply IH. now inversion H.
Qed.

Lemma levelTotal_app (p : F32.float) (q1 q2 : list Order) :
  levelTotal p (q1 ++ q2) = levelTotal p q1 + levelTotal p q2.
Proof. apply sumOf_app. Qed.

Lemma levelTotal_nonneg (p : F32.float) (q : list Order) :
  Forall (fun o => 0 <= getAmount o) q -> 0 <= levelTotal p q.
Proof.
  intros H. apply sumOf_nonneg. revert H. apply Forall_impl.
  intros o Ho. destruct (SFeqb _ _); lia.
Qed.

Lemma levelTotal_same_price (p : F32.float) (q : list Order) :
  Forall (fun o => SFeqb (getPrice o) p = true) q ->
  levelTotal p q = totalAmount q.
Proof.
  unfold levelTotal, totalAmount.
  induction 1 as [ | o q Ho _ IH ]; simpl; [ reflexivity | ].
  now rewrite Ho, IH.
Qed.

Lemma levelTotal_filled (p : F32.float) (v v' : list Order) :
  Forall2 filledFrom v v' -> levelTotal p v' <= levelTotal p v.
Proof.
  unfold levelTotal.
  induction 1 as [ | o o' v v' [E R] _ IH ]; simpl; [ lia | ].
  rewrite E at 1. rewrite getPrice_setAmount.
  destruct (SFeqb _ _); lia.
Qed.

Lemma levelTotal_le_total (p : F32.float) (q : list Order) :
  Forall (fun o => 0 <= getAmount o) q -> levelTotal p q <= totalAmount q.
Proof.
  unfold levelTotal, totalAmount.
  induction 1 as [ | o q Ho _ IH ]; simpl; [ lia | ].
  destruct (SFeqb _ _); lia.
Qed.

(** In a queue in priority order, a run that the search delimits holds
    orders of one price. *)
Lemma ordered_runsFit (q : list Order) :
  PQ.ordered prioritizeMin q ->
  Forall (fun o => 0 <= getAmount o) q ->
  (forall p, levelTotal p q <= Int.max_signed) ->
  runsFit q.
Proof.
  intros [Hs Hp] Hnn Htot before first rest after -> Hprices.
  specialize (Htot (getPrice first)).
  apply StronglySorted_suffix in Hs. simpl in Hs.
  inversion Hs as [ | ? ? _ Hfirst ]; subst.
  apply Forall_app in Hp as [_ Hp]. simpl in Hp.
  inversion Hp as [ | ? ? Pf Hp' ]; subst.
  apply Forall_app in Hp' as [Prest _]. apply Forall_app in Hfirst as [Hfirst _].
  apply Forall_app in Hnn as [Hn1 Hn2].
  change ((first :: rest) ++ after) with ((first :: rest) ++ after) in Hn2.
  apply Forall_app in Hn2 as [_ Hn3].
  assert (Hsame : Forall (fun o => SFeqb (getPrice o) (getPrice first) = true)
                         (first :: rest)).
  { constructor.
    - unfold priced in Pf. now rewrite SFeqb_as_leb, SFleb_refl.
    - rewrite Forall_forall in *. intros o Ho.
      destruct (prioritizeMin_false first o Pf (Prest o Ho) (Hfirst o Ho))
        as [Hlt _].
      specialize (Hprices o Ho). specialize (Prest o Ho).
      unfold F32.lt, F32.gt, priced in *. rewrite SFeqb_as_leb.
      rewrite (SFltb_false_leb _ _ Pf Prest Hprices).
      now rewrite (SFltb_false_leb _ _ Prest Pf Hlt). }
  rewrite !levelTotal_app, (levelTotal_same_price _ _ Hsame) in Htot.
  pose proof (levelTotal_nonneg (getPrice first) before Hn1).
  pose proof (levelTotal_nonneg (getPrice first) after Hn3).
  lia.
Qed.

Lemma runsFit_prefix (v rest : list Order) : runsFit (v ++ rest) -> runsFit v.
Proof.
  intros H before first r after -> Hp.
  apply (H before first r (after ++ rest)); [ | exact Hp ].
  now rewrite <- !app_assoc.
Qed.

(** *** One turn of the pro-rata loop while the arithmetic stays in [int] *)

Lemma proRataBody_turn (oob : Order) (ob : Orderbook)
    (bestBuy : Order) (buys : PQ.t) (topSell : Order) (sells0 : PQ.t) :
  m_buyOrders ob = bestBuy :: buys ->
  m_sellOrders ob = topSell :: sells0 ->
  F32.lt (getPrice bestBuy) (getPrice topSell) = false ->
  F32.ge (getPrice bestBuy) (getPrice topSell) = true ->
  Forall (fun o => 0 < getAmount o) (m_sellOrders ob) ->
  runsFit (m_sellOrders ob) ->
  0 < getAmount bestBuy <= Int.max_signed ->
  convertible (getAmount bestBuy) ->
  exists (v rest v' : list Order) (B' : Z) (recs : list ProcessedOrder),
    m_sellOrders ob = v ++ rest /\
    proRataBody oob ob =
      Some (mkOrderbook (reAddBuy bestBuy B' buys) (reAddSells v' rest)
              (m_orderHistory ob ++ recs), false) /\
    Forall2 filledFrom v v' /\
    0 <= B' <= getAmount bestBuy /\
    totalAmount v' < totalAmount v /\
    (forall id, residentQty id v' + soldQty id recs = residentQty id v) /\
    (forall id, boughtQty id recs =
                if getID bestBuy =? id then getAmount bestBuy - B' else 0).
Proof.
  intros Eb Es Elt Hge Hpos Hfit HB Hconv. unfold proRataBody.
  rewrite Eb, Es, Elt. rewrite Es in Hpos, Hfit.
  destruct (drainMatching_split bestBuy (topSell :: sells0) [])
    as (v & E1 & E2 & E3).
  specialize (E3 _ _ eq_refl Hge).
  destruct (drainMatching bestBuy (topSell :: sells0) []) as [v0 rest].
  cbn [fst snd app] in E1, E2. subst v0. rewrite E2 in Hpos, Hfit.
  apply Forall_app in Hpos as [Hvpos _].
  unfold matchBestBuy.
  set (st0 := mkLevelState v (getAmount bestBuy) 0 0 true (m_orderHistory ob) []).
  assert (Hinv : levelInv (List.length v) st0).
  { apply levelInv_start; auto. now apply (runsFit_prefix v rest). }
  destruct (processLevels_sound oob bestBuy (List.length v) (List.length v) st0 Hinv)
    as (I1 & S1 & T1 & _).
  assert (Hlen : (0 < List.length v)%nat)
    by (destruct v; [ congruence | simpl; lia ]).
  specialize (T1 Hlen Hlen eq_refl).
  set (st := processLevels oob bestBuy (List.length v) (List.length v) st0) in *.
  destruct I1 as (_ & _ & _ & _ & _ & _ & [HB' _] & _).
  destruct S1 as (F1 & B1 & _ & recs & Eh & Hsold & Hbought).
  cbn [matchingOrders buyAmount orderHistory st0] in *.
  exists v, rest, (matchingOrders st), (buyAmount st), recs.
  rewrite Eh. splits; auto; lia.
Qed.

Lemma proRataBody_defined (oob : Order) (ob ob' : Orderbook) (brk : bool) :
  definedBook ob -> proRataBody oob ob = Some (ob', brk) ->
  definedBook ob' /\ conserved ob ob' /\
  (brk = false ->
   totalAmount (m_sellOrders ob') < totalAmount (m_sellOrders ob)).
Proof.
  intros Hob E.
  pose proof (proRataBody_reachable oob ob ob' brk (proj1 Hob) E) as Hreach.
  destruct Hob as (Hr & Hbuys & Hsells & Htot).
  pose proof (reachableBook_ordered ob Hr) as [_ Hord].
  destruct Hr as [Hrb Hrs].
  pose proof (reachable_priced _ _ Hrb) as Pb.
  pose proof (reachable_priced _ _ Hrs) as Ps.
  assert (Hsnn : Forall (fun o => 0 <= getAmount o) (m_sellOrders ob)).
  { revert Hsells. apply Forall_impl. intros; lia. }
  pose proof (ordered_runsFit _ Hord Hsnn Htot) as Hfit.
  destruct (m_buyOrders ob) as [ | bestBuy buys ] eqn:Eb;
    [ unfold proRataBody in E; rewrite Eb in E; discriminate | ].
  destruct (m_sellOrders ob) as [ | topSell sells0 ] eqn:Es;
    [ unfold proRataBody in E; rewrite Eb, Es in E; discriminate | ].
  destruct (F32.lt (getPrice bestBuy) (getPrice topSell)) eqn:Elt.
  { unfold proRataBody in E. rewrite Eb, Es, Elt in E. injection E as <- <-.
    split; [ | split; [ apply conserved_refl | discriminate ] ].
    unfold definedBook. rewrite Eb, Es. auto. }
  apply Forall_cons_iff in Hbuys as [HB Hbuys].
  assert (HB' : 0 < getAmount bestBuy <= Int.max_signed)
    by (unfold Int.max_signed; lia).
  pose proof (convertible_int _ (proj2 HB)) as Hconv.
  apply Forall_cons_iff in Pb as [Pbb _].
  assert (Hge : F32.ge (getPrice bestBuy) (getPrice topSell) = true).
  { apply Forall_cons_iff in Ps as [Pss _].
    unfold F32.ge. unfold F32.lt in Elt. now apply SFltb_false_leb. }
  rewrite <- Es in Hsells, Hfit, Htot, Hsnn.
  destruct (proRataBody_turn oob ob bestBuy buys topSell sells0
              Eb Es Elt Hge Hsells Hfit HB' Hconv)
    as (v & rest & v' & B' & recs & E2 & Eturn & F1 & HB1 & Tv & Hsold & Hbought).
  rewrite Eturn in E. injection E as <- <-.
  rewrite E2 in Hsells, Htot, Hsnn.
  apply Forall_app in Hsells as [Hv Hrest]. apply Forall_app in Hsnn as [Hvnn Hrnn].
  pose proof (filledFrom_nonneg _ _ F1) as Hnn'.
  assert (Hz : forall f : Order -> Z,
             (forall o, getAmount o = 0 -> f o = 0) ->
             Forall (fun o => getAmount o <= 0 -> f o = 0) v').
  { intros f Hf. revert Hnn'. apply Forall_impl. intros o Ho Hle.
    apply Hf. lia. }
  split; [ | split ].
  - split; [ exact Hreach | ]. cbn [m_buyOrders m_sellOrders].
    split; [ | split ].
    + unfold reAddBuy. destruct (Z.gtb_spec B' 0); [ | exact Hbuys ].
      apply push_Forall; [ | exact Hbuys ]. rewrite getAmount_setAmount. lia.
    + apply (Permutation_Forall (Permutation_sym (reAddSells_perm _ _))).
      apply Forall_app. split; [ | exact Hrest ].
      apply Forall_forall. intros o Ho. apply filter_In in Ho as [_ Ho].
      destruct (Z.gtb_spec (getAmount o) 0); [ lia | discriminate ].
    + intros p. specialize (Htot p). rewrite levelTotal_app in Htot.
      unfold levelTotal at 1.
      rewrite sumOf_reAddSells
        by (apply Hz; intros o Ho; rewrite Ho; now destruct (SFeqb _ _)).
      pose proof (levelTotal_filled p _ _ F1). unfold levelTotal in *. lia.
  - unfold conserved. cbn [m_buyOrders m_sellOrders m_orderHistory].
    split; [ exists recs; reflexivity | ]. intros id. rewrite Eb, E2. split.
    + specialize (Hbought id). unfold residentQty, boughtQty, reAddBuy in *.
      rewrite sumOf_app, Hbought.
      destruct (Z.gtb_spec B' 0);
        unfold pushBuy; rewrite ?sumOf_push; simpl; rewrite ?getID_setAmount;
        simpl; destruct (getID bestBuy =? id); lia.
    + specialize (Hsold id). unfold residentQty, soldQty in *.
      rewrite sumOf_reAddSells, !sumOf_app.
      * lia.
      * apply Hz. intros o Ho. rewrite Ho. now destruct (getID o =? id).
  - intros _. cbn [m_sellOrders]. rewrite <- Es, E2. unfold totalAmount in *.
    rewrite sumOf_reAddSells by (apply Hz; intros; lia).
    rewrite sumOf_app. lia.
Qed.

Lemma proRataLoop_defined (oob : Order) (fuel : nat) (ob : Orderbook) :
  definedBook ob ->
  totalAmount (m_sellOrders ob) <= Z.of_nat fuel ->
  exists ob',
    proRataLoop oob fuel ob = Some ob' /\ definedBook ob' /\ conserved ob ob'.
Proof.
  revert ob. induction fuel as [ | fuel IH ]; intros ob Hob Hfuel; simpl;
    destruct (proRataBody oob ob) as [ [ob1 [ | ]] | ] eqn:E.
  - exists ob1. split; [ reflexivity | ].
    now destruct (proRataBody_defined oob ob ob1 true Hob E) as (H1 & H2 & _).
  - exfalso.
    destruct (proRataBody_defined oob ob ob1 false Hob E) as ((_ & _ & Hs & _) & _ & H3).
    specialize (H3 eq_refl).
    assert (0 <= totalAmount (m_sellOrders ob1)).
    { apply sumOf_nonneg. revert Hs. apply Forall_impl. intros; lia. }
    lia.
  - exists ob. split; [ reflexivity | ]. split; [ exact Hob | apply conserved_refl ].
  - exists ob1. split; [ reflexivity | ].
    now destruct (proRataBody_defined oob ob ob1 true Hob E) as (H1 & H2 & _).
  - destruct (proRataBody_defined oob ob ob1 false Hob E) as (H1 & H2 & H3).
    specialize (H3 eq_refl).
    destruct (IH ob1 H1 ltac:(lia)) as (ob' & E' & H1' & H2').
    exists ob'. split; [ exact E' | ]. split; [ exact H1' | ].
    now apply (conserved_trans ob ob1 ob').
  - exists ob. split; [ reflexivity | ]. split; [ exact Hob | apply conserved_refl ].
Qed.

(** On the books of [definedBook] the pro-rata pass returns. *)
Lemma matchOrdersProRata_defined (oob : Order) (ob : Orderbook) :
  definedBook ob ->
  exists ob',
    matchOrdersProRata oob ob = Some ob' /\ definedBook ob' /\ conserved ob ob'.
Proof.
  intros Hob. apply proRataLoop_defined; [ exact Hob | ].
  destruct Hob as (_ & _ & Hs & _).
  assert (0 <= totalAmount (m_sellOrders ob)).
  { apply sumOf_nonneg. revert Hs. apply Forall_impl. intros; lia. }
  lia.
Qed.

(** The books of the engine among the books of [boundedBook] are books of
    [definedBook]. *)
Lemma bounded_defined (ob : Orderbook) :
  boundedBook ob -> reachableBook ob -> definedBook ob.
Proof.
  intros (Hb & Hs & Ht) Hr. split; [ exact Hr | ]. split; [ | split ].
  - revert Hb. apply Forall_impl. intros o [_ Ho].
    change (2 ^ 26) with 67108864 in Ho. change (2 ^ 31) with 2147483648. lia.
  - revert Hs. apply Forall_impl. tauto.
  - intros p.
    assert (Hnn : Forall (fun o => 0 <= getAmount o) (m_sellOrders ob)).
    { revert Hs. apply Forall_impl. intros o [_ Ho]. lia. }
    pose proof (levelTotal_le_total p _ Hnn). lia.
Qed.

(** A level whose total is not an [int]: the sum wraps around to a negative
    number, every share is 0, every fill is 0, and a turn of the loop leaves
    the two queues as they were. *)
Lemma wideBook_turn (h : list ProcessedOrder) :
  exists h',
    proRataBody rejectedOrder
      (mkOrderbook (m_buyOrders wideBook) (m_sellOrders wideBook) h) =
    Some (mkOrderbook (m_buyOrders wideBook) (m_sellOrders wideBook) h', false).
Proof. eexists. vm_compute. reflexivity. Qed.

Lemma wideBook_never_returns (fuel : nat) :
  proRataLoop rejectedOrder fuel wideBook = None.
Proof.
  change wideBook
    with (mkOrderbook (m_buyOrders wideBook) (m_sellOrders wideBook) []).
  generalize (@nil ProcessedOrder).
  induction fuel as [ | fuel IH ]; intros h; cbn [proRataLoop];
    destruct (wideBook_turn h) as (h' & ->); [ reflexivity | apply IH ].
Qed.

(** C1, as the specification states it, fails: it speaks of every order
    and every pass, but the amounts are [int]s and the share is converted
    from a [float].  For a buy of [2^31 - 1] against a sell of 1 at the same
    price, both of positive amount, the binary32 product is [2^31]; the
    conversion delivers [-2^31], which is recorded as the fill; the two
    subtractions wrap around to [-1] and [-2^31 + 1], and neither order is
    put back.  The ledger then shows [-2^31] filled for a buy order of
    [2^31 - 1] of which nothing remains.  The same fill is recorded for
    every buy order from [2^31 - 64] on, the least amount that the
    conversion to [float] rounds to [2^31].  And for a buy of one unit
    against five sells of 500000000 at one price, the pass does not come to
    an end. *)
Lemma conservation_fails_beyond_int :
  positiveBook overflowBook /\
  reachableBook overflowBook /\
  matchOrdersProRata rejectedOrder overflowBook =
    Some (mkOrderbook [] [] [mkProcessedOrder 1 2 (-2147483648)]) /\
  residentQty 1 [] + boughtQty 1 [mkProcessedOrder 1 2 (-2147483648)] <>
    residentQty 1 (m_buyOrders overflowBook) /\
  ~ (exists ob' fills,
       matchOrdersProRata rejectedOrder overflowBook = Some ob' /\
       accounted overflowBook ob' fills) /\
  orderHistory (matchBestBuy rejectedOrder buyEdge [sellOne] []) =
    [mkProcessedOrder 1 2 (-2147483648)] /\
  positiveBook wideBook /\
  reachableBook wideBook /\
  (forall fuel, proRataLoop rejectedOrder fuel wideBook = None).
Proof.
  assert (E : matchOrdersProRata rejectedOrder overflowBook =
              Some (mkOrderbook [] [] [mkProcessedOrder 1 2 (-2147483648)]))
    by (vm_compute; reflexivity).
  splits.
  - split; repeat constructor; vm_compute; congruence.
  - unfold overflowBook.
    repeat (apply addOrder_reachable; [ reflexivity | ]). split; constructor.
  - exact E.
  - vm_compute. discriminate.
  - intros (ob' & fills & E' & Hh & Hq). rewrite E in E'. injection E' as <-.
    cbn [m_orderHistory overflowBook addOrder] in Hh. simpl in Hh. subst fills.
    destruct (Hq 1) as [Hq1 _]. revert Hq1. vm_compute. discriminate.
  - vm_compute. reflexivity.
  - split; repeat constructor; vm_compute; congruence.
  - unfold wideBook, sellsWide. cbn [fold_left].
    repeat (apply addOrder_reachable; [ reflexivity | ]). split; constructor.
  - intros fuel. apply wideBook_never_returns.
Qed.

(** C1 (amended): a matching pass that stays within the range of [int]
    neither creates nor destroys quantity.  The ledger after the pass is
    the ledger before it followed by the fills of the pass, and for every
    identifier the quantity that remains resident on a side plus the
    quantity of the fills recorded against the identifier on that side is
    the quantity that was resident before the pass.  For the FIFO pass this
    holds on every book of positive [int] amounts.  For the pro-rata pass it
    holds on the books of [definedBook]: the queues are queues of the
    engine, with prices that are numbers, the amounts are positive, every
    buy order asks for less than [2^31 - 64], and the sell orders of one
    price add up to an [int].  On these books both passes return. *)
Theorem quantity_conservation (oob : Order) (ob : Orderbook) :
  (positiveBook ob ->
   exists ob' fills, matchOrdersFIFO ob = Some ob' /\ accounted ob ob' fills) /\
  (definedBook ob ->
   exists ob' fills,
     matchOrdersProRata oob ob = Some ob' /\ accounted ob ob' fills).
Proof.
  split; intros Hob.
  - destruct (matchOrdersFIFO_total ob) as [ob' E].
    destruct (fifoLoop_sound _ ob ob' Hob E) as [_ Hc].
    destruct (conserved_accounted ob ob' Hc) as [fills Hf].
    exists ob', fills. split; assumption.
  - destruct (matchOrdersProRata_defined oob ob Hob) as (ob' & E & _ & Hc).
    destruct (conserved_accounted ob ob' Hc) as [fills Hf].
    exists ob', fills. split; assumption.
Qed.

Lemma scenarioD_bounded : boundedBook scenarioD.
Proof.
  unfold boundedBook, totalAmount, Int.max_signed. simpl.
  splits; repeat constructor; simpl; lia.
Qed.

Lemma scenarioD_defined : definedBook scenarioD.
Proof. apply bounded_defined; [ exact scenarioD_bounded | exact scenarioD_reachable ]. Qed.

Lemma edgeBook_defined : definedBook edgeBook.
Proof.
  split; [ | split; [ | split ] ].
  - unfold edgeBook.
    repeat (apply addOrder_reachable; [ reflexivity | ]). split; constructor.
  - repeat constructor; vm_compute; reflexivity.
  - repeat constructor.
  - intros p. unfold levelTotal, Int.max_signed. simpl.
    destruct (SFeqb _ p); lia.
Qed.

(** Scenario D, and the book with a buy of [2^31 - 65] against a sell of
    one unit, which the pro-rata pass fills with one unit. *)
Lemma quantity_conservation_witness :
  (exists ob' fills,
      matchOrdersFIFO scenarioD = Some ob' /\ accounted scenarioD ob' fills) /\
  (exists ob' fills,
      matchOrdersProRata rejectedOrder scenarioD = Some ob' /\
      accounted scenarioD ob' fills) /\
  (exists ob' fills,
      matchOrdersProRata rejectedOrder edgeBook = Some ob' /\
      accounted edgeBook ob' fills) /\
  m_orderHistory
    (match matchOrdersProRata rejectedOrder edgeBook with
     | Some ob' => ob'
     | None => edgeBook
     end) = [mkProcessedOrder 1 2 1].
Proof.
  split; [ | split; [ | split ] ].
  - apply (proj1 (quantity_conservation rejectedOrder scenarioD)).
    apply boundedBook_positive, scenarioD_bounded.
  - apply (proj2 (quantity_conservation rejectedOrder scenarioD)).
    apply scenarioD_defined.
  - apply (proj2 (quantity_conservation rejectedOrder edgeBook)).
    apply edgeBook_defined.
  - vm_compute. reflexivity.
Defined.

(* ------------------------------------------------------------------ *)
(** ** Resident amounts stay positive *)

(** C8, as the specification states it, fails: not every operation keeps
    the resident amounts positive.  [addOrder] has no admission test; on
    the empty book, whose queues hold no order at all, it inserts
    [rejectedOrder], whose amount is 0. *)
Lemma addOrder_breaks_positive_amounts :
  positiveBook emptyOrderbook /\
  getAmount rejectedOrder = 0 /\
  m_buyOrders (addOrder rejectedOrder emptyOrderbook) = [rejectedOrder] /\
  ~ positiveBook (addOrder rejectedOrder emptyOrderbook).
Proof.
  split; [ split; constructor | ]. split; [ reflexivity | ].
  split; [ reflexivity | ].
  intros [Hb _]. inversion Hb as [ | ? ? [Ho _] _ ]; subst.
  vm_compute in Ho. discriminate.
Qed.

(** C8 (amended): on a book whose resident amounts are positive [int]s, the
    FIFO pass returns a book whose resident amounts are positive; whatever
    book the pro-rata loop returns has positive resident amounts; and on the
    books of [boundedBook] the pro-rata pass does return.  In particular no
    order with amount 0 is in a queue after a pass.  The two printing
    operations keep the resident amounts positive as well, and so does
    [addOrder] when the order it is given has a positive amount. *)
Theorem queues_hold_positive_amounts (oob : Order) (ob : Orderbook) :
  positiveBook ob ->
  (exists ob', matchOrdersFIFO ob = Some ob' /\ positiveBook ob') /\
  (forall fuel ob', proRataLoop oob fuel ob = Some ob' -> positiveBook ob') /\
  (boundedBook ob ->
   exists ob', matchOrdersProRata oob ob = Some ob' /\ positiveBook ob') /\
  (forall o, positiveAmount o -> positiveBook (addOrder o ob)) /\
  positiveBook (snd (printOrderbookContents ob)) /\
  positiveBook (snd (printOrderHistory ob)).
Proof.
  intros Hob. splits.
  - destruct (matchOrdersFIFO_total ob) as [ob' E].
    exists ob'. split; [ exact E | ].
    now destruct (fifoLoop_sound _ ob ob' Hob E).
  - intros fuel ob'. now apply proRataLoop_positive.
  - intros Hb.
    destruct (matchOrdersProRata_returns oob ob Hb) as (ob' & E & _ & _).
    exists ob'. split; [ exact E | ].
    apply (proRataLoop_positive oob _ ob ob' Hob E).
  - intros o Ho. destruct Hob as [Hb Hs]. unfold addOrder, positiveBook.
    destruct (checkIsBuy o); simpl; split; auto; now apply push_Forall.
  - split; constructor.
  - exact Hob.
Qed.

Lemma queues_hold_positive_amounts_witness :
  (exists ob', matchOrdersFIFO scenarioD = Some ob' /\ positiveBook ob') /\
  (forall fuel ob',
      proRataLoop rejectedOrder fuel scenarioD = Some ob' -> positiveBook ob') /\
  (boundedBook scenarioD ->
   exists ob',
     matchOrdersProRata rejectedOrder scenarioD = Some ob' /\ positiveBook ob') /\
  (forall o, positiveAmount o -> positiveBook (addOrder o scenarioD)) /\
  positiveBook (snd (printOrderbookContents scenarioD)) /\
  positiveBook (snd (printOrderHistory scenarioD)).
Proof.
  apply (queues_hold_positive_amounts rejectedOrder scenarioD).
  apply boundedBook_positive, scenarioD_bounded.
Defined.

(* ------------------------------------------------------------------ *)
(** ** The FIFO loop ends, and every fill retires an order *)

Lemma fifoBody_one_record (ob ob' : Orderbook) :
  fifoBody ob = Some (ob', false) ->
  exists r, m_orderHistory ob' = m_orderHistory ob ++ [r].
Proof.
  unfold fifoBody.
  destruct (m_buyOrders ob) as [ | bestBuy buys ]; [ discriminate | ].
  destruct (m_sellOrders ob) as [ | bestSell sells ]; [ discriminate | ].
  destruct (F32.ge _ _); [ | discriminate ].
  destruct (_ >? _); [ | destruct (_ <? _) ];
    intros H; injection H as <-; simpl; eexists; reflexivity.
Qed.

Lemma fifoBody_break_book (ob ob' : Orderbook) :
  fifoBody ob = Some (ob', true) ->
  m_orderHistory ob' = m_orderHistory ob /\ residents ob' = residents ob.
Proof.
  unfold fifoBody, residents.
  destruct (m_buyOrders ob) as [ | bestBuy buys ]; [ discriminate | ].
  destruct (m_sellOrders ob) as [ | bestSell sells ]; [ discriminate | ].
  destruct (F32.ge _ _);
    [ destruct (_ >? _); [ | destruct (_ <? _) ]; discriminate | ].
  intros H; injection H as <-; simpl.
  unfold pushBuy, pushSell. now rewrite !push_length.
Qed.

Lemma fifoLoop_fills (fuel : nat) (ob ob' : Orderbook) :
  fifoLoop fuel ob = Some ob' ->
  exists fills,
    m_orderHistory ob' = m_orderHistory ob ++ fills /\
    (List.length fills + residents ob' <= residents ob)%nat.
Proof.
  revert ob. induction fuel as [ | fuel IH ]; intros ob; simpl;
    destruct (fifoBody ob) as [ [ob1 [ | ]] | ] eqn:E; intros H;
    try discriminate; try (injection H as <-);
    try (exists []; rewrite app_nil_r; simpl; split; [ reflexivity | lia ]).
  - destruct (fifoBody_break_book ob ob1 E) as [E1 E2].
    exists []. rewrite app_nil_r. simpl. split; [ exact E1 | lia ].
  - destruct (fifoBody_break_book ob ob1 E) as [E1 E2].
    exists []. rewrite app_nil_r. simpl. split; [ exact E1 | lia ].
  - destruct (fifoBody_one_record ob ob1 E) as [r Er].
    pose proof (fifoBody_drops_an_order ob ob1 E) as Hd.
    destruct (IH ob1 H) as (fills & Ef & Hf).
    exists (r :: fills). split.
    + rewrite Ef, Er, <- app_assoc. reflexivity.
    + simpl. lia.
Qed.

(** X1: the FIFO pass returns on every book, whatever the amounts and the
    prices of the resident orders are (non-positive amounts and NaN prices
    included).  The ledger it leaves is the old ledger followed by the
    fills of the pass, and every fill has taken at least one order out of
    the book: the number of fills plus the number of orders resident after
    the pass is at most the number of orders resident before it. *)
Theorem fifo_returns_and_each_fill_retires_an_order (ob : Orderbook) :
  exists ob' fills,
    matchOrdersFIFO ob = Some ob' /\
    m_orderHistory ob' = m_orderHistory ob ++ fills /\
    (List.length fills + residents ob' <= residents ob)%nat.
Proof.
  destruct (matchOrdersFIFO_total ob) as [ob' E].
  destruct (fifoLoop_fills _ ob ob' E) as (fills & Ef & Hf).
  exists ob', fills. auto.
Qed.

(* ------------------------------------------------------------------ *)
(** ** After a pass no two resident orders cross *)

Lemma SFeqb_sym (a b : spec_float) : SFeqb a b = SFeqb b a.
Proof. rewrite !SFeqb_as_leb. apply andb_comm. Qed.

(** The order on top of a buy queue bids the highest price, the order on
    top of a sell queue asks the lowest. *)
Lemma top_buy_highest (h : Order) (q : PQ.t) :
  PQ.ordered prioritizeMax (h :: q) ->
  forall b, In b (h :: q) -> SFleb (getPrice b) (getPrice h) = true.
Proof.
  intros [Hs Hp] b Hb. rewrite Forall_forall in Hp.
  inversion Hs as [ | ? ? _ Hh ]; subst. rewrite Forall_forall in Hh.
  destruct Hb as [<- | Hb].
  - apply SFleb_refl. apply (Hp h). now left.
  - assert (Ph : priced h) by (apply Hp; now left).
    assert (Pb : priced b) by (apply Hp; now right).
    destruct (prioritizeMax_false h b Ph Pb (Hh b Hb)) as [H _].
    now apply SFltb_false_leb.
Qed.

Lemma top_sell_lowest (h : Order) (q : PQ.t) :
  PQ.ordered prioritizeMin (h :: q) ->
  forall s, In s (h :: q) -> SFleb (getPrice h) (getPrice s) = true.
Proof.
  intros [Hs Hp] s Hin. rewrite Forall_forall in Hp.
  inversion Hs as [ | ? ? _ Hh ]; subst. rewrite Forall_forall in Hh.
  destruct Hin as [<- | Hin].
  - apply SFleb_refl. apply (Hp h). now left.
  - assert (Ph : priced h) by (apply Hp; now left).
    assert (Pb : priced s) by (apply Hp; now right).
    destruct (prioritizeMin_false h s Ph Pb (Hh s Hin)) as [H _].
    now apply SFltb_false_leb.
Qed.

Lemma lt_between (b H S s : spec_float) :
  SFleb b H = true -> SFltb H S = true -> SFleb S s = true ->
  SFltb b s = true.
Proof.
  intros H1 H2 H3. rewrite SFltb_as_leb in *.
  apply andb_true_iff in H2 as [H2 H4]. apply andb_true_iff. split.
  - apply (SFleb_trans _ H); auto. apply (SFleb_trans _ S); auto.
  - destruct (SFleb s b) eqn:E; [ | reflexivity ].
    assert (E' : SFleb S H = true).
    { apply (SFleb_trans _ s); auto. apply (SFleb_trans _ b); auto. }
    rewrite E' in H4. discriminate.
Qed.

Lemma noCross_tops (bestBuy bestSell : Order) (buys sells buys' sells' : PQ.t)
    (history : list ProcessedOrder) :
  PQ.ordered prioritizeMax (bestBuy :: buys) ->
  PQ.ordered prioritizeMin (bestSell :: sells) ->
  F32.lt (getPrice bestBuy) (getPrice bestSell) = true ->
  (forall b, In b buys' -> In b (bestBuy :: buys)) ->
  (forall s, In s sells' -> In s (bestSell :: sells)) ->
  noCross (mkOrderbook buys' sells' history).
Proof.
  intros Hb Hs Hlt Ib Is b s Hib His. simpl in Hib, His.
  apply (lt_between _ (getPrice bestBuy) (getPrice bestSell)); auto.
  - apply (top_buy_highest _ _ Hb). auto.
  - apply (top_sell_lowest _ _ Hs). auto.
Qed.

Lemma ge_false_lt (a b : spec_float) :
  F32.is_nan a = false -> F32.is_nan b = false ->
  F32.ge a b = false -> F32.lt a b = true.
Proof.
  unfold F32.ge, F32.lt. intros Ha Hb H.
  rewrite (SFltb_leb_iff _ _ Ha Hb), H. reflexivity.
Qed.

Lemma fifoBody_none_noCross (ob : Orderbook) : fifoBody ob = None -> noCross ob.
Proof.
  unfold fifoBody, noCross.
  destruct (m_buyOrders ob) as [ | bestBuy buys ]; [ intros _ b s [] | ].
  destruct (m_sellOrders ob) as [ | bestSell sells ]; [ intros _ b s _ [] | ].
  destruct (F32.ge _ _);
    [ destruct (_ >? _); [ | destruct (_ <? _) ] | ]; discriminate.
Qed.

Lemma fifoBody_break_noCross (ob ob' : Orderbook) :
  reachableBook ob -> fifoBody ob = Some (ob', true) -> noCross ob'.
Proof.
  intros Hr. destruct (reachableBook_ordered ob Hr) as [Ob Os].
  unfold fifoBody.
  destruct (m_buyOrders ob) as [ | bestBuy buys ]; [ discriminate | ].
  destruct (m_sellOrders ob) as [ | bestSell sells ]; [ discriminate | ].
  destruct (F32.ge _ _) eqn:E;
    [ destruct (_ >? _); [ | destruct (_ <? _) ]; discriminate | ].
  intros H. injection H as <-.
  apply (noCross_tops bestBuy bestSell buys sells); auto.
  - destruct Ob as [_ Pb], Os as [_ Ps].
    inversion Pb; inversion Ps; subst. now apply ge_false_lt.
  - intros b Hb. apply push_In in Hb. destruct Hb as [-> | Hb]; simpl; auto.
  - intros s Hs. apply push_In in Hs. destruct Hs as [-> | Hs]; simpl; auto.
Qed.

Lemma fifoLoop_noCross (fuel : nat) (ob ob' : Orderbook) :
  reachableBook ob -> fifoLoop fuel ob = Some ob' -> noCross ob'.
Proof.
  revert ob. induction fuel as [ | fuel IH ]; intros ob Hob; simpl;
    destruct (fifoBody ob) as [ [ob1 [ | ]] | ] eqn:E; intros H;
    try discriminate; try (injection H as <-).
  - now apply (fifoBody_break_noCross ob).
  - now apply fifoBody_none_noCross.
  - now apply (fifoBody_break_noCross ob).
  - apply (IH ob1); auto. now apply (fifoBody_reachable ob ob1 false).
  - now apply fifoBody_none_noCross.
Qed.

(** On a book that does not cross, the FIFO loop ends in its first turn. *)
Lemma fifoLoop_on_noCross (fuel : nat) (ob : Orderbook) :
  noCross ob ->
  exists ob', fifoLoop fuel ob = Some ob' /\
              m_orderHistory ob' = m_orderHistory ob /\
              Permutation (m_buyOrders ob') (m_buyOrders ob) /\
              Permutation (m_sellOrders ob') (m_sellOrders ob).
Proof.
  intros Hn.
  assert (Hbody : fifoBody ob = None \/
          exists ob', fifoBody ob = Some (ob', true) /\
              m_orderHistory ob' = m_orderHistory ob /\
              Permutation (m_buyOrders ob') (m_buyOrders ob) /\
              Permutation (m_sellOrders ob') (m_sellOrders ob)).
  { unfold fifoBody, noCross in *.
    destruct (m_buyOrders ob) as [ | bestBuy buys ]; [ now left | ].
    destruct (m_sellOrders ob) as [ | bestSell sells ]; [ now left | ].
    right. unfold F32.ge.
    rewrite (SFltb_not_leb _ _
               (Hn bestBuy bestSell (or_introl eq_refl) (or_introl eq_refl))).
    eexists. split; [ reflexivity | ]. simpl.
    split; [ reflexivity | split; apply push_perm ]. }
  destruct Hbody as [E | (ob' & E & H)].
  - exists ob. split; [ | auto ]. destruct fuel; simpl; rewrite E; reflexivity.
  - exists ob'. split; [ now apply fifoLoop_break | exact H ].
Qed.

Lemma proRataLoop_on_noCross (oob : Order) (fuel : nat) (ob : Orderbook) :
  noCross ob -> proRataLoop oob fuel ob = Some ob.
Proof.
  intros Hn.
  assert (Hbody : proRataBody oob ob = None \/ proRataBody oob ob = Some (ob, true)).
  { unfold proRataBody, noCross in *.
    destruct (m_buyOrders ob) as [ | bestBuy buys ]; [ now left | ].
    destruct (m_sellOrders ob) as [ | bestSell sells ]; [ now left | ].
    right.
    now rewrite (Hn bestBuy bestSell (or_introl eq_refl) (or_introl eq_refl)). }
  destruct Hbody as [E | E].
  - destruct fuel; simpl; rewrite E; reflexivity.
  - now apply proRataLoop_break.
Qed.

Lemma proRataBody_none_noCross (oob : Order) (ob : Orderbook) :
  proRataBody oob ob = None -> noCross ob.
Proof.
  unfold proRataBody, noCross.
  destruct (m_buyOrders ob) as [ | bestBuy buys ]; [ intros _ b s [] | ].
  destruct (m_sellOrders ob) as [ | bestSell sells ]; [ intros _ b s _ [] | ].
  destruct (F32.lt _ _); [ discriminate | ].
  destruct (drainMatching _ _ _). discriminate.
Qed.

Lemma proRataBody_break_noCross (oob : Order) (ob ob' : Orderbook) :
  reachableBook ob -> proRataBody oob ob = Some (ob', true) -> noCross ob'.
Proof.
  intros Hr. destruct (reachableBook_ordered ob Hr) as [Ob Os].
  unfold proRataBody.
  destruct (m_buyOrders ob) as [ | bestBuy buys ] eqn:Eb; [ discriminate | ].
  destruct (m_sellOrders ob) as [ | bestSell sells ] eqn:Es; [ discriminate | ].
  destruct (F32.lt _ _) eqn:E.
  - intros H. injection H as <-. intros b s. rewrite Eb, Es.
    intros Hb Hs.
    apply (lt_between _ (getPrice bestBuy) (getPrice bestSell)); auto.
    + now apply (top_buy_highest _ _ Ob).
    + now apply (top_sell_lowest _ _ Os).
  - destruct (drainMatching _ _ _). discriminate.
Qed.

Lemma proRataLoop_noCross (oob : Order) (fuel : nat) (ob ob' : Orderbook) :
  reachableBook ob -> proRataLoop oob fuel ob = Some ob' -> noCross ob'.
Proof.
  revert ob. induction fuel as [ | fuel IH ]; intros ob Hob; simpl;
    destruct (proRataBody oob ob) as [ [ob1 [ | ]] | ] eqn:E; intros H;
    try discriminate; try (injection H as <-).
  - now apply (proRataBody_break_noCross oob ob).
  - now apply (proRataBody_none_noCross oob).
  - now apply (proRataBody_break_noCross oob ob).
  - apply (IH ob1); auto. now apply (proRataBody_reachable oob ob ob1 false).
  - now apply (proRataBody_none_noCross oob).
Qed.

(** X2: on a book whose queues were built by [push] and [pop] of orders
    with prices that are numbers, the FIFO pass returns a book in which no
    resident buy order reaches the price of a resident sell order.  A
    second FIFO pass on that book records no fill and keeps the resident
    orders (the two orders it pops and pushes back may change places with
    orders of the same price and time). *)
Theorem fifo_leaves_no_crossing_orders (ob : Orderbook) :
  reachableBook ob ->
  exists ob',
    matchOrdersFIFO ob = Some ob' /\ noCross ob' /\
    exists ob'',
      matchOrdersFIFO ob' = Some ob'' /\
      m_orderHistory ob'' = m_orderHistory ob' /\
      Permutation (m_buyOrders ob'') (m_buyOrders ob') /\
      Permutation (m_sellOrders ob'') (m_sellOrders ob').
Proof.
  intros Hob. destruct (matchOrdersFIFO_total ob) as [ob' E].
  exists ob'. split; [ exact E | ].
  assert (Hn : noCross ob') by exact (fifoLoop_noCross _ ob ob' Hob E).
  split; [ exact Hn | ]. now apply fifoLoop_on_noCross.
Qed.

Lemma fifo_leaves_no_crossing_orders_witness :
  exists ob',
    matchOrdersFIFO scenarioD = Some ob' /\ noCross ob' /\
    exists ob'',
      matchOrdersFIFO ob' = Some ob'' /\
      m_orderHistory ob'' = m_orderHistory ob' /\
      Permutation (m_buyOrders ob'') (m_buyOrders ob') /\
      Permutation (m_sellOrders ob'') (m_sellOrders ob').
Proof.
  apply (fifo_leaves_no_crossing_orders scenarioD).
  exact scenarioD_reachable.
Defined.

(** X3: on such a book, whatever book the pro-rata loop returns holds no
    resident buy order that reaches the price of a resident sell order, and
    a second pro-rata pass returns that very book; on the books of
    [boundedBook] the pass does return. *)
Theorem proRata_leaves_no_crossing_orders (oob : Order) (ob : Orderbook) :
  reachableBook ob ->
  (forall fuel ob', proRataLoop oob fuel ob = Some ob' ->
     noCross ob' /\ matchOrdersProRata oob ob' = Some ob') /\
  (boundedBook ob ->
   exists ob', matchOrdersProRata oob ob = Some ob' /\ noCross ob' /\
               matchOrdersProRata oob ob' = Some ob').
Proof.
  intros Hob.
  assert (H1 : forall fuel ob', proRataLoop oob fuel ob = Some ob' ->
     noCross ob' /\ matchOrdersProRata oob ob' = Some ob').
  { intros fuel ob' E.
    assert (Hn : noCross ob') by exact (proRataLoop_noCross oob _ ob ob' Hob E).
    split; [ exact Hn | ]. now apply proRataLoop_on_noCross. }
  split; [ exact H1 | ]. intros Hb.
  destruct (matchOrdersProRata_returns oob ob Hb) as (ob' & E & _).
  exists ob'. split; [ exact E | ]. exact (H1 _ ob' E).
Qed.

Lemma proRata_leaves_no_crossing_orders_witness :
  (forall fuel ob', proRataLoop rejectedOrder fuel scenarioD = Some ob' ->
     noCross ob' /\ matchOrdersProRata rejectedOrder ob' = Some ob') /\
  (boundedBook scenarioD ->
   exists ob', matchOrdersProRata rejectedOrder scenarioD = Some ob' /\
               noCross ob' /\
               matchOrdersProRata rejectedOrder ob' = Some ob').
Proof.
  apply (proRata_leaves_no_crossing_orders rejectedOrder scenarioD).
  exact scenarioD_reachable.
Defined.

(* ------------------------------------------------------------------ *)
(** ** The fills of a pass are trades, the resident orders remainders *)

Lemma filledFrom_self (o : Order) : 0 <= getAmount o -> filledFrom o o.
Proof. intros H. split; [ now rewrite setAmount_getAmount | lia ]. Qed.

Lemma filledFrom_setAmount (o : Order) (a : Z) :
  0 <= a <= getAmount o -> filledFrom o (setAmount o a).
Proof. intros H. split; now rewrite getAmount_setAmount. Qed.

Lemma filledFrom_then (o1 o2 o3 : Order) :
  filledFrom o1 o2 -> filledFrom o2 o3 -> filledFrom o1 o3.
Proof.
  intros [E1 R1] [E2 R2]. split; [ | lia ]. rewrite E2, E1. reflexivity.
Qed.

Lemma restOf_refl (q : list Order) :
  Forall (fun o => 0 <= getAmount o) q -> restOf q q.
Proof.
  intros H o Ho. exists o. split; [ exact Ho | ].
  apply filledFrom_self. rewrite Forall_forall in H. auto.
Qed.

Lemma restOf_trans (q1 q2 q3 : list Order) :
  restOf q1 q2 -> restOf q2 q3 -> restOf q1 q3.
Proof.
  intros H12 H23 o3 Ho3. destruct (H23 o3 Ho3) as (o2 & Ho2 & F23).
  destruct (H12 o2 Ho2) as (o1 & Ho1 & F12).
  exists o1. split; [ exact Ho1 | now apply (filledFrom_then o1 o2 o3) ].
Qed.

Lemma filledFrom_facts (o o' : Order) :
  filledFrom o o' ->
  getID o' = getID o /\ getPrice o' = getPrice o /\ getAmount o' <= getAmount o.
Proof.
  intros [E R]. rewrite E at 1 2.
  now rewrite getID_setAmount, getPrice_setAmount.
Qed.

Lemma tradeOf_restOf (buys sells buys' sells' : list Order) (r : ProcessedOrder) :
  restOf buys buys' -> restOf sells sells' ->
  tradeOf buys' sells' r -> tradeOf buys sells r.
Proof.
  intros Hb Hs (b' & s' & Ib & Is & E1 & E2 & Hp & H0 & H1 & H2).
  destruct (Hb b' Ib) as (b & Ib0 & Fb). destruct (Hs s' Is) as (s & Is0 & Fs).
  destruct (filledFrom_facts _ _ Fb) as (I1 & P1 & A1).
  destruct (filledFrom_facts _ _ Fs) as (I2 & P2 & A2).
  exists b, s. rewrite <- I1, <- I2, <- P1, <- P2.
  repeat split; auto; lia.
Qed.

Lemma restOf_push (comp : Order -> Order -> bool) (q q' : list Order) (x x' : Order) :
  filledFrom x x' -> restOf q q' -> restOf (x :: q) (PQ.push comp x' q').
Proof.
  intros Fx Hq o' Ho'. apply push_In in Ho'. destruct Ho' as [-> | Ho'].
  - exists x. split; [ now left | exact Fx ].
  - destruct (Hq o' Ho') as (o & Ho & F). exists o. split; [ now right | exact F ].
Qed.

Lemma restOf_tail (q q' : list Order) (x : Order) :
  restOf q q' -> restOf (x :: q) q'.
Proof.
  intros Hq o' Ho'. destruct (Hq o' Ho') as (o & Ho & F).
  exists o. split; [ now right | exact F ].
Qed.

Lemma positive_nonneg (q : list Order) :
  Forall positiveAmount q -> Forall (fun o => 0 <= getAmount o) q.
Proof. apply Forall_impl. intros o [H _]. lia. Qed.

(** One turn of the FIFO loop. *)
Lemma fifoBody_trades (ob ob' : Orderbook) (brk : bool) :
  positiveBook ob -> fifoBody ob = Some (ob', brk) ->
  restOf (m_buyOrders ob) (m_buyOrders ob') /\
  restOf (m_sellOrders ob) (m_sellOrders ob') /\
  (List.length (m_buyOrders ob') <= List.length (m_buyOrders ob))%nat /\
  (List.length (m_sellOrders ob') <= List.length (m_sellOrders ob))%nat /\
  exists recs,
    m_orderHistory ob' = m_orderHistory ob ++ recs /\
    Forall (tradeOf (m_buyOrders ob) (m_sellOrders ob)) recs /\
    (List.length recs + residents ob' <= residents ob)%nat.
Proof.
  intros [Hbuys Hsells]. unfold fifoBody, residents.
  destruct (m_buyOrders ob) as [ | bestBuy buys ]; [ discriminate | ].
  destruct (m_sellOrders ob) as [ | bestSell sells ]; [ discriminate | ].
  inversion Hbuys as [ | ? ? Hb Hbuys' ]; subst.
  inversion Hsells as [ | ? ? Hs Hsells' ]; subst.
  apply positive_nonneg in Hbuys', Hsells'.
  pose proof (restOf_refl _ Hbuys') as Rb. pose proof (restOf_refl _ Hsells') as Rs.
  unfold positiveAmount, Int.max_signed in Hb, Hs.
  assert (Hrec : forall a, 0 < a -> a <= getAmount bestBuy -> a <= getAmount bestSell ->
            F32.ge (getPrice bestBuy) (getPrice bestSell) = true ->
            Forall (tradeOf (bestBuy :: buys) (bestSell :: sells))
                   [mkProcessedOrder (getID bestBuy) (getID bestSell) a]).
  { intros a H0 H1 H2 Hp. constructor; [ | constructor ].
    exists bestBuy, bestSell. simpl. repeat split; auto. }
  destruct (F32.ge _ _) eqn:Ege.
  - destruct (Z.gtb_spec (getAmount bestBuy) (getAmount bestSell));
      [ | destruct (Z.ltb_spec (getAmount bestBuy) (getAmount bestSell)) ];
      intros Hres; injection Hres as <- <-; simpl;
      rewrite ?int_sub_exact
        by (unfold Int.in_range, Int.min_signed, Int.max_signed; lia);
      unfold pushBuy, pushSell; rewrite ?push_length, ?getID_setAmount.
    + split; [ apply restOf_push; auto; apply filledFrom_setAmount; lia | ].
      split; [ now apply restOf_tail | ].
      split; [ lia | ]. split; [ lia | ].
      eexists. split; [ reflexivity | ]. split; [ apply Hrec; auto; lia | simpl; lia ].
    + split; [ now apply restOf_tail | ].
      split; [ apply restOf_push; auto; apply filledFrom_setAmount; lia | ].
      split; [ lia | ]. split; [ lia | ].
      eexists. split; [ reflexivity | ]. split; [ apply Hrec; auto; lia | simpl; lia ].
    + split; [ now apply restOf_tail | ].
      split; [ now apply restOf_tail | ].
      split; [ lia | ]. split; [ lia | ].
      eexists. split; [ reflexivity | ]. split; [ apply Hrec; auto; lia | simpl; lia ].
  - intros Hres; injection Hres as <- <-; simpl.
    unfold pushBuy, pushSell; rewrite ?push_length.
    split; [ apply restOf_push; auto; apply filledFrom_self; lia | ].
    split; [ apply restOf_push; auto; apply filledFrom_self; lia | ].
    split; [ lia | ]. split; [ lia | ].
    exists []. rewrite app_nil_r. split; [ reflexivity | ].
    split; [ constructor | simpl; lia ].
Qed.

Lemma passResult_refl (ob : Orderbook) : positiveBook ob -> passResult ob ob [].
Proof.
  intros [Hb Hs]. unfold passResult. rewrite app_nil_r.
  repeat split; auto; try constructor; apply restOf_refl; now apply positive_nonneg.
Qed.

Lemma passResult_trans (ob1 ob2 ob3 : Orderbook) (f1 f2 : list ProcessedOrder) :
  passResult ob1 ob2 f1 -> passResult ob2 ob3 f2 -> passResult ob1 ob3 (f1 ++ f2).
Proof.
  intros (E1 & T1 & B1 & S1 & L1 & M1) (E2 & T2 & B2 & S2 & L2 & M2).
  unfold passResult. rewrite E2, E1, app_assoc.
  split; [ reflexivity | ]. split.
  - apply Forall_app. split; [ exact T1 | ].
    revert T2. apply Forall_impl. intros r. now apply tradeOf_restOf.
  - split; [ now apply (restOf_trans _ _ _ B1) | ].
    split; [ now apply (restOf_trans _ _ _ S1) | lia ].
Qed.

Lemma fifoLoop_trades (fuel : nat) (ob ob' : Orderbook) :
  positiveBook ob -> fifoLoop fuel ob = Some ob' ->
  exists fills, passResult ob ob' fills /\
                (List.length fills + residents ob' <= residents ob)%nat.
Proof.
  revert ob. induction fuel as [ | fuel IH ]; intros ob Hob; simpl;
    destruct (fifoBody ob) as [ [ob1 [ | ]] | ] eqn:E; intros H;
    try discriminate; try (injection H as <-);
    try (exists []; split; [ now apply passResult_refl | simpl; lia ]).
  - destruct (fifoBody_trades ob ob1 true Hob E) as (B & S & L & M & recs & Er & T & C).
    exists recs. unfold passResult. auto 10.
  - destruct (fifoBody_trades ob ob1 true Hob E) as (B & S & L & M & recs & Er & T & C).
    exists recs. unfold passResult. auto 10.
  - destruct (fifoBody_trades ob ob1 false Hob E) as (B & S & L & M & recs & Er & T & C).
    destruct (fifoBody_sound ob ob1 false Hob E) as [H1 _].
    destruct (IH ob1 H1 H) as (fills & P & C').
    exists (recs ++ fills). split.
    + apply (passResult_trans ob ob1 ob'); auto. unfold passResult. auto 10.
    + rewrite length_app. lia.
Qed.

(** The sell orders that are drained all ask a price the best buy order
    reaches. *)
Lemma drainMatching_prices (bestBuy : Order) (sells acc : list Order) :
  exists v,
    fst (drainMatching bestBuy sells acc) = acc ++ v /\
    sells = v ++ snd (drainMatching bestBuy sells acc) /\
    Forall (fun s => F32.ge (getPrice bestBuy) (getPrice s) = true) v.
Proof.
  revert acc. induction sells as [ | s rest IH ]; intros acc; simpl.
  - exists []. rewrite app_nil_r. repeat split. constructor.
  - destruct (F32.ge (getPrice bestBuy) (getPrice s)) eqn:E.
    + destruct (IH (acc ++ [s])) as (v & E1 & E2 & E3).
      exists (s :: v). rewrite E1, <- app_assoc. simpl.
      split; [ reflexivity | ]. split; [ now f_equal | now constructor ].
    + exists []. rewrite app_nil_r. simpl. repeat split. constructor.
Qed.

Lemma fillOf_weaken (buyer B B' : Z) (v v' : list Order) (r : ProcessedOrder) :
  B' <= B -> (forall o', In o' v' -> exists o, In o v /\ filledFrom o o') ->
  fillOf buyer B' v' r -> fillOf buyer B v r.
Proof.
  intros HB Hv (E & R & o' & Ho' & Eo & Ro).
  destruct (Hv o' Ho') as (o & Ho & F).
  destruct (filledFrom_facts _ _ F) as (I1 & _ & A1).
  split; [ exact E | ]. split; [ lia | ].
  exists o. rewrite <- I1. repeat split; auto; lia.
Qed.

Lemma allocateLevel_records (share : Z -> Z) (buyer : Z) (level : list Order) :
  forall (B B' : Z) (level' : list Order) (recs : list ProcessedOrder),
  0 < B ->
  Forall (fun o => 0 < getAmount o /\ 1 <= share (getAmount o)) level ->
  allocateLevel share buyer B level = (B', level', recs) ->
  Forall (fillOf buyer B level) recs.
Proof.
  induction level as [ | o rest IH ]; intros B B' level' recs HB Hlevel Halloc.
  - simpl in Halloc. injection Halloc as <- <- <-. constructor.
  - apply Forall_cons_iff in Hlevel as [[Ho Hshare] Hrest].
    simpl in Halloc.
    set (fill := Z.min (Z.min B (getAmount o)) (share (getAmount o))) in *.
    assert (Hfill : 0 < fill <= B /\ fill <= getAmount o) by (unfold fill; lia).
    assert (Hrec : fillOf buyer B (o :: rest) (mkProcessedOrder buyer (getID o) fill)).
    { split; [ reflexivity | ]. split; [ simpl; lia | ].
      exists o. simpl. repeat split; auto; lia. }
    destruct (Z.eqb_spec (B - fill) 0).
    + injection Halloc as <- <- <-. constructor; [ exact Hrec | constructor ].
    + destruct (allocateLevel share buyer (B - fill) rest)
        as [[B1 rest1] recs1] eqn:E.
      injection Halloc as <- <- <-.
      constructor; [ exact Hrec | ].
      assert (HB1 : 0 < B - fill) by lia.
      specialize (IH _ _ _ _ HB1 Hrest E).
      revert IH. apply Forall_impl. intros r (E1 & R1 & o1 & Ho1 & Eo1 & Ro1).
      split; [ exact E1 | ]. split; [ lia | ].
      exists o1. simpl. auto.
Qed.

Lemma Forall2_restOf (v v' : list Order) :
  Forall2 filledFrom v v' -> restOf v v'.
Proof.
  induction 1 as [ | o o' v v' F _ IH ]; intros x Hx; [ destruct Hx | ].
  destruct Hx as [<- | Hx].
  - exists o. split; [ now left | exact F ].
  - destruct (IH x Hx) as (y & Hy & Fy). exists y. split; [ now right | exact Fy ].
Qed.

Section LevelRecords.

Variable oob : Order.
Variable bestBuy : Order.

Lemma processLevels_records (n fuel : nat) (st : LevelState) :
  levelInv n st ->
  exists recs,
    orderHistory (processLevels oob bestBuy n fuel st) = orderHistory st ++ recs /\
    Forall (fillOf (getID bestBuy) (buyAmount st) (matchingOrders st)) recs.
Proof.
  revert st. induction fuel as [ | fuel IH ]; intros st Hinv; cbn [processLevels].
  - exists []. rewrite app_nil_r. split; [ reflexivity | constructor ].
  - destruct ((curIndex st <? n)%nat && buyOrdersStillRemaining st) eqn:Econd.
    + apply andb_prop in Econd as [Hlt Hr]. apply Nat.ltb_lt in Hlt.
      destruct (levelBody_step oob bestBuy n st Hinv Hlt Hr) as (I1 & S1 & _ & _).
      destruct (levelBody_allocate oob bestBuy n st Hinv Hlt Hr)
        as (before & level & after & B' & level' & recs1 & Ev & _ & _ & Hshare & Ea & Eb).
      assert (HB : 0 < buyAmount st).
      { destruct Hinv as (_ & _ & _ & _ & _ & _ & _ & Hrem). auto. }
      pose proof (allocateLevel_records _ _ _ _ _ _ _ HB Hshare Ea) as R1.
      destruct (IH _ I1) as (recs2 & E2 & R2).
      exists (recs1 ++ recs2). split.
      * rewrite E2, Eb. cbn [orderHistory]. now rewrite app_assoc.
      * apply Forall_app. split.
        -- revert R1. apply Forall_impl. intros r (E1 & Q1 & o & Ho & Eo & Ro).
           split; [ exact E1 | ]. split; [ exact Q1 | ].
           exists o. rewrite Ev. repeat split; auto.
           apply in_or_app. right. apply in_or_app. now left.
        -- destruct S1 as (F1 & B1 & _).
           revert R2. apply Forall_impl. intros r.
           apply fillOf_weaken; [ exact B1 | ].
           now apply Forall2_restOf.
    + exists []. rewrite app_nil_r. split; [ reflexivity | constructor ].
Qed.

End LevelRecords.

Lemma reAddSells_length (v : list Order) (sells : PQ.t) :
  (List.length (reAddSells v sells) <= List.length v + List.length sells)%nat.
Proof.
  rewrite (Permutation_length (reAddSells_perm v sells)), length_app.
  pose proof (filter_length_le (fun o => getAmount o >? 0) v). lia.
Qed.

(** One turn of the pro-rata loop. *)
Lemma proRataBody_trades (oob : Order) (ob ob' : Orderbook) (brk : bool) :
  boundedBook ob -> proRataBody oob ob = Some (ob', brk) ->
  exists recs, passResult ob ob' recs.
Proof.
  intros Hob. pose proof (boundedBook_positive ob Hob) as Hpos.
  destruct Hob as (Hbuys & Hsells & Htot). unfold proRataBody.
  destruct (m_buyOrders ob) as [ | bestBuy buys ] eqn:Eb; [ discriminate | ].
  destruct (m_sellOrders ob) as [ | topSell sells0 ] eqn:Es; [ discriminate | ].
  destruct (F32.lt (getPrice bestBuy) (getPrice topSell)) eqn:Elt.
  { intros H. injection H as <- <-. exists []. now apply passResult_refl. }
  apply Forall_cons_iff in Hbuys as [[Hpb HBb] Hbuys].
  destruct (drainMatching_prices bestBuy (topSell :: sells0) [])
    as (v & E1 & E2 & E3).
  destruct (drainMatching bestBuy (topSell :: sells0) []) as [v0 rest].
  cbn [fst snd app] in E1, E2. subst v0. rewrite E2 in Hsells, Htot.
  apply Forall_app in Hsells as [Hv Hrest].
  unfold totalAmount in Htot. rewrite sumOf_app in Htot.
  assert (Hvpos : Forall (fun o => 0 < getAmount o) v)
    by (revert Hv; apply Forall_impl; tauto).
  assert (Hvnn : Forall (fun o => 0 <= getAmount o) v)
    by (revert Hvpos; apply Forall_impl; intros; lia).
  assert (Hrnn : Forall (fun o => 0 <= getAmount o) rest)
    by (revert Hrest; apply Forall_impl; intros ? [_ ?]; lia).
  assert (Hbnn : Forall (fun o => 0 <= getAmount o) buys)
    by (revert Hbuys; apply Forall_impl; intros ? [_ ?]; lia).
  pose proof (sumOf_nonneg getAmount v Hvnn) as Hsv.
  pose proof (sumOf_nonneg getAmount rest Hrnn) as Hsr.
  unfold matchBestBuy.
  set (st0 := mkLevelState v (getAmount bestBuy) 0 0 true (m_orderHistory ob) []).
  assert (Hinv : levelInv (List.length v) st0).
  { apply levelInv_start_bounded; auto. unfold totalAmount. lia. }
  destruct (processLevels_sound oob bestBuy (List.length v) (List.length v) st0 Hinv)
    as (I1 & S1 & _ & _).
  destruct (processLevels_records oob bestBuy (List.length v) (List.length v) st0 Hinv)
    as (recs & Er & Hrecs).
  set (st := processLevels oob bestBuy (List.length v) (List.length v) st0) in *.
  destruct I1 as (_ & _ & _ & Hnn' & _ & _ & [HB' _] & _).
  destruct S1 as (F1 & B1 & _).
  cbn [matchingOrders buyAmount orderHistory st0] in *.
  intros H. injection H as <- <-.
  exists recs. unfold passResult.
  cbn [m_buyOrders m_sellOrders m_orderHistory]. rewrite Eb, Es, E2.
  split; [ exact Er | ]. split; [ | split; [ | split; [ | split ] ] ].
  - revert Hrecs. apply Forall_impl.
    intros r (Q1 & Q2 & o & Ho & Q3 & Q4).
    exists bestBuy, o. rewrite Forall_forall in E3.
    repeat split; auto; try lia.
    + now left.
    + apply in_or_app. now left.
  - unfold reAddBuy. destruct (Z.gtb_spec (buyAmount st) 0).
    + apply restOf_push; [ | now apply restOf_refl ].
      apply filledFrom_setAmount. lia.
    + apply restOf_tail. now apply restOf_refl.
  - intros o' Ho'.
    apply (Permutation_in _ (reAddSells_perm _ _)) in Ho'.
    apply in_app_or in Ho'. destruct Ho' as [Ho' | Ho'].
    + apply filter_In in Ho' as [Ho' _].
      destruct (Forall2_restOf _ _ F1 o' Ho') as (o & Ho & F).
      exists o. split; [ apply in_or_app; now left | exact F ].
    + exists o'. split; [ apply in_or_app; now right | ].
      apply filledFrom_self. rewrite Forall_forall in Hrnn. auto.
  - unfold reAddBuy. destruct (_ >? _); unfold pushBuy;
      rewrite ?push_length; simpl; lia.
  - pose proof (reAddSells_length (matchingOrders st) rest) as L.
    rewrite <- (Forall2_length F1) in L. rewrite length_app. lia.
Qed.

Lemma proRataLoop_trades (oob : Order) (fuel : nat) (ob ob' : Orderbook) :
  boundedBook ob -> proRataLoop oob fuel ob = Some ob' ->
  exists fills, passResult ob ob' fills.
Proof.
  revert ob. induction fuel as [ | fuel IH ]; intros ob Hob; simpl;
    destruct (proRataBody oob ob) as [ [ob1 [ | ]] | ] eqn:E; intros H;
    try discriminate; try (injection H as <-);
    try (exists []; apply passResult_refl; now apply boundedBook_positive).
  - now apply (proRataBody_trades oob ob ob1 true).
  - now apply (proRataBody_trades oob ob ob1 true).
  - destruct (proRataBody_trades oob ob ob1 false Hob E) as (recs & P).
    destruct (proRataBody_sound oob ob ob1 false Hob E) as (H1 & _).
    destruct (IH ob1 H1 H) as (fills & P').
    exists (recs ++ fills). now apply (passResult_trans ob ob1 ob').
Qed.

(** X4: every fill that a pass records is a trade between a buy order and
    a sell order that rested in the book before the pass: the record
    carries their identifiers, the price of the buy order is at least the
    price of the sell order, and the quantity is positive and exceeds
    neither the amount of the buy order nor the amount of the sell order.
    For the FIFO pass this holds on every book of positive [int] amounts,
    for the pro-rata pass on the books of [boundedBook]. *)
Theorem fills_are_trades (oob : Order) (ob : Orderbook) :
  (positiveBook ob ->
   exists ob' fills,
     matchOrdersFIFO ob = Some ob' /\
     m_orderHistory ob' = m_orderHistory ob ++ fills /\
     Forall (tradeOf (m_buyOrders ob) (m_sellOrders ob)) fills) /\
  (boundedBook ob ->
   exists ob' fills,
     matchOrdersProRata oob ob = Some ob' /\
     m_orderHistory ob' = m_orderHistory ob ++ fills /\
     Forall (tradeOf (m_buyOrders ob) (m_sellOrders ob)) fills).
Proof.
  split; intros Hob.
  - destruct (matchOrdersFIFO_total ob) as [ob' E].
    destruct (fifoLoop_trades _ ob ob' Hob E) as (fills & (Ef & T & _) & _).
    exists ob', fills. auto.
  - destruct (matchOrdersProRata_returns oob ob Hob) as (ob' & E & _).
    destruct (proRataLoop_trades oob _ ob ob' Hob E) as (fills & Ef & T & _).
    exists ob', fills. auto.
Qed.

Lemma fills_are_trades_witness :
  (positiveBook scenarioD ->
   exists ob' fills,
     matchOrdersFIFO scenarioD = Some ob' /\
     m_orderHistory ob' = m_orderHistory scenarioD ++ fills /\
     Forall (tradeOf (m_buyOrders scenarioD) (m_sellOrders scenarioD)) fills) /\
  exists ob' fills,
    matchOrdersProRata rejectedOrder scenarioD = Some ob' /\
    m_orderHistory ob' = m_orderHistory scenarioD ++ fills /\
    Forall (tradeOf (m_buyOrders scenarioD) (m_sellOrders scenarioD)) fills.
Proof.
  split.
  - exact (proj1 (fills_are_trades rejectedOrder scenarioD)).
  - exact (proj2 (fills_are_trades rejectedOrder scenarioD) scenarioD_bounded).
Defined.

(** X5: a pass creates no order and changes nothing of a resident order
    but its amount.  Every order that rests on a side after the pass is an
    order that rested on that side before the pass, with the same
    identifier, ticker, flags, price and time and with an amount that is
    positive and not larger than before; and no side holds more orders than
    before.  For the FIFO pass this holds on every book of positive [int]
    amounts, for the pro-rata pass on the books of [boundedBook]. *)
Theorem resting_orders_are_remainders (oob : Order) (ob : Orderbook) :
  (positiveBook ob ->
   exists ob',
     matchOrdersFIFO ob = Some ob' /\ positiveBook ob' /\
     restOf (m_buyOrders ob) (m_buyOrders ob') /\
     restOf (m_sellOrders ob) (m_sellOrders ob') /\
     (List.length (m_buyOrders ob') <= List.length (m_buyOrders ob))%nat /\
     (List.length (m_sellOrders ob') <= List.length (m_sellOrders ob))%nat) /\
  (boundedBook ob ->
   exists ob',
     matchOrdersProRata oob ob = Some ob' /\ positiveBook ob' /\
     restOf (m_buyOrders ob) (m_buyOrders ob') /\
     restOf (m_sellOrders ob) (m_sellOrders ob') /\
     (List.length (m_buyOrders ob') <= List.length (m_buyOrders ob))%nat /\
     (List.length (m_sellOrders ob') <= List.length (m_sellOrders ob))%nat).
Proof.
  split; intros Hob.
  - destruct (matchOrdersFIFO_total ob) as [ob' E].
    destruct (fifoLoop_trades _ ob ob' Hob E) as (fills & (_ & _ & R) & _).
    destruct (fifoLoop_sound _ ob ob' Hob E) as [P _].
    exists ob'. auto.
  - destruct (matchOrdersProRata_returns oob ob Hob) as (ob' & E & Hb & _).
    destruct (proRataLoop_trades oob _ ob ob' Hob E) as (fills & _ & _ & R).
    exists ob'. split; [ exact E | ].
    split; [ now apply boundedBook_positive | exact R ].
Qed.

Lemma resting_orders_are_remainders_witness :
  (positiveBook scenarioD ->
   exists ob',
     matchOrdersFIFO scenarioD = Some ob' /\ positiveBook ob' /\
     restOf (m_buyOrders scenarioD) (m_buyOrders ob') /\
     restOf (m_sellOrders scenarioD) (m_sellOrders ob') /\
     (List.length (m_buyOrders ob') <= List.length (m_buyOrders scenarioD))%nat /\
     (List.length (m_sellOrders ob') <= List.length (m_sellOrders scenarioD))%nat) /\
  exists ob',
    matchOrdersProRata rejectedOrder scenarioD = Some ob' /\ positiveBook ob' /\
    restOf (m_buyOrders scenarioD) (m_buyOrders ob') /\
    restOf (m_sellOrders scenarioD) (m_sellOrders ob') /\
    (List.length (m_buyOrders ob') <= List.length (m_buyOrders scenarioD))%nat /\
    (List.length (m_sellOrders ob') <= List.length (m_sellOrders scenarioD))%nat.
Proof.
  split.
  - exact (proj1 (resting_orders_are_remainders rejectedOrder scenarioD)).
  - exact (proj2 (resting_orders_are_remainders rejectedOrder scenarioD)
             scenarioD_bounded).
Defined.

(* ------------------------------------------------------------------ *)
(** ** A turn of the pro-rata loop fills the sell orders in queue order *)

Lemma allocateLevel_prefix (share : Z -> Z) (buyer : Z) (level : list Order) :
  forall (B B' : Z) (level' : list Order) (recs : list ProcessedOrder),
  allocateLevel share buyer B level = (B', level', recs) ->
  map sellID recs = map getID (firstn (List.length recs) level) /\
  Forall (fun r => buyID r = buyer) recs /\
  (List.length recs <= List.length level)%nat /\
  (B' <> 0 -> List.length recs = List.length level).
Proof.
  induction level as [ | o rest IH ]; intros B B' level' recs Halloc.
  - simpl in Halloc. injection Halloc as <- <- <-. repeat split; auto.
  - simpl in Halloc.
    set (fill := Z.min (Z.min B (getAmount o)) (share (getAmount o))) in *.
    destruct (Z.eqb_spec (B - fill) 0).
    + injection Halloc as <- <- <-. simpl.
      split; [ reflexivity | ]. split; [ repeat constructor | ].
      split; [ lia | congruence ].
    + destruct (allocateLevel share buyer (B - fill) rest)
        as [[B1 rest1] recs1] eqn:E.
      injection Halloc as <- <- <-.
      destruct (IH _ _ _ _ E) as (I1 & I2 & I3 & I4). simpl.
      split; [ now rewrite I1 | ]. split; [ now constructor | ].
      split; [ lia | ]. intros HB. now rewrite (I4 HB).
Qed.

Lemma firstn_app_short {A : Type} (k : nat) (l1 l2 : list A) :
  (k <= List.length l1)%nat -> firstn k (l1 ++ l2) = firstn k l1.
Proof.
  intros H. rewrite firstn_app.
  replace (k - List.length l1)%nat with 0%nat by lia.
  simpl. apply app_nil_r.
Qed.

Lemma skipn_middle {A : Type} (before rest : list A) :
  skipn (List.length before) (before ++ rest) = rest.
Proof.
  rewrite skipn_app, skipn_all, Nat.sub_diag. reflexivity.
Qed.

Section LevelsInQueueOrder.

Variable oob : Order.
Variable bestBuy : Order.

Lemma processLevels_prefix (n fuel : nat) (st : LevelState) :
  levelInv n st ->
  exists recs,
    orderHistory (processLevels oob bestBuy n fuel st) = orderHistory st ++ recs /\
    map sellID recs =
      map getID (firstn (List.length recs)
                        (skipn (curIndex st) (matchingOrders st))) /\
    Forall (fun r => buyID r = getID bestBuy) recs /\
    (List.length recs <= n - curIndex st)%nat /\
    (buyOrdersStillRemaining st = true -> (n <= fuel + curIndex st)%nat ->
     buyAmount (processLevels oob bestBuy n fuel st) = 0 \/
     List.length recs = (n - curIndex st)%nat).
Proof.
  revert st. induction fuel as [ | fuel IH ]; intros st Hinv; cbn [processLevels].
  - exists []. rewrite app_nil_r. repeat split; auto; simpl; lia.
  - destruct ((curIndex st <? n)%nat && buyOrdersStillRemaining st) eqn:Econd.
    + apply andb_prop in Econd as [Hlt Hr]. apply Nat.ltb_lt in Hlt.
      destruct (levelBody_step oob bestBuy n st Hinv Hlt Hr) as (I1 & _ & _ & _).
      destruct (levelBody_allocate oob bestBuy n st Hinv Hlt Hr)
        as (before & level & after & B' & level' & recs1 & Ev & Lb & Hne & Hshare & Ea & Eb).
      assert (Hl1 : (1 <= List.length level)%nat)
        by (destruct level; [ congruence | simpl; lia ]).
      destruct (allocateLevel_prefix _ _ _ _ _ _ _ Ea) as (Q1 & Q2 & Q3 & Q4).
      assert (HB : 0 < buyAmount st).
      { destruct Hinv as (_ & _ & _ & _ & _ & _ & _ & Hrem). auto. }
      destruct (allocateLevel_props _ _ _ _ _ _ _ HB Hshare Ea)
        as (_ & _ & P3 & _).
      assert (Ll : List.length level' = List.length level)
        by (symmetry; apply (Forall2_length P3)).
      assert (Hn : (List.length before + List.length level + List.length after = n)%nat).
      { destruct Hinv as (Hlen & _). rewrite Ev, !length_app in Hlen. lia. }
      assert (Es : skipn (curIndex st) (matchingOrders st) = level ++ after).
      { rewrite Ev, <- Lb. apply skipn_middle. }
      rewrite Es.
      destruct (Z.eqb_spec B' 0) as [HB0 | HB0].
      * assert (Estop : processLevels oob bestBuy n fuel (levelBody oob bestBuy n st)
                        = levelBody oob bestBuy n st).
        { apply processLevels_stopped. rewrite Eb. reflexivity. }
        rewrite Estop, Eb. cbn [orderHistory buyAmount].
        exists recs1. split; [ reflexivity | ].
        rewrite firstn_app_short by exact Q3.
        split; [ exact Q1 | ]. split; [ exact Q2 | ].
        split; [ lia | ]. intros _ _. now left.
      * specialize (Q4 HB0).
        destruct (IH _ I1) as (recs2 & E2 & R2 & R3 & R4 & R5).
        rewrite Eb in E2, R2, R4, R5.
        cbn [orderHistory curIndex matchingOrders buyOrdersStillRemaining]
          in E2, R2, R4, R5.
        assert (Es' : skipn (curIndex st + List.length level)
                        (before ++ level' ++ after) = after).
        { rewrite app_assoc.
          replace (curIndex st + List.length level)%nat
            with (List.length (before ++ level')) by (rewrite length_app; lia).
          apply skipn_middle. }
        rewrite Es' in R2.
        exists (recs1 ++ recs2). split; [ | split; [ | split; [ | split ] ] ].
        -- rewrite Eb, E2. now rewrite <- app_assoc.
        -- rewrite length_app, Q4, map_app, firstn_app.
           rewrite firstn_all2 by lia.
           replace (List.length level + List.length recs2 - List.length level)%nat
             with (List.length recs2) by lia.
           rewrite map_app, Q1, Q4, firstn_all, R2. reflexivity.
        -- apply Forall_app. now split.
        -- rewrite length_app. lia.
        -- intros _ Hf. rewrite Eb.
           destruct R5 as [R5 | R5]; [ reflexivity | lia | now left | ].
           right. rewrite length_app. lia.
    + exists []. rewrite app_nil_r. repeat split; auto; simpl; try lia.
      intros Hr Hf. right.
      rewrite Hr, andb_true_r in Econd. apply Nat.ltb_ge in Econd. lia.
Qed.

End LevelsInQueueOrder.

Lemma boughtQty_all (buyer : Z) (recs : list ProcessedOrder) :
  Forall (fun r => buyID r = buyer) recs ->
  boughtQty buyer recs = sumOf fillAmount recs.
Proof.
  unfold boughtQty. induction 1 as [ | r recs Hr _ IH ]; simpl; [ reflexivity | ].
  now rewrite Hr, Z.eqb_refl, IH.
Qed.

(** X6: one turn of the pro-rata loop fills the best buy order against
    the sell orders in the order in which the queue returns them, one fill
    for each, and skips none: the fills of the turn name the buy order on
    top as the buyer, and their sellers are, in this order, the first [k]
    orders of the sell queue for some [k].  So a sell order is filled only
    when every sell order ahead of it in the queue has been filled in the
    same turn.  Every fill is of a positive quantity, and together the
    fills do not exceed the quantity of the buy order.  A turn that leaves
    the loop records no fill and keeps the book.  A turn that does not
    leave the loop either fills the buy order completely - the fills add
    up to its quantity, and it does not return to the queue - or gives a
    fill to every sell order whose price the buy order reaches and pushes
    the buy order back with the quantity that the fills have left.  (On the
    books of [boundedBook].) *)
Theorem proRata_turn_fills_sell_orders_in_queue_order
    (oob : Order) (ob ob' : Orderbook) (brk : bool)
    (bestBuy : Order) (buys : PQ.t) :
  boundedBook ob ->
  m_buyOrders ob = bestBuy :: buys ->
  proRataBody oob ob = Some (ob', brk) ->
  exists fills,
    m_orderHistory ob' = m_orderHistory ob ++ fills /\
    Forall (fun r => buyID r = getID bestBuy) fills /\
    map sellID fills =
      map getID (firstn (List.length fills) (m_sellOrders ob)) /\
    Forall (fun r => 0 < fillAmount r) fills /\
    sumOf fillAmount fills <= getAmount bestBuy /\
    (brk = true -> fills = [] /\ ob' = ob) /\
    (brk = false ->
     (sumOf fillAmount fills = getAmount bestBuy /\ m_buyOrders ob' = buys) \/
     (sumOf fillAmount fills < getAmount bestBuy /\
      m_buyOrders ob' =
        pushBuy (setAmount bestBuy (getAmount bestBuy - sumOf fillAmount fills))
                buys /\
      List.length fills =
        List.length (fst (drainMatching bestBuy (m_sellOrders ob) [])))).
Proof.
  intros (Hbuys & Hsells & Htot) Eb. unfold proRataBody. rewrite Eb.
  rewrite Eb in Hbuys. apply Forall_cons_iff in Hbuys as [[Hpb HBb] Hbuys].
  destruct (m_sellOrders ob) as [ | topSell sells0 ] eqn:Es; [ discriminate | ].
  destruct (F32.lt (getPrice bestBuy) (getPrice topSell)) eqn:Elt.
  { intros H. injection H as <- <-. exists []. rewrite app_nil_r.
    splits; auto; try constructor; try discriminate. simpl. lia. }
  destruct (drainMatching_split bestBuy (topSell :: sells0) [])
    as (v & E1 & E2 & _).
  destruct (drainMatching bestBuy (topSell :: sells0) []) as [v0 rest].
  cbn [fst snd app] in E1, E2. subst v0. rewrite E2 in Hsells, Htot.
  apply Forall_app in Hsells as [Hv Hrest].
  unfold totalAmount in Htot. rewrite sumOf_app in Htot.
  assert (Hvpos : Forall (fun o => 0 < getAmount o) v)
    by (revert Hv; apply Forall_impl; tauto).
  assert (Hvnn : Forall (fun o => 0 <= getAmount o) v)
    by (revert Hvpos; apply Forall_impl; intros; lia).
  assert (Hrnn : Forall (fun o => 0 <= getAmount o) rest)
    by (revert Hrest; apply Forall_impl; intros ? [_ ?]; lia).
  pose proof (sumOf_nonneg getAmount v Hvnn) as Hsv.
  pose proof (sumOf_nonneg getAmount rest Hrnn) as Hsr.
  unfold matchBestBuy.
  set (st0 := mkLevelState v (getAmount bestBuy) 0 0 true (m_orderHistory ob) []).
  assert (Hinv : levelInv (List.length v) st0).
  { apply levelInv_start_bounded; auto. unfold totalAmount. lia. }
  destruct (processLevels_prefix oob bestBuy (List.length v) (List.length v) st0 Hinv)
    as (recs & Er & R1 & R2 & R3 & R4).
  destruct (processLevels_sound oob bestBuy (List.length v) (List.length v) st0 Hinv)
    as (I1 & S1 & _ & _).
  destruct (processLevels_records oob bestBuy (List.length v) (List.length v) st0 Hinv)
    as (recs1 & Er1 & R5).
  destruct S1 as (_ & _ & _ & recs2 & Er2 & _ & Hbought).
  destruct I1 as (_ & _ & _ & _ & _ & _ & [HB' _] & _).
  rewrite Er in Er1, Er2. apply app_inv_head in Er1, Er2. subst recs1 recs2.
  specialize (Hbought (getID bestBuy)).
  rewrite Z.eqb_refl, (boughtQty_all _ _ R2) in Hbought.
  cbn [st0 orderHistory curIndex matchingOrders skipn buyOrdersStillRemaining
         buyAmount] in Er, R1, R3, R4, R5, Hbought.
  fold st0 in HB', Hbought, R4.
  intros H. injection H as <- <-. cbn [m_orderHistory m_buyOrders].
  exists recs. split; [ exact Er | ]. split; [ exact R2 | ].
  split; [ rewrite E2, firstn_app_short by lia; exact R1 | ].
  split; [ revert R5; apply Forall_impl; intros r (_ & Hr & _); lia | ].
  split; [ lia | ]. split; [ discriminate | ].
  intros _. fold st0. unfold reAddBuy.
  destruct (Z.gtb_spec (buyAmount (processLevels oob bestBuy (List.length v)
                                     (List.length v) st0)) 0) as [Hgt | Hle].
  - right. split; [ lia | ]. split.
    + f_equal. f_equal. lia.
    + destruct (R4 eq_refl ltac:(lia)) as [HB0 | Hall]; [ lia | ].
      cbn [fst]. lia.
  - left. split; [ lia | reflexivity ].
Qed.

(** Scenario D: the turn fills the buy order of 10 against the two sell
    orders in queue order, with 8 and 2. *)
Lemma proRata_turn_fills_sell_orders_in_queue_order_witness :
  proRataBody rejectedOrder scenarioD =
    Some (mkOrderbook [] [setAmount sellA 22; setAmount sellB 8]
            [mkProcessedOrder 1 2 8; mkProcessedOrder 1 3 2], false) /\
  exists fills,
    fills = [mkProcessedOrder 1 2 8; mkProcessedOrder 1 3 2] /\
    Forall (fun r => buyID r = getID buyD) fills /\
    map sellID fills =
      map getID (firstn (List.length fills) (m_sellOrders scenarioD)) /\
    Forall (fun r => 0 < fillAmount r) fills /\
    sumOf fillAmount fills = getAmount buyD.
Proof.
  assert (E : proRataBody rejectedOrder scenarioD =
              Some (mkOrderbook [] [setAmount sellA 22; setAmount sellB 8]
                      [mkProcessedOrder 1 2 8; mkProcessedOrder 1 3 2], false))
    by (vm_compute; reflexivity).
  split; [ exact E | ].
  destruct (proRata_turn_fills_sell_orders_in_queue_order rejectedOrder
              scenarioD _ false buyD [] scenarioD_bounded eq_refl E)
    as (fills & Eh & H1 & H2 & H3 & _ & _ & H6).
  exists fills. cbn [m_orderHistory] in Eh.
  change (m_orderHistory scenarioD) with (@nil ProcessedOrder) in Eh.
  simpl in Eh. subst fills.
  split; [ reflexivity | ]. split; [ exact H1 | ]. split; [ exact H2 | ].
  split; [ exact H3 | ].
  destruct (H6 eq_refl) as [[H _] | [H _]]; [ exact H | ].
  vm_compute in H. discriminate.
Defined.

(* ------------------------------------------------------------------ *)
(** ** Prices that are not numbers *)

Lemma nan_lt_l (a b : spec_float) : F32.is_nan a = true -> SFltb a b = false.
Proof. destruct a; try discriminate. reflexivity. Qed.

Lemma nan_lt_r (a b : spec_float) : F32.is_nan b = true -> SFltb a b = false.
Proof. destruct b; try discriminate. intros _. now destruct a as [ [ | ] | [ | ] | | [ | ] ? ? ]. Qed.

Lemma nan_le_l (a b : spec_float) : F32.is_nan a = true -> SFleb a b = false.
Proof. destruct a; try discriminate. reflexivity. Qed.

Lemma nan_le_r (a b : spec_float) : F32.is_nan b = true -> SFleb a b = false.
Proof. destruct b; try discriminate. intros _. now destruct a as [ [ | ] | [ | ] | | [ | ] ? ? ]. Qed.

Lemma proRataBody_stuck (oob : Order) (ob : Orderbook) :
  stuckBook ob ->
  exists ob', proRataBody oob ob = Some (ob', false) /\ stuckBook ob' /\
              m_sellOrders ob' = m_sellOrders ob /\
              Permutation (m_buyOrders ob') (m_buyOrders ob) /\
              m_orderHistory ob' = m_orderHistory ob.
Proof.
  intros (Hne & Hpos & Hnan). unfold proRataBody.
  destruct (m_buyOrders ob) as [ | bestBuy buys ] eqn:Eb; [ congruence | ].
  assert (Hs : exists s rest, m_sellOrders ob = s :: rest /\
                 (nanPrice s \/ nanPrice bestBuy)).
  { destruct Hnan as [(s & rest & E & N) | [N1 N2]].
    - exists s, rest. auto.
    - destruct (m_sellOrders ob) as [ | s rest ]; [ congruence | ].
      exists s, rest. split; [ reflexivity | ]. right. now inversion N2. }
  destruct Hs as (s & rest & Es & N). rewrite Es.
  assert (Elt : F32.lt (getPrice bestBuy) (getPrice s) = false).
  { destruct N; [ now apply nan_lt_r | now apply nan_lt_l ]. }
  assert (Ege : F32.ge (getPrice bestBuy) (getPrice s) = false).
  { destruct N; [ now apply nan_le_l | now apply nan_le_r ]. }
  rewrite Elt. cbn [drainMatching]. rewrite Ege.
  unfold matchBestBuy. cbn [List.length processLevels buyAmount matchingOrders
                             orderHistory reAddSells fold_left].
  apply Forall_cons_iff in Hpos as [Hb Hbuys].
  unfold reAddBuy. rewrite (Zgtb_true _ _ Hb), setAmount_getAmount.
  eexists. split; [ reflexivity | ]. unfold stuckBook.
  cbn [m_buyOrders m_sellOrders m_orderHistory].
  assert (P : Permutation (pushBuy bestBuy buys) (bestBuy :: buys)) by apply push_perm.
  split; [ | auto ].
  split; [ | split ].
  - intros E. rewrite E in P. apply Permutation_nil in P. discriminate.
  - apply (Permutation_Forall (Permutation_sym P)). now constructor.
  - destruct Hnan as [(s' & rest' & E & N') | [N1 N2]].
    + left. exists s, rest. rewrite Es in E. injection E as <- <-. auto.
    + right. split; [ discriminate | ].
      apply (Permutation_Forall (Permutation_sym P)). exact N2.
Qed.

(** X7: the pro-rata loop does not come to an end on a book whose buy
    side holds orders of positive amounts when the sell order on top has a
    NaN for its price, or when the sell side is occupied and every buy
    order has a NaN for its price.  Each turn compares with the NaN, finds
    neither [<] nor [>=] to hold, drains no sell order and pushes the buy
    order back, so the loop condition holds again: whatever the bound on
    the number of turns, the loop has not ended within it. *)
Theorem proRata_never_returns_on_nan_prices (oob : Order) (ob : Orderbook) :
  stuckBook ob -> forall fuel, proRataLoop oob fuel ob = None.
Proof.
  intros Hob fuel. revert ob Hob.
  induction fuel as [ | fuel IH ]; intros ob Hob; simpl;
    destruct (proRataBody_stuck oob ob Hob) as (ob' & E & Hob' & _);
    rewrite E; [ reflexivity | now apply IH ].
Qed.

Lemma nanBook_stuck : stuckBook nanBook.
Proof.
  split; [ discriminate | ]. split.
  - repeat constructor.
  - right. split; [ discriminate | ]. repeat constructor.
Qed.

Lemma proRata_never_returns_on_nan_prices_witness :
  stuckBook nanBook /\
  forall fuel, proRataLoop rejectedOrder fuel nanBook = None.
Proof.
  split; [ exact nanBook_stuck | ].
  apply (proRata_never_returns_on_nan_prices rejectedOrder nanBook).
  exact nanBook_stuck.
Defined.

(** X8: the book that the pro-rata pass returns does not depend on what
    the read behind the last element of [matchingOrders] delivers: the
    search for the end of the last price level reads that position, and
    both outcomes of the comparison lead to the same index. *)
Theorem proRata_result_ignores_memory_behind_vector
    (oob1 oob2 : Order) (ob : Orderbook) :
  matchOrdersProRata oob1 ob = matchOrdersProRata oob2 ob.
Proof. unfold matchOrdersProRata. apply proRataLoop_oob. Qed.

(* ------------------------------------------------------------------ *)
(** ** The ticker and the market flag are not read *)

Lemma push_erase (comp : Order -> Order -> bool) (x : Order) (q : PQ.t) :
  (forall a b, comp (eraseLabels a) (eraseLabels b) = comp a b) ->
  PQ.push comp (eraseLabels x) (map eraseLabels q) =
    map eraseLabels (PQ.push comp x q).
Proof.
  intros Hc. induction q as [ | h rest IH ]; simpl; [ reflexivity | ].
  rewrite Hc. destruct (comp h x); simpl; [ reflexivity | now rewrite IH ].
Qed.

Lemma pushBuy_erase (x : Order) (q : PQ.t) :
  pushBuy (eraseLabels x) (map eraseLabels q) = map eraseLabels (pushBuy x q).
Proof. apply push_erase. reflexivity. Qed.

Lemma pushSell_erase (x : Order) (q : PQ.t) :
  pushSell (eraseLabels x) (map eraseLabels q) = map eraseLabels (pushSell x q).
Proof. apply push_erase. reflexivity. Qed.

Lemma addOrder_erase (o : Order) (ob : Orderbook) :
  addOrder (eraseLabels o) (eraseBook ob) = eraseBook (addOrder o ob).
Proof.
  unfold addOrder, eraseBook. change (checkIsBuy (eraseLabels o)) with (checkIsBuy o).
  destruct (checkIsBuy o); simpl; now rewrite ?pushBuy_erase, ?pushSell_erase.
Qed.

Lemma fifoBody_erase (ob : Orderbook) :
  fifoBody (eraseBook ob) = eraseTurn (fifoBody ob).
Proof.
  unfold fifoBody, eraseBook; simpl.
  destruct (m_buyOrders ob) as [ | bestBuy buys ]; [ reflexivity | ].
  destruct (m_sellOrders ob) as [ | bestSell sells ]; [ reflexivity | ].
  cbn [map].
  change (getPrice (eraseLabels bestBuy)) with (getPrice bestBuy).
  change (getPrice (eraseLabels bestSell)) with (getPrice bestSell).
  change (getAmount (eraseLabels bestBuy)) with (getAmount bestBuy).
  change (getAmount (eraseLabels bestSell)) with (getAmount bestSell).
  destruct (F32.ge _ _).
  - destruct (_ >? _); [ | destruct (_ <? _) ]; cbn [eraseTurn]; unfold eraseBook;
      cbn [m_buyOrders m_sellOrders m_orderHistory];
      rewrite <- ?pushBuy_erase, <- ?pushSell_erase; reflexivity.
  - cbn [eraseTurn]; unfold eraseBook;
      cbn [m_buyOrders m_sellOrders m_orderHistory].
    now rewrite <- pushBuy_erase, <- pushSell_erase.
Qed.

Lemma fifoLoop_erase (fuel : nat) (ob : Orderbook) :
  fifoLoop fuel (eraseBook ob) = option_map eraseBook (fifoLoop fuel ob).
Proof.
  revert ob. induction fuel as [ | fuel IH ]; intros ob; simpl;
    rewrite fifoBody_erase;
    destruct (fifoBody ob) as [ [ob' [ | ]] | ]; simpl; auto.
Qed.

Lemma matchOrdersFIFO_erase (ob : Orderbook) :
  matchOrdersFIFO (eraseBook ob) = option_map eraseBook (matchOrdersFIFO ob).
Proof.
  unfold matchOrdersFIFO. rewrite <- fifoLoop_erase.
  unfold eraseBook at 1 2. cbn [m_buyOrders m_sellOrders]. now rewrite !length_map.
Qed.

Lemma drainMatching_erase (bestBuy : Order) (sells acc : list Order) :
  drainMatching (eraseLabels bestBuy) (map eraseLabels sells) (map eraseLabels acc) =
    (map eraseLabels (fst (drainMatching bestBuy sells acc)),
     map eraseLabels (snd (drainMatching bestBuy sells acc))).
Proof.
  revert acc. induction sells as [ | s rest IH ]; intros acc; simpl; [ reflexivity | ].
  change (getPrice (eraseLabels bestBuy)) with (getPrice bestBuy).
  change (getPrice (eraseLabels s)) with (getPrice s).
  destruct (F32.ge _ _); [ | reflexivity ].
  rewrite <- IH, map_app. reflexivity.
Qed.

Lemma vec_get_erase (oob : Order) (v : list Order) (i : nat) :
  vec_get (eraseLabels oob) (map eraseLabels v) i = eraseLabels (vec_get oob v i).
Proof. unfold vec_get. apply map_nth. Qed.

Lemma vec_set_erase (v : list Order) (i : nat) (x : Order) :
  vec_set (map eraseLabels v) i (eraseLabels x) = map eraseLabels (vec_set v i x).
Proof.
  revert i. induction v as [ | h rest IH ]; intros i; simpl; [ reflexivity | ].
  destruct i as [ | i ]; simpl; [ reflexivity | now rewrite IH ].
Qed.

Section LevelsWithoutLabels.

Variable oob : Order.
Variable bestBuy : Order.
Variable n : nat.

Lemma findNextPriceLevel_erase (v : list Order) (cur turns next : nat)
    (tr : list access) :
  findNextPriceLevel (eraseLabels oob) (map eraseLabels v) cur turns next tr =
    findNextPriceLevel oob v cur turns next tr.
Proof.
  revert next tr. induction turns as [ | turns IH ]; intros next tr; simpl;
    [ reflexivity | ].
  rewrite !vec_get_erase.
  change (getPrice (eraseLabels ?o)) with (getPrice o).
  destruct (F32.gt _ _); [ reflexivity | apply IH ].
Qed.

Lemma sumLevel_erase (v : list Order) (i turns : nat) (acc : Z) (tr : list access) :
  sumLevel (eraseLabels oob) (map eraseLabels v) i turns acc tr =
    sumLevel oob v i turns acc tr.
Proof.
  revert i acc tr. induction turns as [ | turns IH ]; intros i acc tr; simpl;
    [ reflexivity | ].
  rewrite vec_get_erase. apply IH.
Qed.

Lemma fillLevel_erase (L B0 : Z) (turns i : nat) (st : LevelState) :
  fillLevel (eraseLabels oob) (eraseLabels bestBuy) n L B0 i turns (eraseLevels st) =
    eraseLevels (fillLevel oob bestBuy n L B0 i turns st).
Proof.
  revert i st. induction turns as [ | turns IH ]; intros i st; simpl;
    [ reflexivity | ].
  destruct (n <=? i)%nat; [ reflexivity | ].
  rewrite !vec_get_erase.
  change (getAmount (eraseLabels ?o)) with (getAmount o).
  change (setAmount (eraseLabels ?o) ?a) with (eraseLabels (setAmount o a)).
  rewrite vec_set_erase, vec_get_erase.
  change (getID (eraseLabels ?o)) with (getID o).
  destruct (_ =? 0); [ reflexivity | ].
  rewrite <- IH. reflexivity.
Qed.

Lemma levelBody_erase (st : LevelState) :
  levelBody (eraseLabels oob) (eraseLabels bestBuy) n (eraseLevels st) =
    eraseLevels (levelBody oob bestBuy n st).
Proof.
  unfold levelBody. cbn [eraseLevels matchingOrders curIndex indexNextPriceLevel
                          accesses buyAmount buyOrdersStillRemaining orderHistory].
  rewrite findNextPriceLevel_erase.
  destruct (findNextPriceLevel _ _ _ _ _ _) as [next tr1].
  rewrite sumLevel_erase.
  destruct (sumLevel _ _ _ _ _ _) as [L tr2].
  match goal with
  | |- context [ fillLevel _ _ _ _ _ _ _ ?s ] =>
      match s with
      | mkLevelState (map eraseLabels ?v) ?b ?c ?x ?r ?h ?t =>
          change s with (eraseLevels (mkLevelState v b c x r h t))
      end
  end.
  rewrite fillLevel_erase. reflexivity.
Qed.

Lemma processLevels_erase (fuel : nat) (st : LevelState) :
  processLevels (eraseLabels oob) (eraseLabels bestBuy) n fuel (eraseLevels st) =
    eraseLevels (processLevels oob bestBuy n fuel st).
Proof.
  revert st. induction fuel as [ | fuel IH ]; intros st; simpl; [ reflexivity | ].
  destruct (_ && _); [ | reflexivity ].
  rewrite levelBody_erase. apply IH.
Qed.

End LevelsWithoutLabels.

Lemma reAddSells_erase (v : list Order) (sells : PQ.t) :
  reAddSells (map eraseLabels v) (map eraseLabels sells) =
    map eraseLabels (reAddSells v sells).
Proof.
  unfold reAddSells. revert sells.
  induction v as [ | o v IH ]; intros sells; simpl; [ reflexivity | ].
  change (getAmount (eraseLabels o)) with (getAmount o).
  destruct (_ >? _); [ | apply IH ].
  rewrite pushSell_erase. apply IH.
Qed.

Lemma proRataBody_erase (oob : Order) (ob : Orderbook) :
  proRataBody (eraseLabels oob) (eraseBook ob) = eraseTurn (proRataBody oob ob).
Proof.
  unfold proRataBody.
  change (m_buyOrders (eraseBook ob)) with (map eraseLabels (m_buyOrders ob)).
  change (m_sellOrders (eraseBook ob)) with (map eraseLabels (m_sellOrders ob)).
  change (m_orderHistory (eraseBook ob)) with (m_orderHistory ob).
  destruct (m_buyOrders ob) as [ | bestBuy buys ] eqn:Eb; [ reflexivity | ].
  destruct (m_sellOrders ob) as [ | topSell sells ] eqn:Es; [ reflexivity | ].
  cbn [map].
  change (getPrice (eraseLabels ?o)) with (getPrice o).
  destruct (F32.lt _ _).
  { cbn [eraseTurn]. unfold eraseBook. now rewrite Eb, Es. }
  change (eraseLabels topSell :: map eraseLabels sells)
    with (map eraseLabels (topSell :: sells)).
  change (@nil Order) with (map eraseLabels []) at 1.
  rewrite drainMatching_erase.
  destruct (drainMatching bestBuy (topSell :: sells) []) as [v rest].
  cbn [fst snd eraseTurn]. unfold matchBestBuy. rewrite length_map.
  change (mkLevelState (map eraseLabels v) (getAmount (eraseLabels bestBuy)) 0 0 true
            (m_orderHistory ob) [])
    with (eraseLevels (mkLevelState v (getAmount bestBuy) 0 0 true (m_orderHistory ob) [])).
  rewrite processLevels_erase.
  set (st := processLevels oob bestBuy _ _ _).
  cbn [eraseLevels buyAmount matchingOrders orderHistory].
  unfold eraseBook. cbn [m_buyOrders m_sellOrders m_orderHistory].
  rewrite reAddSells_erase. unfold reAddBuy.
  destruct (_ >? _); [ | reflexivity ].
  change (setAmount (eraseLabels ?o) ?a) with (eraseLabels (setAmount o a)).
  now rewrite pushBuy_erase.
Qed.

Lemma proRataLoop_erase (oob : Order) (fuel : nat) (ob : Orderbook) :
  proRataLoop (eraseLabels oob) fuel (eraseBook ob) =
    option_map eraseBook (proRataLoop oob fuel ob).
Proof.
  revert ob. induction fuel as [ | fuel IH ]; intros ob; simpl;
    rewrite proRataBody_erase;
    destruct (proRataBody oob ob) as [ [ob' [ | ]] | ]; simpl; auto.
Qed.

Lemma totalAmount_erase (q : list Order) :
  totalAmount (map eraseLabels q) = totalAmount q.
Proof.
  unfold totalAmount, sumOf. induction q as [ | o q IH ]; simpl; [ reflexivity | ].
  now rewrite IH.
Qed.

Lemma matchOrdersProRata_erase (oob : Order) (ob : Orderbook) :
  matchOrdersProRata (eraseLabels oob) (eraseBook ob) =
    option_map eraseBook (matchOrdersProRata oob ob).
Proof.
  unfold matchOrdersProRata. rewrite <- proRataLoop_erase.
  unfold eraseBook at 1. cbn [m_sellOrders]. now rewrite totalAmount_erase.
Qed.

(** X9: neither [addOrder] nor a pass looks at the ticker of an order or
    at its market-order flag.  Erasing both from every order of a book
    commutes with [addOrder] and with the two passes, and the ledger is the
    same: orders of different tickers are matched with one another, and a
    market order is matched like a limit order at its price. *)
Theorem matching_ignores_ticker_and_market_flag
    (oob oob' : Order) (o : Order) (ob : Orderbook) :
  addOrder (eraseLabels o) (eraseBook ob) = eraseBook (addOrder o ob) /\
  matchOrdersFIFO (eraseBook ob) = option_map eraseBook (matchOrdersFIFO ob) /\
  matchOrdersProRata oob' (eraseBook ob) =
    option_map eraseBook (matchOrdersProRata oob ob) /\
  forall ob', m_orderHistory (eraseBook ob') = m_orderHistory ob'.
Proof.
  split; [ apply addOrder_erase | ].
  split; [ apply matchOrdersFIFO_erase | ].
  split; [ | reflexivity ].
  rewrite <- matchOrdersProRata_erase.
  unfold matchOrdersProRata. apply proRataLoop_oob.
Qed.

(* ------------------------------------------------------------------ *)
(** ** The comparators *)

Lemma prioritizeMax_irrefl (a : Order) : prioritizeMax a a = false.
Proof.
  unfold prioritizeMax, F32.lt, F32.gt. rewrite SFltb_as_leb.
  destruct (SFleb (getPrice a) (getPrice a)); simpl.
  all: rewrite Z.gtb_ltb; apply Z.ltb_irrefl.
Qed.

Lemma prioritizeMin_irrefl (a : Order) : prioritizeMin a a = false.
Proof.
  unfold prioritizeMin, F32.lt, F32.gt. rewrite SFltb_as_leb.
  destruct (SFleb (getPrice a) (getPrice a)); simpl.
  all: rewrite Z.gtb_ltb; apply Z.ltb_irrefl.
Qed.

Lemma prioritizeMax_trans (a b c : Order) :
  priced a -> priced b -> priced c ->
  prioritizeMax a b = true -> prioritizeMax b c = true -> prioritizeMax a c = true.
Proof. intros Ha Hb Hc. price_cases a b c. Qed.

Lemma prioritizeMin_trans (a b c : Order) :
  priced a -> priced b -> priced c ->
  prioritizeMin a b = true -> prioritizeMin b c = true -> prioritizeMin a c = true.
Proof. intros Ha Hb Hc. price_cases a b c. Qed.

(** X10: on orders whose prices are numbers, [prioritizeMax] and
    [prioritizeMin] are strict weak orderings, as [std::priority_queue]
    requires of its comparator: no order is ranked below itself, the
    ranking is transitive, and so is being of equal rank. *)
Theorem comparators_are_strict_weak_orderings :
  strictWeakOrdering priced prioritizeMax /\
  strictWeakOrdering priced prioritizeMin.
Proof.
  split; (split; [ | split ]).
  - intros a _. apply prioritizeMax_irrefl.
  - exact prioritizeMax_trans.
  - intros a b c Ha Hb Hc H1 H2 H3 H4. split.
    + now apply (prioritizeMax_negtrans a b c).
    + now apply (prioritizeMax_negtrans c b a).
  - intros a _. apply prioritizeMin_irrefl.
  - exact prioritizeMin_trans.
  - intros a b c Ha Hb Hc H1 H2 H3 H4. split.
    + now apply (prioritizeMin_negtrans a b c).
    + now apply (prioritizeMin_negtrans c b a).
Qed.

Lemma same_rank_buy (a b : Order) :
  priced a -> priced b ->
  prioritizeMax a b = false -> prioritizeMax b a = false ->
  SFeqb (getPrice a) (getPrice b) = true /\ getTime a = getTime b.
Proof.
  intros Ha Hb H1 H2.
  destruct (prioritizeMax_false a b Ha Hb H1) as [G1 T1].
  destruct (prioritizeMax_false b a Hb Ha H2) as [G2 T2].
  assert (E : SFeqb (getPrice a) (getPrice b) = true).
  { rewrite SFeqb_as_leb. unfold F32.gt in *.
    rewrite (SFltb_false_leb _ _ Hb Ha G2), (SFltb_false_leb _ _ Ha Hb G1).
    reflexivity. }
  split; [ exact E | ].
  specialize (T1 E). rewrite SFeqb_sym in E. specialize (T2 E). lia.
Qed.

Lemma same_rank_sell (a b : Order) :
  priced a -> priced b ->
  prioritizeMin a b = false -> prioritizeMin b a = false ->
  SFeqb (getPrice a) (getPrice b) = true /\ getTime a = getTime b.
Proof.
  intros Ha Hb H1 H2.
  destruct (prioritizeMin_false a b Ha Hb H1) as [G1 T1].
  destruct (prioritizeMin_false b a Hb Ha H2) as [G2 T2].
  assert (E : SFeqb (getPrice a) (getPrice b) = true).
  { rewrite SFeqb_as_leb. unfold F32.lt in *.
    rewrite (SFltb_false_leb _ _ Ha Hb G2), (SFltb_false_leb _ _ Hb Ha G1).
    reflexivity. }
  split; [ exact E | ].
  specialize (T1 E). rewrite SFeqb_sym in E. specialize (T2 E). lia.
Qed.

Section BackOnTop.

Variable comp : Order -> Order -> bool.
Hypothesis comp_irrefl : forall a, comp a a = false.
Hypothesis comp_asym :
  forall a b, priced a -> priced b -> comp a b = true -> comp b a = false.
Hypothesis comp_negtrans :
  forall a b c, priced a -> priced b -> priced c ->
                comp a b = false -> comp b c = false -> comp a c = false.
Hypothesis comp_amount :
  forall a b x, comp (setAmount a x) b = comp a b /\
                comp b (setAmount a x) = comp b a.

Lemma push_back_top (best : Order) (rest : PQ.t) (x : Z) :
  PQ.ordered comp (best :: rest) ->
  exists t rest',
    PQ.push comp (setAmount best x) rest = t :: rest' /\
    priced t /\ comp t best = false /\ comp best t = false.
Proof.
  intros Ho. pose proof Ho as [Hs Hp].
  inversion Hs as [ | ? ? Hrest Hbest ]; subst.
  inversion Hp as [ | ? ? Pbest Prest ]; subst.
  assert (Pb' : priced (setAmount best x)) by exact Pbest.
  assert (Ho' : PQ.ordered comp (PQ.push comp (setAmount best x) rest)).
  { apply ordered_push; auto. now split. }
  destruct (PQ.push comp (setAmount best x) rest) as [ | t rest' ] eqn:E.
  { pose proof (push_length comp (setAmount best x) rest) as L.
    rewrite E in L. discriminate. }
  exists t, rest'. split; [ reflexivity | ].
  destruct Ho' as [Hs' Hp'].
  inversion Hs' as [ | ? ? _ Ht ]; subst. inversion Hp' as [ | ? ? Pt _ ]; subst.
  assert (Hin : In (setAmount best x) (t :: rest')).
  { rewrite <- E. apply push_In. now left. }
  assert (Hin' : t = setAmount best x \/ In t rest).
  { apply (push_In comp). rewrite E. now left. }
  rewrite Forall_forall in Ht, Hbest.
  split; [ exact Pt | ]. split.
  - destruct Hin as [Et | Hin].
    + rewrite Et. destruct (comp_amount best best x) as [-> _]. apply comp_irrefl.
    + destruct (comp_amount best t x) as [_ <-]. now apply Ht.
  - destruct Hin' as [Et | Hin'].
    + rewrite Et. destruct (comp_amount best best x) as [_ ->]. apply comp_irrefl.
    + now apply Hbest.
Qed.

End BackOnTop.

Lemma scenarioB_reachable : reachableBook scenarioB.
Proof.
  unfold scenarioB.
  repeat (apply addOrder_reachable; [ reflexivity | ]).
  split; constructor.
Qed.

(** X11: an order that a turn of the FIFO loop fills in part keeps its
    rank.  When the best buy order is larger than the best sell order, the
    buy order that is on top after the turn has the price and the time of
    that best buy order (it is the order itself or an order of equal rank);
    likewise for the sell side when the best sell order is the larger
    one. *)
Theorem partly_filled_order_keeps_its_rank
    (ob ob' : Orderbook) (bestBuy bestSell : Order) (buys sells : PQ.t) :
  reachableBook ob ->
  m_buyOrders ob = bestBuy :: buys ->
  m_sellOrders ob = bestSell :: sells ->
  fifoBody ob = Some (ob', false) ->
  (getAmount bestSell < getAmount bestBuy ->
   exists t rest,
     m_buyOrders ob' = t :: rest /\
     SFeqb (getPrice t) (getPrice bestBuy) = true /\ getTime t = getTime bestBuy) /\
  (getAmount bestBuy < getAmount bestSell ->
   exists t rest,
     m_sellOrders ob' = t :: rest /\
     SFeqb (getPrice t) (getPrice bestSell) = true /\ getTime t = getTime bestSell).
Proof.
  intros Hr Eb Es. destruct (reachableBook_ordered ob Hr) as [Ob Os].
  rewrite Eb in Ob. rewrite Es in Os.
  unfold fifoBody. rewrite Eb, Es.
  destruct (F32.ge _ _); [ | discriminate ].
  destruct (Z.gtb_spec (getAmount bestBuy) (getAmount bestSell));
    [ | destruct (Z.ltb_spec (getAmount bestBuy) (getAmount bestSell)) ];
    intros Hres; injection Hres as <-; cbn [m_buyOrders m_sellOrders];
    (split; intros Hlt; [ | ]); try lia.
  - destruct (push_back_top prioritizeMax prioritizeMax_irrefl prioritizeMax_asym
                prioritizeMax_negtrans (fun a b x => conj eq_refl eq_refl)
                bestBuy buys (Int.sub (getAmount bestBuy) (getAmount bestSell)) Ob)
      as (t & rest & E & Pt & C1 & C2).
    exists t, rest. split; [ exact E | ].
    destruct Ob as [_ Pb]. inversion Pb; subst.
    now apply same_rank_buy.
  - destruct (push_back_top prioritizeMin prioritizeMin_irrefl prioritizeMin_asym
                prioritizeMin_negtrans (fun a b x => conj eq_refl eq_refl)
                bestSell sells (Int.sub (getAmount bestSell) (getAmount bestBuy)) Os)
      as (t & rest & E & Pt & C1 & C2).
    exists t, rest. split; [ exact E | ].
    destruct Os as [_ Pb]. inversion Pb; subst.
    now apply same_rank_sell.
Qed.

Lemma partly_filled_order_keeps_its_rank_witness :
  exists ob',
    fifoBody scenarioB = Some (ob', false) /\
    exists t rest,
      m_buyOrders ob' = t :: rest /\
      SFeqb (getPrice t) (getPrice (newOrder "X" 1 false true f10 900 8)) = true /\
      getTime t = getTime (newOrder "X" 1 false true f10 900 8).
Proof.
  eexists. split; [ reflexivity | ].
  refine (proj1 (partly_filled_order_keeps_its_rank scenarioB _
                   (newOrder "X" 1 false true f10 900 8)
                   (newOrder "X" 2 false false f10 800 3) [] []
                   scenarioB_reachable eq_refl eq_refl eq_refl) _).
  reflexivity.
Defined.

(* ------------------------------------------------------------------ *)
(** ** The share computed in binary32 *)

(** X12: for a buy quantity below [2^26] and a sell order that is part of
    a level whose amounts add up to an [int], the share
    [(int) std::ceil(buyAmountBeforeFillingCurPriceLevel * proportion)] is
    at least one unit and fits an [int]: the product is a finite float
    within the range of [int], so the conversion is defined, and every
    order that the fill loop visits is filled by at least one unit. *)
Theorem share_is_a_positive_int (B0 sellAmount curTotalSellAmount B : Z) :
  0 < B0 < 2 ^ 26 ->
  0 < sellAmount <= curTotalSellAmount ->
  curTotalSellAmount <= Int.max_signed ->
  0 < B ->
  let share := proportionalShare B0 sellAmount curTotalSellAmount in
  1 <= share <= Int.max_signed /\
  1 <= Z.min (Z.min B sellAmount) share <= sellAmount.
Proof.
  intros HB Hs HL HB' share.
  pose proof (proportionalShare_bounds B0 sellAmount curTotalSellAmount HB Hs HL).
  fold share in H. split; [ exact H | lia ].
Qed.

Lemma share_is_a_positive_int_witness :
  let share := proportionalShare 10 30 40 in
  1 <= share <= Int.max_signed /\
  1 <= Z.min (Z.min 10 30) share <= 30.
Proof.
  apply (share_is_a_positive_int 10 30 40 10);
    unfold Int.max_signed; simpl; lia.
Defined.

(* ------------------------------------------------------------------ *)
(** ** The listing *)

Lemma StronglySorted_app {A : Type} (R : A -> A -> Prop) (l1 l2 : list A) :
  StronglySorted R l1 -> StronglySorted R l2 ->
  (forall x y, In x l1 -> In y l2 -> R x y) ->
  StronglySorted R (l1 ++ l2).
Proof.
  induction 1 as [ | h t Ht IH Hh ]; intros H2 H12; simpl; [ exact H2 | ].
  constructor.
  - apply IH; auto. intros x y Hx Hy. apply H12; auto. now right.
  - apply Forall_app. split; [ exact Hh | ].
    apply Forall_forall. intros y Hy. apply H12; auto. now left.
Qed.

Lemma StronglySorted_rev {A : Type} (R : A -> A -> Prop) (l : list A) :
  StronglySorted R l -> StronglySorted (fun x y => R y x) (rev l).
Proof.
  induction 1 as [ | h t Ht IH Hh ]; simpl; [ constructor | ].
  apply StronglySorted_app; auto.
  - repeat constructor.
  - intros x y Hx [<- | []]. rewrite Forall_forall in Hh. apply Hh.
    now apply in_rev.
Qed.

Lemma StronglySorted_impl {A : Type} (R S : A -> A -> Prop) (l : list A) :
  (forall x y, In x l -> In y l -> R x y -> S x y) ->
  StronglySorted R l -> StronglySorted S l.
Proof.
  intros H HR. induction HR as [ | h t Ht IH Hh ]; constructor.
  - apply IH. intros x y Hx Hy. apply H; now right.
  - rewrite Forall_forall in *. intros y Hy. apply H; auto; [ now left | now right ].
Qed.

Lemma buy_queue_rows (q : PQ.t) :
  PQ.ordered prioritizeMax q -> StronglySorted buyRowsOrder q.
Proof.
  intros [Hs Hp]. rewrite Forall_forall in Hp. revert Hs.
  apply StronglySorted_impl. intros x y Hx Hy H.
  destruct (prioritizeMax_false x y (Hp x Hx) (Hp y Hy) H) as [H1 H2].
  split; [ | exact H2 ].
  unfold F32.ge. unfold F32.gt in H1. apply SFltb_false_leb; auto.
  - apply (Hp x Hx).
  - apply (Hp y Hy).
Qed.

Lemma sell_queue_rows (q : PQ.t) :
  PQ.ordered prioritizeMin q -> StronglySorted sellRowsOrder (rev q).
Proof.
  intros [Hs Hp]. rewrite Forall_forall in Hp.
  apply (StronglySorted_rev (fun x y => sellRowsOrder y x)).
  revert Hs. apply StronglySorted_impl. intros x y Hx Hy H.
  destruct (prioritizeMin_false x y (Hp x Hx) (Hp y Hy) H) as [H1 H2].
  split.
  - unfold F32.ge. unfold F32.lt in H1. apply SFltb_false_leb; auto.
    + apply (Hp y Hy).
    + apply (Hp x Hx).
  - rewrite SFeqb_sym. exact H2.
Qed.

Lemma rows_descend (ob : Orderbook) :
  reachableBook ob -> noCross ob ->
  StronglySorted pricesDescend (rev (m_sellOrders ob) ++ m_buyOrders ob).
Proof.
  intros Hob Hn. destruct (reachableBook_ordered ob Hob) as [Ob Os].
  pose proof (sell_queue_rows _ Os) as Hs. pose proof (buy_queue_rows _ Ob) as Hb.
  apply StronglySorted_app.
  - revert Hs. apply StronglySorted_impl. now intros x y _ _ [H _].
  - revert Hb. apply StronglySorted_impl. now intros x y _ _ [H _].
  - intros s b Hs' Hb'. apply in_rev in Hs'.
    specialize (Hn b s Hb' Hs'). unfold pricesDescend, F32.ge. unfold F32.lt in Hn.
    rewrite SFltb_as_leb in Hn. now apply andb_true_iff in Hn as [Hn _].
Qed.

Lemma printOrderbookContents_rows (ob : Orderbook) :
  fst (printOrderbookContents ob) = rev (m_sellOrders ob) ++ m_buyOrders ob.
Proof.
  cbn [printOrderbookContents fst]. now rewrite drainToStack_rev, app_nil_r.
Qed.

(** X13: [printOrderbookContents] lists the sell orders from the last one
    that the queue would return to the first, and then the buy orders in
    the order in which the queue returns them.  On a book whose queues were
    built by [push] and [pop] of orders with prices that are numbers, the
    prices do not rise from a row to a later row within either part (at one
    price the sell rows run from the latest time to the earliest, the buy
    rows from the earliest to the latest); when no resident orders cross,
    as after a pass, the prices do not rise over the whole listing. *)
Theorem listing_runs_down_the_prices (ob : Orderbook) :
  reachableBook ob ->
  let rows := fst (printOrderbookContents ob) in
  rows = rev (m_sellOrders ob) ++ m_buyOrders ob /\
  StronglySorted sellRowsOrder (rev (m_sellOrders ob)) /\
  StronglySorted buyRowsOrder (m_buyOrders ob) /\
  (noCross ob -> StronglySorted pricesDescend rows).
Proof.
  intros Hob rows. destruct (reachableBook_ordered ob Hob) as [Ob Os].
  assert (E : rows = rev (m_sellOrders ob) ++ m_buyOrders ob)
    by apply printOrderbookContents_rows.
  split; [ exact E | ]. split; [ now apply sell_queue_rows | ].
  split; [ now apply buy_queue_rows | ].
  intros Hn. rewrite E. now apply rows_descend.
Qed.

Lemma listing_runs_down_the_prices_witness :
  let rows := fst (printOrderbookContents restingBook) in
  rows = rev (m_sellOrders restingBook) ++ m_buyOrders restingBook /\
  StronglySorted sellRowsOrder (rev (m_sellOrders restingBook)) /\
  StronglySorted buyRowsOrder (m_buyOrders restingBook) /\
  (noCross restingBook -> StronglySorted pricesDescend rows).
Proof.
  apply (listing_runs_down_the_prices restingBook).
  unfold restingBook.
  repeat (apply addOrder_reachable; [ reflexivity | ]).
  split; constructor.
Defined.

(** *** The text of a time *)

Lemma to_string_digit (d : Z) :
  0 <= d < 10 -> to_string d = String (digitChar d) EmptyString.
Proof.
  intros H.
  assert (C : d = 0 \/ d = 1 \/ d = 2 \/ d = 3 \/ d = 4 \/ d = 5 \/ d = 6 \/
              d = 7 \/ d = 8 \/ d = 9) by lia.
  repeat (destruct C as [-> | C]; [ reflexivity | ]). subst. reflexivity.
Qed.

Lemma digitChar_inj (d d' : Z) :
  0 <= d < 10 -> 0 <= d' < 10 -> digitChar d = digitChar d' -> d = d'.
Proof.
  intros H H' E. unfold digitChar in E.
  apply (f_equal nat_of_ascii) in E.
  rewrite !nat_ascii_embedding in E by lia. lia.
Qed.

Lemma time_digits (t : Z) :
  0 <= t ->
  let d1 := Z.rem (Z.quot t 1000) 10 in
  let d2 := Z.rem (Z.quot t 100) 10 in
  let d3 := Z.rem (Z.quot t 10) 10 in
  let d4 := Z.rem t 10 in
  0 <= d1 < 10 /\ 0 <= d2 < 10 /\ 0 <= d3 < 10 /\ 0 <= d4 < 10 /\
  1000 * d1 + 100 * d2 + 10 * d3 + d4 = t mod 10000.
Proof.
  intros H. cbv zeta.
  rewrite !Z.quot_div_nonneg by lia.
  rewrite !Z.rem_mod_nonneg by (try apply Z.div_pos; lia).
  pose proof (Z.mod_pos_bound (t / 1000) 10 ltac:(lia)).
  pose proof (Z.mod_pos_bound (t / 100) 10 ltac:(lia)).
  pose proof (Z.mod_pos_bound (t / 10) 10 ltac:(lia)).
  pose proof (Z.mod_pos_bound t 10 ltac:(lia)).
  repeat (split; [ lia | ]).
  pose proof (Z.div_mod t 10000 ltac:(lia)).
  pose proof (Z.mod_pos_bound t 10000 ltac:(lia)).
  pose proof (Z.div_mod (t / 1000) 10 ltac:(lia)).
  pose proof (Z.div_mod (t / 100) 10 ltac:(lia)).
  pose proof (Z.div_mod (t / 10) 10 ltac:(lia)).
  pose proof (Z.div_mod t 10 ltac:(lia)).
  rewrite !Z.div_div in * by lia.
  change (10 * 10) with 100 in *. change (100 * 10) with 1000 in *.
  change (1000 * 10) with 10000 in *.
  lia.
Qed.

Lemma stringTime_digits (t : Z) :
  0 <= t ->
  exists d1 d2 d3 d4,
    (0 <= d1 < 10 /\ 0 <= d2 < 10 /\ 0 <= d3 < 10 /\ 0 <= d4 < 10) /\
    1000 * d1 + 100 * d2 + 10 * d3 + d4 = t mod 10000 /\
    stringTime t = clockText d1 d2 d3 d4.
Proof.
  intros H. destruct (time_digits t H) as (H1 & H2 & H3 & H4 & E).
  exists (Z.rem (Z.quot t 1000) 10), (Z.rem (Z.quot t 100) 10),
         (Z.rem (Z.quot t 10) 10), (Z.rem t 10).
  split; [ auto | ].
  split; [ exact E | ]. unfold stringTime.
  rewrite !to_string_digit by assumption. reflexivity.
Qed.

(** X14: for a time [t] that is not negative, the text of the listing is
    five characters: the decimal digits of the thousands, of the hundreds,
    a colon, the digits of the tens and of the units of [t], in this order
    (the character of a digit [d] has the code [48 + d]); these are the
    last four decimal digits of [t].  Two such times are shown by the same
    text exactly when they agree modulo [10000].  So the times from [0] to
    [9999], and hence the military times, are told apart, and a time of
    [10000] or more is shown as the time [10000] less. *)
Theorem stringTime_shows_last_four_digits (t t' : Z) :
  0 <= t -> 0 <= t' ->
  let d1 := (t / 1000) mod 10 in
  let d2 := (t / 100) mod 10 in
  let d3 := (t / 10) mod 10 in
  let d4 := t mod 10 in
  stringTime t =
    String (ascii_of_nat (48 + Z.to_nat d1))
      (String (ascii_of_nat (48 + Z.to_nat d2))
         (String ":"%char
            (String (ascii_of_nat (48 + Z.to_nat d3))
               (String (ascii_of_nat (48 + Z.to_nat d4)) EmptyString)))) /\
  (0 <= d1 < 10 /\ 0 <= d2 < 10 /\ 0 <= d3 < 10 /\ 0 <= d4 < 10) /\
  1000 * d1 + 100 * d2 + 10 * d3 + d4 = t mod 10000 /\
  String.length (stringTime t) = 5%nat /\
  String.get 2 (stringTime t) = Some ":"%char /\
  (stringTime t = stringTime t' <-> t mod 10000 = t' mod 10000).
Proof.
  intros H H'. cbv zeta.
  pose proof (time_digits t H) as D. cbv zeta in D.
  rewrite !Z.quot_div_nonneg in D by lia.
  rewrite !Z.rem_mod_nonneg in D by (try apply Z.div_pos; lia).
  destruct D as (D1 & D2 & D3 & D4 & D5).
  assert (Et : stringTime t =
               clockText ((t / 1000) mod 10) ((t / 100) mod 10)
                         ((t / 10) mod 10) (t mod 10)).
  { unfold stringTime.
    rewrite !Z.quot_div_nonneg by lia.
    rewrite !Z.rem_mod_nonneg by (try apply Z.div_pos; lia).
    rewrite !to_string_digit by assumption. reflexivity. }
  split; [ exact Et | ]. split; [ auto | ]. split; [ exact D5 | ].
  destruct (stringTime_digits t H) as (d1 & d2 & d3 & d4 & (R1 & R2 & R3 & R4) & E & S).
  destruct (stringTime_digits t' H')
    as (e1 & e2 & e3 & e4 & (Q1 & Q2 & Q3 & Q4) & E' & S').
  rewrite S, S'. split; [ reflexivity | ]. split; [ reflexivity | ].
  rewrite <- E, <- E'. unfold clockText. split.
  - intros Eq. injection Eq as C1 C2 C3 C4.
    apply digitChar_inj in C1, C2, C3, C4; auto. subst. reflexivity.
  - intros Eq.
    assert (d1 = e1 /\ d2 = e2 /\ d3 = e3 /\ d4 = e4) as (-> & -> & -> & ->) by lia.
    reflexivity.
Qed.

(** The time 745 is shown as 07:45, and so is the time 10745. *)
Lemma stringTime_shows_last_four_digits_witness :
  stringTime 745 = "07:45"%string /\
  stringTime 10745 = "07:45"%string /\
  stringTime 2359 = "23:59"%string.
Proof.
  split; [ | split ].
  - exact (proj1 (stringTime_shows_last_four_digits 745 745
                    ltac:(lia) ltac:(lia))).
  - exact (proj1 (stringTime_shows_last_four_digits 10745 745
                    ltac:(lia) ltac:(lia))).
  - exact (proj1 (stringTime_shows_last_four_digits 2359 745
                    ltac:(lia) ltac:(lia))).
Defined.

Example stringTime_745 : stringTime 745 = "07:45"%string.
Proof. reflexivity. Qed.

(* ------------------------------------------------------------------ *)
(** ** Reading the orders (main.cpp) *)

Lemma splitOn_upTo (delim : ascii) (s : string) :
  splitOn delim s =
    fst (upTo delim s) ::
    match snd (upTo delim s) with
    | Some behind => splitOn delim behind
    | None => []
    end.
Proof.
  induction s as [ | c rest IH ]; simpl; [ reflexivity | ].
  destruct (Ascii.eqb c delim); [ reflexivity | ].
  rewrite IH. destruct (upTo delim rest) as [chars behind]. reflexivity.
Qed.

(** A call of [getline] delivers the first of the pieces ahead, or leaves
    the string as it is when no piece is ahead. *)
Lemma getline_pieces (delim : ascii) (input : istream) (str : string) :
  snd (getline input str delim) = nth 0 (piecesAhead delim input) str /\
  piecesAhead delim (fst (getline input str delim)) = tl (piecesAhead delim input).
Proof.
  unfold getline, piecesAhead. destruct (good input) eqn:G.
  - rewrite (splitOn_upTo delim (pending input)).
    destruct (upTo delim (pending input)) as [chars [behind | ]]; simpl; auto.
  - simpl. unfold good. simpl. now rewrite andb_false_r.
Qed.

Lemma nth_tl {A : Type} (k : nat) (l : list A) (d : A) :
  nth k (tl l) d = nth (S k) l d.
Proof. destruct l; [ now destruct k | reflexivity ]. Qed.

Lemma readFields_pieces (line : string) (fields : Fields) :
  let pieces := splitOn ","%char line in
  readFields line fields =
    mkFields (nth 0 pieces (ticker fields)) (nth 1 pieces (orderID fields))
             (nth 2 pieces (isMarket fields)) (nth 3 pieces (isBuy fields))
             (nth 4 pieces (price fields)) (nth 5 pieces (time fields))
             (nth 6 pieces (amount fields)).
Proof.
  intros pieces. unfold readFields.
  assert (P0 : piecesAhead ","%char (istringstream line) = pieces) by reflexivity.
  revert P0. generalize (istringstream line) as s0. intros s0 P0.
  pose proof (getline_pieces ","%char s0 (ticker fields)) as [V0 P1].
  destruct (getline s0 (ticker fields) ","%char) as [s1 v0]. cbn [fst snd] in V0, P1.
  pose proof (getline_pieces ","%char s1 (orderID fields)) as [V1 P2].
  destruct (getline s1 (orderID fields) ","%char) as [s2 v1]. cbn [fst snd] in V1, P2.
  pose proof (getline_pieces ","%char s2 (isMarket fields)) as [V2 P3].
  destruct (getline s2 (isMarket fields) ","%char) as [s3 v2]. cbn [fst snd] in V2, P3.
  pose proof (getline_pieces ","%char s3 (isBuy fields)) as [V3 P4].
  destruct (getline s3 (isBuy fields) ","%char) as [s4 v3]. cbn [fst snd] in V3, P4.
  pose proof (getline_pieces ","%char s4 (price fields)) as [V4 P5].
  destruct (getline s4 (price fields) ","%char) as [s5 v4]. cbn [fst snd] in V4, P5.
  pose proof (getline_pieces ","%char s5 (time fields)) as [V5 P6].
  destruct (getline s5 (time fields) ","%char) as [s6 v5]. cbn [fst snd] in V5, P6.
  pose proof (getline_pieces ","%char s6 (amount fields)) as [V6 _].
  destruct (getline s6 (amount fields) ","%char) as [s7 v6]. cbn [fst snd] in V6.
  rewrite P6, P5, P4, P3, P2, P1, P0, !nth_tl in V6.
  rewrite P5, P4, P3, P2, P1, P0, !nth_tl in V5.
  rewrite P4, P3, P2, P1, P0, !nth_tl in V4.
  rewrite P3, P2, P1, P0, !nth_tl in V3.
  rewrite P2, P1, P0, !nth_tl in V2.
  rewrite P1, P0, !nth_tl in V1.
  rewrite P0 in V0.
  now subst.
Qed.

(** X15: the fields that [readOrderData] holds after a line are the pieces
    of the line between its commas, as far as the line has pieces; a field
    for which the line has no piece keeps the text it had from the line
    before (the strings are declared outside the loop, and [getline] does
    not touch its string once the stream has met the end of the line).  An
    empty piece, as in front of a comma at the start or behind one at the
    end, empties its field; pieces behind the seventh are not looked at. *)
Theorem readFields_takes_missing_fields_from_previous_line
    (line : string) (fields : Fields) :
  let pieces := splitOn ","%char line in
  let field (k : nat) (before : Fields -> string) := nth k pieces (before fields) in
  readFields line fields =
    mkFields (field 0%nat ticker) (field 1%nat orderID) (field 2%nat isMarket)
             (field 3%nat isBuy) (field 4%nat price) (field 5%nat time)
             (field 6%nat amount).
Proof. exact (readFields_pieces line fields). Qed.

Lemma splitOn_nonempty (delim : ascii) (s : string) : splitOn delim s <> [].
Proof. rewrite splitOn_upTo. discriminate. Qed.

Lemma last_cons_nonempty {A : Type} (x d : A) (l : list A) :
  l <> [] -> last (x :: l) d = last l d.
Proof. destruct l; [ congruence | reflexivity ]. Qed.

Lemma removelast_cons_nonempty {A : Type} (x : A) (l : list A) :
  l <> [] -> removelast (x :: l) = x :: removelast l.
Proof. destruct l; [ congruence | reflexivity ]. Qed.

Lemma linesOf_upTo (text : string) :
  linesOf text =
    match upTo "010"%char text with
    | (chars, Some behind) => chars :: linesOf behind
    | (chars, None) => match chars with EmptyString => [] | _ => [chars] end
    end.
Proof.
  unfold linesOf. rewrite (splitOn_upTo _ text).
  destruct (upTo "010"%char text) as [chars [behind | ]]; cbn [fst snd].
  - pose proof (splitOn_nonempty "010"%char behind) as Hne.
    rewrite last_cons_nonempty, removelast_cons_nonempty by exact Hne.
    now destruct (last _ _).
  - now destruct chars.
Qed.

Lemma upTo_length (delim : ascii) (s chars behind : string) :
  upTo delim s = (chars, Some behind) ->
  (String.length behind < String.length s)%nat.
Proof.
  revert chars. induction s as [ | c rest IH ]; intros chars; simpl;
    [ discriminate | ].
  destruct (Ascii.eqb c delim).
  - intros H. injection H as <- <-. lia.
  - destruct (upTo delim rest) as [chars' [behind' | ]]; intros H;
      [ | discriminate ].
    injection H as <- <-. specialize (IH _ eq_refl). lia.
Qed.

Lemma upTo_all (delim : ascii) (s chars : string) :
  upTo delim s = (chars, None) -> chars = s.
Proof.
  revert chars. induction s as [ | c rest IH ]; intros chars; simpl.
  - intros H. now injection H as <-.
  - destruct (Ascii.eqb c delim); [ discriminate | ].
    destruct (upTo delim rest) as [chars' [behind' | ]]; intros H;
      [ discriminate | ].
    injection H as <-. now rewrite (IH _ eq_refl).
Qed.

Lemma addOrder_history (o : Order) (ob : Orderbook) :
  m_orderHistory (addOrder o ob) = m_orderHistory ob.
Proof. unfold addOrder. now destruct (checkIsBuy o). Qed.

Lemma addOrder_residents (o : Order) (ob : Orderbook) :
  residents (addOrder o ob) = S (residents ob).
Proof.
  unfold addOrder, residents, pushBuy, pushSell.
  destruct (checkIsBuy o); simpl; rewrite push_length; lia.
Qed.

Lemma addOrders_residents (orders : list Order) (ob : Orderbook) :
  residents (addOrders orders ob) = (List.length orders + residents ob)%nat.
Proof.
  unfold addOrders. revert ob.
  induction orders as [ | o orders IH ]; intros ob; simpl; [ reflexivity | ].
  rewrite IH, addOrder_residents. lia.
Qed.

Section ReadingOrders.

Variable stoll : string -> option Z.
Variable stof : string -> option F32.float.
Variable stoi : string -> option Z.

(** The loop over the lines never exhausts a bound that exceeds the
    number of characters ahead. *)
Lemma readLines_lines (fuel : nat) (infile : istream) (line : string)
    (fields : Fields) (ob : Orderbook) :
  (String.length (pending infile) < fuel)%nat ->
  readLines stoll stof stoi fuel infile line fields ob =
    Some (addLines stoll stof stoi (linesAhead infile) fields ob).
Proof.
  revert infile line fields ob.
  induction fuel as [ | fuel IH ]; intros infile line fields ob Hfuel; [ lia | ].
  cbn [readLines]. unfold getline, linesAhead.
  destruct (good infile) eqn:G.
  - rewrite (linesOf_upTo (pending infile)).
    destruct (upTo "010"%char (pending infile)) as [chars [behind | ]] eqn:U.
    + cbn [failbit addLines].
      destruct (orderOfFields stoll stof stoi (readFields chars fields)) as [o | ];
        [ | reflexivity ].
      rewrite IH.
      * reflexivity.
      * apply upTo_length in U. cbn [pending]. lia.
    + apply upTo_all in U. destruct chars as [ | c chars' ];
        cbn [failbit addLines]; [ reflexivity | ].
      destruct (orderOfFields stoll stof stoi (readFields _ fields)) as [o | ];
        [ | reflexivity ].
      rewrite IH.
      * reflexivity.
      * rewrite <- U in Hfuel. simpl in *. lia.
  - cbn [failbit addLines]. reflexivity.
Qed.

Lemma readOrderData_lines (text : string) (blankOrderbook : Orderbook) :
  readOrderData stoll stof stoi (Some (istringstream text)) blankOrderbook =
    Some (addLines stoll stof stoi (tl (linesOf text)) noFields blankOrderbook).
Proof.
  unfold readOrderData.
  assert (E : linesAhead (fst (getline (istringstream text) EmptyString "010"%char))
              = tl (linesOf text)).
  { unfold getline, linesAhead.
    cbn [good istringstream eofbit failbit negb andb pending].
    rewrite (linesOf_upTo text).
    destruct (upTo "010"%char text) as [chars [behind | ]]; cbn [fst].
    - reflexivity.
    - now destruct chars. }
  destruct (getline (istringstream text) EmptyString "010"%char) as [infile line].
  cbn [fst] in E. rewrite readLines_lines by lia. now rewrite E.
Qed.

Lemma addLines_history (lines : list string) (fields : Fields)
    (ob ob' : Orderbook) :
  addLines stoll stof stoi lines fields ob = Returned ob' ->
  m_orderHistory ob' = m_orderHistory ob.
Proof.
  revert fields ob. induction lines as [ | line rest IH ]; intros fields ob; simpl.
  - intros H. now injection H as <-.
  - destruct (orderOfFields _ _ _ _) as [o | ]; [ | discriminate ].
    intros H. rewrite (IH _ _ H). apply addOrder_history.
Qed.

Lemma addLines_residents (lines : list string) (fields : Fields)
    (ob ob' : Orderbook) :
  addLines stoll stof stoi lines fields ob = Returned ob' ->
  residents ob' = (List.length lines + residents ob)%nat.
Proof.
  revert fields ob. induction lines as [ | line rest IH ]; intros fields ob; simpl.
  - intros H. now injection H as <-.
  - destruct (orderOfFields _ _ _ _) as [o | ]; [ | discriminate ].
    intros H. rewrite (IH _ _ H), addOrder_residents. lia.
Qed.

(** X16: [readOrderData] returns or throws, it does not loop.  A file that
    could not be opened leaves the book as it is.  Of a file that is open
    the first line is skipped, whatever it holds, and every further line
    (an empty line included; the empty piece behind a final line feed is no
    line) is split into fields and turned into one order, in the order of
    the file, until the end of the file or the first line with a field that
    does not convert; the ledger is left alone, and when the call returns
    the book has gained one order for each of these lines. *)
Theorem readOrderData_turns_each_line_after_the_first_into_an_order
    (text : string) (blankOrderbook : Orderbook) :
  readOrderData stoll stof stoi None blankOrderbook =
    Some (Returned blankOrderbook) /\
  readOrderData stoll stof stoi (Some (istringstream text)) blankOrderbook =
    Some (addLines stoll stof stoi (tl (linesOf text)) noFields blankOrderbook) /\
  forall ob,
    addLines stoll stof stoi (tl (linesOf text)) noFields blankOrderbook =
      Returned ob ->
    m_orderHistory ob = m_orderHistory blankOrderbook /\
    residents ob =
      (List.length (tl (linesOf text)) + residents blankOrderbook)%nat.
Proof.
  split; [ reflexivity | ]. split; [ apply readOrderData_lines | ].
  intros ob H. split.
  - exact (addLines_history _ _ _ _ H).
  - exact (addLines_residents _ _ _ _ H).
Qed.

Lemma readFields_complete (line : string) (fields : Fields) :
  completeLine line -> readFields line fields = fieldsOfLine line.
Proof.
  unfold completeLine. intros H. rewrite readFields_pieces.
  unfold fieldsOfLine. cbv zeta.
  f_equal; apply nth_indep; lia.
Qed.

Lemma ordersOfLines_length (lines : list string) (orders : list Order) :
  ordersOfLines stoll stof stoi lines = Some orders ->
  List.length orders = List.length lines.
Proof.
  revert orders. induction lines as [ | line rest IH ]; intros orders; simpl.
  - intros H. now injection H as <-.
  - destruct (orderOfFields _ _ _ _) as [o | ]; [ | discriminate ].
    destruct (ordersOfLines _ _ _ rest) as [orders' | ]; [ | discriminate ].
    intros H. injection H as <-. simpl. now rewrite (IH _ eq_refl).
Qed.

Lemma addLines_complete (lines : list string) (fields : Fields) (ob : Orderbook) :
  Forall completeLine lines ->
  addLines stoll stof stoi lines fields ob =
    match ordersOfLines stoll stof stoi lines with
    | Some orders => Returned (addOrders orders ob)
    | None => Thrown
    end.
Proof.
  intros H. revert fields ob.
  induction H as [ | line rest Hl _ IH ]; intros fields ob; simpl; [ reflexivity | ].
  rewrite (readFields_complete line fields Hl).
  destruct (orderOfFields _ _ _ _) as [o | ]; [ | reflexivity ].
  rewrite IH. now destruct (ordersOfLines _ _ _ rest).
Qed.

(** X17: when every line after the first has at least seven fields, each
    of these lines alone decides its order: the ticker is the first field,
    the identifier the conversion of the second, the order is a market
    order exactly when the third field is the text [true] and a buy order
    exactly when the fourth is (any other text, [True] or [1] say, gives a
    sell order), price, time and amount are the conversions of the fifth,
    sixth and seventh field.  The call returns the blank book with these
    orders added in the order of the file, or throws when a conversion
    throws. *)
Theorem readOrderData_adds_the_orders_of_complete_lines
    (text : string) (blankOrderbook : Orderbook) :
  Forall completeLine (tl (linesOf text)) ->
  readOrderData stoll stof stoi (Some (istringstream text)) blankOrderbook =
    Some (match ordersOfLines stoll stof stoi (tl (linesOf text)) with
          | Some orders => Returned (addOrders orders blankOrderbook)
          | None => Thrown
          end) /\
  forall line fields,
    completeLine line ->
    orderOfFields stoll stof stoi (readFields line fields) =
      let pieces := splitOn ","%char line in
      match stoll (nth 1 pieces EmptyString), stof (nth 4 pieces EmptyString),
            stoi (nth 5 pieces EmptyString), stoi (nth 6 pieces EmptyString) with
      | Some id, Some p, Some t, Some a =>
          Some (mkOrder (nth 0 pieces EmptyString) (Int.wrapU64 id)
                  (String.eqb (nth 2 pieces EmptyString) "true")
                  (String.eqb (nth 3 pieces EmptyString) "true") p t a)
      | _, _, _, _ => None
      end.
Proof.
  intros H. split.
  - rewrite readOrderData_lines. now rewrite (addLines_complete _ _ _ H).
  - intros line fields Hl. rewrite (readFields_complete line fields Hl).
    reflexivity.
Qed.

End ReadingOrders.

Example fileD_lines :
  linesOf fileD =
    ["ticker,id,market,buy,price,time,amount"; "X,1,false,true,10,900,10";
     "X,2,false,false,10,800,30"; "X,3,false,false,10,801,10"]%string.
Proof. reflexivity. Qed.

Example fileD_book :
  readOrderData decimal decimalPrice decimal (Some (istringstream fileD))
    emptyOrderbook = Some (Returned scenarioD).
Proof. vm_compute. reflexivity. Qed.

(** A line that ends after its third field takes the other four from the
    line before. *)
Example short_line_takes_fields_from_previous_line :
  readFields "Y,2,true" (fieldsOfLine "X,1,false,true,10,900,10") =
    mkFields "Y" "2" "true" "true" "10" "900" "10".
Proof. reflexivity. Qed.

Lemma fileD_complete : Forall completeLine (tl (linesOf fileD)).
Proof.
  rewrite fileD_lines. cbn [tl].
  repeat (apply Forall_cons; [ unfold completeLine; vm_compute; lia | ]).
  apply Forall_nil.
Qed.

Lemma readOrderData_adds_the_orders_of_complete_lines_witness :
  readOrderData decimal decimalPrice decimal (Some (istringstream fileD))
    emptyOrderbook =
    Some (match ordersOfLines decimal decimalPrice decimal (tl (linesOf fileD)) with
          | Some orders => Returned (addOrders orders emptyOrderbook)
          | None => Thrown
          end) /\
  forall line fields,
    completeLine line ->
    orderOfFields decimal decimalPrice decimal (readFields line fields) =
      let pieces := splitOn ","%char line in
      match decimal (nth 1 pieces EmptyString),
            decimalPrice (nth 4 pieces EmptyString),
            decimal (nth 5 pieces EmptyString),
            decimal (nth 6 pieces EmptyString) with
      | Some id, Some p, Some t, Some a =>
          Some (mkOrder (nth 0 pieces EmptyString) (Int.wrapU64 id)
                  (String.eqb (nth 2 pieces EmptyString) "true")
                  (String.eqb (nth 3 pieces EmptyString) "true") p t a)
      | _, _, _, _ => None
      end.
Proof.
  apply (readOrderData_adds_the_orders_of_complete_lines decimal decimalPrice
           decimal fileD emptyOrderbook).
  exact fileD_complete.
Defined.

(* ------------------------------------------------------------------ *)
(** ** Whole runs of the program (main.cpp) *)

Lemma soundRun_intro (ob ob' : Orderbook) :
  m_orderHistory ob = [] ->
  positiveBook ob' -> conserved ob ob' -> reachableBook ob' -> noCross ob' ->
  (exists fills, passResult ob ob' fills) ->
  soundRun ob ob' (m_orderHistory ob')
    (rev (m_sellOrders ob') ++ m_buyOrders ob').
Proof.
  intros Hh [Pb Ps] Hc Hr Hn (fills & Ef & Ht & _).
  rewrite Hh in Ef. simpl in Ef.
  unfold soundRun. split; [ reflexivity | ]. split; [ reflexivity | ].
  split.
  - destruct (conserved_accounted ob ob' Hc) as (fills' & Ha).
    assert (fills' = m_orderHistory ob') as <-; [ | exact Ha ].
    destruct Ha as [Ea _]. rewrite Hh in Ea. now rewrite Ea.
  - split; [ now rewrite Ef | ]. split; [ exact Hn | ].
    split; [ | now apply rows_descend ].
    apply Forall_app. split; [ | exact Pb ].
    now apply Forall_rev.
Qed.

Section RunningMain.

Variable stoll : string -> option Z.
Variable stof : string -> option F32.float.
Variable stoi : string -> option Z.
Variable atoi : string -> Z.

Lemma printUsage_false (argc : Z) (argv : list string) :
  printUsage atoi argc argv = false <->
  argc = 4 /\ (atoi (nth 3 argv EmptyString) = FIFOCHOICE \/
               atoi (nth 3 argv EmptyString) = PRORATACHOICE).
Proof.
  unfold printUsage, FIFOCHOICE, PRORATACHOICE.
  destruct (Z.eqb_spec argc 4); simpl.
  - destruct (Z.eqb_spec (atoi (nth 3 argv EmptyString)) 1); simpl.
    + split; auto.
    + destruct (Z.eqb_spec (atoi (nth 3 argv EmptyString)) 2); simpl.
      * split; auto.
      * split; [ discriminate | ]. intros [_ [ | ]]; congruence.
  - split; [ discriminate | ]. intros [ ]. congruence.
Qed.

(** X18: [main] returns [-1] exactly when the number of arguments is not
    four or the fourth argument, as [atoi] reads it, is neither [1] nor
    [2]; it has then opened no file and printed neither a fill nor a row.
    Every other run that reaches its end returns [0]. *)
Theorem main_returns_minus_one_exactly_on_bad_arguments
    (oob : Order) (fopen : string -> option string) (argc : Z)
    (argv : list string) :
  (main stoll stof stoi atoi oob fopen argc argv = Some (Returned (-1, [], [])) <->
   argc <> 4 \/
   (atoi (nth 3 argv EmptyString) <> FIFOCHOICE /\
    atoi (nth 3 argv EmptyString) <> PRORATACHOICE)) /\
  forall code fills rows,
    main stoll stof stoi atoi oob fopen argc argv =
      Some (Returned (code, fills, rows)) ->
    (code = -1 /\ printUsage atoi argc argv = true) \/
    (code = 0 /\ printUsage atoi argc argv = false).
Proof.
  unfold main. pose proof (printUsage_false argc argv) as U.
  destruct (printUsage atoi argc argv).
  - split.
    + split; [ intros _ | reflexivity ].
      destruct (Z.eq_dec argc 4); [ right | now left ].
      split; intros E; assert (true = false) by (apply U; auto); discriminate.
    + intros code fills rows H. injection H as <- _ _. now left.
  - destruct U as [U _]. destruct (U eq_refl) as [U1 U2].
    split.
    + split.
      * intros H.
        destruct (readOrderData _ _ _ _ _) as [ [ob | ] | ]; try discriminate.
        destruct (if FIFOCHOICE =? _ then _ else _) as [ob' | ]; discriminate.
      * intros [ | [ ] ]; [ congruence | destruct U2; congruence ].
    + intros code fills rows.
      destruct (readOrderData _ _ _ _ _) as [ [ob | ] | ]; try discriminate.
      destruct (if FIFOCHOICE =? _ then _ else _) as [ob' | ]; try discriminate.
      cbn [printOrderHistory]. unfold printOrderbookContents.
      intros H. injection H as <- _ _. now right.
Qed.

(** X19: a file that cannot be opened does not end the program.
    [readOrderData] writes its message and returns, the pass runs on the
    empty book, and [main] returns [0] after it has printed no fill and no
    row. *)
Theorem main_goes_on_without_the_file
    (oob : Order) (fopen : string -> option string) (argc : Z)
    (argv : list string) :
  printUsage atoi argc argv = false ->
  fopen (nth 1 argv EmptyString) = None ->
  main stoll stof stoi atoi oob fopen argc argv = Some (Returned (0, [], [])).
Proof.
  intros U F. unfold main. rewrite U, F. cbn [option_map readOrderData].
  now destruct (FIFOCHOICE =? _).
Qed.

(** X20: a run on a file that [readOrderData] turns into the book [ob],
    where [ob] is a book of [boundedBook] whose prices are numbers, reaches
    its end with either pass and returns [0].  What it prints is the ledger
    and then the listing of the book [ob'] that the pass returns: the fills
    account for every unit of [ob], each is a trade of two orders of [ob]
    at compatible prices, no two orders of [ob'] cross, every row shows a
    positive amount, and the prices do not rise down the listing. *)
Theorem main_prints_the_fills_and_the_rest_of_the_book
    (oob : Order) (fopen : string -> option string) (argc : Z)
    (argv : list string) (text : string) (ob : Orderbook) :
  printUsage atoi argc argv = false ->
  fopen (nth 1 argv EmptyString) = Some text ->
  addLines stoll stof stoi (tl (linesOf text)) noFields emptyOrderbook =
    Returned ob ->
  boundedBook ob -> reachableBook ob ->
  exists ob' fills rows,
    main stoll stof stoi atoi oob fopen argc argv =
      Some (Returned (0, fills, rows)) /\
    (if FIFOCHOICE =? atoi (nth 3 argv EmptyString)
     then matchOrdersFIFO ob else matchOrdersProRata oob ob) = Some ob' /\
    soundRun ob ob' fills rows.
Proof.
  intros U F R Hb Hr. unfold main. rewrite U, F. cbn [option_map].
  rewrite readOrderData_lines, R.
  pose proof (addLines_history _ _ _ _ _ _ _ R) as Hh. simpl in Hh.
  pose proof (boundedBook_positive ob Hb) as Hp.
  destruct (FIFOCHOICE =? atoi (nth 3 argv EmptyString)).
  - destruct (matchOrdersFIFO_total ob) as [ob' E]. rewrite E.
    exists ob', (m_orderHistory ob'), (rev (m_sellOrders ob') ++ m_buyOrders ob').
    split; [ | split; [ reflexivity | ] ].
    + cbn [printOrderHistory]. unfold printOrderbookContents.
      cbn [m_buyOrders m_sellOrders]. now rewrite drainToStack_rev, app_nil_r.
    + destruct (fifoLoop_sound _ ob ob' Hp E) as [P1 C1].
      destruct (fifoLoop_trades _ ob ob' Hp E) as (fills & T & _).
      apply soundRun_intro; eauto.
      * exact (fifoLoop_reachable _ ob ob' Hr E).
      * exact (fifoLoop_noCross _ ob ob' Hr E).
  - destruct (matchOrdersProRata_returns oob ob Hb) as (ob' & E & Hb' & C1).
    rewrite E.
    exists ob', (m_orderHistory ob'), (rev (m_sellOrders ob') ++ m_buyOrders ob').
    split; [ | split; [ reflexivity | ] ].
    + cbn [printOrderHistory]. unfold printOrderbookContents.
      cbn [m_buyOrders m_sellOrders]. now rewrite drainToStack_rev, app_nil_r.
    + apply soundRun_intro; auto.
      * now apply boundedBook_positive.
      * exact (proRataLoop_reachable oob _ ob ob' Hr E).
      * exact (proRataLoop_noCross oob _ ob ob' Hr E).
      * exact (proRataLoop_trades oob _ ob ob' Hb E).
Qed.

Lemma ordersOfLines_none (lines : list string) :
  (exists line, In line lines /\
                orderOfFields stoll stof stoi (fieldsOfLine line) = None) ->
  ordersOfLines stoll stof stoi lines = None.
Proof.
  intros (line & Hin & E).
  induction lines as [ | l rest IH ]; [ destruct Hin | ]. simpl.
  destruct Hin as [-> | Hin].
  - now rewrite E.
  - rewrite (IH Hin).
    now destruct (orderOfFields stoll stof stoi (fieldsOfLine l)).
Qed.

(** X21: no exception of a conversion is caught.  When every line after
    the first has its seven fields and one of them has an identifier, a
    price, a time or an amount that does not convert, [readOrderData]
    throws, and so does [main]: the run ends there, whatever the other
    lines hold, and prints neither a fill nor a row. *)
Theorem main_ends_by_exception_on_a_field_that_does_not_convert
    (oob : Order) (fopen : string -> option string) (argc : Z)
    (argv : list string) (text : string) (line : string) :
  printUsage atoi argc argv = false ->
  fopen (nth 1 argv EmptyString) = Some text ->
  Forall completeLine (tl (linesOf text)) ->
  In line (tl (linesOf text)) ->
  orderOfFields stoll stof stoi (fieldsOfLine line) = None ->
  readOrderData stoll stof stoi (Some (istringstream text)) emptyOrderbook =
    Some Thrown /\
  main stoll stof stoi atoi oob fopen argc argv = Some Thrown.
Proof.
  intros U F Hc Hin E.
  assert (R : readOrderData stoll stof stoi (Some (istringstream text))
                emptyOrderbook = Some Thrown).
  { rewrite readOrderData_lines, (addLines_complete _ _ _ _ _ _ Hc).
    rewrite ordersOfLines_none; [ reflexivity | ]. now exists line. }
  split; [ exact R | ].
  unfold main. rewrite U, F. cbn [option_map]. now rewrite R.
Qed.

End RunningMain.

Lemma main_goes_on_without_the_file_witness :
  main decimal decimalPrice decimal decimalOrZero rejectedOrder
    (fun _ => None) 4 argvD = Some (Returned (0, [], [])).
Proof.
  apply (main_goes_on_without_the_file decimal decimalPrice decimal
           decimalOrZero rejectedOrder (fun _ => None) 4 argvD);
    reflexivity.
Defined.

Lemma main_prints_the_fills_and_the_rest_of_the_book_witness :
  exists ob' fills rows,
    main decimal decimalPrice decimal decimalOrZero rejectedOrder
      (fopenD fileD) 4 argvD = Some (Returned (0, fills, rows)) /\
    (if FIFOCHOICE =? decimalOrZero (nth 3 argvD EmptyString)
     then matchOrdersFIFO scenarioD
     else matchOrdersProRata rejectedOrder scenarioD) = Some ob' /\
    soundRun scenarioD ob' fills rows.
Proof.
  apply (main_prints_the_fills_and_the_rest_of_the_book decimal decimalPrice
           decimal decimalOrZero rejectedOrder (fopenD fileD) 4 argvD fileD
           scenarioD).
  - reflexivity.
  - reflexivity.
  - vm_compute. reflexivity.
  - exact scenarioD_bounded.
  - exact scenarioD_reachable.
Defined.

Example main_on_fileD :
  main decimal decimalPrice decimal decimalOrZero rejectedOrder
    (fopenD fileD) 4 argvD =
  Some (Returned (0,
          [mkProcessedOrder 1 2 8; mkProcessedOrder 1 3 2],
          [setAmount sellB 8; setAmount sellA 22])).
Proof. vm_compute. reflexivity. Qed.

Example fileBad_lines :
  linesOf fileBad =
    ["ticker,id,market,buy,price,time,amount"; "X,1,false,true,10,900,10";
     "X,2,false,false,10,800,ten"]%string.
Proof. reflexivity. Qed.

Lemma fileBad_complete : Forall completeLine (tl (linesOf fileBad)).
Proof.
  rewrite fileBad_lines. cbn [tl].
  repeat (apply Forall_cons; [ unfold completeLine; vm_compute; lia | ]).
  apply Forall_nil.
Qed.

Lemma main_ends_by_exception_on_a_field_that_does_not_convert_witness :
  readOrderData decimal decimalPrice decimal (Some (istringstream fileBad))
    emptyOrderbook = Some Thrown /\
  main decimal decimalPrice decimal decimalOrZero rejectedOrder
    (fopenD fileBad) 4 argvD = Some Thrown.
Proof.
  apply (main_ends_by_exception_on_a_field_that_does_not_convert decimal
           decimalPrice decimal decimalOrZero rejectedOrder (fopenD fileBad) 4
           argvD fileBad "X,2,false,false,10,800,ten").
  - reflexivity.
  - reflexivity.
  - exact fileBad_complete.
  - rewrite fileBad_lines. right. left. reflexivity.
  - reflexivity.
Defined.
